(* ===== verification/_CoqProject ===== *)
-Q . S2P
Prelude.v
Config.v
Tlb.v
InstPat.v
RvC.v
DecompressRef.v
Decompress.v
Alu.v
AluSpec.v
Fp.v
FpSpec.v
Machine.v
Pmp.v
PmpSpec.v
Trap.v
TrapSpec.v
Clint.v
ClintSpec.v
Vector.v
VecAlu.v
VecExec.v
VecBits.v
VecSpec.v
VecSafe.v
VecLanes.v
Csr.v
CsrSpec.v
Hoare.v
Paddr.v
Mmu.v
MmuSpec.v
Vaddr.v
VaddrSpec.v
Decode.v
MemFrame.v
FpExec.v
HvExec.v
VecMem.v
VecMemSpec.v
Frame.v
Exec.v
ExecSpec.v
VecUnit.v
Step.v
StepSpec.v
Isa.v
IsaDecode.v
IsaAlu.v
VecArith.v
IsaRun.v
IsaSpec.v
Expr.v
ExprSpec.v
Watch.v
WatchSpec.v
Plic.v
PlicSpec.v
Vme.v
VmeSpec.v
Mmio.v
MmioSpec.v
Ring.v
Serial.v
SerialSpec.v
Copies.v
Disk.v
DiskSafe.v
DiskSpec.v
Sdcard.v
SdcardSpec.v
Klib.v
KlibSpec.v
Fs.v
FsSpec.v
