(* ===== verification/Prelude.v ===== *)
(** * A verification of NEMU, the RISC-V simulator of [src/nemu]

    NEMU executes RV32 and RV64 guests and is the reference the hardware of the
    repository is compared with. This library models one hart of it, from the
    decoder to physical memory, the devices around it that raise interrupts or hold
    data, the debugger, and, of the software that runs on it, the page tables and
    the files of the kernel and the C library, as executable Gallina, and proves what
    each part promises.

    ** The program and the files that model it

    An instruction is executed by [isa_exec_once] (file [Step]): it fetches
    through the decode cache or the virtual memory, decompresses, decodes,
    executes and retires. Bodies reach memory through [vaddr_*], which looks up
    the software TLBs, walks the page tables, and checks PMP before it touches
    [paddr_*]. A memory exception is a [longjmp] back to [isa_exec_once], which
    enters the trap.

    - [Config]: Kconfig options (class [Config]), constants of [isa-def.h], words,
      the extensions a build selects ([extensions.c]).
    - [Tlb]: the software TLBs and the decode cache ([tlb.h], [icache.h], [icache.c]).
    - [InstPat]: [INSTPAT] of [cpu/decode.h]. [RvC], [Decompress], [DecompressRef]:
      compressed instructions ([rv_c.h], [inst_c.c], [inst_c_ref.c]).
    - [Alu], [Fp]: the helpers of the integer and floating-point instructions
      ([inst.c], [fp.c]). SoftFloat is a library the repository does not carry:
      class [SoftFloat], a field per function [fp.c] calls.
    - [Machine]: the hart ([CPU_state] and the thread-local globals) as one record.
    - [Pmp] ([pmp.c]), [Trap] ([intr.c], [mret], [sret]), [Clint] ([timer.c]),
      [Csr] (the CSR file of [inst.c] and [reg.h], reset in [init.c]).
    - [Paddr] ([paddr.c], [host.h]), [Mmu] ([mmu.c]), [Vaddr] ([vaddr.c]).
    - [Vector], [VecAlu], [VecExec], [VecMem]: [vector-control.c]; [VecUnit] packs
      them as an instance of [VectorUnit], the interface [Exec] is written against.
    - [Decode], [Exec], [FpExec], [HvExec]: operands, the [INSTPAT] rows and their
      bodies ([inst.c], [fp-exec.c]). [Step]: [isa_exec_once], [decode_exec] and the
      loop of [cpu-exec.c].
    - [Plic] ([device/intr.c]), [Serial] ([device/serial.c]) and [Mmio] ([mmio.c],
      [map.c]): the interrupt controller with its lines to the hart, the serial
      ports over it, and the map of the addresses of devices.
    - [Disk] ([device/disk.c], [device/block-image.c]): the virtio disk, which walks
      the queues of the guest in its memory, raises its source of [Plic] and moves
      data between [Paddr]'s DMA and the image. [Sdcard] ([device/sdcard.c]): the SD
      card behind the SDHCI and the LiteX SPI. [Ring] and [Copies] carry lemmas: a
      bounded queue in an array ([Serial], [Sdcard]), blocks of bytes ([Disk]).
    - [Expr] ([sdb/expr.c]) and [Watch] ([sdb/watchpoint.c]): the expressions and the
      watchpoints of the debugger.
    - [Vme] ([abstract-machine]'s [vme.c], [mm.c] and the mappings of [loader.c] of
      nanos-lite): the page tables the guest kernel builds in the memory of the hart.
    - [Klib] ([string.c], [stdio.c] and [stdlib.c] of [abstract-machine/klib]): the C
      library of the guest. [vsprintf] is split as its body is: [parse_directive],
      [convert], [number_text], [emit].
    - [Fs] ([fs.c], [ramdisk.c] and [device.c] of nanos-lite): the files of the guest
      kernel over a disk in memory, with the device files, whose text [Klib] prints.

    State is the record [machine] (or a record of the component where it stands
    alone); a C function that only changes state is a function on [machine], one
    that may jump out is a computation of the monad [M machine], whose outcome is
    [Ret], [LongJmp] (a guest exception) or [Panic] (the host aborts). Words are
    [Z] with their wrap-around written out; C arrays are [gmap Z Z] with a default.

    ** What is shown

    The files named [*Spec], and those listed here, hold the theorems.

    - The instruction set: [Isa] states RV32IM and RV64IM independently of the
      simulator; [IsaDecode], [IsaAlu], [IsaRun] and [IsaSpec] show that
      [decode_exec] implements it. [StepSpec]: the invariant of the loop, and that
      the decode cache is transparent.
    - Memory: [MmuSpec] refines Sv39 to an inductive page walk and shows that
      translation terminates; [PmpSpec] refines the PMP check to the privileged
      architecture's; [VaddrSpec] shows that stores stay where PMP lets them;
      [MemFrame] that memory accesses leave the registers alone; [Paddr] that a load
      returns what was stored.
    - Privilege: [TrapSpec] (trap entry and return, interrupt selection), [CsrSpec]
      (access control, WARL legality, coherence of the supervisor views).
    - The vector unit: [VecSafe] (an instruction stays within its destination),
      [VecLanes] (its elements do not interfere), [VecMemSpec] (loads and stores are
      precise and restartable), [VecArith] (elements compute what [Isa] says).
      [VecBits] and [VecSpec] carry the register file as bits.
    - Arithmetic: [AluSpec], [FpSpec]. Clock: [ClintSpec].
    - Devices: [PlicSpec] (claims drain the pending sources in order of priority; the
      lines agree with the registers), [SerialSpec] (the guest receives what was
      typed, and a byte that arrives interrupts the hart), [MmioSpec] (an access
      reaches one device; where the cached lookup is exact and where it is not).
      [DiskSafe]: whatever the guest asks, the disk answers and stays within RAM and
      its image; [DiskSpec]: a written range is read back, however it is split.
      [SdcardSpec] refines the SPI controller to a card that answers commands.
    - The debugger: [ExprSpec] (printed expressions evaluate to their value, the
      evaluator ends), [WatchSpec] (the lists share out the pool, and the deletion
      that breaks them).
    - The guest: [VmeSpec] shows that the kernel's address spaces do not interfere,
      and that the translation of [Mmu] finds in the kernel's tables what the kernel
      mapped. [KlibSpec]: overlapping copies, copied and compared strings, printed
      numbers that are read back, and the blocks of [malloc] that overlap. [FsSpec]
      refines the calls on files to files with a content and a cursor of their own.
    - [Hoare] has the triples of the monad; [MemFrame], [Frame] and [ExecSpec] the
      frames of every operation, found by the hint databases [stable] and [keeps].

    ** Bounds and fuel

    Loops of the code that count are structural: over the 16 to 64 PMP entries,
    the three levels of a page walk, the elements [VL - VSTART] of a vector
    instruction, the bytes of an access. The bisection of the reciprocal root has
    eight steps, which [VecArith] shows to be enough. The execution loop takes the
    number of instructions, as [cpu_exec] does. The evaluator of the debugger takes
    the number of tokens as fuel, and the poll of the serial port the free places
    and the answers of the host: [ExprSpec] and [SerialSpec] show that the recursion
    never runs out. The disk takes the distance of the two 16-bit queue indices for
    its queue, 16 chunks of 64 KiB for a descriptor of at most 1 MiB, and the bytes
    left and the answers of the host for a transfer to a file: [DiskSafe] shows that
    they are enough. The loops of the C library that look for a terminator take
    fuel, which [KlibSpec] shows to be enough from the length of the string on, and
    [vsprintf] the length of its format. 33 reads drain the interrupt controller
    ([PlicSpec]). The check of the watchpoints follows links and can be endless
    ([WatchSpec]).

    ** Scope

    One hart, RT_CHECK on, a 64-bit [paddr_t], [CONFIG_RV_EBREAK_HOST_EXIT] unset, a
    build without device models ([CONFIG_DEVICE] unset) except for the CLINT: the
    models of the other devices stand beside the hart, and physical memory does not
    dispatch to them.
    Tracing, printing, sampling and environment variables are left out, as are the
    hooks of replay, journal and differential testing, which are absent in such a
    build. [nemu_state] stays RUNNING while the loop runs.

    ** Not modelled

    The other devices (screen, keyboard, sound, network and random numbers: SDL and
    sockets behind small register windows), image loading and the command line; the
    threads of a multi-hart build and the lockstep protocols between simulators,
    whose content is process plumbing; vendored tools and the other guest software of
    the repository. *)

(** ** Shared notation, bit arithmetic, record update and the effect monad *)
From Stdlib Require Export ZArith Lia Bool List.
From stdpp Require Export base tactics numbers option list gmap.
#[global] Open Scope Z_scope.

(** ** C operators on non-negative [Z] words *)

Declare Scope c_scope.
Delimit Scope c_scope with c.
Infix ".&" := Z.land (at level 42, left associativity) : c_scope.
Infix ".^" := Z.lxor (at level 43, left associativity) : c_scope.
Infix ".|" := Z.lor (at level 44, left associativity) : c_scope.
Infix "<<" := Z.shiftl (at level 41, left associativity) : c_scope.
Infix ">>" := Z.shiftr (at level 41, left associativity) : c_scope.
Notation "~~ x" := (Z.lnot x) (at level 30, right associativity) : c_scope.
#[global] Open Scope c_scope.

(** [w]-bit unsigned truncation: the C conversion to [uintw_t]. *)
Definition wrap (w x : Z) : Z := x .& Z.ones w.

(** The C conversion of a [w]-bit pattern to [intw_t]. *)
Definition signed (w x : Z) : Z :=
  let y := wrap w x in if Z.testbit y (w - 1) then y - (1 << w) else y.

(** C truth value of an integer, and the integer of a C comparison. *)
Definition nz (x : Z) : bool := negb (x =? 0).
Definition b2z (b : bool) : Z := if b then 1 else 0.

(** [x] fits an unsigned [w]-bit integer. *)
Definition fits (w x : Z) : Prop := 0 <= x < 2 ^ w.

(** A bit-field of a C union: [width] bits from [lo]. *)
Definition getf (lo width x : Z) : Z := (x >> lo) .& Z.ones width.
Definition setf (lo width v x : Z) : Z :=
  (x .& ~~ (Z.ones width << lo)) .| ((v .& Z.ones width) << lo).

(** ** Record update *)

(** [Setter p] is the update of the field read by the projection [p]. *)
Class Setter {R T : Type} (p : R -> T) := upd : (T -> T) -> R -> R.
Arguments upd {R T} p {_} f r : simpl never.

(** [Fields R] lists the record's fields as the constructor applied to them. *)
Class Fields (R : Type) := fields : R -> R.

Ltac build_setter p :=
  let R := lazymatch type of p with ?R -> _ => R end in
  let F := constr:(_ : Fields R) in
  let body := constr:(fun (f : _ -> _) (r : R) =>
    ltac:(let b := eval hnf in F in
          let e := eval cbv beta in (b r) in
          lazymatch eval pattern (p r) in e with
          | ?g _ => let t := eval cbv beta in (g (f (p r))) in exact t
          end)) in
  exact body.

Notation "r <| p ::= f |>" := (upd p f r)
  (at level 1, f at level 200, left associativity, format "r <| p  ::=  f |>").
Notation "r <| p := v |>" := (upd p (fun _ => v) r)
  (at level 1, v at level 200, left associativity, format "r <| p  :=  v |>").

(** ** Effects: global state, [longjmp] and host abort *)

(** The result of a C call: a value, a [longjmp] to the handler installed by
    [isa_exec_once] (the stores made before it survive), or a host abort
    ([panic]/[assert]). *)
Inductive outcome (A : Type) :=
  | Ret (a : A)
  | LongJmp (code : Z)
  | Panic.
Arguments Ret {A} a.
Arguments LongJmp {A} code.
Arguments Panic {A}.

Definition M (S A : Type) : Type := S -> outcome A * S.

#[export] Instance M_ret S : MRet (M S) := fun A a s => (Ret a, s).
#[export] Instance M_bind S : MBind (M S) := fun A B k m s =>
  match m s with
  | (Ret a, s') => k a s'
  | (LongJmp c, s') => (LongJmp c, s')
  | (Panic, s') => (Panic, s')
  end.

Definition get {S} : M S S := fun s => (Ret s, s).
Definition gets {S A} (f : S -> A) : M S A := fun s => (Ret (f s), s).
Definition modify {S} (f : S -> S) : M S unit := fun s => (Ret tt, f s).
Definition longjmp {S A} (code : Z) : M S A := fun s => (LongJmp code, s).
Definition panic {S A} : M S A := fun s => (Panic, s).
Definition when {S} (b : bool) (m : M S unit) : M S unit := if b then m else mret tt.

Lemma bind_ret {S A B} (m : M S A) (k : A -> M S B) s a s' :
  m s = (Ret a, s') -> (mbind k m) s = k a s'.
Proof. intros E. unfold mbind, M_bind. by rewrite E. Qed.

Lemma bind_jmp {S A B} (m : M S A) (k : A -> M S B) s c s' :
  m s = (LongJmp c, s') -> (mbind k m) s = (LongJmp c, s').
Proof. intros E. unfold mbind, M_bind. by rewrite E. Qed.

Lemma bind_ret_inv {S A B} (m : M S A) (k : A -> M S B) s b s' :
  (mbind k m) s = (Ret b, s') -> exists a s1, m s = (Ret a, s1) /\ k a s1 = (Ret b, s').
Proof.
  unfold mbind, M_bind. destruct (m s) as [[a|c|] s1]; intros E; try discriminate. eauto.
Qed.

(** ** Bit lemmas *)

Lemma nz_true x : nz x = true <-> x <> 0.
Proof. unfold nz. rewrite negb_true_iff, Z.eqb_neq. done. Qed.

Lemma nz_false x : nz x = false <-> x = 0.
Proof. unfold nz. rewrite negb_false_iff, Z.eqb_eq. done. Qed.

Lemma wrap_mod w x : 0 <= w -> wrap w x = x mod 2 ^ w.
Proof. intros. unfold wrap. by rewrite Z.land_ones. Qed.

Lemma wrap_fits w x : 0 <= w -> fits w (wrap w x).
Proof. intros. rewrite wrap_mod by done. apply Z.mod_pos_bound. lia. Qed.

Lemma wrap_small w x : 0 <= w -> fits w x -> wrap w x = x.
Proof. intros. rewrite wrap_mod by done. by apply Z.mod_small. Qed.

Lemma wrap_wrap w x : 0 <= w -> wrap w (wrap w x) = wrap w x.
Proof. intros. apply wrap_small; [done|by apply wrap_fits]. Qed.

Lemma testbit_wrap w x i :
  0 <= w -> 0 <= i -> Z.testbit (wrap w x) i = (i <? w) && Z.testbit x i.
Proof.
  intros Hw Hi. rewrite wrap_mod by done. destruct (Z.ltb_spec i w).
  - by rewrite Z.mod_pow2_bits_low.
  - by rewrite Z.mod_pow2_bits_high by lia.
Qed.

Lemma testbit_high w x i : fits w x -> w <= i -> Z.testbit x i = false.
Proof.
  intros [H0 H1] Hi. destruct (Z.eq_dec x 0) as [->|]; [apply Z.testbit_0_l|].
  apply Z.bits_above_log2; [lia|]. apply Z.log2_lt_pow2; [lia|].
  eapply Z.lt_le_trans; [exact H1|]. destruct (Z.le_gt_cases 0 w).
  - apply Z.pow_le_mono_r; lia.
  - rewrite Z.pow_neg_r in H1 by lia. lia.
Qed.

Lemma fits_testbit w x :
  0 <= w -> 0 <= x -> (forall i, w <= i -> Z.testbit x i = false) -> fits w x.
Proof.
  intros Hw Hx Hb. rewrite <-(wrap_small (Z.max w (Z.log2 x + 1)) x); [|lia|].
  - replace (wrap (Z.max w (Z.log2 x + 1)) x) with (wrap w x); [by apply wrap_fits|].
    apply Z.bits_inj'. intros i Hi. rewrite !testbit_wrap by lia.
    destruct (Z.ltb_spec i w), (Z.ltb_spec i (Z.max w (Z.log2 x + 1))); simpl; try lia; auto.
    by rewrite Hb.
  - split; [done|]. destruct (Z.eq_dec x 0) as [->|].
    + apply Z.pow_pos_nonneg; lia.
    + eapply Z.lt_le_trans; [apply (Z.log2_lt_pow2 x (Z.log2 x + 1)); lia|].
      apply Z.pow_le_mono_r; lia.
Qed.

Lemma testbit_ones w i : 0 <= w -> 0 <= i -> Z.testbit (Z.ones w) i = (i <? w).
Proof.
  intros. destruct (Z.ltb_spec i w).
  - by rewrite Z.ones_spec_low.
  - by rewrite Z.ones_spec_high.
Qed.

(** Sign extension copies bit [w - 1] upwards. *)
Lemma testbit_signed w x i :
  0 < w -> 0 <= i -> Z.testbit (signed w x) i = Z.testbit x (if i <? w then i else w - 1).
Proof.
  intros Hw Hi. unfold signed. rewrite testbit_wrap by lia.
  replace (w - 1 <? w) with true by lia. rewrite andb_true_l.
  destruct (Z.testbit x (w - 1)) eqn:Es.
  - replace (wrap w x - (1 << w)) with (wrap w x .| (Z.lnot (Z.ones w))).
    + rewrite Z.lor_spec, Z.lnot_spec, testbit_ones, testbit_wrap by lia.
      destruct (Z.ltb_spec i w); simpl; [by rewrite orb_false_r | by rewrite Es].
    + rewrite <-Z.add_nocarry_lor.
      * rewrite Z.shiftl_mul_pow2 by lia. unfold Z.lnot. rewrite Z.ones_equiv. lia.
      * apply Z.bits_inj'. intros j Hj.
        rewrite Z.land_spec, Z.lnot_spec, testbit_ones, testbit_wrap, Z.bits_0 by lia.
        by destruct (j <? w); rewrite ?andb_false_r.
  - rewrite testbit_wrap by lia. destruct (Z.ltb_spec i w); simpl; [done | by rewrite Es].
Qed.

Lemma signed_range w x : 0 < w -> - 2 ^ (w - 1) <= signed w x < 2 ^ (w - 1).
Proof.
  intros Hw. unfold signed. rewrite wrap_mod by lia.
  assert (P : 2 ^ w = 2 * 2 ^ (w - 1)).
  { replace w with (Z.succ (w - 1)) at 1 by lia. apply Z.pow_succ_r. lia. }
  pose proof (Z.mod_pos_bound x (2 ^ w) ltac:(lia)) as B.
  rewrite Z.shiftl_mul_pow2, Z.mul_1_l by lia.
  destruct (Z.testbit (x mod 2 ^ w) (w - 1)) eqn:E.
  - assert (2 ^ (w - 1) <= x mod 2 ^ w); [|lia]. destruct (Z.le_gt_cases (2 ^ (w - 1)) (x mod 2 ^ w));
      [done|]. rewrite (testbit_high (w - 1)) in E by (unfold fits; lia). done.
  - assert (x mod 2 ^ w < 2 ^ (w - 1)); [|lia]. destruct (Z.lt_ge_cases (x mod 2 ^ w) (2 ^ (w - 1)));
      [done|]. exfalso.
    assert (Z.testbit (x mod 2 ^ w) (w - 1) = true); [|congruence].
    apply Z.testbit_true; [lia|]. replace (x mod 2 ^ w / 2 ^ (w - 1)) with 1; [done|].
    apply (Z.div_unique _ _ _ (x mod 2 ^ w - 2 ^ (w - 1))); lia.
Qed.

Lemma signed_congr w x : 0 <= w -> wrap w (signed w x) = wrap w x.
Proof.
  intros Hw. apply Z.bits_inj'. intros i Hi. rewrite !testbit_wrap by lia.
  destruct (Z.ltb_spec i w); [|done]. rewrite testbit_signed by lia.
  by destruct (Z.ltb_spec i w); [|lia].
Qed.

Lemma signed_small w x : 0 < w -> - 2 ^ (w - 1) <= x < 2 ^ (w - 1) -> signed w (wrap w x) = x.
Proof.
  intros Hw Hx. pose proof (signed_range w (wrap w x) Hw) as R.
  pose proof (signed_congr w (wrap w x) ltac:(lia)) as E. rewrite wrap_wrap in E by lia.
  rewrite !wrap_mod in E by lia.
  assert (P : 2 ^ w = 2 * 2 ^ (w - 1)).
  { replace w with (Z.succ (w - 1)) at 1 by lia. apply Z.pow_succ_r. lia. }
  pose proof (Z.div_mod (signed w (x mod 2 ^ w)) (2 ^ w) ltac:(lia)).
  pose proof (Z.div_mod x (2 ^ w) ltac:(lia)). rewrite wrap_mod in * by lia.
  assert (signed w (x mod 2 ^ w) / 2 ^ w = x / 2 ^ w); nia.
Qed.

Lemma fits_land w x y : 0 <= w -> fits w x -> fits w (x .& y).
Proof.
  intros Hw Hx. apply fits_testbit; [done| apply Z.land_nonneg; left; apply Hx|].
  intros i Hi. rewrite Z.land_spec, (testbit_high w x) by done. done.
Qed.

Lemma fits_lor w x y : 0 <= w -> fits w x -> fits w y -> fits w (x .| y).
Proof.
  intros Hw Hx Hy. apply fits_testbit; [done| apply Z.lor_nonneg; split; [apply Hx|apply Hy]|].
  intros i Hi. rewrite Z.lor_spec, (testbit_high w x), (testbit_high w y) by done. done.
Qed.

Lemma fits_lxor w x y : 0 <= w -> fits w x -> fits w y -> fits w (x .^ y).
Proof.
  intros Hw Hx Hy. destruct Hx as [Hx0 Hx1] eqn:Ex, Hy as [Hy0 Hy1] eqn:Ey.
  apply fits_testbit; [done| by apply Z.lxor_nonneg|].
  intros i Hi. rewrite Z.lxor_spec, (testbit_high w x), (testbit_high w y) by done. done.
Qed.

Lemma fits_le w w' x : w <= w' -> 0 <= w -> fits w x -> fits w' x.
Proof.
  intros Hw Hp [H0 H1]. split; [done|]. eapply Z.lt_le_trans; [done|].
  apply Z.pow_le_mono_r; lia.
Qed.

Lemma fits_shiftr w x n : 0 <= n -> 0 <= w -> fits w x -> fits w (x >> n).
Proof.
  intros Hn Hw Hx. apply fits_testbit; [done| apply Z.shiftr_nonneg, Hx|].
  intros i Hi. rewrite Z.shiftr_spec by lia. apply (testbit_high w); [done|lia].
Qed.

Create HintDb fits discriminated.
#[export] Hint Resolve wrap_fits fits_land fits_lor fits_lxor fits_shiftr : fits.

(** [bits] proves an equality of [Z] words bit by bit: it moves [Z.testbit]
    through the C operators, case splits on the comparisons it meets, and
    discards the bits outside the width of the words ([fits] hypotheses).
    [bits_hook] lets later files teach it their own operators. *)
Ltac bits_hook := fail.
Ltac bits_rewrite :=
  repeat first
    [ rewrite Z.land_spec | rewrite Z.lor_spec | rewrite Z.lxor_spec
    | rewrite Z.shiftr_spec by lia | rewrite Z.shiftl_spec by lia
    | rewrite Z.lnot_spec by lia | rewrite testbit_ones by lia
    | rewrite testbit_wrap by lia | rewrite testbit_signed by lia | rewrite Z.ldiff_spec
    | rewrite Z.testbit_0_l | progress bits_hook ].
Ltac bits_split :=
  match goal with
  | |- context [?a <? ?b] => destruct (Z.ltb_spec a b)
  | |- context [?a <=? ?b] => destruct (Z.leb_spec a b)
  end; try (exfalso; lia).
Ltac bits_high :=
  match goal with
  | |- context [Z.testbit ?x ?j] => rewrite (Z.testbit_neg_r x j) by lia
  | H : fits ?w ?x |- context [Z.testbit ?x ?j] => rewrite (testbit_high w x j H) by lia
  end.
Ltac bits_norm :=
  cbn [andb orb negb xorb];
  rewrite ?andb_true_r, ?andb_false_r, ?orb_true_r, ?orb_false_r, ?xorb_false_r.
(** An index whose sign is not known yet: split on it. *)
Ltac bits_sign :=
  match goal with
  | |- context [Z.testbit ?x ?j] =>
      assert_fails (assert (0 <= j) by lia); destruct (Z.lt_ge_cases j 0)
  end; try (exfalso; lia).
Ltac bits_step := first [progress bits_rewrite | bits_split | bits_high | bits_sign]; bits_norm.
Ltac bits_case :=
  match goal with |- context [Z.testbit ?x ?j] => destruct (Z.testbit x j) end.
Ltac bits_finish :=
  first [ reflexivity | solve [f_equal; lia] | solve [repeat f_equal; lia]
        | solve [repeat bits_case; reflexivity] | idtac ].
Ltac bits :=
  apply Z.bits_inj'; intros ?i ?Hi; bits_norm; repeat bits_step; bits_finish.

Lemma getf_fits lo w x : 0 <= w -> 0 <= lo -> fits w (getf lo w x).
Proof.
  intros. by apply (wrap_fits w).
Qed.

Lemma getf_testbit lo w x i :
  0 <= w -> 0 <= lo -> 0 <= i -> Z.testbit (getf lo w x) i = (i <? w) && Z.testbit x (i + lo).
Proof. intros. unfold getf. bits_rewrite. by rewrite andb_comm. Qed.

Lemma setf_testbit lo w v x i :
  0 <= w -> 0 <= lo -> 0 <= i ->
  Z.testbit (setf lo w v x) i =
    if (lo <=? i) && (i <? lo + w) then Z.testbit v (i - lo) else Z.testbit x i.
Proof.
  intros. unfold setf. bits_rewrite.
  destruct (Z.leb_spec lo i); simpl.
  - rewrite !testbit_ones by lia.
    replace (i - lo <? w) with (i <? lo + w)
      by (apply eq_true_iff_eq; rewrite !Z.ltb_lt; lia).
    destruct (i <? lo + w), (Z.testbit x i), (Z.testbit v (i - lo)); done.
  - rewrite (Z.testbit_neg_r (Z.ones w)), (Z.testbit_neg_r v) by lia.
    by destruct (Z.testbit x i).
Qed.

Lemma getf_setf lo w v x : 0 <= w -> 0 <= lo -> getf lo w (setf lo w v x) = wrap w v.
Proof.
  intros. apply Z.bits_inj'. intros i Hi.
  rewrite getf_testbit, setf_testbit, testbit_wrap by lia.
  destruct (Z.ltb_spec i w); simpl; [|done].
  destruct (Z.leb_spec lo (i + lo)), (Z.ltb_spec (i + lo) (lo + w)); simpl; try lia.
  f_equal; lia.
Qed.

Lemma getf_setf_other lo w lo' w' v x :
  0 <= w -> 0 <= lo -> 0 <= w' -> 0 <= lo' -> lo + w <= lo' \/ lo' + w' <= lo ->
  getf lo w (setf lo' w' v x) = getf lo w x.
Proof.
  intros. apply Z.bits_inj'. intros i Hi.
  rewrite !getf_testbit, setf_testbit by lia.
  destruct (Z.ltb_spec i w); simpl; [|done].
  destruct (Z.leb_spec lo' (i + lo)), (Z.ltb_spec (i + lo) (lo' + w')); simpl; done || lia.
Qed.

Lemma setf_fits W lo w v x :
  0 <= lo -> 0 <= w -> lo + w <= W -> fits W x -> fits W (setf lo w v x).
Proof.
  intros Hlo Hw HW Hx. apply fits_testbit; [lia| |].
  - unfold setf. apply Z.lor_nonneg. split.
    + apply Z.land_nonneg. left. apply Hx.
    + apply Z.shiftl_nonneg. rewrite Z.land_ones by done. apply Z.mod_pos_bound. lia.
  - intros i Hi. rewrite setf_testbit by lia.
    destruct (Z.leb_spec lo i), (Z.ltb_spec i (lo + w)); simpl; try lia;
      by apply (testbit_high W).
Qed.

#[export] Hint Resolve getf_fits setf_fits : fits.

Lemma testbit_1 i : Z.testbit 1 i = (i =? 0).
Proof.
  destruct (Z.lt_ge_cases i 0) as [H|H]; [rewrite Z.testbit_neg_r by done; lia|].
  destruct (Z.eqb_spec i 0) as [->|]; [done|].
  change 1 with (Z.ones 1). rewrite testbit_ones by lia. lia.
Qed.

(** Testing a bit with a mask. *)
Lemma nz_bit x j : 0 <= j -> nz (x .& (1 << j)) = Z.testbit x j.
Proof.
  intros. apply eq_true_iff_eq. rewrite nz_true. split.
  - intros H0. destruct (Z.testbit x j) eqn:E; [done|]. exfalso. apply H0.
    apply Z.bits_inj'. intros i Hi. rewrite Z.land_spec, Z.shiftl_spec, Z.bits_0, testbit_1 by done.
    destruct (Z.eqb_spec (i - j) 0); [|by rewrite andb_false_r].
    replace i with j by lia. by rewrite E.
  - intros E H0. apply (f_equal (fun z => Z.testbit z j)) in H0.
    rewrite Z.land_spec, Z.shiftl_spec, E, Z.sub_diag, Z.bits_0 in H0 by done. done.
Qed.

Lemma nz_shift_testbit x j : 0 <= j -> nz ((x >> j) .& 1) = Z.testbit x j.
Proof.
  intros. change 1 with (1 << 0). rewrite nz_bit, Z.shiftr_spec by lia. done.
Qed.

Lemma testbit_shl1 n i : 0 <= i -> Z.testbit (1 << n) i = (i =? n).
Proof. intros. rewrite Z.shiftl_spec, testbit_1 by done. lia. Qed.

Lemma testbit_shl3 n i : 0 <= i -> Z.testbit (3 << n) i = (i =? n) || (i =? n + 1).
Proof.
  intros. rewrite Z.shiftl_spec by done. change 3 with (Z.ones 2).
  destruct (Z.lt_ge_cases (i - n) 0).
  - rewrite Z.testbit_neg_r by done. lia.
  - rewrite testbit_ones by lia. lia.
Qed.

Lemma bit_cases x : x .& 1 = 0 \/ x .& 1 = 1.
Proof.
  assert (x .& 1 = x mod 2) as -> by (apply (Z.land_ones x 1); lia).
  pose proof (Z.mod_pos_bound x 2 eq_refl). lia.
Qed.

Lemma land_bit x n : 0 <= n -> (x >> n) .& 1 = b2z (Z.testbit x n).
Proof.
  intros. apply Z.bits_inj'. intros i Hi.
  rewrite Z.land_spec, Z.shiftr_spec, testbit_1 by done.
  destruct (Z.eqb_spec i 0) as [->|].
  - rewrite andb_true_r, Z.add_0_l. by destruct (Z.testbit x n).
  - rewrite andb_false_r. destruct (Z.testbit x n); cbn [b2z]; rewrite ?testbit_1, ?Z.bits_0; lia.
Qed.

(** A two-bit field. *)
Lemma field2 x n :
  0 <= n -> (x >> n) .& 3 = b2z (Z.testbit x n) + 2 * b2z (Z.testbit x (n + 1)).
Proof.
  intros. change 3 with (Z.ones 2). rewrite Z.land_ones by lia. change (2 ^ 2) with 4.
  pose proof (land_bit x n) as H0. pose proof (land_bit x (n + 1)) as H1.
  assert (E : forall y, y .& 1 = y mod 2) by (intros; apply (Z.land_ones y 1); lia).
  rewrite E in H0, H1. replace (x >> (n + 1)) with ((x >> n) / 2) in H1.
  - rewrite <-H0, <-H1 by lia. clear. Z.to_euclidean_division_equations. lia.
  - rewrite <-(Z.shiftr_shiftr x n 1), (Z.shiftr_div_pow2 (x >> n) 1) by lia. reflexivity.
Qed.

Lemma land_lnot_ones x n : 0 <= n -> x .& ~~ Z.ones n = (x >> n) << n.
Proof.
  intros. apply Z.bits_inj'. intros i Hi. bits_rewrite.
  destruct (Z.lt_ge_cases i n).
  - rewrite (Z.testbit_neg_r _ (i - n)) by lia. replace (i <? n) with true by lia.
    by rewrite andb_false_r.
  - rewrite Z.shiftr_spec by lia. replace (i <? n) with false by lia.
    rewrite andb_true_r. f_equal. lia.
Qed.

(** Comparing with a multiple of [2 ^ n] is comparing the upper parts. *)
Lemma shift_le x w n : 0 <= n -> ((x >> n) << n <= w <-> x >> n <= w >> n).
Proof.
  intros Hn. rewrite Z.shiftl_mul_pow2, !Z.shiftr_div_pow2 by done.
  assert (P : 0 < 2 ^ n) by (apply Z.pow_pos_nonneg; lia).
  pose proof (Z.div_mod w (2 ^ n) ltac:(lia)). pose proof (Z.mod_pos_bound w (2 ^ n) P).
  split; intros; [apply Z.div_le_lower_bound; lia | nia].
Qed.

Lemma shift_lt x w n : 0 <= n -> (w < (x >> n) << n <-> w >> n < x >> n).
Proof. intros Hn. pose proof (shift_le x w n Hn). lia. Qed.

Lemma shiftr_fits_lt w n x : 0 <= n -> 0 <= w -> fits (w + n) x -> fits w (x >> n).
Proof.
  intros Hn Hw [H0 H1]. unfold fits. rewrite Z.shiftr_div_pow2 by done.
  assert (P : 0 < 2 ^ n) by (apply Z.pow_pos_nonneg; lia). rewrite Z.pow_add_r in H1 by done.
  split; [apply Z.div_pos; lia | apply Z.div_lt_upper_bound; lia].
Qed.

(** ** Bounded quantification by evaluation *)

(** [all_below n f] tests [f] on [0 .. n-1]; used with [vm_compute]. *)
Fixpoint all_from (n : nat) (i : Z) (f : Z -> bool) : bool :=
  match n with O => true | S n => if f i then all_from n (i + 1) f else false end.
Definition all_below (n : positive) (f : Z -> bool) : bool := all_from (Pos.to_nat n) 0 f.

Lemma all_from_spec n i f :
  all_from n i f = true -> forall x, i <= x < i + Z.of_nat n -> f x = true.
Proof.
  revert i. induction n as [|n IH]; intros i H x Hx; [lia|].
  cbn [all_from] in H. destruct (f i) eqn:Ef; [|done].
  destruct (Z.eq_dec x i) as [->|]; [done|]. apply (IH (i + 1)); [done|lia].
Qed.

Lemma all_below_spec n f :
  all_below n f = true -> forall x, 0 <= x < Z.pos n -> f x = true.
Proof.
  intros H x Hx. apply (all_from_spec _ _ _ H). by rewrite positive_nat_Z.
Qed.

(** ** Zero-initialised C arrays *)

(** A C array is a finite map with the zero value outside its domain; [memset]
    to zero is [∅]. *)
Class Zero (A : Type) := zero : A.
#[export] Instance Z_zero : Zero Z := 0.

Definition aget {A} `{Zero A} (a : gmap Z A) (i : Z) : A := default zero (a !! i).
Definition aset {A} (a : gmap Z A) (i : Z) (v : A) : gmap Z A := <[i := v]> a.

Lemma aget_empty {A} `{Zero A} i : aget (∅ : gmap Z A) i = zero.
Proof. done. Qed.

Lemma aget_aset_eq {A} `{Zero A} (a : gmap Z A) i v : aget (aset a i v) i = v.
Proof. unfold aget, aset. by rewrite lookup_insert_eq. Qed.

Lemma aget_aset_ne {A} `{Zero A} (a : gmap Z A) i j v :
  i <> j -> aget (aset a i v) j = aget a j.
Proof. intros. unfold aget, aset. by rewrite lookup_insert_ne. Qed.

Lemma aget_aset {A} `{Zero A} (a : gmap Z A) i j v :
  aget (aset a i v) j = if i =? j then v else aget a j.
Proof. destruct (Z.eqb_spec i j) as [->|]; [apply aget_aset_eq | by apply aget_aset_ne]. Qed.

Lemma aset_aset_eq {A} (a : gmap Z A) i v w : aset (aset a i v) i w = aset a i w.
Proof. apply insert_insert_eq. Qed.
