(* ===== verification/Config.v ===== *)
(** * Config: build configuration, architectural constants and the optional
    extensions of the simulator (Kconfig, [isa-def.h], [isa-extensions.h],
    [difftest-isa.h], [extensions.c]). *)
From S2P Require Import Prelude.

(** ** Kconfig options *)

Class Config := {
  CONFIG_RV64 : bool;
  CONFIG_RV_ASID_BITS : Z;
  CONFIG_RV_PMPADDR_BITS : Z;
  CONFIG_RV_PC_BITS : Z;
  CONFIG_RV_PMP_GRANULARITY_LOG2 : Z;
  CONFIG_RV_F : bool;
  CONFIG_RV_D : bool;
  CONFIG_RVE : bool;
  CONFIG_RV_SVADE : bool;
  CONFIG_RV_MCOUNTINHIBIT : bool;
  CONFIG_MODE_SYSTEM : bool;
  CONFIG_TARGET_SHARE : bool;
  CONFIG_RAPTOR_MEMORY_MAP : bool;
  CONFIG_RAPTOR_PMEM_2G : bool;
  CONFIG_MBASE : Z;
  CONFIG_MSIZE : Z;
  CONFIG_TIMER_CYCLE : bool;
}.

(** The ranges Kconfig enforces. *)
Class ConfigOk (C : Config) : Prop := {
  asid_range : 0 <= CONFIG_RV_ASID_BITS <= 16;
  pmpaddr_range : 1 <= CONFIG_RV_PMPADDR_BITS <= 54;
  pc_bits_range : 40 <= CONFIG_RV_PC_BITS <= 64;
  grain_range : 2 <= CONFIG_RV_PMP_GRANULARITY_LOG2 <= 12;
}.

Definition riscv64_ref : Config := {|
  CONFIG_RV64 := true; CONFIG_RV_ASID_BITS := 9; CONFIG_RV_PMPADDR_BITS := 30;
  CONFIG_RV_PC_BITS := 40; CONFIG_RV_PMP_GRANULARITY_LOG2 := 12;
  CONFIG_RV_F := true; CONFIG_RV_D := true; CONFIG_RVE := false; CONFIG_RV_SVADE := true;
  CONFIG_RV_MCOUNTINHIBIT := false; CONFIG_MODE_SYSTEM := true; CONFIG_TARGET_SHARE := true;
  CONFIG_RAPTOR_MEMORY_MAP := true; CONFIG_RAPTOR_PMEM_2G := false;
  CONFIG_MBASE := 0x80000000; CONFIG_MSIZE := 0x10000000; CONFIG_TIMER_CYCLE := true |}.

Definition riscv32_ref : Config := {|
  CONFIG_RV64 := false; CONFIG_RV_ASID_BITS := 9; CONFIG_RV_PMPADDR_BITS := 32;
  CONFIG_RV_PC_BITS := 64; CONFIG_RV_PMP_GRANULARITY_LOG2 := 12;
  CONFIG_RV_F := true; CONFIG_RV_D := true; CONFIG_RVE := false; CONFIG_RV_SVADE := true;
  CONFIG_RV_MCOUNTINHIBIT := false; CONFIG_MODE_SYSTEM := true; CONFIG_TARGET_SHARE := true;
  CONFIG_RAPTOR_MEMORY_MAP := true; CONFIG_RAPTOR_PMEM_2G := false;
  CONFIG_MBASE := 0x80000000; CONFIG_MSIZE := 0x10000000; CONFIG_TIMER_CYCLE := false |}.

#[export] Instance riscv64_ref_ok : ConfigOk riscv64_ref.
Proof. split; simpl; lia. Qed.
#[export] Instance riscv32_ref_ok : ConfigOk riscv32_ref.
Proof. split; simpl; lia. Qed.

(** Privilege levels, CSR numbers and cause codes. *)
Definition PRV_U : Z := 0.
Definition PRV_S : Z := 1.
Definition PRV_M : Z := 3.

Definition CSR_FFLAGS : Z := 0x001.
Definition CSR_FRM : Z := 0x002.
Definition CSR_FCSR : Z := 0x003.
Definition CSR_VSTART : Z := 0x008.
Definition CSR_VXSAT : Z := 0x009.
Definition CSR_VXRM : Z := 0x00a.
Definition CSR_VCSR : Z := 0x00f.
Definition CSR_SSTATUS : Z := 0x100.
Definition CSR_SIE : Z := 0x104.
Definition CSR_STVEC : Z := 0x105.
Definition CSR_SCOUNTEREN : Z := 0x106.
Definition CSR_SENVCFG : Z := 0x10a.
Definition CSR_SSTATEEN0 : Z := 0x10c.
Definition CSR_SSTATEEN3 : Z := 0x10f.
Definition CSR_SSCRATCH : Z := 0x140.
Definition CSR_SEPC : Z := 0x141.
Definition CSR_SCAUSE : Z := 0x142.
Definition CSR_STVAL : Z := 0x143.
Definition CSR_SIP : Z := 0x144.
Definition CSR_SATP : Z := 0x180.
Definition CSR_SCOUNTOVF : Z := 0xda0.
Definition CSR_VSSTATUS : Z := 0x200.
Definition CSR_VSIE : Z := 0x204.
Definition CSR_VSTVEC : Z := 0x205.
Definition CSR_VSSCRATCH : Z := 0x240.
Definition CSR_VSEPC : Z := 0x241.
Definition CSR_VSCAUSE : Z := 0x242.
Definition CSR_VSTVAL : Z := 0x243.
Definition CSR_VSIP : Z := 0x244.
Definition CSR_VSTIMECMP : Z := 0x24d.
Definition CSR_VSATP : Z := 0x280.
Definition CSR_HSTATUS : Z := 0x600.
Definition CSR_HEDELEG : Z := 0x602.
Definition CSR_HIDELEG : Z := 0x603.
Definition CSR_HIE : Z := 0x604.
Definition CSR_HTIMEDELTA : Z := 0x605.
Definition CSR_HCOUNTEREN : Z := 0x606.
Definition CSR_HGEIE : Z := 0x607.
Definition CSR_HENVCFG : Z := 0x60a.
Definition CSR_HSTATEEN0 : Z := 0x60c.
Definition CSR_HSTATEEN3 : Z := 0x60f.
Definition CSR_HTVAL : Z := 0x643.
Definition CSR_HTINST : Z := 0x64a.
Definition CSR_HIP : Z := 0x644.
Definition CSR_HVIP : Z := 0x645.
Definition CSR_HGATP : Z := 0x680.
Definition CSR_HGEIP : Z := 0xe12.
Definition CSR_MSTATUS : Z := 0x300.
Definition CSR_MISA : Z := 0x301.
Definition CSR_MEDELEG : Z := 0x302.
Definition CSR_MIDELEG : Z := 0x303.
Definition CSR_MIE : Z := 0x304.
Definition CSR_MTVEC : Z := 0x305.
Definition CSR_MCOUNTEREN : Z := 0x306.
Definition CSR_MCOUNTINHIBIT : Z := 0x320.
Definition CSR_MENVCFG : Z := 0x30a.
Definition CSR_MSTATEEN0 : Z := 0x30c.
Definition CSR_MSTATEEN3 : Z := 0x30f.
Definition CSR_MENVCFGH : Z := 0x31a.
Definition CSR_MSTATEEN0H : Z := 0x31c.
Definition CSR_MSTATEEN3H : Z := 0x31f.
Definition CSR_MSTATUSH : Z := 0x310.
Definition CSR_MSCRATCH : Z := 0x340.
Definition CSR_MEPC : Z := 0x341.
Definition CSR_MCAUSE : Z := 0x342.
Definition CSR_MTVAL : Z := 0x343.
Definition CSR_MTINST : Z := 0x34a.
Definition CSR_MTVAL2 : Z := 0x34b.
Definition CSR_MIP : Z := 0x344.
Definition CSR_MBERR_STATUS : Z := 0x7c0.
Definition CSR_MBERR_ADDR : Z := 0xfc0.
Definition CSR_PMPCFG0 : Z := 0x3a0.
Definition CSR_PMPCFG1 : Z := 0x3a1.
Definition CSR_PMPCFG2 : Z := 0x3a2.
Definition CSR_PMPCFG3 : Z := 0x3a3.
Definition CSR_PMPADDR0 : Z := 0x3b0.
Definition CSR_PMPADDR15 : Z := 0x3bf.
Definition CSR_MCYCLE : Z := 0xb00.
Definition CSR_MINSTRET : Z := 0xb02.
Definition CSR_MCYCLEH : Z := 0xb80.
Definition CSR_MINSTRETH : Z := 0xb82.
Definition CSR_CYCLE_ : Z := 0xc00.
Definition CSR_VL : Z := 0xc20.
Definition CSR_VTYPE : Z := 0xc21.
Definition CSR_VLENB : Z := 0xc22.
Definition CSR_TIME : Z := 0xc01.
Definition CSR_INSTRET : Z := 0xc02.
Definition CSR_CYCLEH : Z := 0xc80.
Definition CSR_TIMEH : Z := 0xc81.
Definition CSR_INSTRETH : Z := 0xc82.
Definition CSR_MVENDORID : Z := 0xf11.
Definition CSR_MARCHID : Z := 0xf12.
Definition CSR_IMPID : Z := 0xf13.
Definition CSR_MHARTID : Z := 0xf14.

Definition CSR_MSTATUS_MPRV : Z := 0x20000.
Definition CSR_MSTATUS_MPP : Z := 0x1800.
Definition CSR_MSTATUS_SPP : Z := 0x100.
Definition CSR_MSTATUS_MPIE : Z := 0x80.
Definition CSR_MSTATUS_MIE : Z := 0x8.

Definition MCA_INS_ADD_MIS : Z := 0x0.
Definition MCA_INS_ACC_FAU : Z := 0x1.
Definition MCA_ILLEGAL_INS : Z := 0x2.
Definition MCA_BREAK_POINT : Z := 0x3.
Definition MCA_LOA_ADD_MIS : Z := 0x4.
Definition MCA_LOA_ACC_FAU : Z := 0x5.
Definition MCA_STO_ADD_MIS : Z := 0x6.
Definition MCA_STO_ACC_FAU : Z := 0x7.
Definition MCA_ENV_CAL_UMO : Z := 0x8.
Definition MCA_ENV_CAL_SMO : Z := 0x9.
Definition MCA_ENV_CAL_VSMO : Z := 0xa.
Definition MCA_ENV_CAL_MMO : Z := 0xb.
Definition MCA_INS_PAG_FAU : Z := 0xc.
Definition MCA_LOA_PAG_FAU : Z := 0xd.
Definition MCA_STO_PAG_FAU : Z := 0xf.
Definition MCA_INS_GUEST_PAG_FAU : Z := 0x14.
Definition MCA_LOA_GUEST_PAG_FAU : Z := 0x15.
Definition MCA_VIRT_INS : Z := 0x16.
Definition MCA_STO_GUEST_PAG_FAU : Z := 0x17.
Definition MCA_SOF_CHE : Z := 0x12.
Definition MCA_HAR_ERR : Z := 0x13.

(** ** Words *)

Section Words.
Context {Cfg : Config}.

Definition XLEN : Z := if CONFIG_RV64 then 64 else 32.

(** [(word_t)x], [(sword_t)x], [~x] and [x << n] on [word_t]. *)
Definition word (x : Z) : Z := wrap XLEN x.
Definition sword (x : Z) : Z := signed XLEN x.
Definition wnot (x : Z) : Z := word (~~ x).
Definition wshl (x n : Z) : Z := word (x << n).

Definition MCA_INTR_BIT : Z := 1 << (XLEN - 1).
Definition MCA_SUP_SOF_INT : Z := MCA_INTR_BIT .| 0x1.
Definition MCA_VSUP_SOF_INT : Z := MCA_INTR_BIT .| 0x2.
Definition MCA_MAC_SOF_INT : Z := MCA_INTR_BIT .| 0x3.
Definition MCA_SUP_TIM_INT : Z := MCA_INTR_BIT .| 0x5.
Definition MCA_VSUP_TIM_INT : Z := MCA_INTR_BIT .| 0x6.
Definition MCA_MAC_TIM_INT : Z := MCA_INTR_BIT .| 0x7.
Definition MCA_SUP_EXT_INT : Z := MCA_INTR_BIT .| 0x9.
Definition MCA_VSUP_EXT_INT : Z := MCA_INTR_BIT .| 0xa.
Definition MCA_MAC_EXT_INT : Z := MCA_INTR_BIT .| 0xb.
Definition MCA_COU_OVE_INT : Z := MCA_INTR_BIT .| 0xd.

(** [INTR_EMPTY = (word_t)-1]. *)
Definition INTR_EMPTY : Z := word (-1).

Definition CSR_MISA_EXT_D : Z := 1 << 3.
Definition CSR_MISA_EXT_F : Z := 1 << 5.
Definition CSR_MSTATUS_FS_MASK : Z := 3 << 13.
Definition CSR_MSTATUS_VS_MASK : Z := 3 << 9.
Definition CSR_HSTATUS_VTVM : Z := 1 << 20.
Definition CSR_HSTATUS_VTW : Z := 1 << 21.
Definition CSR_HSTATUS_VTSR : Z := 1 << 22.

(** [BITS(x, hi, lo)] and [SEXT(x, len)] of [macro.h]; [SEXT] yields a
    64-bit value, truncated where it is stored in a [word_t]. *)
Definition BITMASK (bits : Z) : Z := (1 << bits) - 1.
Definition BITS (x hi lo : Z) : Z := (x >> lo) .& BITMASK (hi - lo + 1).
Definition SEXT (x len : Z) : Z := wrap 64 (signed len x).

(** The PC representation of the reference target. *)
Definition riscv_legalize_pc (pc : Z) : Z :=
  if CONFIG_RV64 && (CONFIG_RV_PC_BITS <? 64) then
    let bits := CONFIG_RV_PC_BITS in
    let upper := signed 64 pc >> (bits - 1) in
    if (upper =? 0) || (upper =? -1) then pc
    else
      let sign := pc >> 63 in
      let low := pc .& ((1 << (bits - 2)) - 1) in
      (if nz sign then wnot ((1 << (bits - 1)) - 1) else 0)
        .| ((sign .^ 1) << (bits - 2)) .| low
  else pc.

(** Pointer masking (Ssnpm/Smnpm). *)
Definition riscv_pointer_mask_value (address pmm : Z) (translated : bool) : Z :=
  let length := if pmm =? 2 then 7 else if pmm =? 3 then 16 else 0 in
  if length =? 0 then address
  else
    let mask := wnot 0 >> length in
    let address := address .& mask in
    if translated && nz (address .& (1 << (63 - length))) then address .| wnot mask
    else address.

End Words.

Section WordLemmas.
Context {Cfg : Config}.

Lemma XLEN_pos : 32 <= XLEN.
Proof. unfold XLEN. destruct CONFIG_RV64; lia. Qed.

Lemma word_mod x : word x = x mod 2 ^ XLEN.
Proof. unfold word, wrap. apply Z.land_ones. pose proof XLEN_pos. lia. Qed.

(** ** The width of a word *)

Lemma xlen_cases : XLEN = 64 \/ XLEN = 32.
Proof. unfold XLEN. destruct CONFIG_RV64; auto. Qed.

Lemma xlen_pos : 32 <= XLEN.
Proof. destruct xlen_cases as [->| ->]; lia. Qed.

Lemma xlen_gt : 0 < XLEN.
Proof. pose proof xlen_pos. lia. Qed.

Lemma testbit_wnot x i : 0 <= i -> Z.testbit (wnot x) i = (i <? XLEN) && negb (Z.testbit x i).
Proof.
  intros. unfold wnot, word. rewrite testbit_wrap by (unfold XLEN; destruct CONFIG_RV64; lia).
  by rewrite Z.lnot_spec.
Qed.

Lemma testbit_word x i : 0 <= i -> Z.testbit (word x) i = (i <? XLEN) && Z.testbit x i.
Proof. intros. unfold word. apply testbit_wrap; unfold XLEN; destruct CONFIG_RV64; lia. Qed.

Lemma wnot_fits x : fits XLEN (wnot x).
Proof. apply wrap_fits. pose proof XLEN_pos. lia. Qed.

Lemma word_fits x : fits XLEN (word x).
Proof. apply wrap_fits. pose proof XLEN_pos. lia. Qed.

End WordLemmas.
#[export] Hint Resolve wnot_fits word_fits : fits.

(** [BITS] and [SEXT] bit by bit. *)
Lemma BITS_getf x hi lo : lo <= hi -> BITS x hi lo = getf lo (hi - lo + 1) x.
Proof.
  intros. unfold BITS, getf, BITMASK. by f_equal.
Qed.

Lemma testbit_BITS x hi lo i :
  0 <= lo <= hi -> 0 <= i ->
  Z.testbit (BITS x hi lo) i = (i <? hi - lo + 1) && Z.testbit x (i + lo).
Proof. intros. rewrite BITS_getf by lia. apply getf_testbit; lia. Qed.

Lemma testbit_SEXT x len i :
  0 < len -> 0 <= i ->
  Z.testbit (SEXT x len) i = (i <? 64) && Z.testbit x (if i <? len then i else len - 1).
Proof. intros. unfold SEXT. by rewrite testbit_wrap, testbit_signed by lia. Qed.

Ltac bits_hook ::=
  first [ rewrite testbit_BITS by lia | rewrite testbit_SEXT by lia ].

(** ** Optional extensions *)

Definition NEMU_ISA_EXT_SVNAPOT : Z := 1 << 0.
Definition NEMU_ISA_EXT_ZAWRS : Z := 1 << 1.
Definition NEMU_ISA_EXT_ZFA : Z := 1 << 2.
Definition NEMU_ISA_EXT_SSNPM : Z := 1 << 3.
Definition NEMU_ISA_EXT_SMNPM : Z := 1 << 4.
Definition NEMU_ISA_EXT_SSCOFPMF : Z := 1 << 5.
Definition NEMU_ISA_EXT_V128_PREVIEW : Z := 1 << 6.
Definition NEMU_ISA_EXT_ZVBB : Z := 1 << 7.
Definition NEMU_ISA_EXT_ZVFHMIN : Z := 1 << 8.
Definition NEMU_ISA_EXT_SMSTATEEN_PREVIEW : Z := 1 << 9.
Definition NEMU_ISA_EXT_H_GSTAGE_PREVIEW : Z := 1 << 10.
Definition NEMU_ISA_EXT_MASK : Z :=
  NEMU_ISA_EXT_SVNAPOT .| NEMU_ISA_EXT_ZAWRS .| NEMU_ISA_EXT_ZFA .|
  NEMU_ISA_EXT_SSNPM .| NEMU_ISA_EXT_SMNPM .| NEMU_ISA_EXT_SSCOFPMF .|
  NEMU_ISA_EXT_V128_PREVIEW .| NEMU_ISA_EXT_ZVBB .| NEMU_ISA_EXT_ZVFHMIN .|
  NEMU_ISA_EXT_SMSTATEEN_PREVIEW .| NEMU_ISA_EXT_H_GSTAGE_PREVIEW.

(** The layout of the extension set in a differential journal's feature word. *)
Definition NEMU_ISA_JOURNAL_ENCODE (extensions : Z) : Z :=
  wrap 64 ((extensions .& 0xff) << 8) .| wrap 64 ((extensions .& ~~ 0xff) << 40).
Definition NEMU_ISA_JOURNAL_DECODE (features : Z) : Z :=
  ((features >> 8) .& 0xff) .| ((features >> 40) .& ~~ 0xff).

Definition RISCV_ENVCFG_PMM : Z := 3 << 32.

(** The predicates read the global [riscv_isa_extensions], passed as [ext]. *)
Definition has_ext (flag ext : Z) : bool := nz (ext .& flag).
Definition riscv_sscofpmf_enabled := has_ext NEMU_ISA_EXT_SSCOFPMF.
Definition riscv_v128_preview_enabled := has_ext NEMU_ISA_EXT_V128_PREVIEW.
Definition riscv_zvbb_enabled := has_ext NEMU_ISA_EXT_ZVBB.
Definition riscv_zvfhmin_enabled := has_ext NEMU_ISA_EXT_ZVFHMIN.
Definition riscv_smstateen_preview_enabled := has_ext NEMU_ISA_EXT_SMSTATEEN_PREVIEW.
Definition riscv_h_gstage_preview_enabled := has_ext NEMU_ISA_EXT_H_GSTAGE_PREVIEW.

Definition riscv_supervisor_irq_mask (ext : Z) : Z :=
  0x222 .| (if riscv_sscofpmf_enabled ext then 0x2000 else 0).
Definition riscv_virtual_irq_mask (ext : Z) : Z :=
  if riscv_h_gstage_preview_enabled ext then 0x444 else 0.

Definition riscv_envcfg_pmm (ext value extension : Z) : Z :=
  if negb (nz (ext .& extension)) || (((value >> 32) .& 3) =? 1) then 0
  else value .& RISCV_ENVCFG_PMM.

Section Extensions.
Context {Cfg : Config}.

Definition riscv_isa_supported : Z :=
  if CONFIG_MODE_SYSTEM then
    (NEMU_ISA_EXT_ZAWRS .| NEMU_ISA_EXT_SSCOFPMF .| NEMU_ISA_EXT_V128_PREVIEW
      .| NEMU_ISA_EXT_ZVBB .| NEMU_ISA_EXT_SMSTATEEN_PREVIEW)
    .| (if CONFIG_RV_F then NEMU_ISA_EXT_ZVFHMIN else 0)
    .| (if CONFIG_RV64 then NEMU_ISA_EXT_SVNAPOT .| NEMU_ISA_EXT_SSNPM .| NEMU_ISA_EXT_SMNPM
                            .| NEMU_ISA_EXT_H_GSTAGE_PREVIEW else 0)
    .| (if CONFIG_RV_F then NEMU_ISA_EXT_ZFA else 0)
  else 0.

(** [riscv_isa_configure] on the globals ([riscv_isa_extensions],
    [riscv_isa_locked]): the return code and the new extension set. *)
Definition riscv_isa_configure (extensions cur : Z) (locked : bool) : Z * Z :=
  if locked || nz (extensions .& ~~ riscv_isa_supported)
     || (nz (extensions .& (NEMU_ISA_EXT_ZVBB .| NEMU_ISA_EXT_ZVFHMIN))
         && negb (nz (extensions .& NEMU_ISA_EXT_V128_PREVIEW)))
  then (-1, cur)
  else (0, extensions).

End Extensions.
