(* ===== verification/Tlb.v ===== *)
(** * Tlb: the software TLBs and the decoded-instruction cache
    ([memory/tlb.h], [cpu/icache.h], [cpu/icache.c], [vaddr.c]) *)
From S2P Require Import Prelude Config.

Section Tlb.
Context {Cfg : Config}.

Definition PAGE_SHIFT : Z := 12.
Definition PAGE_MASK : Z := (1 << PAGE_SHIFT) - 1.
Definition SOFT_TLB_ENTRIES : Z := 1 << 8.
Definition SOFT_TLB_MASK : Z := SOFT_TLB_ENTRIES - 1.
Definition SOFT_TLB_INVALID_TAG : Z := word (-1).

Record soft_tlb_entry_t := mk_tlb_entry {
  tlb_vpn : Z;
  tlb_ppn : Z;
  tlb_pbmt : Z;
  tlb_epoch : Z;
}.
#[export] Instance tlb_entry_zero : Zero soft_tlb_entry_t := mk_tlb_entry 0 0 0 0.

Definition ICACHE_MASK : Z := (1 << 12) - 1.

Record icache_entry_t := mk_icache_entry {
  ic_pc : Z;
  ic_inst : Z;
  ic_ilen : Z;
  ic_epoch : Z;
}.
#[export] Instance icache_entry_zero : Zero icache_entry_t := mk_icache_entry 0 0 0 0.

(** The globals of [vaddr.c] and [icache.c]. *)
Record tlb_state := mk_tlb_state {
  soft_tlb_ifetch : gmap Z soft_tlb_entry_t;
  soft_tlb_load : gmap Z soft_tlb_entry_t;
  soft_tlb_store : gmap Z soft_tlb_entry_t;
  soft_tlb_epoch : Z;
  icache : gmap Z icache_entry_t;
  icache_epoch : Z;
}.

Definition tlb_init : tlb_state := mk_tlb_state ∅ ∅ ∅ 1 ∅ 1.

(** ** Decoded-instruction cache *)

Definition icache_slot (pc : Z) : Z := (pc >> 1) .& ICACHE_MASK.

Definition icache_hit (t : tlb_state) (e : icache_entry_t) (pc : Z) : bool :=
  (ic_pc e =? pc) && (ic_epoch e =? icache_epoch t).

Definition icache_fill (t : tlb_state) (slot pc inst ilen : Z) : tlb_state :=
  mk_tlb_state (soft_tlb_ifetch t) (soft_tlb_load t) (soft_tlb_store t) (soft_tlb_epoch t)
    (aset (icache t) slot (mk_icache_entry pc inst ilen (icache_epoch t))) (icache_epoch t).

Definition icache_flush (t : tlb_state) : tlb_state :=
  let epoch := wrap 32 (icache_epoch t + 1) in
  let '(entries, epoch) := if epoch =? 0 then (∅, 1) else (icache t, epoch) in
  mk_tlb_state (soft_tlb_ifetch t) (soft_tlb_load t) (soft_tlb_store t) (soft_tlb_epoch t)
    entries epoch.

(** ** Software TLB *)

(** The hit result is [(paddr, pbmt)]; on a miss the C code returns [false]
    and sets [*out_pbmt] to 0. *)
Definition soft_tlb_lookup_attrs (t : tlb_state) (tlb : gmap Z soft_tlb_entry_t) (vaddr : Z)
    : option (Z * Z) :=
  let vpn := vaddr >> PAGE_SHIFT in
  let e := aget tlb (vpn .& SOFT_TLB_MASK) in
  if (tlb_vpn e =? vpn) && (tlb_epoch e =? soft_tlb_epoch t)
  then Some (tlb_ppn e .| (vaddr .& PAGE_MASK), tlb_pbmt e)
  else None.

Definition soft_tlb_refill_attrs (t : tlb_state) (tlb : gmap Z soft_tlb_entry_t)
    (vaddr paddr pbmt : Z) : gmap Z soft_tlb_entry_t :=
  let vpn := vaddr >> PAGE_SHIFT in
  aset tlb (vpn .& SOFT_TLB_MASK)
    (mk_tlb_entry vpn (paddr .& ~~ PAGE_MASK) pbmt (soft_tlb_epoch t)).

(** The wrap branch of [soft_tlb_flush]: retag the entries of one array. *)
Definition retag (e : soft_tlb_entry_t) : soft_tlb_entry_t :=
  mk_tlb_entry SOFT_TLB_INVALID_TAG (tlb_ppn e) (tlb_pbmt e) (tlb_epoch e).
Definition soft_tlb_reset (tlb : gmap Z soft_tlb_entry_t) : gmap Z soft_tlb_entry_t :=
  foldr (fun i a => aset a i (retag (aget tlb i))) tlb (seqZ 0 SOFT_TLB_ENTRIES).

Definition soft_tlb_flush (t0 : tlb_state) : tlb_state :=
  let t := icache_flush t0 in
  let epoch := wrap 32 (soft_tlb_epoch t + 1) in
  if epoch =? 0 then
    mk_tlb_state (soft_tlb_reset (soft_tlb_ifetch t)) (soft_tlb_reset (soft_tlb_load t))
      (soft_tlb_reset (soft_tlb_store t)) 1 (icache t) (icache_epoch t)
  else
    mk_tlb_state (soft_tlb_ifetch t) (soft_tlb_load t) (soft_tlb_store t) epoch
      (icache t) (icache_epoch t).

(** ** Invariant *)

(** Every entry of a TLB array was stamped at or before the current epoch, or
    carries the tag no virtual page number equals; likewise for the icache. *)
Definition tlb_array_wf (epoch : Z) (tlb : gmap Z soft_tlb_entry_t) : Prop :=
  forall i, 0 <= i < SOFT_TLB_ENTRIES ->
    0 <= tlb_epoch (aget tlb i) <= epoch \/ tlb_vpn (aget tlb i) = SOFT_TLB_INVALID_TAG.
Definition icache_wf (epoch : Z) (c : gmap Z icache_entry_t) : Prop :=
  forall i, 0 <= ic_epoch (aget c i) <= epoch.

Record tlb_wf (t : tlb_state) : Prop := {
  wf_ifetch : tlb_array_wf (soft_tlb_epoch t) (soft_tlb_ifetch t);
  wf_load : tlb_array_wf (soft_tlb_epoch t) (soft_tlb_load t);
  wf_store : tlb_array_wf (soft_tlb_epoch t) (soft_tlb_store t);
  wf_icache : icache_wf (icache_epoch t) (icache t);
  wf_epochs : 1 <= soft_tlb_epoch t < 2 ^ 32 /\ 1 <= icache_epoch t < 2 ^ 32;
}.

(** [sound R t tlb]: every translation the array can return is licensed by [R]. *)
Definition tlb_sound (R : Z -> Z -> Z -> Prop) (t : tlb_state)
    (tlb : gmap Z soft_tlb_entry_t) : Prop :=
  forall vaddr paddr pbmt, fits XLEN vaddr ->
    soft_tlb_lookup_attrs t tlb vaddr = Some (paddr, pbmt) -> R vaddr paddr pbmt.

(** ** Lemmas *)

Lemma vpn_not_invalid vaddr : fits XLEN vaddr -> vaddr >> PAGE_SHIFT <> SOFT_TLB_INVALID_TAG.
Proof.
  intros [H0 H1] E. unfold SOFT_TLB_INVALID_TAG, word, wrap, PAGE_SHIFT in E.
  rewrite Z.shiftr_div_pow2 in E by lia. change (2 ^ 12) with 4096 in E.
  destruct xlen_cases as [X|X]; rewrite X in *;
    [change (-1 .& Z.ones 64) with 18446744073709551615 in E
    | change (-1 .& Z.ones 32) with 4294967295 in E];
    Z.to_euclidean_division_equations; lia.
Qed.

Lemma soft_tlb_reset_get tlb i :
  0 <= i < SOFT_TLB_ENTRIES -> aget (soft_tlb_reset tlb) i = retag (aget tlb i).
Proof.
  intros Hi. unfold soft_tlb_reset.
  assert (Hin : i ∈ seqZ 0 SOFT_TLB_ENTRIES) by (apply elem_of_seqZ; lia).
  revert Hin. generalize (seqZ 0 SOFT_TLB_ENTRIES) as l.
  induction l as [|j l IH]; intros Hin; [by apply not_elem_of_nil in Hin|].
  simpl. rewrite aget_aset. destruct (Z.eqb_spec j i) as [->|Hne]; [done|].
  apply IH. apply elem_of_cons in Hin as [->|]; done.
Qed.

Lemma tlb_index_range vpn : 0 <= vpn -> 0 <= vpn .& SOFT_TLB_MASK < SOFT_TLB_ENTRIES.
Proof.
  intros. change SOFT_TLB_MASK with (Z.ones 8). rewrite Z.land_ones by lia.
  apply Z.mod_pos_bound. done.
Qed.

Lemma tlb_array_bump e tlb : tlb_array_wf e tlb -> tlb_array_wf (e + 1) tlb.
Proof. intros W i Hi. destruct (W i Hi); [left; lia | by right]. Qed.

Lemma tlb_array_reset e tlb : tlb_array_wf e (soft_tlb_reset tlb).
Proof. intros i Hi. right. by rewrite soft_tlb_reset_get. Qed.

Lemma tlb_array_refill e t tlb vaddr paddr pbmt :
  soft_tlb_epoch t = e -> 1 <= e -> tlb_array_wf e tlb ->
  tlb_array_wf e (soft_tlb_refill_attrs t tlb vaddr paddr pbmt).
Proof.
  intros E He W i Hi. unfold soft_tlb_refill_attrs. rewrite aget_aset.
  destruct (Z.eqb_spec (vaddr >> PAGE_SHIFT .& SOFT_TLB_MASK) i); [left; simpl; lia | by apply W].
Qed.

(** The two outcomes of a 32-bit epoch increment. *)
Lemma epoch_bump e :
  1 <= e < 2 ^ 32 ->
  ((wrap 32 (e + 1) =? 0) = true /\ e + 1 = 2 ^ 32) \/
  ((wrap 32 (e + 1) =? 0) = false /\ wrap 32 (e + 1) = e + 1 /\ e + 1 < 2 ^ 32).
Proof.
  intros He. destruct (Z.eq_dec (e + 1) (2 ^ 32)) as [E|E]; [left; by rewrite E|right].
  rewrite wrap_small by (unfold fits; lia). destruct (Z.eqb_spec (e + 1) 0); lia.
Qed.

Lemma icache_flush_epoch t :
  1 <= icache_epoch t < 2 ^ 32 -> 1 <= icache_epoch (icache_flush t) < 2 ^ 32.
Proof.
  intros He. unfold icache_flush.
  destruct (epoch_bump _ He) as [[-> ?]|(-> & -> & ?)]; simpl; lia.
Qed.

Lemma icache_flush_wf t :
  1 <= icache_epoch t < 2 ^ 32 -> icache_wf (icache_epoch t) (icache t) ->
  icache_wf (icache_epoch (icache_flush t)) (icache (icache_flush t)).
Proof.
  intros He W i. unfold icache_flush. specialize (W i).
  destruct (epoch_bump _ He) as [[-> ?]|(-> & -> & ?)]; simpl; [|lia].
  rewrite aget_empty. simpl. lia.
Qed.

(** An array whose entries are all older than the epoch, or retagged, never hits. *)
Lemma lookup_stale t tlb vaddr :
  fits XLEN vaddr ->
  (forall i, 0 <= i < SOFT_TLB_ENTRIES ->
     tlb_epoch (aget tlb i) <> soft_tlb_epoch t \/ tlb_vpn (aget tlb i) = SOFT_TLB_INVALID_TAG) ->
  soft_tlb_lookup_attrs t tlb vaddr = None.
Proof.
  intros Hv Hs. unfold soft_tlb_lookup_attrs.
  set (vpn := vaddr >> PAGE_SHIFT). set (e := aget tlb _).
  assert (Hi : 0 <= vpn .& SOFT_TLB_MASK < SOFT_TLB_ENTRIES)
    by (apply tlb_index_range, Z.shiftr_nonneg, Hv).
  destruct (Hs _ Hi) as [Hne|Htag]; fold e in Hne || fold e in Htag.
  - destruct (Z.eqb_spec (tlb_epoch e) (soft_tlb_epoch t)); [done|]. by rewrite andb_false_r.
  - rewrite Htag. destruct (Z.eqb_spec SOFT_TLB_INVALID_TAG vpn) as [E|]; [|done].
    by destruct (vpn_not_invalid vaddr Hv).
Qed.

Lemma flush_arrays t :
  let reset a := if wrap 32 (soft_tlb_epoch t + 1) =? 0 then soft_tlb_reset a else a in
  soft_tlb_ifetch (soft_tlb_flush t) = reset (soft_tlb_ifetch t) /\
  soft_tlb_load (soft_tlb_flush t) = reset (soft_tlb_load t) /\
  soft_tlb_store (soft_tlb_flush t) = reset (soft_tlb_store t) /\
  soft_tlb_epoch (soft_tlb_flush t) =
    (if wrap 32 (soft_tlb_epoch t + 1) =? 0 then 1 else wrap 32 (soft_tlb_epoch t + 1)) /\
  icache (soft_tlb_flush t) = icache (icache_flush t) /\
  icache_epoch (soft_tlb_flush t) = icache_epoch (icache_flush t).
Proof.
  assert (F : soft_tlb_ifetch (icache_flush t) = soft_tlb_ifetch t /\
    soft_tlb_load (icache_flush t) = soft_tlb_load t /\
    soft_tlb_store (icache_flush t) = soft_tlb_store t /\
    soft_tlb_epoch (icache_flush t) = soft_tlb_epoch t).
  { unfold icache_flush. destruct (wrap 32 (icache_epoch t + 1) =? 0); repeat split. }
  destruct F as (Fi & Fl & Fs & Fe). unfold soft_tlb_flush. cbv zeta.
  rewrite Fi, Fl, Fs, Fe.
  destruct (wrap 32 (soft_tlb_epoch t + 1) =? 0); cbn -[soft_tlb_reset wrap];
    repeat (split; [reflexivity|]); reflexivity.
Qed.

Lemma flush_array_stale t tlb vaddr :
  fits XLEN vaddr -> 1 <= soft_tlb_epoch t < 2 ^ 32 -> tlb_array_wf (soft_tlb_epoch t) tlb ->
  soft_tlb_lookup_attrs (soft_tlb_flush t)
    (if wrap 32 (soft_tlb_epoch t + 1) =? 0 then soft_tlb_reset tlb else tlb) vaddr = None.
Proof.
  intros Hv He W. apply lookup_stale; [done|]. intros i Hi.
  destruct (flush_arrays t) as (_ & _ & _ & -> & _).
  destruct (epoch_bump _ He) as [[-> ?]|(-> & -> & ?)].
  - right. by rewrite soft_tlb_reset_get.
  - destruct (W i Hi) as [L|]; [left; lia | by right].
Qed.

(** ** Properties *)

(** A flush leaves the caches well formed, the 32-bit epoch wrap included. *)
Theorem soft_tlb_flush_wf t : tlb_wf t -> tlb_wf (soft_tlb_flush t).
Proof.
  intros [Wi Wl Ws Wc [He1 He2]]. destruct (flush_arrays t) as (Ei & El & Es & Ee & Ec & Ece).
  pose proof (icache_flush_wf t He2 Wc). pose proof (icache_flush_epoch t He2).
  destruct (epoch_bump _ He1) as [[B ?]|(B & B' & ?)]; rewrite B in *; rewrite ?B' in *;
    split; rewrite ?Ei, ?El, ?Es, ?Ee, ?Ec, ?Ece;
    auto using tlb_array_bump, tlb_array_reset; lia.
Qed.

(** After a flush no translation and no decoded instruction cached
    before it can be returned, whatever the epochs were. *)
Theorem soft_tlb_flush_no_stale t vaddr :
  tlb_wf t -> fits XLEN vaddr ->
  let t' := soft_tlb_flush t in
  soft_tlb_lookup_attrs t' (soft_tlb_ifetch t') vaddr = None /\
  soft_tlb_lookup_attrs t' (soft_tlb_load t') vaddr = None /\
  soft_tlb_lookup_attrs t' (soft_tlb_store t') vaddr = None /\
  icache_hit t' (aget (icache t') (icache_slot vaddr)) vaddr = false.
Proof.
  intros [Wi Wl Ws Wc [He1 He2]] Hv t'.
  destruct (flush_arrays t) as (Ei & El & Es & Ee & Ec & Ece). unfold t'.
  rewrite Ei, El, Es, Ec. repeat split; [by apply flush_array_stale..|].
  unfold icache_hit. rewrite Ece. apply andb_false_iff. right. apply Z.eqb_neq.
  unfold icache_flush. specialize (Wc (icache_slot vaddr)).
  destruct (epoch_bump _ He2) as [[-> ?]|(-> & -> & ?)]; simpl; [done | lia].
Qed.

(** A refilled translation is returned for every address of the page,
    with the page offset of the address asked for. *)
Theorem soft_tlb_refill_hit t tlb vaddr vaddr' paddr pbmt :
  vaddr >> PAGE_SHIFT = vaddr' >> PAGE_SHIFT ->
  soft_tlb_lookup_attrs t (soft_tlb_refill_attrs t tlb vaddr paddr pbmt) vaddr' =
    Some ((paddr .& ~~ PAGE_MASK) .| (vaddr' .& PAGE_MASK), pbmt).
Proof.
  intros E. unfold soft_tlb_lookup_attrs, soft_tlb_refill_attrs.
  rewrite E, aget_aset_eq. simpl. by rewrite !Z.eqb_refl.
Qed.

(** A TLB array only ever returns licensed translations: a refill with a
    page-compatible licensed translation keeps it sound. *)
Theorem soft_tlb_refill_sound R t tlb vaddr paddr pbmt :
  tlb_sound R t tlb ->
  (forall vaddr', vaddr' >> PAGE_SHIFT = vaddr >> PAGE_SHIFT ->
     R vaddr' ((paddr .& ~~ PAGE_MASK) .| (vaddr' .& PAGE_MASK)) pbmt) ->
  tlb_sound R t (soft_tlb_refill_attrs t tlb vaddr paddr pbmt).
Proof.
  intros S HR v pa pb Hv. unfold soft_tlb_lookup_attrs, soft_tlb_refill_attrs.
  rewrite aget_aset. destruct (Z.eqb_spec (vaddr >> PAGE_SHIFT .& SOFT_TLB_MASK)
    (v >> PAGE_SHIFT .& SOFT_TLB_MASK)) as [Ei|Ei].
  - simpl. rewrite Z.eqb_refl, andb_true_r.
    destruct (Z.eqb_spec (vaddr >> PAGE_SHIFT) (v >> PAGE_SHIFT)) as [Ev|]; [|done].
    intros [= <- <-]. by apply HR.
  - intros E. by apply S.
Qed.

End Tlb.

(** ** Witnesses *)

(** A state one step before both epochs wrap, with a live entry. *)
Definition tlb_example : tlb_state :=
  mk_tlb_state ∅ (aset ∅ 5 (mk_tlb_entry 0x12305 0x80005000 0 0xffffffff)) ∅ 0xffffffff
    (aset ∅ 2 (mk_icache_entry 4 0x13 4 0xffffffff)) 0xffffffff.

Lemma tlb_example_wf {Cfg : Config} : tlb_wf tlb_example.
Proof.
  assert (Z0 : forall i, 0 <= tlb_epoch (aget (∅ : gmap Z soft_tlb_entry_t) i) <= 0xffffffff)
    by (intros i; rewrite aget_empty; unfold zero, tlb_entry_zero, tlb_epoch; lia).
  split; unfold tlb_example; cbn [soft_tlb_ifetch soft_tlb_load soft_tlb_store soft_tlb_epoch
    icache icache_epoch].
  - intros i _. left. apply Z0.
  - intros i _. left. rewrite aget_aset.
    destruct (Z.eqb_spec 5 i); [cbn; lia | apply Z0].
  - intros i _. left. apply Z0.
  - intros i. rewrite aget_aset.
    destruct (Z.eqb_spec 2 i); [cbn; lia|]. rewrite aget_empty. cbn; lia.
  - lia.
Qed.

Lemma soft_tlb_flush_wf_witness : tlb_wf (Cfg := riscv64_ref) (soft_tlb_flush (Cfg := riscv64_ref) tlb_example).
Proof. apply (@soft_tlb_flush_wf riscv64_ref). apply tlb_example_wf. Defined.

Lemma soft_tlb_flush_no_stale_witness :
  soft_tlb_lookup_attrs tlb_example (soft_tlb_load tlb_example) 0x12305678 =
    Some (0x80005678, 0) /\
  let t' := soft_tlb_flush (Cfg := riscv64_ref) tlb_example in
  soft_tlb_lookup_attrs t' (soft_tlb_ifetch t') 0x12305678 = None /\
  soft_tlb_lookup_attrs t' (soft_tlb_load t') 0x12305678 = None /\
  soft_tlb_lookup_attrs t' (soft_tlb_store t') 0x12305678 = None /\
  icache_hit t' (aget (icache t') (icache_slot 0x12305678)) 0x12305678 = false.
Proof.
  split; [vm_compute; reflexivity|].
  apply (@soft_tlb_flush_no_stale riscv64_ref tlb_example 0x12305678 (@tlb_example_wf riscv64_ref)).
  vm_compute. split; [intros [=] | reflexivity].
Defined.

Lemma soft_tlb_refill_hit_witness :
  soft_tlb_lookup_attrs tlb_init (soft_tlb_refill_attrs tlb_init ∅ 0x1000 0x80002000 1) 0x1abc =
    Some (0x80002abc, 1).
Proof.
  rewrite (soft_tlb_refill_hit tlb_init ∅ 0x1000 0x1abc 0x80002000 1 eq_refl).
  reflexivity.
Defined.

Lemma soft_tlb_refill_sound_witness :
  let R v p (_ : Z) := p .& PAGE_MASK = v .& PAGE_MASK in
  tlb_sound (Cfg := riscv64_ref) R tlb_init
    (soft_tlb_refill_attrs tlb_init ∅ 0x1000 0x80002000 0).
Proof.
  apply (@soft_tlb_refill_sound riscv64_ref).
  - intros v pa pb _. unfold soft_tlb_lookup_attrs. rewrite aget_empty.
    simpl (tlb_epoch _). rewrite andb_false_r. done.
  - intros v' _. change PAGE_MASK with (Z.ones 12). bits.
Defined.
