(* ===== verification/InstPat.v ===== *)
(** * InstPat: the instruction-pattern mechanism of [cpu/decode.h]

    A pattern is a string of ['0'], ['1'], ['?'] and spaces, most significant
    bit first; [INSTPAT] tests an instruction word against it with a key, a
    mask and a shift computed from the string. *)
From Stdlib Require Import String Ascii.
From S2P Require Import Prelude.

(** The loop of [pattern_decode], [n] unrolled steps left. [None] is a failed
    [Assert] or the final [panic("pattern too long")], reached when no step
    finds the end of the string. *)
Fixpoint pattern_scan (n : nat) (str : string) (key mask shift : Z) : option (Z * Z * Z) :=
  match n with
  | O => None
  | S n =>
    match str with
    | EmptyString => Some (key >> shift, mask >> shift, shift)
    | String c str =>
      if Ascii.eqb c " "%char then pattern_scan n str key mask shift
      else if Ascii.eqb c "0"%char || Ascii.eqb c "1"%char || Ascii.eqb c "?"%char then
        pattern_scan n str
          (wrap 64 (key << 1) .| (if Ascii.eqb c "1"%char then 1 else 0))
          (wrap 64 (mask << 1) .| (if Ascii.eqb c "?"%char then 0 else 1))
          (if Ascii.eqb c "?"%char then shift + 1 else 0)
      else None
    end
  end.

Definition pattern_decode (str : string) : option (Z * Z * Z) := pattern_scan 64 str 0 0 0.

(** The test [INSTPAT] makes; a pattern that aborts the simulator matches nothing. *)
Definition instpat_match (str : string) (inst : Z) : bool :=
  match pattern_decode str with
  | Some (key, mask, shift) => ((inst >> shift) .& mask) =? key
  | None => false
  end.

(** A block of [INSTPAT] lines: the first pattern that matches is executed. *)
Fixpoint instpat_first {A} (rows : list (string * A)) (inst : Z) : option A :=
  match rows with
  | [] => None
  | (pat, a) :: rows => if instpat_match pat inst then Some a else instpat_first rows inst
  end.

(** ** Specification *)

(** The symbols of a pattern, least significant first. *)
Fixpoint pattern_symbols (str : string) (acc : list ascii) : list ascii :=
  match str with
  | EmptyString => acc
  | String c str => pattern_symbols str (if Ascii.eqb c " "%char then acc else c :: acc)
  end.

Definition symbol_ok (c : ascii) (b : bool) : Prop := c = "?"%char \/ c = (if b then "1"%char else "0"%char).

Definition pattern_matches (str : string) (inst : Z) : Prop :=
  forall j c, pattern_symbols str [] !! j = Some c -> symbol_ok c (Z.testbit inst (Z.of_nat j)).

(** A pattern the macro accepts: short enough, and made of legal characters. *)
Fixpoint pattern_legal (str : string) : bool :=
  match str with
  | EmptyString => true
  | String c str =>
      (Ascii.eqb c " "%char || Ascii.eqb c "0"%char || Ascii.eqb c "1"%char || Ascii.eqb c "?"%char)
      && pattern_legal str
  end.

(** ** Lemmas *)

(** What the scan has computed after reading the symbols [l]. *)
Record scan_inv (l : list ascii) (key mask shift : Z) : Prop := {
  si_len : Z.of_nat (length l) < 64;
  si_key : forall j, Z.testbit key (Z.of_nat j) = bool_decide (l !! j = Some "1"%char);
  si_mask : forall j, Z.testbit mask (Z.of_nat j) =
              match l !! j with Some c => negb (Ascii.eqb c "?"%char) | None => false end;
  si_fits : fits (Z.of_nat (length l)) key /\ fits (Z.of_nat (length l)) mask;
  si_shift : 0 <= shift <= Z.of_nat (length l);
  si_low : forall j, Z.of_nat j < shift -> l !! j = Some "?"%char;
  si_sym : forall j c, l !! j = Some c -> c = "0"%char \/ c = "1"%char \/ c = "?"%char;
}.

(** Shifting one bit in below 64 bits. *)
Lemma push_bit n x b : 0 <= n < 63 -> fits n x -> 0 <= b <= 1 ->
  fits (n + 1) (wrap 64 (x << 1) .| b) /\
  Z.testbit (wrap 64 (x << 1) .| b) 0 = (b =? 1) /\
  forall j, 0 <= j -> Z.testbit (wrap 64 (x << 1) .| b) (j + 1) = Z.testbit x j.
Proof.
  intros Hn [Hx0 Hx1] Hb.
  assert (P : 2 ^ n <= 2 ^ 62) by (apply Z.pow_le_mono_r; lia).
  assert (E : wrap 64 (x << 1) .| b = 2 * x + b).
  { rewrite Z.shiftl_mul_pow2 by lia. rewrite wrap_small by (unfold fits; lia).
    assert (b = 0 \/ b = 1) as [->| ->] by lia; [rewrite Z.lor_0_r; lia|].
    change (2 ^ 1) with 2. rewrite (Z.mul_comm x 2). symmetry. apply Z.add_nocarry_lor.
    apply Z.bits_inj'. intros i Hi. rewrite Z.land_spec, Z.bits_0. destruct (Z.eq_dec i 0) as [->|].
    - by rewrite Z.testbit_even_0.
    - rewrite andb_false_iff. right. by apply (testbit_high 1); [split|lia]. }
  rewrite E. split; [unfold fits; rewrite Z.pow_add_r by lia; lia|].
  assert (b = 0 \/ b = 1) as [->| ->] by lia; rewrite ?Z.add_0_r.
  - split; [by rewrite Z.testbit_even_0|]. intros j Hj.
    by rewrite (Z.add_1_r j), Z.testbit_even_succ.
  - split; [by rewrite Z.testbit_odd_0|]. intros j Hj.
    by rewrite (Z.add_1_r j), Z.testbit_odd_succ.
Qed.

Lemma scan_inv_nil : scan_inv [] 0 0 0.
Proof.
  split; try (intros j; rewrite lookup_nil, ?Z.bits_0; done); try done;
    try (intros j c; by rewrite lookup_nil); simpl; try lia.
Qed.

Lemma scan_inv_push l key mask shift c :
  Z.of_nat (length l) < 63 -> c = "0"%char \/ c = "1"%char \/ c = "?"%char ->
  scan_inv l key mask shift ->
  scan_inv (c :: l)
    (wrap 64 (key << 1) .| (if Ascii.eqb c "1"%char then 1 else 0))
    (wrap 64 (mask << 1) .| (if Ascii.eqb c "?"%char then 0 else 1))
    (if Ascii.eqb c "?"%char then shift + 1 else 0).
Proof.
  intros Hl Hc [Hn Hk Hm [Fk Fm] Hs Hlow Hsym].
  destruct (push_bit (Z.of_nat (length l)) key (if Ascii.eqb c "1"%char then 1 else 0)) as (Fk' & K0 & KS);
    [lia|done|destruct (Ascii.eqb c "1"%char); lia|].
  destruct (push_bit (Z.of_nat (length l)) mask (if Ascii.eqb c "?"%char then 0 else 1)) as (Fm' & M0 & MS);
    [lia|done|destruct (Ascii.eqb c "?"%char); lia|].
  split; rewrite ?length_cons, ?Nat2Z.inj_succ in *; try lia.
  - intros [|j]; simpl lookup.
    + change (Z.of_nat 0) with 0. rewrite K0. by destruct Hc as [->|[->| ->]].
    + rewrite Nat2Z.inj_succ, <-Z.add_1_r, KS by lia. apply Hk.
  - intros [|j]; simpl lookup.
    + change (Z.of_nat 0) with 0. rewrite M0. by destruct Hc as [->|[->| ->]].
    + rewrite Nat2Z.inj_succ, <-Z.add_1_r, MS by lia. apply Hm.
  - done.
  - destruct (Ascii.eqb c "?"%char); lia.
  - intros [|j]; simpl lookup; destruct (Ascii.eqb_spec c "?"%char) as [->|]; intros; try done; try lia.
    apply Hlow. lia.
  - intros [|j] d; simpl lookup; [by intros [= <-] | apply Hsym].
Qed.

(** The number of symbols and spaces left is what bounds the scan. *)
Lemma pattern_scan_inv n str l key mask shift :
  pattern_legal str = true -> (String.length str < n)%nat ->
  (length l + n <= 64)%nat -> scan_inv l key mask shift ->
  exists key' mask' shift',
    pattern_scan n str key mask shift = Some (key' >> shift', mask' >> shift', shift') /\
    scan_inv (pattern_symbols str l) key' mask' shift'.
Proof.
  revert str l key mask shift. induction n as [|n IH]; intros str l key mask shift Hok Hlen Hl I;
    [lia|]. destruct str as [|c str]; [by exists key, mask, shift|].
  cbn [pattern_legal] in Hok. apply andb_true_iff in Hok as [Hc Hok].
  cbn [String.length] in Hlen. cbn [pattern_scan pattern_symbols].
  destruct (Ascii.eqb_spec c " "%char) as [->|Hsp]; [apply IH; [done|lia|lia|done]|].
  rewrite orb_false_l in Hc. rewrite Hc. apply IH; [done|lia|cbn [length]; lia|].
  apply scan_inv_push; [lia| |done].
  rewrite !orb_true_iff, !Ascii.eqb_eq in Hc. tauto.
Qed.

(** The patterns of a block decoded once, as the compiler folds them. *)
Definition decoded_first {A} (rows : list (option (Z * Z * Z) * A)) (inst : Z) : option A :=
  (fix go rows :=
     match rows with
     | [] => None
     | (Some (key, mask, shift), a) :: rows =>
         if ((inst >> shift) .& mask) =? key then Some a else go rows
     | (None, _) :: rows => go rows
     end) rows.

Lemma instpat_first_decoded {A} (rows : list (string * A)) inst :
  instpat_first rows inst = decoded_first (map (fun r => (pattern_decode r.1, r.2)) rows) inst.
Proof.
  induction rows as [|[pat a] rows IH]; [done|].
  cbn [instpat_first map fst snd]. unfold instpat_match, decoded_first.
  destruct (pattern_decode pat) as [[[key mask] shift]|]; [|apply IH].
  destruct (_ =? _); [done|apply IH].
Qed.

(** The rows that can match a word whose bits under [g] are [s0]. *)
Definition row_compatible {A} (g s0 : Z) (row : option (Z * Z * Z) * A) : bool :=
  match row with
  | (Some (key, mask, shift), _) =>
      (((s0 >> shift) .& mask) .& (g >> shift)) =? (key .& (g >> shift))
  | (None, _) => false
  end.

Lemma decoded_first_compatible {A} (rows : list (option (Z * Z * Z) * A)) g inst :
  decoded_first (List.filter (row_compatible g (inst .& g)) rows) inst = decoded_first rows inst.
Proof.
  induction rows as [|[[[[key mask] shift]|] a] rows IH]; [done| |exact IH].
  cbn [List.filter row_compatible]. destruct (_ =? key .& _) eqn:Ec.
  - cbn [decoded_first]. destruct (_ =? key); [done|exact IH].
  - rewrite IH. cbn [decoded_first]. destruct (((inst >> shift) .& mask) =? key) eqn:Em; [|done].
    apply Z.eqb_eq in Em. apply Z.eqb_neq in Ec. exfalso. apply Ec.
    rewrite <-Em, Z.shiftr_land. apply Z.bits_inj'. intros i Hi. rewrite !Z.land_spec.
    by repeat bits_case.
Qed.

(** ** Properties *)

(** A legal pattern of fewer than 64 characters is accepted, and [INSTPAT]
    matches exactly the words that agree with every fixed symbol of it. *)
Theorem pattern_decode_spec str inst :
  pattern_legal str = true -> (String.length str < 64)%nat ->
  is_Some (pattern_decode str) /\ (instpat_match str inst = true <-> pattern_matches str inst).
Proof.
  intros Hok Hlen. unfold instpat_match, pattern_decode, pattern_matches.
  destruct (pattern_scan_inv 64 str [] 0 0 0) as (key & mask & shift & -> & I);
    [done|done|simpl; lia|apply scan_inv_nil|].
  split; [by eexists|]. destruct I as [_ Hk Hm _ Hs Hlow Hsym]. rewrite Z.eqb_eq. split.
  - intros E j c Hj. unfold symbol_ok. destruct (Z.ltb_spec (Z.of_nat j) shift) as [Hlt|Hge].
    { left. specialize (Hlow j Hlt). congruence. }
    apply (f_equal (fun z => Z.testbit z (Z.of_nat j - shift))) in E.
    rewrite Z.land_spec, !Z.shiftr_spec in E by lia.
    replace (Z.of_nat j - shift + shift) with (Z.of_nat j) in E by lia.
    rewrite Hk, Hm, Hj in E. destruct (Hsym j c Hj) as [->|[->| ->]]; simpl in E;
      rewrite ?andb_true_r in E; rewrite ?E; auto.
  - intros Hall. apply Z.bits_inj'. intros i Hi. rewrite Z.land_spec, !Z.shiftr_spec by lia.
    rewrite <-(Z2Nat.id (i + shift)) by lia. rewrite Hk, Hm.
    destruct (pattern_symbols str [] !! Z.to_nat (i + shift)) as [c|] eqn:Hj;
      [|by rewrite andb_false_r].
    destruct (Hall _ _ Hj) as [->| ->]; [by rewrite andb_false_r|].
    by destruct (Z.testbit inst _).
Qed.

Lemma pattern_decode_spec_witness :
  is_Some (pattern_decode "0000001 ????? ????? 000 ????? 01100 11") /\
  (instpat_match "0000001 ????? ????? 000 ????? 01100 11" 0x02c58533 = true <->
   pattern_matches "0000001 ????? ????? 000 ????? 01100 11" 0x02c58533).
Proof. apply pattern_decode_spec; vm_compute; [reflexivity|lia]. Defined.
