(* ===== verification/RvC.v ===== *)
(** * RvC: field decoders of compressed instructions and encoders of the
    32-bit formats ([local-include/rv_c.h]). Arguments are [uint16_t]
    instructions and [uint32_t] fields; results are [uint32_t]. *)
From S2P Require Import Prelude Config.

Definition C_RD : Z := 0xf80.
Definition C_RS1 : Z := 0xf80.
Definition C_RS2 : Z := 0x7c.
Definition C_RD_S : Z := 0x1c.
Definition C_RS1_S : Z := 0x380.
Definition C_RS2_S : Z := 0x1c.
Definition CR_FUNCT4 : Z := 0xf000.
Definition CI_MASK_12 : Z := 0x1000.
Definition CI_MASK_6_4 : Z := 0x70.
Definition CI_MASK_3_2 : Z := 0xc.
Definition CSS_IMM_5_2 : Z := 0x1e00.
Definition CSS_IMM_7_6 : Z := 0x180.
Definition CIW_IMM_5_4 : Z := 0x1800.
Definition CIW_IMM_9_6 : Z := 0x780.
Definition CIW_IMM_2 : Z := 0x40.
Definition CIW_IMM_3 : Z := 0x20.
Definition CLWSW_IMM_5_3 : Z := 0x1c00.
Definition CLWSW_IMM_2 : Z := 0x40.
Definition CLWSW_IMM_6 : Z := 0x20.
Definition CS_FUNCT6 : Z := 0xfc00.
Definition CS_FUNCT2 : Z := 0x60.
Definition CB_FUNCT2 : Z := 0xc00.
Definition CB_OFFSET_8 : Z := 0x1000.
Definition CB_OFFSET_4_3 : Z := 0xc00.
Definition CB_OFFSET_7_6 : Z := 0x60.
Definition CB_OFFSET_2_1 : Z := 0x18.
Definition CB_OFFSET_5 : Z := 0x4.
Definition CJ_OFFSET_11 : Z := 0x1000.
Definition CJ_OFFSET_4 : Z := 0x800.
Definition CJ_OFFSET_9_8 : Z := 0x600.
Definition CJ_OFFSET_10 : Z := 0x100.
Definition CJ_OFFSET_6 : Z := 0x80.
Definition CJ_OFFSET_7 : Z := 0x40.
Definition CJ_OFFSET_3_1 : Z := 0x38.
Definition CJ_OFFSET_5 : Z := 0x4.

Inductive rvc_format := CR | CI | CSS | CIW | CL | CS | CA | CB | CJ | CN.

(** ** Field decoders *)

Definition dec_rd (inst : Z) : Z := (wrap 16 inst .& C_RD) >> 7.
Definition dec_rs1 (inst : Z) : Z := (wrap 16 inst .& C_RS1) >> 7.
Definition dec_rs2 (inst : Z) : Z := (wrap 16 inst .& C_RS2) >> 2.
Definition dec_rd_short (inst : Z) : Z := ((wrap 16 inst .& C_RD_S) >> 2) .| 8.
Definition dec_rs1_short (inst : Z) : Z := ((wrap 16 inst .& C_RS1_S) >> 7) .| 8.
Definition dec_rs2_short (inst : Z) : Z := ((wrap 16 inst .& C_RS2_S) >> 2) .| 8.

(** [for (i = ...; i < 32; ++i) x |= sign << i], [n] iterations left. *)
Fixpoint sign_loop (n : nat) (i sign x : Z) : Z :=
  match n with
  | O => x
  | S n => sign_loop n (i + 1) sign (x .| wrap 32 (sign << i))
  end.

Definition sign_extend (x sign_position : Z) : Z :=
  let sign := (x >> sign_position) .& 1 in
  sign_loop (Z.to_nat (31 - sign_position)) (sign_position + 1) sign x.

Definition dec_cr_funct4 (inst : Z) : Z := (wrap 16 inst .& CR_FUNCT4) >> 12.

Definition dec_ci_imm (inst : Z) : Z :=
  let inst := wrap 16 inst in
  let imm := (inst .& CI_MASK_12) >> 7 in
  let imm := imm .| ((inst .& (CI_MASK_6_4 .| CI_MASK_3_2)) >> 2) in
  sign_extend imm 5.

Definition dec_css_imm (inst : Z) : Z :=
  let inst := wrap 16 inst in
  ((inst .& CSS_IMM_7_6) >> 1) .| ((inst .& CSS_IMM_5_2) >> 7).

Definition dec_ciw_imm (inst : Z) : Z :=
  let inst := wrap 16 inst in
  ((inst .& CIW_IMM_9_6) >> 1) .| ((inst .& CIW_IMM_5_4) >> 7)
    .| ((inst .& CIW_IMM_3) >> 2) .| ((inst .& CIW_IMM_2) >> 4).

Definition dec_clw_csw_imm (inst : Z) : Z :=
  let inst := wrap 16 inst in
  ((inst .& CLWSW_IMM_6) << 1) .| ((inst .& CLWSW_IMM_5_3) >> 7) .| ((inst .& CLWSW_IMM_2) >> 4).

Definition dec_cld_csd_imm (inst : Z) : Z :=
  let inst := wrap 16 inst in
  ((inst .& 0x1C00) >> 7) .| ((inst .& 0x0060) << 1).

Definition dec_ci_offset_ldsp (inst : Z) : Z :=
  let inst := wrap 16 inst in
  ((inst .& 0x1000) >> 7) .| ((inst .& 0x0060) >> 2) .| ((inst .& 0x001c) << 4).

Definition dec_css_imm_sd (inst : Z) : Z :=
  let inst := wrap 16 inst in
  ((inst .& 0x1C00) >> 7) .| ((inst .& 0x0380) >> 1).

Definition dec_cs_funct6 (inst : Z) : Z := (wrap 16 inst .& CS_FUNCT6) >> 10.
Definition dec_cs_funct2 (inst : Z) : Z := (wrap 16 inst .& CS_FUNCT2) >> 5.
Definition dec_cb_funct2 (inst : Z) : Z := (wrap 16 inst .& CB_FUNCT2) >> 10.

Definition dec_branch_imm (inst : Z) : Z :=
  let inst := wrap 16 inst in
  let imm := ((inst .& CB_OFFSET_8) >> 4) .| ((inst .& CB_OFFSET_7_6) << 1)
    .| ((inst .& CB_OFFSET_5) << 3) .| ((inst .& CB_OFFSET_4_3) >> 7)
    .| ((inst .& CB_OFFSET_2_1) >> 2) in
  sign_extend imm 8.

Definition dec_cj_imm (inst : Z) : Z :=
  let inst := wrap 16 inst in
  let imm := ((inst .& CJ_OFFSET_11) >> 1) .| ((inst .& CJ_OFFSET_10) << 2)
    .| ((inst .& CJ_OFFSET_9_8) >> 1) .| ((inst .& CJ_OFFSET_7) << 1)
    .| ((inst .& CJ_OFFSET_6) >> 1) .| ((inst .& CJ_OFFSET_5) << 3)
    .| ((inst .& CJ_OFFSET_4) >> 7) .| ((inst .& CJ_OFFSET_3_1) >> 2) in
  sign_extend imm 11.

Definition dec_ci_nzimm_addi16sp (inst : Z) : Z :=
  let inst := wrap 16 inst in
  let nzimm := ((inst .& 0x1000) >> 3) .| ((inst .& 0x0018) << 4)
    .| ((inst .& 0x0020) << 1) .| ((inst .& 0x0004) << 3) .| ((inst .& 0x0040) >> 2) in
  sign_extend nzimm 9.

Definition dec_ci_nzimm_lui (inst : Z) : Z :=
  let inst := wrap 16 inst in
  let nzimm := ((inst .& CI_MASK_12) << 5)
    .| ((inst .& (CI_MASK_6_4 .| CI_MASK_3_2)) << 10) in
  sign_extend nzimm 17.

Definition dec_ci_offset_lwsp (inst : Z) : Z :=
  let inst := wrap 16 inst in
  ((inst .& CI_MASK_12) >> 7) .| ((inst .& CI_MASK_6_4) >> 2) .| ((inst .& CI_MASK_3_2) << 4).

Definition dec_cs_shamt (inst : Z) : Z :=
  let inst := wrap 16 inst in
  ((inst .& CI_MASK_12) >> 7) .| ((inst .& (CI_MASK_6_4 .| CI_MASK_3_2)) >> 2).

Definition dec_cb_imm_candi (inst : Z) : Z :=
  let inst := wrap 16 inst in
  let imm := ((inst .& CI_MASK_12) >> 7)
    .| ((inst .& (CI_MASK_6_4 .| CI_MASK_3_2)) >> 2) in
  sign_extend imm 5.

Definition dec_zcb_imm_b (inst : Z) : Z :=
  let inst := wrap 16 inst in
  ((inst >> 6) .& 0x1) .| (((inst >> 5) .& 0x1) << 1).

Definition dec_zcb_imm_h (inst : Z) : Z := ((wrap 16 inst >> 5) .& 0x1) << 1.

(** ** Encoders *)

Definition rtype (funct7 rs2 rs1 funct3 rd opcode : Z) : Z :=
  wrap 32 (funct7 << 25) .| wrap 32 (rs2 << 20) .| wrap 32 (rs1 << 15)
    .| wrap 32 (funct3 << 12) .| wrap 32 (rd << 7) .| opcode.

Definition itype (imm rs1 funct3 rd opcode : Z) : Z :=
  wrap 32 (imm << 20) .| wrap 32 (rs1 << 15) .| wrap 32 (funct3 << 12)
    .| wrap 32 (rd << 7) .| opcode.

Definition stype (imm rs2 rs1 funct3 opcode : Z) : Z :=
  wrap 32 ((imm .& 0xfe0) << 20) .| wrap 32 (rs2 << 20) .| wrap 32 (rs1 << 15)
    .| wrap 32 (funct3 << 12) .| wrap 32 ((imm .& 0x1f) << 7) .| opcode.

Definition btype (imm rs2 rs1 funct3 opcode : Z) : Z :=
  wrap 32 ((imm .& 0x1000) << 19) .| wrap 32 ((imm .& 0x7e0) << 20)
    .| wrap 32 (rs2 << 20) .| wrap 32 (rs1 << 15) .| wrap 32 (funct3 << 12)
    .| wrap 32 ((imm .& 0x1e) << 7) .| ((imm .& 0x800) >> 4)
    .| opcode.

Definition utype (imm rd opcode : Z) : Z := imm .| wrap 32 (rd << 7) .| opcode.

Definition jtype (imm rd opcode : Z) : Z :=
  wrap 32 ((imm .& 0x00100000) << 11) .| wrap 32 ((imm .& 0x000007FE) << 20)
    .| wrap 32 ((imm .& 0x00000800) << 9) .| (imm .& 0x000FF000)
    .| wrap 32 (rd << 7) .| opcode.

Definition nop : Z := itype 0 0 0 0 0x13.

(** ** Immediates of the 32-bit formats ([isa-def.h]) *)

Section Immediates.
Context {Cfg : Config}.

Definition immI (i : Z) : Z := word (SEXT (BITS i 31 20) 12).
Definition immU (i : Z) : Z := word (wrap 64 (SEXT (BITS i 31 12) 20 << 12)).
Definition immS (i : Z) : Z := word (wrap 64 (SEXT (BITS i 31 25) 7 << 5) .| BITS i 11 7).
Definition immB (i : Z) : Z :=
  word ((wrap 64 (SEXT (BITS i 31 31) 1 << 12) .| (BITS i 7 7 << 11)
         .| (BITS i 30 25 << 5) .| (BITS i 11 8 << 1)) .& ~~ 1).
Definition immJ (i : Z) : Z :=
  word ((wrap 64 (SEXT (BITS i 31 31) 1 << 20) .| (BITS i 19 12 << 12)
         .| (BITS i 20 20 << 11) .| (BITS i 30 25 << 5) .| (BITS i 24 21 << 1)) .& ~~ 1).

End Immediates.

(** ** Encoding and decoding *)

Lemma word_of_64 {Cfg : Config} x y : x = wrap 64 y -> word x = word y.
Proof. intros ->. unfold word, XLEN. destruct CONFIG_RV64; bits. Qed.

(** Constant masks as shifted runs of ones, so that [bits] sees through them. *)
Ltac mask_one imm c w l := try change (imm .& c) with (imm .& (Z.ones w << l)).
Ltac mask_ones imm :=
  mask_one imm 0xfe0 7 5; mask_one imm 0x1f 5 0; mask_one imm 0x1000 1 12;
  mask_one imm 0x7e0 6 5; mask_one imm 0x1e 4 1; mask_one imm 0x800 1 11;
  mask_one imm 0x100000 1 20; mask_one imm 0x7fe 10 1; mask_one imm 0xff000 8 12;
  change (~~ 1) with (~~ (Z.ones 1)).

Section RoundTrip.
Context {Cfg : Config} (imm rs1 rs2 f3 f7 rd op : Z).
Hypotheses (Hrs1 : fits 5 rs1) (Hrs2 : fits 5 rs2) (Hf3 : fits 3 f3) (Hf7 : fits 7 f7)
  (Hrd : fits 5 rd) (Hop : fits 7 op).

Lemma immI_itype : immI (itype imm rs1 f3 rd op) = word (signed 12 imm).
Proof. apply word_of_64. unfold itype. bits. Qed.

Lemma immS_stype : immS (stype imm rs2 rs1 f3 op) = word (signed 12 imm).
Proof. apply word_of_64. unfold stype. mask_ones imm. bits. Qed.

Lemma immB_btype : immB (btype imm rs2 rs1 f3 op) = word (signed 13 (imm .& ~~ 1)).
Proof. apply word_of_64. unfold btype. mask_ones imm. bits. Qed.

Lemma immJ_jtype : immJ (jtype imm rd op) = word (signed 21 (imm .& ~~ 1)).
Proof. apply word_of_64. unfold jtype. mask_ones imm. bits. Qed.

Lemma immU_utype : immU (utype imm rd op) = word (signed 32 (imm .& ~~ 0xfff)).
Proof.
  apply word_of_64. unfold utype. change 0xfff with (Z.ones 12). bits.
Qed.

Lemma rtype_fields :
  let i := rtype f7 rs2 rs1 f3 rd op in
  BITS i 31 25 = f7 /\ BITS i 24 20 = rs2 /\ BITS i 19 15 = rs1 /\
  BITS i 14 12 = f3 /\ BITS i 11 7 = rd /\ BITS i 6 0 = op.
Proof. unfold rtype. repeat split; bits. Qed.

End RoundTrip.

(** Decoding an encoded instruction gives its fields back: every immediate
    the executor extracts is the sign extension of the encoded one (dropping
    the bits its format cannot hold), and the register and function fields of
    the R format are unchanged, at both word widths. *)
Theorem encode_decode_roundtrip {Cfg : Config} imm rs1 rs2 f3 f7 rd op :
  fits 5 rs1 -> fits 5 rs2 -> fits 3 f3 -> fits 7 f7 -> fits 5 rd -> fits 7 op ->
  immI (itype imm rs1 f3 rd op) = word (signed 12 imm) /\
  immS (stype imm rs2 rs1 f3 op) = word (signed 12 imm) /\
  immB (btype imm rs2 rs1 f3 op) = word (signed 13 (imm .& ~~ 1)) /\
  immJ (jtype imm rd op) = word (signed 21 (imm .& ~~ 1)) /\
  immU (utype imm rd op) = word (signed 32 (imm .& ~~ 0xfff)) /\
  (let i := rtype f7 rs2 rs1 f3 rd op in
   BITS i 31 25 = f7 /\ BITS i 24 20 = rs2 /\ BITS i 19 15 = rs1 /\
   BITS i 14 12 = f3 /\ BITS i 11 7 = rd /\ BITS i 6 0 = op).
Proof.
  intros. refine (conj _ (conj _ (conj _ (conj _ (conj _ _))))).
  - by apply immI_itype.
  - by apply immS_stype.
  - by apply immB_btype.
  - by apply immJ_jtype.
  - by apply immU_utype.
  - by apply rtype_fields.
Qed.

Lemma encode_decode_roundtrip_witness :
  word (Cfg := riscv64_ref) (signed 13 (0xfffff800 .& ~~ 1)) = 0xfffffffffffff800 /\
  immB (Cfg := riscv64_ref) (btype 0xfffff800 11 10 1 0x63) =
    word (Cfg := riscv64_ref) (signed 13 (0xfffff800 .& ~~ 1)).
Proof.
  split; [vm_compute; reflexivity|].
  destruct (@encode_decode_roundtrip riscv64_ref 0xfffff800 10 11 1 0 0 0x63) as (_ & _ & E & _);
    [vm_compute; done..|exact E].
Defined.
