(* ===== verification/DecompressRef.v ===== *)
(** * DecompressRef: the function-table RV32C decompressor of [inst_c_ref.c] *)
From S2P Require Import Prelude Config RvC.

Definition addi4spn (inst : Z) : Z :=
  let nzuimm := dec_ciw_imm inst in
  let rd := dec_rd_short inst in
  if nzuimm =? 0 then 0 else itype nzuimm 2 0 rd 0x13.

Definition lw__ (inst : Z) : Z :=
  let imm := dec_clw_csw_imm inst in
  let rs1 := dec_rs1_short inst in
  let rd := dec_rd_short inst in
  itype imm rs1 2 rd 3.

Definition sw__ (inst : Z) : Z :=
  let imm := dec_clw_csw_imm inst in
  let rs1 := dec_rs1_short inst in
  let rs2 := dec_rs2_short inst in
  stype imm rs2 rs1 2 0x23.

Definition addi____ (inst : Z) : Z :=
  let rd := dec_rd inst in
  let nzimm := ((inst .& CI_MASK_12) >> 7) .| ((inst .& (CI_MASK_6_4 .| CI_MASK_3_2)) >> 2) in
  let nzimm := sign_extend nzimm 5 in
  if nzimm =? 0 then nop else itype nzimm rd 0 rd 0x13.

Definition jalr (inst : Z) : Z := jtype (dec_cj_imm inst) 1 0x6f.

Definition li__ (inst : Z) : Z :=
  let rd := dec_rd inst in
  let imm := ((inst .& CI_MASK_12) >> 7) .| ((inst .& (CI_MASK_6_4 .| CI_MASK_3_2)) >> 2) in
  let imm := sign_extend imm 5 in
  if rd =? 0 then nop else itype imm 0 0 rd 0x13.

Definition caddi16sp_to_addi (inst : Z) : Z :=
  let nzimm := ((inst .& 0x1000) >> 3) .| ((inst .& 0x0018) << 4) .| ((inst .& 0x0020) << 1)
    .| ((inst .& 0x0004) << 3) .| ((inst .& 0x0040) >> 2) in
  let nzimm := sign_extend nzimm 9 in
  if nzimm =? 0 then 0 else itype nzimm 2 0 2 0x13.

Definition clui_to_lui (inst : Z) : Z :=
  let rd := dec_rd inst in
  let nzimm := ((inst .& CI_MASK_12) << 5) .| ((inst .& (CI_MASK_6_4 .| CI_MASK_3_2)) << 10) in
  let nzimm := sign_extend nzimm 17 in
  if nzimm =? 0 then (if (rd <? 16) && nz (rd .& 1) then nop else 0)
  else if rd =? 0 then nop
  else utype nzimm rd 0x37.

Definition lui_ (inst : Z) : Z :=
  if dec_rd inst =? 2 then caddi16sp_to_addi inst else clui_to_lui inst.

Definition csrli_to_srli (inst : Z) : Z :=
  let shamt := (inst .& CI_MASK_12) >> 7 in
  if negb (shamt =? 0) then 0
  else
    let shamt := shamt .| ((inst .& (CI_MASK_6_4 .| CI_MASK_3_2)) >> 2) in
    if shamt =? 0 then 0
    else let rd := dec_rs1_short inst in rtype 0 shamt rd 5 rd 0x13.

Definition csrai_to_srai (inst : Z) : Z :=
  let shamt := (inst .& CI_MASK_12) >> 7 in
  if negb (shamt =? 0) then 0
  else
    let shamt := shamt .| ((inst .& (CI_MASK_6_4 .| CI_MASK_3_2)) >> 2) in
    if shamt =? 0 then 0
    else let rd := dec_rs1_short inst in rtype 0x20 shamt rd 5 rd 0x13.

Definition candi_to_andi (inst : Z) : Z :=
  let rd := dec_rs1_short inst in
  let imm := ((inst .& CI_MASK_12) >> 7) .| ((inst .& (CI_MASK_6_4 .| CI_MASK_3_2)) >> 2) in
  let imm := sign_extend imm 5 in
  itype imm rd 7 rd 0x13.

Definition csub_to_sub (inst : Z) : Z :=
  let rd := dec_rs1_short inst in
  rtype 0x20 (dec_rs2_short inst) rd 0 rd 0x33.

Definition cxor_to_xor (inst : Z) : Z :=
  let rd := dec_rs1_short inst in
  rtype 0 (dec_rs2_short inst) rd 4 rd 0x33.

Definition cor_to_or (inst : Z) : Z :=
  let rd := dec_rs1_short inst in
  rtype 0 (dec_rs2_short inst) rd 6 rd 0x33.

Definition cand_to_and (inst : Z) : Z :=
  let rd := dec_rs1_short inst in
  rtype 0 (dec_rs2_short inst) rd 7 rd 0x33.

Definition alu_ (inst : Z) : Z :=
  let cb_funct2 := dec_cb_funct2 inst in
  let cs_funct2 := dec_cs_funct2 inst in
  if cb_funct2 =? 0 then csrli_to_srli inst
  else if cb_funct2 =? 1 then csrai_to_srai inst
  else if cb_funct2 =? 2 then candi_to_andi inst
  else if nz (inst .& 0x1000) then 0
  else if cs_funct2 =? 0 then csub_to_sub inst
  else if cs_funct2 =? 1 then cxor_to_xor inst
  else if cs_funct2 =? 2 then cor_to_or inst
  else if cs_funct2 =? 3 then cand_to_and inst
  else nop.

Definition jal_ (inst : Z) : Z := jtype (dec_cj_imm inst) 0 0x6f.

Definition beqz (inst : Z) : Z :=
  btype (dec_branch_imm inst) 0 (dec_rs1_short inst) 0 0x63.

Definition bnez (inst : Z) : Z :=
  btype (dec_branch_imm inst) 0 (dec_rs1_short inst) 1 0x63.

Definition slli____ (inst : Z) : Z :=
  let shamt := (inst .& CI_MASK_12) >> 7 in
  if negb (shamt =? 0) then 0
  else
    let shamt := shamt .| ((inst .& (CI_MASK_6_4 .| CI_MASK_3_2)) >> 2) in
    if shamt =? 0 then 0
    else
      let rd := dec_rd inst in
      if rd =? 0 then nop else rtype 0 shamt rd 1 rd 0x13.

Definition lwsp (inst : Z) : Z :=
  let offset := ((inst .& CI_MASK_12) >> 7) .| ((inst .& CI_MASK_6_4) >> 2)
    .| ((inst .& CI_MASK_3_2) << 4) in
  let rd := dec_rd inst in
  if rd =? 0 then 0 else itype offset 2 2 rd 3.

Definition cjr_to_jalr (inst : Z) : Z :=
  let rs1 := dec_rs1 inst in
  if rs1 =? 0 then 0 else itype 0 rs1 0 0 0x67.

Definition cmv_to_add (inst : Z) : Z :=
  let rs2 := dec_rs2 inst in
  if rs2 =? 0 then 0
  else
    let rd := dec_rd inst in
    if rd =? 0 then nop else rtype 0 rs2 0 0 rd 0x33.

Definition cebreak_to_ebreak : Z := itype 1 0 0 0 0x73.

Definition cjalr_to_jalr (inst : Z) : Z :=
  let rs1 := dec_rs1 inst in
  if rs1 =? 0 then 0 else itype 0 rs1 0 1 0x67.

Definition cadd_to_add (inst : Z) : Z :=
  let rs2 := dec_rs2 inst in
  if rs2 =? 0 then 0
  else
    let rd := dec_rd inst in
    if rd =? 0 then nop else rtype 0 rs2 rd 0 rd 0x33.

Definition jma_ (inst : Z) : Z :=
  let cr_funct4 := dec_cr_funct4 inst in
  let rs1 := dec_rs1 inst in
  let rs2 := dec_rs2 inst in
  if cr_funct4 =? 8 then
    if rs2 =? 0 then cjr_to_jalr inst else cmv_to_add inst
  else if cr_funct4 =? 9 then
    if (rs1 =? 0) && (rs2 =? 0) then cebreak_to_ebreak
    else if rs2 =? 0 then cjalr_to_jalr inst
    else cadd_to_add inst
  else nop.

Definition swsp (inst : Z) : Z := stype (dec_css_imm inst) (dec_rs2 inst) 2 2 0x23.

(** The function table, indexed by [inst[1:0] ++ inst[15:13]]; [None] is [NULL]. *)
Definition dc_funcs_rv32c : list (option (Z -> Z)) :=
  [ Some addi4spn; None; Some lw__; None; None; None; Some sw__; None;
    Some addi____; Some jalr; Some li__; Some lui_; Some alu_; Some jal_; Some beqz; Some bnez;
    Some slli____; None; Some lwsp; None; Some jma_; None; Some swsp; None ].

(** [None] when the index is past the end of the 24-entry table (a word whose
    two low bits are [11]), where the C access is undefined. *)
Definition decompress_c_ref (inst : Z) : option Z :=
  let inst := inst .& 0xFFFF in
  let op_func3 := ((inst .& 0x0003) << 3) .| ((inst .& 0xE000) >> 13) in
  match dc_funcs_rv32c !! Z.to_nat op_func3 with
  | Some (Some f) => Some (f inst)
  | Some None => Some 0
  | None => None
  end.
