(* ===== verification/Decompress.v ===== *)
(** * Decompress: expansion of compressed instructions ([inst_c.c]) and the
    table-driven RV32C checker it is compared with ([inst_c_ref.c]). *)
From Stdlib Require Import String.
From S2P Require Import Prelude Config InstPat RvC DecompressRef.

Section Decompress.
Context {Cfg : Config}.

(** The locals [imm], [rs1], [rs2], [rd] an [INSTPAT_MATCH] declares. *)
Definition operands : Type := Z * Z * Z * Z.

Definition decode_operand (inst : Z) (format : rvc_format) : operands :=
  match format with
  | CR => (0, dec_rs1 inst, dec_rs2 inst, dec_rd inst)
  | CI => (dec_ci_imm inst, 0, dec_rs2 inst, dec_rd inst)
  | CSS => (dec_css_imm inst, 0, dec_rs2 inst, 0)
  | CIW => (dec_ciw_imm inst, 0, 0, dec_rd_short inst)
  | CL => (dec_clw_csw_imm inst, dec_rs1_short inst, 0, dec_rd_short inst)
  | CS => (dec_clw_csw_imm inst, dec_rs1_short inst, dec_rs2_short inst, 0)
  | CA => (0, dec_rs1_short inst, dec_rs2_short inst, 0)
  | CB => (dec_branch_imm inst, dec_rs1_short inst, 0, 0)
  | CJ => (dec_cj_imm inst, 0, 0, 0)
  | CN => (0, 0, 0, 0)
  end.

(** [INSTPAT(pattern, name, format, { di = body; })]. *)
Definition PAT (pattern : string) (format : rvc_format) (body : Z -> Z -> Z -> Z -> Z -> Z)
    : string * (Z -> Z) :=
  (pattern, fun s => let '(imm, rs1, rs2, rd) := decode_operand s format in
                     body s imm rs1 rs2 rd).

Definition rvc_quadrant0 : list (string * (Z -> Z)) :=
  [ (* c.inv *) PAT "000 00000000 000 00" CN (fun s imm rs1 rs2 rd =>
      0);
    (* c.addi4spn *) PAT "000 ???????? ??? 00" CIW (fun s imm rs1 rs2 rd =>
      if imm =? 0 then 0 else itype imm 2 0 rd 0x13);
    (* c.fld *) PAT "001 ???????? ??? 00" CL (fun s imm rs1 rs2 rd =>
      itype (dec_cld_csd_imm s) rs1 3 rd 7);
    (* c.lq *) PAT "001 ???????? ??? 00" CL (fun s imm rs1 rs2 rd =>
      0);
    (* c.lw *) PAT "010 ???????? ??? 00" CL (fun s imm rs1 rs2 rd =>
      itype imm rs1 2 rd 3) ]
  ++ (if CONFIG_RV64 then
      [ (* c.ld *) PAT "011 ???????? ??? 00" CL (fun s imm rs1 rs2 rd =>
      itype (dec_cld_csd_imm s) rs1 3 rd 3) ]
    else
      [ (* c.flw *) PAT "011 ???????? ??? 00" CL (fun s imm rs1 rs2 rd =>
      itype imm rs1 2 rd 7) ])
  ++ [ (* c.ld *) PAT "011 ???????? ??? 00" CL (fun s imm rs1 rs2 rd =>
      0);
    (* c.lbu *) PAT "100 000 ??? ?? ??? 00" CL (fun s imm rs1 rs2 rd =>
      let uimm := dec_zcb_imm_b s in itype uimm rs1 4 rd 3);
    (* c.lhu *) PAT "100 001 ??? 0? ??? 00" CL (fun s imm rs1 rs2 rd =>
      let uimm := dec_zcb_imm_h s in itype uimm rs1 5 rd 3);
    (* c.lh *) PAT "100 001 ??? 1? ??? 00" CL (fun s imm rs1 rs2 rd =>
      let uimm := dec_zcb_imm_h s in itype uimm rs1 1 rd 3);
    (* c.sb *) PAT "100 010 ??? ?? ??? 00" CS (fun s imm rs1 rs2 rd =>
      let uimm := dec_zcb_imm_b s in stype uimm rs2 rs1 0 0x23);
    (* c.sh *) PAT "100 011 ??? 0? ??? 00" CS (fun s imm rs1 rs2 rd =>
      let uimm := dec_zcb_imm_h s in stype uimm rs2 rs1 1 0x23);
    (* c.rev *) PAT "100 ???????? ??? 00" CN (fun s imm rs1 rs2 rd =>
      0);
    (* c.fsd *) PAT "101 ???????? ??? 00" CS (fun s imm rs1 rs2 rd =>
      stype (dec_cld_csd_imm s) rs2 rs1 3 0x27);
    (* c.sq *) PAT "101 ???????? ??? 00" CS (fun s imm rs1 rs2 rd =>
      0);
    (* c.sw *) PAT "110 ???????? ??? 00" CS (fun s imm rs1 rs2 rd =>
      stype imm rs2 rs1 2 0x23) ]
  ++ (if CONFIG_RV64 then
      [ (* c.sd *) PAT "111 ???????? ??? 00" CS (fun s imm rs1 rs2 rd =>
      stype (dec_cld_csd_imm s) rs2 rs1 3 0x23) ]
    else
      [ (* c.fsw *) PAT "111 ???????? ??? 00" CS (fun s imm rs1 rs2 rd =>
      stype imm rs2 rs1 2 0x27) ])
  ++ [ (* c.sd *) PAT "111 ???????? ??? 00" CS (fun s imm rs1 rs2 rd =>
      0) ].

Definition rvc_quadrant1 : list (string * (Z -> Z)) :=
  [ (* c.nop *) PAT "000 ?00000?? ??? 01" CI (fun s imm rs1 rs2 rd =>
      itype imm 0 0 0 0x13);
    (* c.addi *) PAT "000 ???????? ??? 01" CI (fun s imm rs1 rs2 rd =>
      if (rd =? 0) || (imm =? 0) then nop else itype imm rd 0 rd 0x13) ]
  ++ (if CONFIG_RV64 then
      [ (* c.addiw *) PAT "001 ???????? ??? 01" CI (fun s imm rs1 rs2 rd =>
      if rd =? 0 then 0 else itype imm rd 0 rd 0x1b) ]
    else
      [ (* c.jal *) PAT "001 ???????? ??? 01" CJ (fun s imm rs1 rs2 rd =>
      jtype imm 1 0x6f) ])
  ++ [ (* c.addiw *) PAT "001 ???????? ??? 01" CI (fun s imm rs1 rs2 rd =>
      if (rd =? 0) || (imm =? 0) then nop else itype imm rd 0 rd 0x13);
    (* c.li *) PAT "010 ???????? ??? 01" CI (fun s imm rs1 rs2 rd =>
      if rd =? 0 then nop else itype imm 0 0 rd 0x13);
    (* c.addi16sp *) PAT "011 ?00010?? ??? 01" CI (fun s imm rs1 rs2 rd =>
      if (dec_ci_nzimm_addi16sp s) =? 0 then 0 else itype (dec_ci_nzimm_addi16sp s) 2 0 2 0x13);
    (* c.lui *) PAT "011 ???????? ??? 01" CI (fun s imm rs1 rs2 rd =>
      if (dec_ci_nzimm_lui s) =? 0 then (if (rd <? 16) && nz (rd .& 1) then nop else 0) else (if rd =? 0 then nop else utype (dec_ci_nzimm_lui s) rd 0x37));
    (* c.srli *) PAT "100 ?00????? ??? 01" CB (fun s imm rs1 rs2 rd =>
      rtype 0 (dec_cs_shamt s) rs1 5 rs1 0x13);
    (* c.srli64 *) PAT "100 000???00 000 01" CB (fun s imm rs1 rs2 rd =>
      0);
    (* c.srai *) PAT "100 ?01????? ??? 01" CB (fun s imm rs1 rs2 rd =>
      rtype 0x20 (dec_cs_shamt s) rs1 5 rs1 0x13);
    (* c.srai64 *) PAT "100 001???00 000 01" CB (fun s imm rs1 rs2 rd =>
      0);
    (* c.andi *) PAT "100 ?10????? ??? 01" CB (fun s imm rs1 rs2 rd =>
      itype (dec_cb_imm_candi s) rs1 7 rs1 0x13);
    (* c.sub *) PAT "100 011???00 ??? 01" CA (fun s imm rs1 rs2 rd =>
      rtype 0x20 rs2 rs1 0 rs1 0x33);
    (* c.xor *) PAT "100 011???01 ??? 01" CA (fun s imm rs1 rs2 rd =>
      rtype 0 rs2 rs1 4 rs1 0x33);
    (* c.or *) PAT "100 011???10 ??? 01" CA (fun s imm rs1 rs2 rd =>
      rtype 0 rs2 rs1 6 rs1 0x33);
    (* c.and *) PAT "100 011???11 ??? 01" CA (fun s imm rs1 rs2 rd =>
      rtype 0 rs2 rs1 7 rs1 0x33) ]
  ++ (if CONFIG_RV64 then
      [ (* c.subw *) PAT "100 111???00 ??? 01" CA (fun s imm rs1 rs2 rd =>
      rtype 0x20 rs2 rs1 0 rs1 0x3b);
      (* c.addw *) PAT "100 111???01 ??? 01" CA (fun s imm rs1 rs2 rd =>
      rtype 0 rs2 rs1 0 rs1 0x3b) ]
    else
      [ (* c.subw *) PAT "100 111???00 ??? 01" CA (fun s imm rs1 rs2 rd =>
      0);
      (* c.addw *) PAT "100 111???01 ??? 01" CA (fun s imm rs1 rs2 rd =>
      0) ])
  ++ [ (* c.mul *) PAT "100 111???10 ??? 01" CA (fun s imm rs1 rs2 rd =>
      rtype 1 rs2 rs1 0 rs1 0x33);
    (* c.zext.b *) PAT "100 111???11 000 01" CA (fun s imm rs1 rs2 rd =>
      itype 0xff rs1 7 rs1 0x13);
    (* c.sext.b *) PAT "100 111???11 001 01" CA (fun s imm rs1 rs2 rd =>
      rtype 0x30 4 rs1 1 rs1 0x13);
    (* c.zext.h *) PAT "100 111???11 010 01" CA (fun s imm rs1 rs2 rd =>
      if CONFIG_RV64 then rtype 4 0 rs1 4 rs1 0x3b else rtype 4 0 rs1 4 rs1 0x33);
    (* c.sext.h *) PAT "100 111???11 011 01" CA (fun s imm rs1 rs2 rd =>
      rtype 0x30 5 rs1 1 rs1 0x13) ]
  ++ (if CONFIG_RV64 then
      [ (* c.zext.w *) PAT "100 111???11 100 01" CA (fun s imm rs1 rs2 rd =>
      rtype 4 0 rs1 0 rs1 0x3b) ]
    else
      [ (* c.rev *) PAT "100 111???11 100 01" CN (fun s imm rs1 rs2 rd =>
      0) ])
  ++ [ (* c.not *) PAT "100 111???11 101 01" CA (fun s imm rs1 rs2 rd =>
      itype 0xfff rs1 4 rs1 0x13);
    (* c.rev *) PAT "100 111???11 110 01" CN (fun s imm rs1 rs2 rd =>
      0);
    (* c.rev *) PAT "100 111???11 111 01" CN (fun s imm rs1 rs2 rd =>
      0);
    (* c.j *) PAT "101 ???????? ??? 01" CJ (fun s imm rs1 rs2 rd =>
      jtype imm 0 0x6f);
    (* c.beqz *) PAT "110 ???????? ??? 01" CB (fun s imm rs1 rs2 rd =>
      btype imm 0 rs1 0 0x63);
    (* c.bnez *) PAT "111 ???????? ??? 01" CB (fun s imm rs1 rs2 rd =>
      btype imm 0 rs1 1 0x63) ].

Definition rvc_quadrant2 : list (string * (Z -> Z)) :=
  [ (* c.slli *) PAT "000 ???????? ??? 10" CI (fun s imm rs1 rs2 rd =>
      if (rd =? 0) && ((dec_cs_shamt s) <? (if CONFIG_RV64 then 64 else 32)) then nop else itype (dec_cs_shamt s) rd 1 rd 0x13);
    (* c.slli64 *) PAT "000 0??????? 000 10" CI (fun s imm rs1 rs2 rd =>
      0);
    (* c.fldsp *) PAT "001 ???????? ??? 10" CI (fun s imm rs1 rs2 rd =>
      itype (dec_ci_offset_ldsp s) 2 3 rd 7);
    (* c.lqsp *) PAT "001 ???????? ??? 10" CI (fun s imm rs1 rs2 rd =>
      0);
    (* c.lwsp *) PAT "010 ???????? ??? 10" CI (fun s imm rs1 rs2 rd =>
      if rd =? 0 then 0 else itype (dec_ci_offset_lwsp s) 2 2 rd 3) ]
  ++ (if CONFIG_RV64 then
      [ (* c.ldsp *) PAT "011 ???????? ??? 10" CI (fun s imm rs1 rs2 rd =>
      if rd =? 0 then 0 else itype (dec_ci_offset_ldsp s) 2 3 rd 3) ]
    else
      [ (* c.flwsp *) PAT "011 ???????? ??? 10" CI (fun s imm rs1 rs2 rd =>
      itype (dec_ci_offset_lwsp s) 2 2 rd 7) ])
  ++ [ (* c.ldsp *) PAT "011 ???????? ??? 10" CI (fun s imm rs1 rs2 rd =>
      0);
    (* c.jr *) PAT "100 0?????00 000 10" CR (fun s imm rs1 rs2 rd =>
      if rs1 =? 0 then 0 else rtype 0 0 rs1 0 0 0x67);
    (* c.mv *) PAT "100 0??????? ??? 10" CR (fun s imm rs1 rs2 rd =>
      if (rd =? 0) || (rs2 =? 0) then nop else rtype 0 rs2 0 0 rd 0x33);
    (* c.ebreak *) PAT "100 10000000 000 10" CR (fun s imm rs1 rs2 rd =>
      rtype 0 1 0 0 0 0x73);
    (* c.jalr *) PAT "100 1?????00 000 10" CR (fun s imm rs1 rs2 rd =>
      rtype 0 0 rs1 0 1 0x67);
    (* c.add *) PAT "100 1??????? ??? 10" CR (fun s imm rs1 rs2 rd =>
      if rd =? 0 then nop else rtype 0 rs2 rd 0 rd 0x33);
    (* c.fsdsp *) PAT "101 ???????? ??? 10" CSS (fun s imm rs1 rs2 rd =>
      stype (dec_css_imm_sd s) rs2 2 3 0x27);
    (* c.sqsp *) PAT "101 ???????? ??? 10" CSS (fun s imm rs1 rs2 rd =>
      stype imm rs2 2 2 0x23);
    (* c.swsp *) PAT "110 ???????? ??? 10" CSS (fun s imm rs1 rs2 rd =>
      stype imm rs2 2 2 0x23) ]
  ++ (if CONFIG_RV64 then
      [ (* c.sdsp *) PAT "111 ???????? ??? 10" CSS (fun s imm rs1 rs2 rd =>
      stype (dec_css_imm_sd s) rs2 2 3 0x23) ]
    else
      [ (* c.fswsp *) PAT "111 ???????? ??? 10" CSS (fun s imm rs1 rs2 rd =>
      stype imm rs2 2 2 0x27) ])
  ++ [ (* c.sdsp *) PAT "111 ???????? ??? 10" CSS (fun s imm rs1 rs2 rd =>
      stype imm rs2 2 2 0x23) ].

Definition rvc_invalid : list (string * (Z -> Z)) :=
  [ (* c.inv *) PAT "??? ???????? ??? ??" CN (fun s imm rs1 rs2 rd =>
      0) ].

Definition rvc_table : list (string * (Z -> Z)) :=
  rvc_quadrant0 ++ rvc_quadrant1 ++ rvc_quadrant2 ++ rvc_invalid.

Definition decompress_c (inst : Z) : Z :=
  let s := inst .& 0xFFFF in
  match instpat_first rvc_table s with
  | Some di => di s
  | None => 0
  end.

(** The diagnostic of the RV32 build: the word is printed when this holds.
    [None] when the checker's table is indexed out of range. *)
Definition is_zcb (s : Z) : bool :=
  let op := s .& 0x3 in
  let f3 := (s >> 13) .& 0x7 in
  ((op =? 0x0) && (f3 =? 0x4))
  || ((op =? 0x1) && (f3 =? 0x4)
      && (((s >> 10) .& 0x7) =? 0x7)
      && ((((s >> 5) .& 0x3) =? 0x2) || (((s >> 5) .& 0x3) =? 0x3))).

Definition decompress_mismatch (inst : Z) : option bool :=
  let s := inst .& 0xFFFF in
  let di := decompress_c inst in
  match decompress_c_ref inst with
  | Some di_func => Some (negb (di_func =? di) && negb (di_func =? 0) && negb (is_zcb s))
  | None => None
  end.

(** ** Lemmas *)

Definition decoded_table := map (fun r => (pattern_decode r.1, r.2)) rvc_table.

Definition decompress_with (t : list (option (Z * Z * Z) * (Z -> Z))) (s : Z) : Z :=
  match decoded_first t s with Some di => di s | None => 0 end.

Lemma decompress_c_with inst : decompress_c inst = decompress_with decoded_table (inst .& 0xFFFF).
Proof. unfold decompress_c, decompress_with. by rewrite instpat_first_decoded. Qed.

Lemma halfword_range inst : 0 <= inst .& 0xFFFF < 65536.
Proof. change 0xFFFF with (Z.ones 16). rewrite Z.land_ones by lia. apply Z.mod_pos_bound. lia. Qed.

Lemma halfword_idem inst : (inst .& 0xFFFF) .& 0xFFFF = inst .& 0xFFFF.
Proof. by rewrite <-Z.land_assoc. Qed.

(** A 32-bit encoding: fits a word and has the two low bits set. *)
Definition valid_expansion (di : Z) : bool :=
  (di =? 0) || ((0 <=? di) && (di <? 0x100000000) && ((di .& 3) =? 3)).

(** What the exhaustive check evaluates on each halfword. *)
Definition expansion_ok (t : list (option (Z * Z * Z) * (Z -> Z))) (s : Z) : bool :=
  let di := decompress_with t s in
  valid_expansion di
  && match decompress_c_ref s with
     | Some r => CONFIG_RV64 || (r =? 0) || (r =? di)
     | None => (s .& 3) =? 3
     end.

End Decompress.

(** The halfwords are checked in 32 groups, by quadrant and [funct3], each against
    the rows of its group only. *)
Definition group_ok {C : Config} (quadrant funct3 : Z) : bool :=
  let s0 := (funct3 << 13) .| quadrant in
  let t := List.filter (row_compatible 0xE003 s0) (decoded_table (Cfg := C)) in
  all_below 2048 (fun x => expansion_ok t (s0 .| (x << 2))).

Definition groups_ok {C : Config} : bool :=
  all_below 4 (fun quadrant => all_below 8 (group_ok (C := C) quadrant)).

Lemma all_groups_32 : groups_ok (C := riscv32_ref) = true.
Proof. vm_cast_no_check (eq_refl true). Qed.

Lemma all_groups_64 : groups_ok (C := riscv64_ref) = true.
Proof. vm_cast_no_check (eq_refl true). Qed.

Lemma halfword_split s :
  0 <= s < 65536 ->
  0 <= (s >> 2) .& 2047 < 2048 /\ 0 <= s .& 3 < 4 /\ 0 <= s >> 13 < 8 /\
  s = (((s >> 13) << 13) .| (s .& 3)) .| (((s >> 2) .& 2047) << 2) /\
  s .& 0xE003 = ((s >> 13) << 13) .| (s .& 3).
Proof.
  intros Hs. change 2047 with (Z.ones 11). change 3 with (Z.ones 2).
  assert (F : fits 16 s) by (unfold fits; lia).
  assert (F3 : fits 3 (s >> 13)).
  { split; [apply Z.shiftr_nonneg; lia|]. rewrite Z.shiftr_div_pow2 by lia.
    apply Z.div_lt_upper_bound; lia. }
  split; [rewrite Z.land_ones by lia; apply Z.mod_pos_bound; lia|].
  split; [rewrite Z.land_ones by lia; apply Z.mod_pos_bound; lia|].
  split; [exact F3|]. split; [bits|].
  change 0xE003 with ((Z.ones 3 << 13) .| Z.ones 2). bits.
Qed.

Lemma groups_ok_spec {C : Config} s :
  groups_ok (C := C) = true -> 0 <= s < 65536 ->
  expansion_ok (Cfg := C) (decoded_table (Cfg := C)) s = true.
Proof.
  intros H Hs. destruct (halfword_split s Hs) as (R1 & R2 & R3 & E & G).
  unfold groups_ok in H. generalize (all_below_spec _ _ H _ R2). clear H. intros H.
  generalize (all_below_spec _ _ H _ R3). clear H. unfold group_ok. intros H.
  generalize (all_below_spec _ _ H _ R1). clear H. rewrite <-E, <-G.
  unfold expansion_ok, decompress_with. by rewrite decoded_first_compatible.
Qed.

(** The table depends on the configuration only through the word width. *)
Lemma decoded_table_cfg (C : Config) :
  decoded_table (Cfg := C) =
  decoded_table (Cfg := if CONFIG_RV64 (Config := C) then riscv64_ref else riscv32_ref).
Proof. destruct C as [b]. destruct b; reflexivity. Qed.

Lemma expansion_ok_all {C : Config} inst :
  expansion_ok (Cfg := if CONFIG_RV64 then riscv64_ref else riscv32_ref)
    (decoded_table (Cfg := C)) (inst .& 0xFFFF) = true.
Proof.
  rewrite decoded_table_cfg. pose proof (halfword_range inst) as R.
  destruct (CONFIG_RV64 (Config := C)).
  - exact (groups_ok_spec _ all_groups_64 R).
  - exact (groups_ok_spec _ all_groups_32 R).
Qed.

Lemma decompress_c_ref_halfword inst : decompress_c_ref (inst .& 0xFFFF) = decompress_c_ref inst.
Proof. unfold decompress_c_ref. by rewrite halfword_idem. Qed.

Lemma decompress_c_cases {C : Config} inst :
  decompress_c (Cfg := C) inst = 0 \/
  fits 32 (decompress_c (Cfg := C) inst) /\ decompress_c (Cfg := C) inst .& 3 = 3.
Proof.
  pose proof (expansion_ok_all (C := C) inst) as H.
  unfold expansion_ok in H. rewrite <-decompress_c_with in H.
  apply andb_true_iff in H as [H _]. unfold valid_expansion in H.
  rewrite orb_true_iff, !andb_true_iff in H. unfold fits. change (2 ^ 32) with 0x100000000.
  destruct H as [?|[[? ?] ?]]; [left|right]; lia.
Qed.

(** ** Properties *)

(** Expanding a halfword yields 0 (an illegal instruction) or a 32-bit
    instruction: a word below [2^32] whose two low bits are set. *)
Theorem decompress_c_valid {C : Config} inst :
  let di := decompress_c (Cfg := C) inst in
  di = 0 \/ (fits 32 di /\ di .& 3 = 3).
Proof. apply decompress_c_cases. Qed.

(** C20: on RV32 the two decompressors agree on every compressed word the
    checker decodes, so the mismatch diagnostic is never printed. *)
Theorem decompress_c_ref_agrees {C : Config} inst :
  CONFIG_RV64 = false -> inst .& 3 <> 3 ->
  (decompress_c_ref inst = Some 0 \/ decompress_c_ref inst = Some (decompress_c inst)) /\
  decompress_mismatch inst = Some false.
Proof.
  intros H32 Hlow. pose proof (expansion_ok_all (C := C) inst) as H. rewrite H32 in H.
  unfold expansion_ok in H. rewrite <-decompress_c_with, decompress_c_ref_halfword in H.
  apply andb_true_iff in H as [_ H].
  assert (E : (inst .& 0xFFFF) .& 3 = inst .& 3) by (by rewrite <-Z.land_assoc).
  rewrite E in H. unfold decompress_mismatch.
  destruct (decompress_c_ref inst) as [r|]; [|apply Z.eqb_eq in H; done].
  apply orb_true_iff in H as [H|H]; apply Z.eqb_eq in H as ->.
  - split; [by left|]. by rewrite andb_false_r.
  - split; [by right|]. by rewrite Z.eqb_refl.
Qed.

Lemma decompress_c_ref_agrees_witness :
  decompress_c_ref 0x8d0d = Some (decompress_c (Cfg := riscv32_ref) 0x8d0d) /\
  decompress_mismatch (Cfg := riscv32_ref) 0x8d0d = Some false.
Proof.
  destruct (@decompress_c_ref_agrees riscv32_ref 0x8d0d eq_refl ltac:(by vm_compute)) as [H M].
  split; [vm_compute; reflexivity | exact M].
Defined.
