(* ===== verification/Alu.v ===== *)
(** * Alu: the integer operations of [inst.c], on [word_t] operands *)
From S2P Require Import Prelude Config.

Section Alu.
Context {Cfg : Config}.

(** ** Multiplication and division *)

(** [(dword_t)(sword_t)src1 * (dword_t)(sword_t)src2 >> MULH_SHIFT], in the
    double-width signed type; the unsigned variant in [udword_t]. *)
Definition alu_mul (src1 src2 : Z) : Z := word (src1 * src2).
Definition alu_mulh (src1 src2 : Z) : Z :=
  word (signed (2 * XLEN) (sword src1 * sword src2) >> XLEN).
Definition alu_mulhsu (src1 src2 : Z) : Z :=
  word (signed (2 * XLEN) (sword src1 * src2) >> XLEN).
Definition alu_mulhu (src1 src2 : Z) : Z :=
  word (wrap (2 * XLEN) (src1 * src2) >> XLEN).

Definition INT_MIN : Z := 1 << (XLEN - 1).

Definition alu_div (src1 src2 : Z) : Z :=
  if sword src2 =? 0 then wnot 0
  else if (src1 =? INT_MIN) && (sword src2 =? -1) then src1
  else word (Z.quot (sword src1) (sword src2)).
Definition alu_divu (src1 src2 : Z) : Z :=
  if src2 =? 0 then wnot 0 else src1 `div` src2.
Definition alu_rem (src1 src2 : Z) : Z :=
  if sword src2 =? 0 then src1
  else if (src1 =? INT_MIN) && (sword src2 =? -1) then 0
  else word (Z.rem (sword src1) (sword src2)).
Definition alu_remu (src1 src2 : Z) : Z :=
  if src2 =? 0 then src1 else src1 `mod` src2.

(** [SEXT(x, 32)] of a 32-bit result. *)
Definition sext32 (x : Z) : Z := word (SEXT x 32).

Definition INT32_MIN : Z := - 2 ^ 31.
Definition alu_divw (src1 src2 : Z) : Z :=
  if signed 32 src2 =? 0 then sext32 (Z.ones 32)
  else if (signed 32 src1 =? INT32_MIN) && (signed 32 src2 =? -1) then sext32 (wrap 32 INT32_MIN)
  else sext32 (Z.quot (signed 32 src1) (signed 32 src2)).
Definition alu_divuw (src1 src2 : Z) : Z :=
  if wrap 32 src2 =? 0 then sext32 (Z.ones 32) else sext32 (wrap 32 src1 `div` wrap 32 src2).
Definition alu_remw (src1 src2 : Z) : Z :=
  if signed 32 src2 =? 0 then sext32 (wrap 32 src1)
  else if (signed 32 src1 =? INT32_MIN) && (signed 32 src2 =? -1) then 0
  else sext32 (Z.rem (signed 32 src1) (signed 32 src2)).
Definition alu_remuw (src1 src2 : Z) : Z :=
  if wrap 32 src2 =? 0 then sext32 (wrap 32 src1) else sext32 (wrap 32 src1 `mod` wrap 32 src2).

(** ** Bit counts. The loops, with [n] iterations left. *)

(** [for (i = w - 1; i >= 0; i--) if ((x >> i) & 1) { count = w - 1 - i; break; }], [i = n - 1]. *)
Fixpoint clz_loop (w x : Z) (n : nat) : Z :=
  match n with
  | O => w
  | S n => if nz ((x >> Z.of_nat n) .& 1) then w - 1 - Z.of_nat n else clz_loop w x n
  end.
(** [for (i = 0; i < w; i++) if ((x >> i) & 1) { count = i; break; }], from [i]. *)
Fixpoint ctz_loop (w x : Z) (n : nat) (i : Z) : Z :=
  match n with
  | O => w
  | S n => if nz ((x >> i) .& 1) then i else ctz_loop w x n (i + 1)
  end.
Fixpoint cpop_loop (x : Z) (n : nat) (i count : Z) : Z :=
  match n with
  | O => count
  | S n => cpop_loop x n (i + 1) (if nz ((x >> i) .& 1) then count + 1 else count)
  end.

Definition alu_clz (src1 : Z) : Z := clz_loop XLEN src1 (Z.to_nat XLEN).
Definition alu_ctz (src1 : Z) : Z := ctz_loop XLEN src1 (Z.to_nat XLEN) 0.
Definition alu_cpop (src1 : Z) : Z := cpop_loop src1 (Z.to_nat XLEN) 0 0.
Definition alu_clzw (src1 : Z) : Z := clz_loop 32 (wrap 32 src1) 32.
Definition alu_ctzw (src1 : Z) : Z := ctz_loop 32 (wrap 32 src1) 32 0.
Definition alu_cpopw (src1 : Z) : Z := cpop_loop (wrap 32 src1) 32 0 0.

(** ** Rotations and byte permutations *)

Definition alu_rol_by (src1 shamt : Z) : Z :=
  wshl src1 shamt .| (src1 >> ((XLEN - shamt) .& (XLEN - 1))).
Definition alu_ror_by (src1 shamt : Z) : Z :=
  (src1 >> shamt) .| wshl src1 ((XLEN - shamt) .& (XLEN - 1)).
Definition alu_rol (src1 src2 : Z) : Z := alu_rol_by src1 (src2 .& (XLEN - 1)).
Definition alu_ror (src1 src2 : Z) : Z := alu_ror_by src1 (src2 .& (XLEN - 1)).
Definition alu_rori (src1 imm : Z) : Z := alu_ror_by src1 (imm .& (XLEN - 1)).
Definition alu_rolw (src1 src2 : Z) : Z :=
  let x := wrap 32 src1 in
  let shamt := src2 .& 31 in
  sext32 (wrap 32 (x << shamt) .| (x >> ((32 - shamt) .& 31))).
Definition alu_rorw_by (src1 shamt : Z) : Z :=
  let x := wrap 32 src1 in
  sext32 ((x >> shamt) .| wrap 32 (x << ((32 - shamt) .& 31))).
Definition alu_rorw (src1 src2 : Z) : Z := alu_rorw_by src1 (src2 .& 31).
Definition alu_roriw (src1 imm : Z) : Z := alu_rorw_by src1 (imm .& 0x1f).

Fixpoint rev8_loop (x : Z) (n : nat) (i result : Z) : Z :=
  match n with
  | O => result
  | S n => rev8_loop x n (i + 1) (result .| wshl ((x >> (i * 8)) .& 0xff) ((7 - i) * 8))
  end.
Definition rev8_32 (x : Z) : Z :=
  let result := 0 .| wshl (x .& 0xff) 24 in
  let result := result .| wshl ((x >> 8) .& 0xff) 16 in
  let result := result .| wshl ((x >> 16) .& 0xff) 8 in
  result .| ((x >> 24) .& 0xff).
Definition alu_rev8 (src1 : Z) : Z := if CONFIG_RV64 then rev8_loop src1 8 0 0 else rev8_32 src1.

Fixpoint orc_b_loop (x : Z) (n : nat) (i result : Z) : Z :=
  match n with
  | O => result
  | S n => orc_b_loop x n (i + 1)
             (if nz ((x >> (i * 8)) .& 0xff) then result .| wshl 0xff (i * 8) else result)
  end.
Definition alu_orc_b (src1 : Z) : Z := orc_b_loop src1 (Z.to_nat (XLEN / 8)) 0 0.

(** ** Carry-less multiplication *)

Fixpoint clmul_loop (a b : Z) (n : nat) (i result : Z) : Z :=
  match n with
  | O => result
  | S n => clmul_loop a b n (i + 1) (if nz ((b >> i) .& 1) then result .^ wshl a i else result)
  end.
Fixpoint clmulh_loop (a b : Z) (n : nat) (i result : Z) : Z :=
  match n with
  | O => result
  | S n => clmulh_loop a b n (i + 1) (if nz ((b >> i) .& 1) then result .^ (a >> (XLEN - i)) else result)
  end.
Fixpoint clmulr_loop (a b : Z) (n : nat) (i result : Z) : Z :=
  match n with
  | O => result
  | S n => clmulr_loop a b n (i + 1)
             (if nz ((b >> i) .& 1) then result .^ (a >> (XLEN - 1 - i)) else result)
  end.
Definition alu_clmul (src1 src2 : Z) : Z := clmul_loop src1 src2 (Z.to_nat XLEN) 0 0.
Definition alu_clmulh (src1 src2 : Z) : Z := clmulh_loop src1 src2 (Z.to_nat (XLEN - 1)) 1 0.
Definition alu_clmulr (src1 src2 : Z) : Z := clmulr_loop src1 src2 (Z.to_nat XLEN) 0 0.

End Alu.
