(* ===== verification/AluSpec.v ===== *)
(** * AluSpec: the integer operations compute what the ISA manual defines *)
From S2P Require Import Prelude Config Alu.

Section AluSpec.
Context {Cfg : Config}.

(** ** Signed views of words *)

Lemma signed_diff w x : 0 < w -> exists k, signed w x = x + k * 2 ^ w.
Proof.
  intros Hw. exists (- (x / 2 ^ w) - (if Z.testbit (wrap w x) (w - 1) then 1 else 0)).
  unfold signed. rewrite wrap_mod, Z.shiftl_mul_pow2 by lia.
  pose proof (Z.div_mod x (2 ^ w)). destruct (Z.testbit _ _); lia.
Qed.

Lemma signed_fits w x : 0 < w -> fits w x ->
  signed w x = if 2 ^ (w - 1) <=? x then x - 2 ^ w else x.
Proof.
  intros Hw Hx. pose proof (signed_range w x Hw). destruct (signed_diff w x Hw) as [k E].
  assert (P : 2 ^ w = 2 * 2 ^ (w - 1)).
  { replace w with (Z.succ (w - 1)) at 1 by lia. apply Z.pow_succ_r. lia. }
  unfold fits in Hx. assert (-2 < k < 1) by nia.
  assert (k = -1 \/ k = 0) as [->| ->] by lia; destruct (Z.leb_spec (2 ^ (w - 1)) x); lia.
Qed.

Lemma wrap_signed_inj w x y : 0 < w -> fits w x -> fits w y -> signed w x = signed w y -> x = y.
Proof.
  intros Hw Hx Hy E. rewrite <-(wrap_small w x), <-(wrap_small w y), <-(signed_congr w x), <-(signed_congr w y)
    by (done || lia). by rewrite E.
Qed.

Lemma signed_wrap w x : 0 < w -> signed w (wrap w x) = signed w x.
Proof. intros Hw. unfold signed. by rewrite wrap_wrap by lia. Qed.

(** ** Multiplication *)

Lemma wrap_mul_signed w a b : 0 < w -> wrap w (signed w a * signed w b) = wrap w (a * b).
Proof.
  intros Hw. destruct (signed_diff w a Hw) as [k ->], (signed_diff w b Hw) as [l ->].
  rewrite !wrap_mod by lia.
  replace ((a + k * 2 ^ w) * (b + l * 2 ^ w))
    with (a * b + (a * l + k * b + k * l * 2 ^ w) * 2 ^ w) by ring.
  apply Z.mod_add. lia.
Qed.

Lemma wrap_mul_signed_l w a b : 0 < w -> wrap w (signed w a * b) = wrap w (a * b).
Proof.
  intros Hw. destruct (signed_diff w a Hw) as [k ->]. rewrite !wrap_mod by lia.
  replace ((a + k * 2 ^ w) * b) with (a * b + (k * b) * 2 ^ w) by ring. apply Z.mod_add. lia.
Qed.

(** The high word of a signed double-width product, and the low one. *)
Lemma high_low w p : 0 < w -> - 2 ^ (2 * w - 1) <= p < 2 ^ (2 * w - 1) ->
  signed w (wrap w (signed (2 * w) p >> w)) * 2 ^ w + wrap w p = p.
Proof.
  intros Hw Hp. assert (E : signed (2 * w) p = p).
  { destruct (signed_diff (2 * w) p ltac:(lia)) as [k Ek]. pose proof (signed_range (2 * w) p ltac:(lia)).
    assert (P : 2 ^ (2 * w) = 2 * 2 ^ (2 * w - 1)).
    { replace (2 * w) with (Z.succ (2 * w - 1)) at 1 by lia. apply Z.pow_succ_r. lia. }
    assert (-1 < k < 1) by nia. assert (k = 0) as -> by lia. lia. }
  rewrite E, Z.shiftr_div_pow2 by lia.
  assert (P : 2 ^ (2 * w - 1) = 2 ^ (w - 1) * 2 ^ w) by (rewrite <-Z.pow_add_r by lia; f_equal; lia).
  rewrite signed_small; [|lia|].
  - rewrite wrap_mod by lia. pose proof (Z.div_mod p (2 ^ w)). lia.
  - assert (0 < 2 ^ w) by lia. split; [apply Z.div_le_lower_bound|apply Z.div_lt_upper_bound]; lia.
Qed.

Lemma pow_double w : 0 < w -> 2 ^ (2 * w - 1) = 2 * (2 ^ (w - 1) * 2 ^ (w - 1)) /\ 2 ^ w = 2 * 2 ^ (w - 1).
Proof.
  intros Hw. split.
  - rewrite <-Z.pow_add_r, <-Z.pow_succ_r by lia. f_equal. lia.
  - rewrite <-Z.pow_succ_r by lia. f_equal. lia.
Qed.

Lemma product_signed P x y : 0 < P -> - P <= x < P -> - P <= y < P -> - (2 * (P * P)) <= x * y < 2 * (P * P).
Proof.
  intros HP Hx Hy. assert (Z.abs x * Z.abs y <= P * P) by (apply Z.mul_le_mono_nonneg; lia).
  rewrite <-Z.abs_mul in *. nia.
Qed.

Lemma product_mixed P x y : 0 < P -> - P <= x < P -> 0 <= y < 2 * P -> - (2 * (P * P)) <= x * y < 2 * (P * P).
Proof. intros HP Hx Hy. split; [destruct (Z.le_gt_cases 0 x); nia|]. destruct (Z.le_gt_cases 0 x); nia. Qed.

(** Multiplication: the result of [mulh], [mulhsu] or [mulhu] above the
    result of [mul] is the whole product of the signed or unsigned operands. *)
Theorem alu_mul_spec a b :
  fits XLEN a -> fits XLEN b ->
  sword (alu_mulh a b) * 2 ^ XLEN + alu_mul a b = sword a * sword b /\
  sword (alu_mulhsu a b) * 2 ^ XLEN + alu_mul a b = sword a * b /\
  alu_mulhu a b * 2 ^ XLEN + alu_mul a b = a * b.
Proof.
  intros [A0 A1] [B0 B1]. pose proof xlen_gt as X. destruct (pow_double XLEN X) as [P1 P2].
  pose proof (signed_range XLEN a X). pose proof (signed_range XLEN b X).
  unfold alu_mulh, alu_mulhsu, alu_mulhu, alu_mul, sword, word. split_and!.
  - rewrite <-(wrap_mul_signed XLEN a b) by lia. apply high_low; [lia|]. rewrite P1.
    apply product_signed; lia.
  - rewrite <-(wrap_mul_signed_l XLEN a b) by lia. apply high_low; [lia|]. rewrite P1.
    apply product_mixed; lia.
  - assert (E : 2 ^ (2 * XLEN) = 2 ^ XLEN * 2 ^ XLEN) by (rewrite <-Z.pow_add_r by lia; f_equal; lia).
    rewrite (wrap_small (2 * XLEN)) by (unfold fits; nia). rewrite Z.shiftr_div_pow2 by lia.
    rewrite (wrap_small XLEN (_ / _)).
    + rewrite wrap_mod by lia. pose proof (Z.div_mod (a * b) (2 ^ XLEN)). lia.
    + lia.
    + split; [apply Z.div_pos; nia|apply Z.div_lt_upper_bound; nia].
Qed.

(** ** Division *)

(** [q] and [r] are the quotient and the remainder of [a] by [b], as the M
    extension defines them on [w]-bit signed operands. *)
Definition division_ok (w a b q r : Z) : Prop :=
  let '(a', b', q', r') := (signed w a, signed w b, signed w q, signed w r) in
  if b' =? 0 then q' = -1 /\ r' = a'
  else if (a' =? - 2 ^ (w - 1)) && (b' =? -1) then q' = a' /\ r' = 0
  else a' = b' * q' + r' /\ Z.abs r' < Z.abs b' /\ 0 <= r' * a'.

Definition udivision_ok (w a b q r : Z) : Prop :=
  if b =? 0 then q = 2 ^ w - 1 /\ r = a else a = b * q + r /\ 0 <= r < b.

Lemma quot_range w x y : 0 < w ->
  - 2 ^ (w - 1) <= x < 2 ^ (w - 1) -> y <> 0 -> ~ (x = - 2 ^ (w - 1) /\ y = -1) ->
  - 2 ^ (w - 1) <= Z.quot x y < 2 ^ (w - 1).
Proof.
  intros Hw Hx Hy Ho. destruct (Z.le_gt_cases 0 x).
  - pose proof (Z.mul_quot_le x y ltac:(lia) Hy). assert (y <= -1 \/ 1 <= y) as [] by lia; nia.
  - pose proof (Z.mul_quot_ge x y ltac:(lia) Hy).
    assert (y <= -2 \/ y = -1 \/ 1 <= y) as [|[->|]] by lia; nia.
Qed.

Lemma rem_range w x y : 0 < w ->
  - 2 ^ (w - 1) <= y < 2 ^ (w - 1) -> y <> 0 -> - 2 ^ (w - 1) <= Z.rem x y < 2 ^ (w - 1).
Proof. intros Hw Hy Hn. pose proof (Z.rem_bound_abs x y Hn). lia. Qed.

(** Truncated division, wrapped to [w] bits. *)
Lemma quot_rem_ok w a b : 0 < w ->
  signed w b <> 0 -> ~ (signed w a = - 2 ^ (w - 1) /\ signed w b = -1) ->
  division_ok w a b (wrap w (Z.quot (signed w a) (signed w b))) (wrap w (Z.rem (signed w a) (signed w b))).
Proof.
  intros Hw Hb Ho. pose proof (signed_range w a Hw) as Ra. pose proof (signed_range w b Hw) as Rb.
  unfold division_ok. rewrite !signed_small; [|lia|by apply rem_range|lia|by apply quot_range].
  destruct (Z.eqb_spec (signed w b) 0); [done|].
  replace ((signed w a =? - 2 ^ (w - 1)) && (signed w b =? -1)) with false by lia.
  split_and!.
  - by apply Z.quot_rem.
  - by apply Z.rem_bound_abs.
  - rewrite Z.mul_comm, Z.mul_comm. by apply Z.rem_sign_mul.
Qed.

Lemma div_mod_ok w a b : 0 < w -> fits w a -> fits w b -> b <> 0 -> udivision_ok w a b (a `div` b) (a `mod` b).
Proof.
  intros Hw Ha Hb Hn. unfold udivision_ok, fits in *. destruct (Z.eqb_spec b 0); [done|].
  split; [apply Z.div_mod; done|apply Z.mod_pos_bound; lia].
Qed.

Lemma INT_MIN_signed a : fits XLEN a -> (a =? INT_MIN) = (sword a =? - 2 ^ (XLEN - 1)).
Proof.
  intros Ha. pose proof xlen_gt as X. destruct (pow_double XLEN X) as [_ P]. unfold sword, INT_MIN, fits in *.
  rewrite signed_fits, Z.shiftl_mul_pow2, Z.mul_1_l by (done || lia).
  destruct (Z.leb_spec (2 ^ (XLEN - 1)) a); lia.
Qed.

Lemma wnot_0 : wnot 0 = 2 ^ XLEN - 1.
Proof.
  pose proof xlen_pos. unfold wnot, word. rewrite wrap_mod by lia. change (~~ 0) with (-1).
  symmetry. apply (Z.mod_unique _ _ (-1)); lia.
Qed.

Lemma signed_all_ones w : 0 < w -> signed w (2 ^ w - 1) = -1.
Proof.
  intros Hw. destruct (pow_double w Hw) as [_ P]. rewrite signed_fits by (unfold fits; lia).
  destruct (Z.leb_spec (2 ^ (w - 1)) (2 ^ w - 1)); lia.
Qed.

(** The 32-bit operations, through the sign extension of their results. *)
Lemma sext32_testbit x i : 0 <= i ->
  Z.testbit (sext32 x) i = (i <? XLEN) && Z.testbit x (if i <? 32 then i else 31).
Proof.
  intros Hi. pose proof xlen_cases as X. unfold sext32, word, SEXT. rewrite !testbit_wrap, testbit_signed by lia.
  destruct X as [->| ->]; destruct (Z.ltb_spec i 32), (Z.ltb_spec i 64); simpl; try lia; try done.
Qed.

Lemma low_index i : 0 <= i -> 0 <= (if i <? 32 then i else 31) < 32.
Proof. intros. destruct (Z.ltb_spec i 32); lia. Qed.

Lemma signed_sext32 x : signed 32 (sext32 x) = signed 32 x.
Proof.
  pose proof xlen_pos. apply Z.bits_inj'. intros i Hi. pose proof (low_index i Hi) as L.
  rewrite !testbit_signed by lia. change (32 - 1) with 31. rewrite sext32_testbit by lia.
  generalize dependent (if i <? 32 then i else 31). intros j Hj.
  replace (j <? XLEN) with true by lia. by replace (j <? 32) with true by lia.
Qed.

Lemma sext32_idem x : sext32 (sext32 x) = sext32 x.
Proof. unfold sext32 at 1. unfold SEXT. by rewrite signed_sext32. Qed.

Lemma sext32_wrap x : sext32 (wrap 32 x) = sext32 x.
Proof. unfold sext32, SEXT. by rewrite signed_wrap by lia. Qed.

Lemma division_ok_signed w a b q r q' r' :
  signed w q = signed w q' -> signed w r = signed w r' -> division_ok w a b q' r' -> division_ok w a b q r.
Proof. unfold division_ok. by intros -> ->. Qed.

Lemma div_rem_ok w (a b m1 : Z) :
  0 < w -> fits w a -> m1 = 2 ^ w - 1 ->
  division_ok w a b
    (if signed w b =? 0 then m1 else if (signed w a =? - 2 ^ (w - 1)) && (signed w b =? -1) then a
     else wrap w (Z.quot (signed w a) (signed w b)))
    (if signed w b =? 0 then a else if (signed w a =? - 2 ^ (w - 1)) && (signed w b =? -1) then 0
     else wrap w (Z.rem (signed w a) (signed w b))).
Proof.
  intros Hw Ha ->. destruct (Z.eqb_spec (signed w b) 0) as [Eb|Eb].
  { unfold division_ok. rewrite Eb. cbn. split; [by apply signed_all_ones|done]. }
  destruct ((signed w a =? - 2 ^ (w - 1)) && (signed w b =? -1)) eqn:Eo.
  - unfold division_ok. rewrite Eo. destruct (Z.eqb_spec (signed w b) 0); [done|]. split; [done|].
    rewrite signed_fits by (unfold fits; lia). destruct (Z.leb_spec (2 ^ (w - 1)) 0); [|done].
    pose proof (Z.pow_pos_nonneg 2 (w - 1)). lia.
  - apply quot_rem_ok; [done|done|lia].
Qed.

Lemma udiv_ok w a b m1 : 0 < w -> fits w a -> fits w b -> m1 = 2 ^ w - 1 ->
  udivision_ok w a b (if b =? 0 then m1 else a `div` b) (if b =? 0 then a else a `mod` b).
Proof.
  intros Hw Ha Hb ->. destruct (Z.eqb_spec b 0) as [->|]; [done|]. by apply div_mod_ok.
Qed.

Lemma wrap32_sext32 x : wrap 32 (sext32 x) = wrap 32 x.
Proof. rewrite <-(signed_congr 32 (sext32 x)), signed_sext32 by lia. by apply signed_congr. Qed.


Lemma wrap_div_fits w x y : fits w x -> 0 <= y -> fits w (x `div` y).
Proof.
  intros [H0 H1] Hy. destruct (Z.eq_dec y 0) as [->|]; [rewrite Z.div_0_r; unfold fits; lia|].
  split; [apply Z.div_pos; lia|]. eapply Z.le_lt_trans; [|exact H1]. apply Z.div_le_upper_bound; nia.
Qed.

Lemma if_map {A B} (f : A -> B) (b : bool) x y : f (if b then x else y) = if b then f x else f y.
Proof. by destruct b. Qed.

Lemma division_ok_wrap w a b q r : 0 < w -> division_ok w (wrap w a) b q r -> division_ok w a b q r.
Proof. intros Hw. unfold division_ok. by rewrite signed_wrap. Qed.

Lemma divw_remw_ok a b : division_ok 32 a b (alu_divw a b) (alu_remw a b).
Proof.
  apply division_ok_wrap; [lia|].
  eapply division_ok_signed, (div_rem_ok 32 (wrap 32 a) b _); [..|lia|by apply wrap_fits|done];
    rewrite signed_wrap by lia; change (- 2 ^ (32 - 1)) with INT32_MIN.
  - unfold alu_divw. destruct (signed 32 b =? 0); [by rewrite signed_sext32|].
    destruct ((signed 32 a =? INT32_MIN) && _) eqn:Eo; rewrite signed_sext32, !signed_wrap by lia; [|done].
    change (signed 32 INT32_MIN) with INT32_MIN. lia.
  - unfold alu_remw. destruct (signed 32 b =? 0); [by rewrite signed_sext32, signed_wrap by lia|].
    destruct ((signed 32 a =? INT32_MIN) && _); [done|]. by rewrite signed_sext32, signed_wrap by lia.
Qed.

Lemma divuw_remuw_ok a b :
  udivision_ok 32 (wrap 32 a) (wrap 32 b) (wrap 32 (alu_divuw a b)) (wrap 32 (alu_remuw a b)).
Proof.
  pose proof (wrap_fits 32 a ltac:(lia)) as Ha. pose proof (wrap_fits 32 b ltac:(lia)) as Hb.
  unfold alu_divuw, alu_remuw. rewrite !(if_map (wrap 32)), !wrap32_sext32.
  rewrite (wrap_small 32 (_ `div` _)) by (lia || (apply wrap_div_fits; [done|apply Hb])).
  rewrite (wrap_wrap 32 a) by lia.
  destruct (Z.eqb_spec (wrap 32 b) 0) as [E|E]; [by rewrite E|].
  rewrite (wrap_small 32 (_ `mod` _)).
  - by apply div_mod_ok.
  - lia.
  - unfold fits in *. pose proof (Z.mod_pos_bound (wrap 32 a) (wrap 32 b)). lia.
Qed.

(** Division: [div] and [rem] are the truncated quotient and remainder of
    the signed operands, [divu] and [remu] those of the unsigned ones, with the
    results the M extension fixes for a zero divisor and for the overflow of the
    most negative integer by -1; the W forms do the same on the low 32 bits and
    sign-extend their results. *)
Theorem alu_div_spec a b :
  fits XLEN a -> fits XLEN b ->
  division_ok XLEN a b (alu_div a b) (alu_rem a b) /\
  udivision_ok XLEN a b (alu_divu a b) (alu_remu a b) /\
  division_ok 32 a b (alu_divw a b) (alu_remw a b) /\
  udivision_ok 32 (wrap 32 a) (wrap 32 b) (wrap 32 (alu_divuw a b)) (wrap 32 (alu_remuw a b)) /\
  Forall (fun x => sext32 x = x) [alu_divw a b; alu_divuw a b; alu_remw a b; alu_remuw a b].
Proof.
  intros Ha Hb. pose proof xlen_gt as X. split_and!.
  - unfold alu_div, alu_rem. rewrite INT_MIN_signed by done. apply div_rem_ok; [done..|apply wnot_0].
  - apply udiv_ok; [done..|apply wnot_0].
  - apply divw_remw_ok.
  - apply divuw_remuw_ok.
  - assert (Z0 : sext32 0 = 0) by (unfold sext32, SEXT, word, XLEN; by destruct CONFIG_RV64).
    unfold alu_divw, alu_divuw, alu_remw, alu_remuw.
    repeat constructor; repeat case_match; apply sext32_idem || exact Z0.
Qed.

(** ** Bit counts *)

(** The leading zeros, trailing zeros and set bits of a [w]-bit word. *)
Definition counts_ok (w x lz tz ones : Z) : Prop :=
  lz = (if x =? 0 then w else w - 1 - Z.log2 x) /\
  (if x =? 0 then tz = w else Z.testbit x tz = true /\ forall j, 0 <= j < tz -> Z.testbit x j = false) /\
  ones = Z.of_nat (length (filter (fun j => Z.testbit x j = true) (seqZ 0 w))).

Lemma clz_loop_spec w x n :
  fits (Z.of_nat n) x -> clz_loop w x n = if x =? 0 then w else w - 1 - Z.log2 x.
Proof.
  induction n as [|n IH]; intros Hx; cbn [clz_loop].
  - unfold fits in Hx. assert (x = 0) as -> by (change (2 ^ Z.of_nat 0) with 1 in Hx; lia). done.
  - rewrite nz_shift_testbit by lia. destruct (Z.testbit x (Z.of_nat n)) eqn:E.
    + assert (L : Z.log2 x = Z.of_nat n).
      {  apply Z.le_antisymm.
        - destruct (Z.le_gt_cases (Z.log2 x) (Z.of_nat n)); [done|].
          assert (0 < x) by (destruct (Z.eq_dec x 0) as [->|]; [by rewrite Z.bits_0 in E|]; unfold fits in Hx; lia).
          pose proof (Z.bit_log2 x ltac:(lia)) as B. rewrite (testbit_high _ x (Z.log2 x) Hx) in B by lia. done.
        - destruct (Z.le_gt_cases (Z.of_nat n) (Z.log2 x)); [done|].
          rewrite Z.bits_above_log2 in E; [done| unfold fits in Hx; lia | lia]. }
      destruct (Z.eqb_spec x 0) as [->|]; [by rewrite Z.bits_0 in E|]. by rewrite L.
    + apply IH. apply fits_testbit; [lia|apply Hx|]. intros j Hj.
      destruct (Z.eq_dec j (Z.of_nat n)) as [->|]; [done|]. apply (testbit_high _ _ _ Hx). lia.
Qed.

Lemma ctz_loop_spec w x n i : 0 <= i ->
  (ctz_loop w x n i = w /\ forall j, i <= j < i + Z.of_nat n -> Z.testbit x j = false) \/
  (Z.testbit x (ctz_loop w x n i) = true /\ forall j, i <= j < ctz_loop w x n i -> Z.testbit x j = false).
Proof.
  revert i. induction n as [|n IH]; intros i Hi; cbn [ctz_loop]; [left; split; [done|lia]|].
  rewrite nz_shift_testbit by lia. destruct (Z.testbit x i) eqn:E; [right; split; [done|lia]|].
  destruct (IH (i + 1) ltac:(lia)) as [[-> H]|[H1 H2]].
  - left. split; [done|]. intros j Hj. destruct (Z.eq_dec j i) as [->|]; [done|]. apply H. lia.
  - right. split; [done|]. intros j Hj. destruct (Z.eq_dec j i) as [->|]; [done|]. apply H2. lia.
Qed.

Lemma cpop_loop_spec x n i c : 0 <= i ->
  cpop_loop x n i c = c + Z.of_nat (length (filter (fun j => Z.testbit x j = true) (seqZ i (Z.of_nat n)))).
Proof.
  revert i c. induction n as [|n IH]; intros i c Hi; cbn [cpop_loop].
  { rewrite seqZ_nil by lia. simpl. lia. }
  rewrite IH, nz_shift_testbit by lia. rewrite (seqZ_cons i (Z.of_nat (S n))) by lia.
  replace (Z.succ i) with (i + 1) by lia. replace (Z.pred (Z.of_nat (S n))) with (Z.of_nat n) by lia.
  rewrite filter_cons. destruct (decide (Z.testbit x i = true)) as [E|E].
  - rewrite E. cbn [length]. lia.
  - apply not_true_is_false in E. rewrite E. lia.
Qed.

Lemma counts_loops w x : 0 <= w -> fits w x ->
  counts_ok w x (clz_loop w x (Z.to_nat w)) (ctz_loop w x (Z.to_nat w) 0) (cpop_loop x (Z.to_nat w) 0 0).
Proof.
  intros Hw Hx. assert (En : Z.of_nat (Z.to_nat w) = w) by lia. split_and!.
  - apply clz_loop_spec. by rewrite En.
  - destruct (Z.eqb_spec x 0) as [->|Hn].
    + destruct (ctz_loop_spec w 0 (Z.to_nat w) 0 ltac:(lia)) as [[? _]|[H _]]; [done|]. by rewrite Z.bits_0 in H.
    + destruct (ctz_loop_spec w x (Z.to_nat w) 0 ltac:(lia)) as [[_ H]|H]; [|exact H]. exfalso. apply Hn.
      apply Z.bits_inj'. intros j Hj. rewrite Z.bits_0. destruct (Z.lt_ge_cases j w); [apply H; lia|].
      by apply (testbit_high w).
  - rewrite cpop_loop_spec, En by lia. lia.
Qed.

(** [clz], [ctz] and [cpop] count the leading zeros, the trailing zeros and
    the set bits of a word, with the width of the word for a zero operand; the W
    forms count in its low 32 bits. *)
Theorem alu_counts_spec a :
  fits XLEN a ->
  counts_ok XLEN a (alu_clz a) (alu_ctz a) (alu_cpop a) /\
  counts_ok 32 (wrap 32 a) (alu_clzw a) (alu_ctzw a) (alu_cpopw a).
Proof.
  intros Ha. pose proof xlen_gt. split; [apply counts_loops; [lia|done]|].
  apply (counts_loops 32); [lia|]. by apply wrap_fits.
Qed.

(** ** Rotations and byte permutations *)

Lemma xlen_mask x : x .& (XLEN - 1) = x mod XLEN.
Proof.
  destruct xlen_cases as [->| ->]; [apply (Z.land_ones x 6)|apply (Z.land_ones x 5)]; lia.
Qed.

Lemma testbit_word_at x i : 0 <= i -> Z.testbit (word x) i = (i <? XLEN) && Z.testbit x i.
Proof. intros. pose proof xlen_gt. unfold word. by apply testbit_wrap; [lia|]. Qed.

Lemma rol_by_testbit a n i : fits XLEN a -> 0 <= n < XLEN -> 0 <= i < XLEN ->
  Z.testbit (alu_rol_by a n) i = Z.testbit a ((i - n) mod XLEN).
Proof.
  intros Ha Hn Hi. unfold alu_rol_by, wshl. rewrite xlen_mask, Z.lor_spec, testbit_word_at by lia.
  rewrite Z.shiftl_spec, Z.shiftr_spec by lia. replace (i <? XLEN) with true by lia. cbn [andb].
  destruct (Z.eq_dec n 0) as [->|Hz].
  { rewrite !Z.sub_0_r, Z_mod_same_full, ?Z.add_0_r, ?Z.sub_0_r, Z.mod_small by lia. apply orb_diag. }
  rewrite (Z.mod_small (XLEN - n)) by lia. destruct (Z.le_gt_cases n i).
  - rewrite (testbit_high XLEN a (i + (XLEN - n))), orb_false_r, Z.mod_small by (done || lia). done.
  - rewrite Z.testbit_neg_r by lia. cbn [orb]. f_equal.
    rewrite <-(Z.mod_add _ 1) by lia. rewrite Z.mod_small by lia. lia.
Qed.

Lemma ror_by_testbit a n i : fits XLEN a -> 0 <= n < XLEN -> 0 <= i < XLEN ->
  Z.testbit (alu_ror_by a n) i = Z.testbit a ((i + n) mod XLEN).
Proof.
  intros Ha Hn Hi. unfold alu_ror_by, wshl. rewrite xlen_mask, Z.lor_spec, testbit_word_at by lia.
  rewrite Z.shiftl_spec, Z.shiftr_spec by lia. replace (i <? XLEN) with true by lia. cbn [andb].
  destruct (Z.eq_dec n 0) as [->|Hz].
  { rewrite !Z.sub_0_r, Z_mod_same_full, ?Z.add_0_r, ?Z.sub_0_r, Z.mod_small by lia. apply orb_diag. }
  rewrite (Z.mod_small (XLEN - n)) by lia. destruct (Z.le_gt_cases XLEN (i + n)).
  - rewrite (testbit_high XLEN a (i + n)) by (done || lia). cbn [orb]. f_equal.
    rewrite <-(Z.mod_add _ (-1)) by lia. rewrite Z.mod_small by lia. lia.
  - rewrite (Z.testbit_neg_r a (i - (XLEN - n))), orb_false_r, Z.mod_small by lia. done.
Qed.

(** Byte [j] of the result is byte [n - 1 - j] of the operand. *)
Definition byte_reversed (n i : Z) : Z := 8 * (n - 1 - i / 8) + i mod 8.

Lemma rev8_loop_testbit x n i r j : CONFIG_RV64 = true -> 0 <= i -> i + Z.of_nat n <= 8 -> 0 <= j < 64 ->
  Z.testbit (rev8_loop x n i r) j =
    Z.testbit r j || ((i <=? 7 - j / 8) && (7 - j / 8 <? i + Z.of_nat n) && Z.testbit x (byte_reversed 8 j)).
Proof.
  intros E. assert (X : XLEN = 64) by (unfold XLEN; by rewrite E). unfold byte_reversed.
  pose proof (Z.div_mod j 8 ltac:(lia)) as D. pose proof (Z.mod_pos_bound j 8 ltac:(lia)) as B.
  set (q := j / 8) in *. set (t := j mod 8) in *.
  revert i r. induction n as [|n IH]; intros i r Hi Hn Hj; cbn [rev8_loop].
  { destruct (Z.leb_spec i (7 - q)); cbn [andb]; [|by rewrite orb_false_r].
    rewrite (proj2 (Z.ltb_ge (7 - q) (i + Z.of_nat 0))) by lia. by rewrite orb_false_r. }
  rewrite IH by lia. unfold wshl. rewrite Z.lor_spec, testbit_word_at, X by lia.
  rewrite Z.shiftl_spec by lia. rewrite (proj2 (Z.ltb_lt (j) (64))) by lia. cbn [andb].
  change 0xff with (Z.ones 8).
  destruct (Z.eq_dec i (7 - q)) as [->|Hne].
  - rewrite Z.land_spec, testbit_ones, Z.shiftr_spec by lia.
    rewrite (proj2 (Z.ltb_lt (j - (7 - (7 - q)) * 8) (8))) by lia. rewrite andb_true_r.
    rewrite (proj2 (Z.leb_le (7 - q) (7 - q))) by lia. rewrite (proj2 (Z.ltb_lt (7 - q) (7 - q + Z.of_nat (S n)))) by lia.
    rewrite (proj2 (Z.leb_gt (7 - q + 1) (7 - q))) by lia. cbn [andb]. rewrite orb_false_r. do 2 f_equal. lia.
  - assert (F : Z.testbit ((x >> (i * 8)) .& Z.ones 8) (j - (7 - i) * 8) = false).
    { destruct (Z.lt_ge_cases (j - (7 - i) * 8) 0); [by apply Z.testbit_neg_r|].
      rewrite Z.land_spec, testbit_ones by lia. rewrite (proj2 (Z.ltb_ge (j - (7 - i) * 8) (8))) by lia. apply andb_false_r. }
    rewrite F, orb_false_r. f_equal. f_equal.
    destruct (Z.leb_spec i (7 - q)), (Z.leb_spec (i + 1) (7 - q)),
      (Z.ltb_spec (7 - q) (i + 1 + Z.of_nat n)), (Z.ltb_spec (7 - q) (i + Z.of_nat (S n))); simpl; lia.
Qed.

Lemma rev8_32_testbit x j : CONFIG_RV64 = false -> 0 <= j < 32 ->
  Z.testbit (rev8_32 x) j = Z.testbit x (byte_reversed 4 j).
Proof.
  intros E Hj. assert (X : XLEN = 32) by (unfold XLEN; by rewrite E). unfold byte_reversed.
  pose proof (Z.div_mod j 8 ltac:(lia)) as D. pose proof (Z.mod_pos_bound j 8 ltac:(lia)) as B.
  set (q := j / 8) in *. set (t := j mod 8) in *.
  unfold rev8_32, wshl. cbv zeta. rewrite !Z.lor_spec, Z.bits_0, !testbit_word_at, X by lia.
  rewrite (proj2 (Z.ltb_lt (j) (32))) by lia. cbn [andb orb]. rewrite !Z.shiftl_spec by lia. change 0xff with (Z.ones 8).
  assert (L : forall y k, Z.testbit (y .& Z.ones 8) k = (0 <=? k) && (k <? 8) && Z.testbit y k).
  { intros y k. destruct (Z.leb_spec 0 k); [|by rewrite !Z.testbit_neg_r by lia].
    rewrite Z.land_spec, testbit_ones by lia. apply andb_comm. }
  rewrite !L. assert (q = 0 \/ q = 1 \/ q = 2 \/ q = 3) as [Q|[Q|[Q|Q]]] by lia; rewrite Q in *;
    repeat match goal with |- context [?a <=? ?b] => destruct (Z.leb_spec a b); try lia
                         | |- context [?a <? ?b] => destruct (Z.ltb_spec a b); try lia end;
    cbn [andb orb]; rewrite ?orb_false_r; rewrite ?Z.shiftr_spec by lia; f_equal; lia.
Qed.

Lemma orc_b_loop_testbit x n i r j : 0 <= i -> 8 * (i + Z.of_nat n) <= XLEN -> 0 <= j < XLEN ->
  Z.testbit (orc_b_loop x n i r) j =
    Z.testbit r j || ((i <=? j / 8) && (j / 8 <? i + Z.of_nat n) && nz (getf (8 * (j / 8)) 8 x)).
Proof.
  pose proof (Z.div_mod j 8 ltac:(lia)) as D. pose proof (Z.mod_pos_bound j 8 ltac:(lia)) as B.
  set (q := j / 8) in *. set (t := j mod 8) in *.
  revert i r. induction n as [|n IH]; intros i r Hi Hn Hj; cbn [orc_b_loop].
  { destruct (Z.leb_spec i q); cbn [andb]; [|by rewrite orb_false_r].
    rewrite (proj2 (Z.ltb_ge (q) (i + Z.of_nat 0))) by lia. by rewrite orb_false_r. }
  rewrite IH by lia. destruct (Z.eq_dec i q) as [->|Hne].
  - rewrite (proj2 (Z.leb_le (q) (q))) by lia. rewrite (proj2 (Z.ltb_lt (q) (q + Z.of_nat (S n)))) by lia.
    rewrite (proj2 (Z.leb_gt (q + 1) (q))) by lia. cbn [andb]. rewrite orb_false_r.
    unfold getf. change (Z.ones 8) with 0xff. replace (8 * q) with (q * 8) by lia.
    destruct (nz (x >> (q * 8) .& 0xff)) eqn:En; rewrite ?En; [|by rewrite orb_false_r].
    unfold wshl. rewrite Z.lor_spec, testbit_word_at, Z.shiftl_spec by lia. rewrite (proj2 (Z.ltb_lt j XLEN)) by lia.
    change 0xff with (Z.ones 8). rewrite testbit_ones by lia. rewrite (proj2 (Z.ltb_lt (j - q * 8) 8)) by lia; done.
  - assert (F : forall r', Z.testbit (if nz ((x >> (i * 8)) .& 0xff) then r' .| wshl 0xff (i * 8) else r') j
                  = Z.testbit r' j).
    { intros r'. case_match; [|reflexivity]. unfold wshl. rewrite Z.lor_spec, testbit_word_at, Z.shiftl_spec by lia.
      change 0xff with (Z.ones 8). destruct (Z.lt_ge_cases (j - i * 8) 0).
      - rewrite (Z.testbit_neg_r (Z.ones 8)) by lia. by rewrite andb_false_r, orb_false_r.
      - rewrite testbit_ones by lia. rewrite (proj2 (Z.ltb_ge (j - i * 8) (8))) by lia. by rewrite andb_false_r, orb_false_r. }
    rewrite F. f_equal. f_equal.
    destruct (Z.leb_spec i q), (Z.leb_spec (i + 1) q),
      (Z.ltb_spec q (i + 1 + Z.of_nat n)), (Z.ltb_spec q (i + Z.of_nat (S n))); simpl; lia.
Qed.

(** Rotations rotate, [rev8] reverses the bytes of a word and [orc.b] fills
    the bytes that are not zero, bit by bit. *)
Theorem alu_permute_spec a b i :
  fits XLEN a -> 0 <= i < XLEN ->
  Z.testbit (alu_rol a b) i = Z.testbit a ((i - b) mod XLEN) /\
  Z.testbit (alu_ror a b) i = Z.testbit a ((i + b) mod XLEN) /\
  Z.testbit (alu_rev8 a) i = Z.testbit a (byte_reversed (XLEN / 8) i) /\
  Z.testbit (alu_orc_b a) i = nz (getf (8 * (i / 8)) 8 a).
Proof.
  intros Ha Hi. pose proof xlen_gt as X. split_and!.
  - unfold alu_rol. rewrite xlen_mask, rol_by_testbit by (done || apply Z.mod_pos_bound; lia).
    by rewrite Zminus_mod_idemp_r.
  - unfold alu_ror. rewrite xlen_mask, ror_by_testbit by (done || apply Z.mod_pos_bound; lia).
    by rewrite Zplus_mod_idemp_r.
  - unfold alu_rev8, XLEN in *. destruct CONFIG_RV64 eqn:E.
    + rewrite rev8_loop_testbit by (done || lia). rewrite Z.bits_0. cbn [orb].
      change (64 / 8) with 8. assert (Q : 0 <= i / 8 < 8) by (split; [apply Z.div_pos|apply Z.div_lt_upper_bound]; lia).
      rewrite (proj2 (Z.leb_le 0 (7 - i / 8))) by lia.
      rewrite (proj2 (Z.ltb_lt (7 - i / 8) (0 + Z.of_nat 8))) by lia. done.
    + by apply rev8_32_testbit.
  - unfold alu_orc_b. assert (E : XLEN = 8 * (XLEN / 8)) by (by destruct xlen_cases as [->| ->]).
    rewrite orc_b_loop_testbit by lia. rewrite Z.bits_0. cbn [orb].
    rewrite (proj2 (Z.leb_le 0 (i / 8))) by (apply Z.div_pos; lia).
    rewrite (proj2 (Z.ltb_lt (i / 8) (0 + Z.of_nat (Z.to_nat (XLEN / 8))))); [done|]. rewrite Z2Nat.id by lia. apply Z.div_lt_upper_bound; lia.
Qed.

(** ** Carry-less multiplication *)

(** The parity of the [i .. i + n - 1] that satisfy [f]. *)
Fixpoint parity_from (f : Z -> bool) (n : nat) (i : Z) : bool :=
  match n with O => false | S n => xorb (f i) (parity_from f n (i + 1)) end.

(** Bit [k] of the product of [a] and [b] as polynomials over GF(2). *)
Definition clprod_bit (a b k : Z) : bool :=
  parity_from (fun i => Z.testbit b i && Z.testbit a (k - i)) (Z.to_nat XLEN) 0.

Lemma parity_from_ext f g n i :
  (forall j, i <= j < i + Z.of_nat n -> f j = g j) -> parity_from f n i = parity_from g n i.
Proof.
  revert i. induction n as [|n IH]; intros i H; cbn [parity_from]; [done|].
  rewrite (H i), (IH (i + 1)); [done| |lia]. intros j Hj. apply H. lia.
Qed.

Lemma clmul_step b i r x k : 0 <= i ->
  Z.testbit (if nz ((b >> i) .& 1) then r .^ x else r) k =
    xorb (Z.testbit r k) (Z.testbit b i && Z.testbit x k).
Proof.
  intros. rewrite nz_shift_testbit by lia. destruct (Z.testbit b i); cbn [andb].
  - apply Z.lxor_spec.
  - by rewrite xorb_false_r.
Qed.

Lemma clmul_loop_testbit a b n i r k : 0 <= i -> 0 <= k < XLEN ->
  Z.testbit (clmul_loop a b n i r) k =
    xorb (Z.testbit r k) (parity_from (fun i => Z.testbit b i && Z.testbit a (k - i)) n i).
Proof.
  intros Hi Hk. revert i r Hi. induction n as [|n IH]; intros i r Hi; cbn [clmul_loop parity_from].
  { by rewrite xorb_false_r. }
  rewrite IH, clmul_step by lia. unfold wshl. rewrite testbit_word_at, Z.shiftl_spec by lia.
  rewrite (proj2 (Z.ltb_lt k XLEN)) by lia. cbn [andb]. apply xorb_assoc.
Qed.

Lemma clmulh_loop_testbit a b n i r k : 0 <= i -> i + Z.of_nat n <= XLEN -> 0 <= k ->
  Z.testbit (clmulh_loop a b n i r) k =
    xorb (Z.testbit r k) (parity_from (fun i => Z.testbit b i && Z.testbit a (k + XLEN - i)) n i).
Proof.
  intros Hi Hn Hk. revert i r Hi Hn. induction n as [|n IH]; intros i r Hi Hn; cbn [clmulh_loop parity_from].
  { by rewrite xorb_false_r. }
  rewrite IH, clmul_step, Z.shiftr_spec by lia. rewrite xorb_assoc, Z.add_sub_assoc. done.
Qed.

Lemma clmulr_loop_testbit a b n i r k : 0 <= i -> i + Z.of_nat n <= XLEN -> 0 <= k ->
  Z.testbit (clmulr_loop a b n i r) k =
    xorb (Z.testbit r k) (parity_from (fun i => Z.testbit b i && Z.testbit a (k + (XLEN - 1) - i)) n i).
Proof.
  intros Hi Hn Hk. revert i r Hi Hn. induction n as [|n IH]; intros i r Hi Hn; cbn [clmulr_loop parity_from].
  { by rewrite xorb_false_r. }
  rewrite IH, clmul_step, Z.shiftr_spec by lia. rewrite xorb_assoc, Z.add_sub_assoc. done.
Qed.

(** Carry-less multiplication: [clmul], [clmulh] and [clmulr] are the bits
    from 0, from XLEN and from XLEN - 1 of the product of their operands as
    polynomials over GF(2). *)
Theorem alu_clmul_spec a b k :
  fits XLEN a -> 0 <= k < XLEN ->
  Z.testbit (alu_clmul a b) k = clprod_bit a b k /\
  Z.testbit (alu_clmulh a b) k = clprod_bit a b (k + XLEN) /\
  Z.testbit (alu_clmulr a b) k = clprod_bit a b (k + (XLEN - 1)).
Proof.
  intros Ha Hk. pose proof xlen_gt as X. unfold clprod_bit. split_and!.
  - unfold alu_clmul. by rewrite clmul_loop_testbit, Z.bits_0, xorb_false_l by lia.
  - unfold alu_clmulh. rewrite clmulh_loop_testbit, Z.bits_0, xorb_false_l by lia.
    replace (Z.to_nat XLEN) with (S (Z.to_nat (XLEN - 1))) by lia. cbn [parity_from].
    rewrite (testbit_high XLEN a (k + XLEN - 0)) by (done || lia). by rewrite andb_false_r, xorb_false_l.
  - unfold alu_clmulr. by rewrite clmulr_loop_testbit, Z.bits_0, xorb_false_l by lia.
Qed.

End AluSpec.

(** ** The theorems at concrete operands of the RV64 reference configuration *)

#[local] Existing Instance riscv64_ref.

(** -1 and the most negative integer. *)
Definition ones64 : Z := 2 ^ 64 - 1.
Definition min64 : Z := 2 ^ 63.

Lemma ones64_fits : fits XLEN ones64.
Proof. split; vm_compute; done. Qed.
Lemma min64_fits : fits XLEN min64.
Proof. split; vm_compute; done. Qed.

Lemma alu_mul_spec_witness :
  sword (alu_mulh ones64 min64) * 2 ^ XLEN + alu_mul ones64 min64 = sword ones64 * sword min64.
Proof. destruct (alu_mul_spec ones64 min64 ones64_fits min64_fits) as [H _]. exact H. Defined.

Lemma alu_div_spec_witness :
  division_ok XLEN min64 ones64 (alu_div min64 ones64) (alu_rem min64 ones64) /\ alu_div min64 ones64 = min64.
Proof.
  destruct (alu_div_spec min64 ones64 min64_fits ones64_fits) as [H _].
  split; [exact H | vm_compute; reflexivity].
Defined.

Lemma alu_counts_spec_witness : counts_ok XLEN min64 (alu_clz min64) (alu_ctz min64) (alu_cpop min64).
Proof. destruct (alu_counts_spec min64 min64_fits) as [H _]. exact H. Defined.

Lemma alu_permute_spec_witness : Z.testbit (alu_rol min64 3) 2 = Z.testbit min64 ((2 - 3) mod XLEN).
Proof.
  destruct (alu_permute_spec min64 3 2 min64_fits ltac:(split; vm_compute; done)) as [H _]. exact H.
Defined.

Lemma alu_clmul_spec_witness : Z.testbit (alu_clmul min64 ones64) 63 = clprod_bit min64 ones64 63.
Proof.
  destruct (alu_clmul_spec min64 ones64 63 min64_fits ltac:(split; vm_compute; done)) as [H _]. exact H.
Defined.
