(* ===== verification/Fp.v ===== *)
(** * Fp: the floating-point operations of [fp.c] on bit patterns

    The arithmetic is SoftFloat's, a library the repository does not carry: it
    is the class [SoftFloat], one field per function and constant [fp.c] uses.
    A field takes the rounding mode where [fp.c] sets it and returns the result
    with the exception flags the call raises: [fp.c] clears the flags before
    every call, so the flags it reads afterwards are these. *)
From S2P Require Import Prelude Config.

Class SoftFloat := {
  softfloat_round_near_even : Z;
  softfloat_round_minMag : Z;
  softfloat_round_min : Z;
  softfloat_round_max : Z;
  softfloat_round_near_maxMag : Z;
  softfloat_flag_invalid : Z;
  softfloat_flag_infinite : Z;
  softfloat_flag_overflow : Z;
  softfloat_flag_underflow : Z;
  softfloat_flag_inexact : Z;
  f32_add : Z -> Z -> Z -> Z * Z;
  f32_sub : Z -> Z -> Z -> Z * Z;
  f32_mul : Z -> Z -> Z -> Z * Z;
  f32_div : Z -> Z -> Z -> Z * Z;
  f32_sqrt : Z -> Z -> Z * Z;
  f32_mulAdd : Z -> Z -> Z -> Z -> Z * Z;
  f32_le : Z -> Z -> bool * Z;
  f32_lt : Z -> Z -> bool * Z;
  f32_eq : Z -> Z -> bool * Z;
  f32_le_quiet : Z -> Z -> bool * Z;
  f32_lt_quiet : Z -> Z -> bool * Z;
  f32_roundToInt : Z -> Z -> bool -> Z * Z;
  f32_to_ui32 : Z -> Z -> bool -> Z * Z;
  f32_to_i32 : Z -> Z -> bool -> Z * Z;
  f32_to_ui64 : Z -> Z -> bool -> Z * Z;
  f32_to_i64 : Z -> Z -> bool -> Z * Z;
  ui32_to_f32 : Z -> Z -> Z * Z;
  i32_to_f32 : Z -> Z -> Z * Z;
  ui64_to_f32 : Z -> Z -> Z * Z;
  i64_to_f32 : Z -> Z -> Z * Z;
  f64_add : Z -> Z -> Z -> Z * Z;
  f64_sub : Z -> Z -> Z -> Z * Z;
  f64_mul : Z -> Z -> Z -> Z * Z;
  f64_div : Z -> Z -> Z -> Z * Z;
  f64_sqrt : Z -> Z -> Z * Z;
  f64_mulAdd : Z -> Z -> Z -> Z -> Z * Z;
  f64_le : Z -> Z -> bool * Z;
  f64_lt : Z -> Z -> bool * Z;
  f64_eq : Z -> Z -> bool * Z;
  f64_le_quiet : Z -> Z -> bool * Z;
  f64_lt_quiet : Z -> Z -> bool * Z;
  f64_roundToInt : Z -> Z -> bool -> Z * Z;
  f64_to_ui32 : Z -> Z -> bool -> Z * Z;
  f64_to_i32 : Z -> Z -> bool -> Z * Z;
  f64_to_ui64 : Z -> Z -> bool -> Z * Z;
  f64_to_i64 : Z -> Z -> bool -> Z * Z;
  ui32_to_f64 : Z -> Z -> Z * Z;
  i32_to_f64 : Z -> Z -> Z * Z;
  ui64_to_f64 : Z -> Z -> Z * Z;
  i64_to_f64 : Z -> Z -> Z * Z;
  f64_to_f32 : Z -> Z -> Z * Z;
  f32_to_f64 : Z -> Z -> Z * Z;
  f16_to_f32 : Z -> Z * Z;
  f16_to_f64 : Z -> Z * Z;
  f32_to_f16 : Z -> Z -> Z * Z;
  f64_to_f16 : Z -> Z -> Z * Z;
}.

(** ** Formats: the masks [fp.c] writes out for each precision *)

Record fp_format := mk_fp_format {
  fp_width : Z;       (* bits *)
  fp_exponent : Z;    (* exponent field *)
  fp_fraction : Z;    (* fraction field *)
  fp_quiet : Z;       (* quiet bit of a NaN *)
  fp_nan : Z;         (* canonical NaN *)
}.
Definition half : fp_format := mk_fp_format 16 0x7c00 0x03ff 0x0200 0x7e00.
Definition single : fp_format := mk_fp_format 32 0x7f800000 0x007fffff 0x00400000 0x7fc00000.
Definition double : fp_format :=
  mk_fp_format 64 0x7ff0000000000000 0x000fffffffffffff 0x0008000000000000 0x7ff8000000000000.

Definition fp_sign (f : fp_format) (bits : Z) : bool := nz (bits >> (fp_width f - 1)).
Definition fp_is_nan (f : fp_format) (bits : Z) : bool :=
  (bits .& fp_exponent f =? fp_exponent f) && nz (bits .& fp_fraction f).
Definition fp_is_snan (f : fp_format) (bits : Z) : bool :=
  fp_is_nan f bits && negb (nz (bits .& fp_quiet f)).
Definition fp_less (f : fp_format) (lhs rhs : Z) : bool :=
  if negb (Bool.eqb (fp_sign f lhs) (fp_sign f rhs)) then fp_sign f lhs
  else if fp_sign f lhs then rhs <? lhs else lhs <? rhs.

Definition fp_minmax (f : fp_format) (lhs rhs : Z) (maximum : bool) : Z * Z :=
  let flags := if fp_is_snan f lhs || fp_is_snan f rhs then 1 << 4 else 0 in
  let result :=
    if fp_is_nan f lhs && fp_is_nan f rhs then fp_nan f
    else if fp_is_nan f lhs then rhs
    else if fp_is_nan f rhs then lhs
    else if wrap (fp_width f) ((lhs .| rhs) << 1) =? 0 then
      if maximum then lhs .& rhs else lhs .| rhs
    else if maximum then (if fp_less f lhs rhs then rhs else lhs)
    else (if fp_less f lhs rhs then lhs else rhs) in
  (result, flags).

(** The [minimum]/[maximum] of Zfa: a NaN operand wins. *)
Definition fp_minmaxm (f : fp_format) (lhs rhs : Z) (maximum : bool) : Z * Z :=
  let '(result, flags) := fp_minmax f lhs rhs maximum in
  (if fp_is_nan f lhs || fp_is_nan f rhs then fp_nan f else result, flags).

Definition fp_class (f : fp_format) (bits : Z) : Z :=
  let exponent := bits .& fp_exponent f in
  let fraction := bits .& fp_fraction f in
  let negative := fp_sign f bits in
  if exponent =? fp_exponent f then
    if fraction =? 0 then 1 << (if negative then 0 else 7)
    else 1 << (if nz (fraction .& fp_quiet f) then 9 else 8)
  else if exponent =? 0 then
    if fraction =? 0 then 1 << (if negative then 3 else 4)
    else 1 << (if negative then 2 else 5)
  else 1 << (if negative then 1 else 6).

(** ** The functions without SoftFloat *)

Definition riscv_fp_is_nan_s := fp_is_nan single.
Definition riscv_fp_is_snan_s := fp_is_snan single.
Definition riscv_fp_less_s := fp_less single.
Definition riscv_fp_minmax_s := fp_minmax single.
Definition riscv_fp_min_s (lhs rhs : Z) : Z * Z := riscv_fp_minmax_s lhs rhs false.
Definition riscv_fp_max_s (lhs rhs : Z) : Z * Z := riscv_fp_minmax_s lhs rhs true.
Definition riscv_fp_minmaxm_s := fp_minmaxm single.
Definition riscv_fp_class_s := fp_class single.
Definition riscv_fp_is_nan_d := fp_is_nan double.
Definition riscv_fp_is_snan_d := fp_is_snan double.
Definition riscv_fp_less_d := fp_less double.
Definition riscv_fp_minmax_d := fp_minmax double.
Definition riscv_fp_min_d (lhs rhs : Z) : Z * Z := riscv_fp_minmax_d lhs rhs false.
Definition riscv_fp_max_d (lhs rhs : Z) : Z * Z := riscv_fp_minmax_d lhs rhs true.
Definition riscv_fp_minmaxm_d := fp_minmaxm double.
Definition riscv_fp_class_d := fp_class double.
Definition riscv_fp_is_nan_h := fp_is_nan half.

(** NaN boxing. *)
Definition riscv_fp_box_s (bits : Z) : Z := 0xffffffff00000000 .| bits.
Definition riscv_fp_box_h (bits : Z) : Z := 0xffffffffffff0000 .| bits.
Definition riscv_fp_s_bits (bits : Z) : Z := wrap 32 bits.
Definition riscv_fp_h_bits (bits : Z) : Z := wrap 16 bits.
Definition riscv_fp_read_s (bits : Z) : Z :=
  if bits >> 32 =? Z.ones 32 then wrap 32 bits else 0x7fc00000.
Definition riscv_fp_read_h (bits : Z) : Z :=
  if bits >> 16 =? 0x0000ffffffffffff then wrap 16 bits else 0x7e00.

Definition riscv_fp_sgnj (lhs rhs mode : Z) : Z :=
  let lhs_bits := riscv_fp_read_s lhs in
  let rhs_bits := riscv_fp_read_s rhs in
  let sign :=
    if mode =? 1 then wrap 32 (~~ rhs_bits) .& 0x80000000
    else if mode =? 2 then (lhs_bits .^ rhs_bits) .& 0x80000000
    else rhs_bits .& 0x80000000 in
  riscv_fp_box_s (wrap 32 ((lhs_bits .& 0x7fffffff) .| sign)).

(** The constants of [fli]. *)
Definition fli_constants : list Z := [
  0xbf800000; 0x00800000; 0x37800000; 0x38000000;
  0x3b800000; 0x3c000000; 0x3d800000; 0x3e000000;
  0x3e800000; 0x3ea00000; 0x3ec00000; 0x3ee00000;
  0x3f000000; 0x3f200000; 0x3f400000; 0x3f600000;
  0x3f800000; 0x3fa00000; 0x3fc00000; 0x3fe00000;
  0x40000000; 0x40200000; 0x40400000; 0x40800000;
  0x41000000; 0x41800000; 0x43000000; 0x43800000;
  0x47000000; 0x47800000; 0x7f800000; 0x7fc00000 ].

Definition riscv_fp_fli (immediate : Z) (double_precision : bool) : Z :=
  let bits := nth (Z.to_nat (immediate .& 31)) fli_constants 0 in
  if negb double_precision then bits
  else
    let exponent := (bits >> 23) .& 255 in
    let exponent := if immediate =? 1 then 1 else if exponent =? 255 then 2047 else exponent + 896 in
    ((bits >> 31) << 63) .| (exponent << 52) .| ((bits .& 0x7fffff) << 29).

(** ** The functions on SoftFloat. Results and flags, as pairs. *)

Section SoftFloatOps.
Context {SF : SoftFloat}.

Definition riscv_fp_rounding_mode (rm : Z) : Z :=
  match rm .& 0x7 with
  | 0 => softfloat_round_near_even
  | 1 => softfloat_round_minMag
  | 2 => softfloat_round_min
  | 3 => softfloat_round_max
  | 4 => softfloat_round_near_maxMag
  | _ => softfloat_round_near_even
  end.

(** [riscv_fp_flags] on the raised SoftFloat flags. *)
Definition riscv_fp_flags (sf : Z) : Z :=
  (if nz (sf .& softfloat_flag_invalid) then 1 << 4 else 0)
  .| (if nz (sf .& softfloat_flag_infinite) then 1 << 3 else 0)
  .| (if nz (sf .& softfloat_flag_overflow) then 1 << 2 else 0)
  .| (if nz (sf .& softfloat_flag_underflow) then 1 << 1 else 0)
  .| (if nz (sf .& softfloat_flag_inexact) then 1 << 0 else 0).

(** The value and flags of a SoftFloat call. *)
Definition with_flags (call : Z * Z) : Z * Z := let '(v, sf) := call in (v, riscv_fp_flags sf).
Definition bool_flags (call : bool * Z) : Z * Z := let '(b, sf) := call in (b2z b, riscv_fp_flags sf).

Definition riscv_fp_binary_s (lhs rhs rm : Z) (operation : Z -> Z -> Z -> Z * Z) : Z * Z :=
  with_flags (operation (riscv_fp_rounding_mode rm) lhs rhs).
Definition riscv_fp_binary_d (lhs rhs rm : Z) (operation : Z -> Z -> Z -> Z * Z) : Z * Z :=
  with_flags (operation (riscv_fp_rounding_mode rm) lhs rhs).
Definition riscv_fp_unary_s (operand rm : Z) (operation : Z -> Z -> Z * Z) : Z * Z :=
  with_flags (operation (riscv_fp_rounding_mode rm) operand).
Definition riscv_fp_unary_d (operand rm : Z) (operation : Z -> Z -> Z * Z) : Z * Z :=
  with_flags (operation (riscv_fp_rounding_mode rm) operand).

Definition riscv_fp_add_s (lhs rhs rm : Z) := riscv_fp_binary_s lhs rhs rm f32_add.
Definition riscv_fp_sub_s (lhs rhs rm : Z) := riscv_fp_binary_s lhs rhs rm f32_sub.
Definition riscv_fp_mul_s (lhs rhs rm : Z) := riscv_fp_binary_s lhs rhs rm f32_mul.
Definition riscv_fp_div_s (lhs rhs rm : Z) := riscv_fp_binary_s lhs rhs rm f32_div.
Definition riscv_fp_sqrt_s (operand rm : Z) := riscv_fp_unary_s operand rm f32_sqrt.
Definition riscv_fp_add_d (lhs rhs rm : Z) := riscv_fp_binary_d lhs rhs rm f64_add.
Definition riscv_fp_sub_d (lhs rhs rm : Z) := riscv_fp_binary_d lhs rhs rm f64_sub.
Definition riscv_fp_mul_d (lhs rhs rm : Z) := riscv_fp_binary_d lhs rhs rm f64_mul.
Definition riscv_fp_div_d (lhs rhs rm : Z) := riscv_fp_binary_d lhs rhs rm f64_div.
Definition riscv_fp_sqrt_d (operand rm : Z) := riscv_fp_unary_d operand rm f64_sqrt.

Definition riscv_fp_fma_s (lhs rhs addend rm : Z) (negate_product negate_addend : bool) : Z * Z :=
  let lhs := if negate_product then lhs .^ 0x80000000 else lhs in
  let addend := if negate_addend then addend .^ 0x80000000 else addend in
  with_flags (f32_mulAdd (riscv_fp_rounding_mode rm) lhs rhs addend).
Definition riscv_fp_fma_d (lhs rhs addend rm : Z) (negate_product negate_addend : bool) : Z * Z :=
  let lhs := if negate_product then lhs .^ 0x8000000000000000 else lhs in
  let addend := if negate_addend then addend .^ 0x8000000000000000 else addend in
  with_flags (f64_mulAdd (riscv_fp_rounding_mode rm) lhs rhs addend).

Definition riscv_fp_compare_s (lhs rhs mode : Z) : Z * Z :=
  bool_flags (match mode with 0 => f32_le lhs rhs | 1 => f32_lt lhs rhs | _ => f32_eq lhs rhs end).
Definition riscv_fp_le_s (lhs rhs : Z) := riscv_fp_compare_s lhs rhs 0.
Definition riscv_fp_lt_s (lhs rhs : Z) := riscv_fp_compare_s lhs rhs 1.
Definition riscv_fp_eq_s (lhs rhs : Z) := riscv_fp_compare_s lhs rhs 2.
Definition riscv_fp_compare_d (lhs rhs mode : Z) : Z * Z :=
  bool_flags (match mode with 0 => f64_le lhs rhs | 1 => f64_lt lhs rhs | _ => f64_eq lhs rhs end).
Definition riscv_fp_le_d (lhs rhs : Z) := riscv_fp_compare_d lhs rhs 0.
Definition riscv_fp_lt_d (lhs rhs : Z) := riscv_fp_compare_d lhs rhs 1.
Definition riscv_fp_eq_d (lhs rhs : Z) := riscv_fp_compare_d lhs rhs 2.

Definition riscv_fp_round_s (bits rm : Z) (exact : bool) : Z * Z :=
  with_flags (f32_roundToInt bits (riscv_fp_rounding_mode rm) exact).
Definition riscv_fp_round_d (bits rm : Z) (exact : bool) : Z * Z :=
  with_flags (f64_roundToInt bits (riscv_fp_rounding_mode rm) exact).
Definition riscv_fp_quiet_s (lhs rhs : Z) (less : bool) : Z * Z :=
  bool_flags (if less then f32_lt_quiet lhs rhs else f32_le_quiet lhs rhs).
Definition riscv_fp_quiet_d (lhs rhs : Z) (less : bool) : Z * Z :=
  bool_flags (if less then f64_lt_quiet lhs rhs else f64_le_quiet lhs rhs).

(** [(uint64_t)] or [(uint32_t)] of a converted integer. *)
Definition int_result (int64 : bool) (call : Z * Z) : Z * Z :=
  let '(v, sf) := call in (wrap (if int64 then 64 else 32) v, riscv_fp_flags sf).

Definition riscv_fp_to_int_s (bits rm : Z) (unsigned_result int64 : bool) : Z * Z :=
  let mode := riscv_fp_rounding_mode rm in
  int_result int64
    (if int64 then if unsigned_result then f32_to_ui64 bits mode true else f32_to_i64 bits mode true
     else if unsigned_result then f32_to_ui32 bits mode true else f32_to_i32 bits mode true).
Definition riscv_fp_to_int_d (bits rm : Z) (unsigned_result int64 : bool) : Z * Z :=
  let mode := riscv_fp_rounding_mode rm in
  int_result int64
    (if int64 then if unsigned_result then f64_to_ui64 bits mode true else f64_to_i64 bits mode true
     else if unsigned_result then f64_to_ui32 bits mode true else f64_to_i32 bits mode true).

Definition riscv_int_to_fp_s (value rm : Z) (unsigned_input int64 : bool) : Z * Z :=
  let mode := riscv_fp_rounding_mode rm in
  with_flags
    (if int64 then if unsigned_input then ui64_to_f32 mode value else i64_to_f32 mode (signed 64 value)
     else if unsigned_input then ui32_to_f32 mode (wrap 32 value) else i32_to_f32 mode (signed 32 value)).
Definition riscv_int_to_fp_d (value rm : Z) (unsigned_input int64 : bool) : Z * Z :=
  let mode := riscv_fp_rounding_mode rm in
  with_flags
    (if int64 then if unsigned_input then ui64_to_f64 mode value else i64_to_f64 mode (signed 64 value)
     else if unsigned_input then ui32_to_f64 mode (wrap 32 value) else i32_to_f64 mode (signed 32 value)).

(** [fcvtmod.w.d]: the truncated value modulo [2 ^ 32]. *)
Definition fcvtmod_bits (bits : Z) : Z :=
  let exponent := ((bits >> 52) .& 2047) - 1023 in
  if (exponent <? 0) || (84 <=? exponent) then 0
  else
    let significand := (bits .& 0xfffffffffffff) .| (1 << 52) in
    let result := wrap 32 (if 52 <? exponent then wrap 64 (significand << (exponent - 52))
                           else significand >> (52 - exponent)) in
    if nz (bits >> 63) then wrap 32 (0 - result) else result.
Definition riscv_fp_mod_w_d (bits : Z) : Z * Z :=
  (fcvtmod_bits bits, snd (riscv_fp_to_int_d bits 1 false false)).

Definition riscv_fp_convert_d_to_s (bits rm : Z) : Z * Z :=
  with_flags (f64_to_f32 (riscv_fp_rounding_mode rm) bits).
Definition riscv_fp_convert_s_to_d (bits rm : Z) : Z * Z :=
  with_flags (f32_to_f64 (riscv_fp_rounding_mode rm) bits).

Definition riscv_fp_convert_h_to_s (bits : Z) : Z * Z :=
  if riscv_fp_is_nan_h bits then (0x7fc00000, if nz (bits .& 0x0200) then 0 else 1 << 4)
  else with_flags (f16_to_f32 bits).
Definition riscv_fp_convert_h_to_d (bits : Z) : Z * Z :=
  if riscv_fp_is_nan_h bits then (0x7ff8000000000000, if nz (bits .& 0x0200) then 0 else 1 << 4)
  else with_flags (f16_to_f64 bits).
Definition riscv_fp_convert_s_to_h (bits rm : Z) : Z * Z :=
  if (bits .& 0x7f800000 =? 0x7f800000) && nz (bits .& 0x007fffff)
  then (0x7e00, if nz (bits .& 0x00400000) then 0 else 1 << 4)
  else with_flags (f32_to_f16 (riscv_fp_rounding_mode rm) bits).
Definition riscv_fp_convert_d_to_h (bits rm : Z) : Z * Z :=
  if (bits .& 0x7ff0000000000000 =? 0x7ff0000000000000) && nz (bits .& 0x000fffffffffffff)
  then (0x7e00, if nz (bits .& 0x0008000000000000) then 0 else 1 << 4)
  else with_flags (f64_to_f16 (riscv_fp_rounding_mode rm) bits).

End SoftFloatOps.

(** The constants of SoftFloat, and operations that all return zero: a library for
    the concrete inputs of theorems that hold of any. *)
Definition zero_float : SoftFloat := {|
  softfloat_round_near_even := 0; softfloat_round_minMag := 1; softfloat_round_min := 2;
  softfloat_round_max := 3; softfloat_round_near_maxMag := 4; softfloat_flag_invalid := 16;
  softfloat_flag_infinite := 8; softfloat_flag_overflow := 4; softfloat_flag_underflow := 2;
  softfloat_flag_inexact := 1; f32_add _ _ _ := (0, 0); f32_sub _ _ _ := (0, 0); f32_mul _ _ _ := (0,
  0); f32_div _ _ _ := (0, 0); f32_sqrt _ _ := (0, 0); f32_mulAdd _ _ _ _ := (0, 0); f32_le _ _ :=
  (false, 0); f32_lt _ _ := (false, 0); f32_eq _ _ := (false, 0); f32_le_quiet _ _ := (false, 0);
  f32_lt_quiet _ _ := (false, 0); f32_roundToInt _ _ _ := (0, 0); f32_to_ui32 _ _ _ := (0, 0);
  f32_to_i32 _ _ _ := (0, 0); f32_to_ui64 _ _ _ := (0, 0); f32_to_i64 _ _ _ := (0, 0); ui32_to_f32 _ _
  := (0, 0); i32_to_f32 _ _ := (0, 0); ui64_to_f32 _ _ := (0, 0); i64_to_f32 _ _ := (0, 0); f64_add _ _
  _ := (0, 0); f64_sub _ _ _ := (0, 0); f64_mul _ _ _ := (0, 0); f64_div _ _ _ := (0, 0); f64_sqrt _ _
  := (0, 0); f64_mulAdd _ _ _ _ := (0, 0); f64_le _ _ := (false, 0); f64_lt _ _ := (false, 0); f64_eq _
  _ := (false, 0); f64_le_quiet _ _ := (false, 0); f64_lt_quiet _ _ := (false, 0); f64_roundToInt _ _ _
  := (0, 0); f64_to_ui32 _ _ _ := (0, 0); f64_to_i32 _ _ _ := (0, 0); f64_to_ui64 _ _ _ := (0, 0);
  f64_to_i64 _ _ _ := (0, 0); ui32_to_f64 _ _ := (0, 0); i32_to_f64 _ _ := (0, 0); ui64_to_f64 _ _ :=
  (0, 0); i64_to_f64 _ _ := (0, 0); f64_to_f32 _ _ := (0, 0); f32_to_f64 _ _ := (0, 0); f16_to_f32 _ :=
  (0, 0); f16_to_f64 _ := (0, 0); f32_to_f16 _ _ := (0, 0); f64_to_f16 _ _ := (0, 0) |}.
