(* ===== verification/FpSpec.v ===== *)
(** * FpSpec: the order of [min]/[max], the classes, truncation and NaN boxing *)
From S2P Require Import Prelude Config Fp.

(** ** Formats *)

(** A format of [1 + e + m] bits whose masks cover the exponent and the fraction. *)
Record format_ok (f : fp_format) (e m : Z) : Prop := {
  format_e : 0 < e;
  format_m : 0 < m;
  format_width : fp_width f = 1 + e + m;
  format_exponent : fp_exponent f = Z.ones e << m;
  format_fraction : fp_fraction f = Z.ones m;
  format_quiet : fp_quiet f = 1 << (m - 1);
}.

Lemma half_ok : format_ok half 5 10.
Proof. split; vm_compute; done. Qed.
Lemma single_ok : format_ok single 8 23.
Proof. split; vm_compute; done. Qed.
Lemma double_ok : format_ok double 11 52.
Proof. split; vm_compute; done. Qed.

(** Sign-magnitude order: [-0] is just below [+0]. *)
Definition fp_magnitude (f : fp_format) (bits : Z) : Z := wrap (fp_width f - 1) bits.
Definition fp_key (f : fp_format) (bits : Z) : Z :=
  if fp_sign f bits then - 1 - fp_magnitude f bits else fp_magnitude f bits.

Section Format.
Context (f : fp_format) (e m : Z) (F : format_ok f e m).

Let w := fp_width f.

Lemma format_w : w = 1 + e + m /\ 0 < e /\ 0 < m.
Proof. destruct F. unfold w. lia. Qed.

Lemma format_split x : fits w x ->
  x = (if fp_sign f x then 2 ^ (w - 1) else 0) + fp_magnitude f x /\ 0 <= fp_magnitude f x < 2 ^ (w - 1).
Proof.
  intros [H0 H1]. pose proof format_w. unfold fp_sign, fp_magnitude. fold w.
  rewrite wrap_mod, Z.shiftr_div_pow2 by lia.
  pose proof (Z.mod_pos_bound x (2 ^ (w - 1)) ltac:(lia)). split; [|done].
  assert (P : 2 ^ w = 2 * 2 ^ (w - 1)) by (rewrite <-Z.pow_succ_r by lia; f_equal; lia).
  assert (D : 0 <= x / 2 ^ (w - 1) < 2) by (split; [apply Z.div_pos|apply Z.div_lt_upper_bound]; lia).
  pose proof (Z.div_mod x (2 ^ (w - 1)) ltac:(lia)).
  unfold nz. destruct (Z.eqb_spec (x / 2 ^ (w - 1)) 0); cbn [negb]; nia.
Qed.

Lemma fp_less_key x y : fits w x -> fits w y -> fp_less f x y = (fp_key f x <? fp_key f y).
Proof.
  intros Hx Hy. destruct (format_split x Hx) as [Ex Bx], (format_split y Hy) as [Ey By].
  unfold fp_less, fp_key. destruct (fp_sign f x), (fp_sign f y); cbn [Bool.eqb negb]; lia.
Qed.

Lemma fp_key_inj x y : fits w x -> fits w y -> fp_key f x = fp_key f y -> x = y.
Proof.
  intros Hx Hy. destruct (format_split x Hx) as [Ex Bx], (format_split y Hy) as [Ey By].
  unfold fp_key. destruct (fp_sign f x), (fp_sign f y); lia.
Qed.

(** Both operands are zeros, of either sign. *)
Lemma zeros_spec x y : fits w x -> fits w y ->
  (wrap w ((x .| y) << 1) =? 0) = (fp_magnitude f x =? 0) && (fp_magnitude f y =? 0).
Proof.
  intros Hx Hy. pose proof format_w as Hw.
  assert (E : wrap w ((x .| y) << 1) = (fp_magnitude f x .| fp_magnitude f y) << 1).
  { unfold fp_magnitude. fold w. apply Z.bits_inj'. intros i Hi.
    rewrite testbit_wrap, !Z.shiftl_spec by lia. destruct (Z.lt_ge_cases (i - 1) 0).
    - rewrite !(Z.testbit_neg_r _ (i - 1)) by lia. apply andb_false_r.
    - rewrite !Z.lor_spec, !testbit_wrap by lia.
      replace (i - 1 <? w - 1) with (i <? w) by (apply eq_true_iff_eq; rewrite !Z.ltb_lt; lia).
      by destruct (i <? w). }
  rewrite E, Z.shiftl_mul_pow2 by lia. change (2 ^ 1) with 2.
  pose proof (Z.lor_eq_0_iff (fp_magnitude f x) (fp_magnitude f y)).
  destruct (Z.eqb_spec ((fp_magnitude f x .| fp_magnitude f y) * 2) 0),
    (Z.eqb_spec (fp_magnitude f x) 0), (Z.eqb_spec (fp_magnitude f y) 0); cbn [andb]; lia || tauto || (exfalso; lia).
Qed.

Lemma fp_key_zero x : fits w x -> fp_magnitude f x = 0 -> x = if fp_sign f x then 2 ^ (w - 1) else 0.
Proof. intros Hx E. destruct (format_split x Hx) as [Ex _]. lia. Qed.

Lemma fp_key_zeros :
  fp_key f (2 ^ (w - 1)) = -1 /\ fp_key f 0 = 0.
Proof.
  pose proof format_w. unfold fp_key, fp_sign, fp_magnitude. fold w.
  rewrite !Z.shiftr_div_pow2, Z.div_same, Z.div_0_l, !wrap_mod, Z.mod_same, Z.mod_0_l by lia. done.
Qed.

Lemma fp_minmax_key x y maximum :
  fits w x -> fits w y -> fp_is_nan f x = false -> fp_is_nan f y = false ->
  fp_key f (fst (fp_minmax f x y maximum)) =
    (if maximum then Z.max else Z.min) (fp_key f x) (fp_key f y) /\
  In (fst (fp_minmax f x y maximum)) [x; y].
Proof.
  intros Hx Hy Nx Ny. unfold fp_minmax. rewrite Nx, Ny. cbn [andb fst]. fold w.
  rewrite zeros_spec by done. rewrite fp_less_key by done.
  destruct ((fp_magnitude f x =? 0) && _) eqn:Ez.
  - apply andb_true_iff in Ez as [Zx%Z.eqb_eq Zy%Z.eqb_eq].
    apply fp_key_zero in Zx, Zy; [|done..]. pose proof format_w. destruct fp_key_zeros as [K1 K0].
    set (p := 2 ^ (w - 1)) in *.
    destruct maximum, (fp_sign f x), (fp_sign f y); subst x; subst y;
      rewrite ?Z.land_diag, ?Z.lor_diag, ?Z.land_0_r, ?Z.land_0_l, ?Z.lor_0_r, ?Z.lor_0_l, ?K1, ?K0; cbn; auto.
  - destruct maximum, (Z.ltb_spec (fp_key f x) (fp_key f y)); (split; [lia | cbn; auto]).
Qed.

(** The magnitude decides the class: zero, subnormal, normal, infinity or NaN. *)
Definition inf_magnitude : Z := Z.ones e << m.

Lemma exponent_fraction x : fits w x ->
  x .& fp_exponent f = (fp_magnitude f x / 2 ^ m) * 2 ^ m /\ x .& fp_fraction f = fp_magnitude f x mod 2 ^ m /\
  0 <= fp_magnitude f x / 2 ^ m < 2 ^ e.
Proof.
  intros Hx. pose proof format_w as (Ew & He & Hm). unfold fp_magnitude. fold w. destruct F as [_ _ _ -> -> _].
  replace (w - 1) with (e + m) by lia. split; [|split].
  - rewrite <-Z.shiftl_mul_pow2, <-Z.shiftr_div_pow2 by lia. apply Z.bits_inj'. intros i Hi. bits_rewrite.
    destruct (Z.lt_ge_cases (i - m) 0).
    + rewrite !(Z.testbit_neg_r _ (i - m)) by lia. apply andb_false_r.
    + rewrite testbit_ones, Z.shiftr_spec, testbit_wrap by lia. rewrite Z.sub_add.
      replace (i - m <? e) with (i <? e + m) by (apply eq_true_iff_eq; rewrite !Z.ltb_lt; lia). apply andb_comm.
  - rewrite <-wrap_mod by lia. unfold wrap. rewrite <-Z.land_assoc. f_equal.
    apply Z.bits_inj'. intros i Hi. rewrite Z.land_spec, !testbit_ones by lia.
    destruct (Z.ltb_spec i m), (Z.ltb_spec i (e + m)); done || lia.
  - pose proof (wrap_fits (e + m) x ltac:(lia)) as [A B]. rewrite Z.pow_add_r in B by lia.
    split; [apply Z.div_pos; lia | apply Z.div_lt_upper_bound; lia].
Qed.

Lemma inf_magnitude_eq : inf_magnitude = (2 ^ e - 1) * 2 ^ m.
Proof. pose proof format_w. unfold inf_magnitude. rewrite Z.shiftl_mul_pow2, Z.ones_equiv by lia. lia. Qed.

(** Comparing [q * P + r] with multiples of [P]. *)
Lemma quotient_cases P E q r : 0 < P -> 0 <= r < P -> 0 <= q < E ->
  (q = E - 1 /\ (E - 1) * P <= q * P + r /\ q * P = (E - 1) * P) \/
  (q < E - 1 /\ q * P + r < (E - 1) * P /\ q * P <> (E - 1) * P).
Proof.
  intros HP Hr Hq. destruct (Z.eq_dec q (E - 1)) as [->|N]; [left; lia|right].
  assert (q * P <= (E - 2) * P) by (apply Z.mul_le_mono_nonneg_r; lia). lia.
Qed.

Lemma fp_is_nan_magnitude x : fits w x -> fp_is_nan f x = (inf_magnitude <? fp_magnitude f x).
Proof.
  intros Hx. destruct (exponent_fraction x Hx) as (E1 & E2 & B). pose proof format_w as (_ & He & Hm).
  unfold fp_is_nan. rewrite E1, E2, (format_exponent f e m F), inf_magnitude_eq, Z.shiftl_mul_pow2, Z.ones_equiv by lia.
  pose proof (Z.div_mod (fp_magnitude f x) (2 ^ m) ltac:(lia)).
  pose proof (Z.mod_pos_bound (fp_magnitude f x) (2 ^ m) ltac:(lia)).
  set (q := fp_magnitude f x / 2 ^ m) in *. set (r := fp_magnitude f x mod 2 ^ m) in *.
  assert (P : 0 < 2 ^ m) by lia. unfold nz.
  change (Z.pred (2 ^ e)) with (2 ^ e - 1). destruct (quotient_cases (2 ^ m) (2 ^ e) q r P ltac:(lia) B) as [C|C];
    destruct (Z.eqb_spec (q * 2 ^ m) ((2 ^ e - 1) * 2 ^ m)), (Z.eqb_spec r 0),
      (Z.ltb_spec ((2 ^ e - 1) * 2 ^ m) (fp_magnitude f x)); cbn [andb negb]; lia.
Qed.

(** The class bit of an ordered value. *)
Definition class_index (x : Z) : Z :=
  let g := fp_magnitude f x in
  let k := if g =? 0 then 0 else if g <? 2 ^ m then 1 else if g <? inf_magnitude then 2 else 3 in
  if fp_sign f x then 3 - k else 4 + k.

Lemma fp_class_index x : fits w x -> fp_is_nan f x = false -> fp_class f x = 1 << class_index x.
Proof.
  intros Hx N. rewrite fp_is_nan_magnitude in N by done. apply Z.ltb_ge in N.
  destruct (exponent_fraction x Hx) as (E1 & E2 & B). pose proof format_w as (_ & He & Hm).
  unfold fp_class, class_index. rewrite E1, E2, (format_exponent f e m F), inf_magnitude_eq, Z.shiftl_mul_pow2, Z.ones_equiv by lia.
  rewrite inf_magnitude_eq in N.
  pose proof (Z.div_mod (fp_magnitude f x) (2 ^ m) ltac:(lia)).
  pose proof (Z.mod_pos_bound (fp_magnitude f x) (2 ^ m) ltac:(lia)).
  set (q := fp_magnitude f x / 2 ^ m) in *. set (r := fp_magnitude f x mod 2 ^ m) in *.
  assert (P : 0 < 2 ^ m) by lia. assert (P2 : 2 <= 2 ^ e) by (apply (Z.pow_le_mono_r 2 1 e); lia).
  change (Z.pred (2 ^ e)) with (2 ^ e - 1).
  assert (Z0 : q = 0 \/ 2 ^ m <= q * 2 ^ m).
  { destruct (Z.eq_dec q 0); [by left|right]. rewrite <-(Z.mul_1_l (2 ^ m)) at 1. apply Z.mul_le_mono_nonneg_r; lia. }
  destruct (quotient_cases (2 ^ m) (2 ^ e) q r P ltac:(lia) B) as [C|C];
    destruct (Z.eqb_spec (q * 2 ^ m) ((2 ^ e - 1) * 2 ^ m)), (Z.eqb_spec (q * 2 ^ m) 0), (Z.eqb_spec r 0),
      (Z.eqb_spec (fp_magnitude f x) 0), (Z.ltb_spec (fp_magnitude f x) (2 ^ m)),
      (Z.ltb_spec (fp_magnitude f x) ((2 ^ e - 1) * 2 ^ m)); try (exfalso; lia); by destruct (fp_sign f x).
Qed.

Lemma class_index_mono x y : fits w x -> fits w y -> fp_key f x <= fp_key f y ->
  0 <= class_index x <= class_index y /\ class_index y < 8.
Proof.
  intros Hx Hy. destruct (format_split x Hx) as [_ Bx], (format_split y Hy) as [_ By].
  unfold fp_key, class_index. intros K.
  destruct (fp_sign f x), (fp_sign f y);
    repeat (match goal with |- context [if ?c then _ else _] => let E := fresh "E" in destruct c eqn:E end); lia.
Qed.

End Format.

(** ** Minimum and maximum *)

(** What [fmin]/[fmax] (and [fminm]/[fmaxm], where a NaN operand wins) return:
    the smaller or larger operand in the order of [fp_key], the other operand
    for one NaN, the canonical NaN for two, and the invalid flag exactly when an
    operand is signaling. *)
Definition minmax_ok (f : fp_format) (x y : Z) (maximum nan_wins : bool) (res : Z * Z) : Prop :=
  let '(r, flags) := res in
  flags = (if fp_is_snan f x || fp_is_snan f y then 16 else 0) /\
  match fp_is_nan f x, fp_is_nan f y with
  | true, true => r = fp_nan f
  | true, false => r = if nan_wins then fp_nan f else y
  | false, true => r = if nan_wins then fp_nan f else x
  | false, false =>
      In r [x; y] /\ fp_key f r = (if maximum then Z.max else Z.min) (fp_key f x) (fp_key f y)
  end.

Lemma fp_minmax_ok f e m x y maximum :
  format_ok f e m -> fits (fp_width f) x -> fits (fp_width f) y ->
  minmax_ok f x y maximum false (fp_minmax f x y maximum) /\
  minmax_ok f x y maximum true (fp_minmaxm f x y maximum).
Proof.
  intros F Hx Hy. unfold fp_minmaxm. pose proof (fp_minmax_key f e m F x y maximum Hx Hy) as K.
  destruct (fp_minmax f x y maximum) as [r fl] eqn:E. cbn [fst] in K. unfold minmax_ok.
  assert (fl = if fp_is_snan f x || fp_is_snan f y then 16 else 0) as ->.
  { unfold fp_minmax in E. injection E as <- <-. done. }
  unfold fp_minmax in E. injection E as Er.
  destruct (fp_is_nan f x), (fp_is_nan f y); cbn [andb orb] in *; auto; destruct (K eq_refl eq_refl); auto.
Qed.



(** ** Classes *)

(** C8: [riscv_fp_class_s] and [riscv_fp_class_d] set one class bit, and for
    operands that are not NaNs the classes follow the order of the values. *)
Theorem riscv_fp_class_ordered x y :
  (fits 32 x -> fits 32 y -> riscv_fp_is_nan_s x = false -> riscv_fp_is_nan_s y = false ->
    fp_key single x <= fp_key single y ->
    exists i j, riscv_fp_class_s x = 1 << i /\ riscv_fp_class_s y = 1 << j /\ 0 <= i <= j /\ j < 8) /\
  (fits 64 x -> fits 64 y -> riscv_fp_is_nan_d x = false -> riscv_fp_is_nan_d y = false ->
    fp_key double x <= fp_key double y ->
    exists i j, riscv_fp_class_d x = 1 << i /\ riscv_fp_class_d y = 1 << j /\ 0 <= i <= j /\ j < 8).
Proof.
  split; intros Hx Hy Nx Ny K.
  - exists (class_index single 8 23 x), (class_index single 8 23 y).
    split; [by apply (fp_class_index _ _ _ single_ok)|]. split; [by apply (fp_class_index _ _ _ single_ok)|].
    by apply (class_index_mono _ _ _ single_ok).
  - exists (class_index double 11 52 x), (class_index double 11 52 y).
    split; [by apply (fp_class_index _ _ _ double_ok)|]. split; [by apply (fp_class_index _ _ _ double_ok)|].
    by apply (class_index_mono _ _ _ double_ok).
Qed.

(** -1.0 and the least positive subnormal. *)
Lemma riscv_fp_class_ordered_witness :
  exists i j, riscv_fp_class_s 0xbf800000 = 1 << i /\ riscv_fp_class_s 1 = 1 << j /\ 0 <= i <= j /\ j < 8.
Proof.
  destruct (riscv_fp_class_ordered 0xbf800000 1) as [H _].
  apply H; first [reflexivity | split; vm_compute; done | vm_compute; done].
Defined.

(** ** [fcvtmod.w.d] *)

(** The value of a finite double, truncated towards zero. *)
Definition double_trunc (bits : Z) : Z :=
  let e := getf 52 11 bits in
  let significand := if e =? 0 then getf 0 52 bits else 2 ^ 52 + getf 0 52 bits in
  let magnitude := if e <? 1075 then significand / 2 ^ (1075 - e) else significand * 2 ^ (e - 1075) in
  if Z.testbit bits 63 then - magnitude else magnitude.

Lemma wrap32_opp x : wrap 32 (0 - wrap 32 x) = wrap 32 (- x).
Proof. rewrite !wrap_mod by lia. rewrite Zminus_mod_idemp_r. f_equal. Qed.

Lemma double_significand bits : (bits .& 0xfffffffffffff) .| (1 << 52) = 2 ^ 52 + getf 0 52 bits.
Proof.
  change (1 << 52) with (2 ^ 52). unfold getf. rewrite Z.shiftr_0_r. change 0xfffffffffffff with (Z.ones 52).
  rewrite Z.add_comm. symmetry. apply Z.add_nocarry_lor. apply Z.bits_inj'. intros i Hi.
  change (2 ^ 52) with (1 << 52). rewrite !Z.land_spec, testbit_shl1, testbit_ones, Z.bits_0 by lia.
  destruct (Z.eqb_spec i 52) as [->|]; [by rewrite andb_false_r | by rewrite andb_false_r].
Qed.

Lemma sign_shift bits : fits 64 bits -> nz (bits >> 63) = Z.testbit bits 63.
Proof.
  intros H. rewrite <-(nz_shift_testbit bits 63) by lia. f_equal. apply Z.bits_inj'. intros i Hi.
  rewrite Z.land_spec, testbit_1, Z.shiftr_spec by lia.
  destruct (Z.eqb_spec i 0); [by rewrite andb_true_r|]. rewrite andb_false_r. apply (testbit_high 64); [done|lia].
Qed.

(** The magnitude [fcvtmod_bits] computes before it applies the sign. *)
Lemma fcvtmod_magnitude s x : 52 < x < 84 -> wrap 32 (wrap 64 (s << (x - 52))) = wrap 32 (s * 2 ^ (x - 52)).
Proof.
  intros. rewrite Z.shiftl_mul_pow2 by lia. apply Z.bits_inj'. intros i Hi. rewrite !testbit_wrap by lia.
  destruct (Z.ltb_spec i 32); [|done]. by replace (i <? 64) with true by lia.
Qed.

Lemma pow2_multiple_wrap s k : 32 <= k -> wrap 32 (s * 2 ^ k) = 0.
Proof.
  intros. rewrite wrap_mod by lia. replace k with ((k - 32) + 32) by lia.
  rewrite Z.pow_add_r by lia. rewrite Z.mul_assoc. apply Z_mod_mult.
Qed.

(** C13: [fcvtmod.w.d] of a finite double is its value truncated towards zero,
    modulo [2 ^ 32]; of an infinity or a NaN it is zero. *)
Theorem fcvtmod_bits_spec bits :
  fits 64 bits ->
  fcvtmod_bits bits = if getf 52 11 bits =? 2047 then 0 else wrap 32 (double_trunc bits).
Proof.
  intros Hb. unfold fcvtmod_bits, double_trunc. rewrite sign_shift by done. cbv zeta.
  change ((bits >> 52) .& 2047) with (getf 52 11 bits). rewrite double_significand.
  pose proof (getf_fits 52 11 bits ltac:(lia) ltac:(lia)) as [E0 E1]. change (2 ^ 11) with 2048 in E1.
  pose proof (getf_fits 0 52 bits ltac:(lia) ltac:(lia)) as [F0 F1].
  set (e := getf 52 11 bits) in *. set (g := getf 0 52 bits) in *.
  assert (W0 : wrap 32 (- 0) = 0 /\ wrap 32 0 = 0) by done.
  destruct (Z.ltb_spec (e - 1023) 0) as [L|L]; cbn [orb].
  - replace (e =? 2047) with false by lia. replace (e <? 1075) with true by lia.
    assert ((if e =? 0 then g else 2 ^ 52 + g) / 2 ^ (1075 - e) = 0) as ->.
    { apply Z.div_small. assert (2 ^ 53 <= 2 ^ (1075 - e)) by (apply Z.pow_le_mono_r; lia).
      change (2 ^ 53) with (2 ^ 52 + 2 ^ 52) in *. destruct (e =? 0); lia. }
    destruct (Z.testbit bits 63); symmetry; apply W0.
  - replace (e =? 0) with false by lia. destruct (Z.leb_spec 84 (e - 1023)) as [H|H].
    + destruct (Z.eqb_spec e 2047); [done|]. replace (e <? 1075) with false by lia.
      destruct (Z.testbit bits 63); [rewrite <-Z.mul_opp_l|]; symmetry; apply pow2_multiple_wrap; lia.
    + replace (e =? 2047) with false by lia.
      assert (M : wrap 32 (if 52 <? e - 1023 then wrap 64 ((2 ^ 52 + g) << (e - 1023 - 52))
                           else (2 ^ 52 + g) >> (52 - (e - 1023))) =
                  wrap 32 (if e <? 1075 then (2 ^ 52 + g) / 2 ^ (1075 - e) else (2 ^ 52 + g) * 2 ^ (e - 1075))).
      { destruct (Z.ltb_spec 52 (e - 1023)).
        - replace (e <? 1075) with false by lia. rewrite fcvtmod_magnitude by lia. do 3 f_equal. lia.
        - rewrite Z.shiftr_div_pow2 by lia. replace (52 - (e - 1023)) with (1075 - e) by lia.
          destruct (Z.ltb_spec e 1075); [done|]. replace (1075 - e) with 0 by lia.
          replace (e - 1075) with 0 by lia. by rewrite Z.div_1_r, Z.mul_1_r. }
      rewrite M. destruct (Z.testbit bits 63); [apply wrap32_opp | done].
Qed.

(** -2 ^ 32 - 3: only the low word survives. *)
Lemma fcvtmod_bits_spec_witness :
  fcvtmod_bits 0xc1f0000000300000 = 2 ^ 32 - 3.
Proof.
  rewrite (fcvtmod_bits_spec 0xc1f0000000300000 ltac:(split; vm_compute; done)). vm_compute. reflexivity.
Defined.

(** ** NaN boxing *)

Lemma box_s_high x : fits 32 x -> riscv_fp_box_s x >> 32 = Z.ones 32 /\ wrap 32 (riscv_fp_box_s x) = x.
Proof.
  intros Hx. unfold riscv_fp_box_s. change 0xffffffff00000000 with (Z.ones 32 << 32). split; bits.
Qed.
Lemma box_h_high x : fits 16 x -> riscv_fp_box_h x >> 16 = Z.ones 48 /\ wrap 16 (riscv_fp_box_h x) = x.
Proof.
  intros Hx. unfold riscv_fp_box_h. change 0xffffffffffff0000 with (Z.ones 48 << 16). split; bits.
Qed.

Lemma read_box_s x : fits 32 x -> riscv_fp_read_s (riscv_fp_box_s x) = x.
Proof. intros Hx. destruct (box_s_high x Hx) as [E1 E2]. unfold riscv_fp_read_s. by rewrite E1, E2, Z.eqb_refl. Qed.

(** A boxed single or half reads back as itself, anything that is not boxed
    reads as the canonical NaN, and [riscv_fp_sgnj] of boxed operands is the first one with
    the sign of the second one, its complement or the exclusive or of both. *)
Theorem riscv_fp_boxing x y h bits :
  fits 32 x -> fits 32 y -> fits 16 h -> fits 64 bits ->
  riscv_fp_read_s (riscv_fp_box_s x) = x /\
  riscv_fp_read_h (riscv_fp_box_h h) = h /\
  (riscv_fp_box_s (wrap 32 bits) <> bits -> riscv_fp_read_s bits = 0x7fc00000) /\
  (riscv_fp_box_h (wrap 16 bits) <> bits -> riscv_fp_read_h bits = 0x7e00) /\
  forall mode, let r := riscv_fp_read_s (riscv_fp_sgnj (riscv_fp_box_s x) (riscv_fp_box_s y) mode) in
    wrap 31 r = wrap 31 x /\
    Z.testbit r 31 =
      (if mode =? 1 then negb (Z.testbit y 31)
       else if mode =? 2 then xorb (Z.testbit x 31) (Z.testbit y 31) else Z.testbit y 31).
Proof.
  intros Hx Hy Hh Hb. split_and!.
  - by apply read_box_s.
  - destruct (box_h_high h Hh) as [E1 E2]. unfold riscv_fp_read_h. rewrite E1, E2. done.
  - intros N. unfold riscv_fp_read_s. destruct (Z.eqb_spec (bits >> 32) (Z.ones 32)) as [E|]; [|done].
    exfalso. apply N. unfold riscv_fp_box_s. change 0xffffffff00000000 with (Z.ones 32 << 32). rewrite <-E.
    apply Z.bits_inj'. intros i Hi. rewrite Z.lor_spec, Z.shiftl_spec, testbit_wrap by lia.
    destruct (Z.ltb_spec i 32).
    + by rewrite Z.testbit_neg_r by lia.
    + rewrite Z.shiftr_spec by lia. rewrite orb_false_r. f_equal. lia.
  - intros N. unfold riscv_fp_read_h. destruct (Z.eqb_spec (bits >> 16) 0x0000ffffffffffff) as [E|]; [|done].
    exfalso. apply N. unfold riscv_fp_box_h. change 0xffffffffffff0000 with (0x0000ffffffffffff << 16). rewrite <-E.
    apply Z.bits_inj'. intros i Hi. rewrite Z.lor_spec, Z.shiftl_spec, testbit_wrap by lia.
    destruct (Z.ltb_spec i 16).
    + by rewrite Z.testbit_neg_r by lia.
    + rewrite Z.shiftr_spec by lia. rewrite orb_false_r. f_equal. lia.
  - intros mode. unfold riscv_fp_sgnj. rewrite !read_box_s by (done || by apply wrap_fits).
    change 0x80000000 with (1 << 31). change 0x7fffffff with (Z.ones 31). cbv zeta. split.
    + apply Z.bits_inj'. intros i Hi. rewrite !testbit_wrap, Z.lor_spec, Z.land_spec, testbit_ones by lia.
      destruct (Z.ltb_spec i 31); [|done]. replace (i <? 32) with true by lia. rewrite andb_true_r. cbn [andb].
      destruct (mode =? 1), (mode =? 2); rewrite Z.land_spec, testbit_shl1 by lia;
        replace (i =? 31) with false by lia; by rewrite andb_false_r, orb_false_r.
    + rewrite testbit_wrap, Z.lor_spec, Z.land_spec, testbit_ones by lia. rewrite andb_false_r. cbn [andb orb].
      destruct (mode =? 1), (mode =? 2); rewrite Z.land_spec, testbit_shl1 by lia; rewrite andb_true_r;
        rewrite ?testbit_wrap, ?Z.lnot_spec, ?Z.lxor_spec by lia; done.
Qed.

Lemma riscv_fp_boxing_witness :
  riscv_fp_read_s (riscv_fp_box_s 0x3f800000) = 0x3f800000 /\ riscv_fp_read_s 0x3f800000 = 0x7fc00000.
Proof.
  destruct (riscv_fp_boxing 0x3f800000 0 0 0x3f800000) as (H1 & _ & H2 & _);
    [split; vm_compute; done.. |]. split; [exact H1|]. apply H2. vm_compute. discriminate.
Defined.
