(* ===== verification/Machine.v ===== *)
(** * Machine: the state of a hart and the globals its instructions touch
    ([riscv-state.h], and the thread-local globals of [vaddr.c], [mmu.c],
    [pmp.c], [intr.c], [timer.c] and [cpu-exec.c]) *)
From S2P Require Import Prelude Config Tlb.

(** One decoded PMP entry and one slot of the PMP match cache ([pmp.c]). *)
Record pmp_decoded := mk_pmp_decoded {
  d_cfg : Z; d_a : Z; lo_w : Z; hi_w : Z; base_w : Z; mask_w : Z;
}.
#[export] Instance pmp_decoded_zero : Zero pmp_decoded := mk_pmp_decoded 0 0 0 0 0 0.

Record pmp_wcache_entry := mk_pmp_wcache_entry {
  w_word : Z; w_entry : Z; w_cfg : Z; w_gen : Z;
}.
#[export] Instance pmp_wcache_entry_zero : Zero pmp_wcache_entry := mk_pmp_wcache_entry 0 0 0 0.

(** [len] of the C structure is [wlen] here. [skip_ref] records a call of
    [difftest_skip_ref]; [mem] holds the bytes of physical memory. *)
Record machine := mk_machine {
  (* riscv_CPU_state *)
  sr : gmap Z Z;
  gpr : gmap Z Z;
  fpr : gmap Z Z;
  vreg : gmap Z Z;
  pc : Z;
  cpc : Z;
  inst : Z;
  priv : Z;
  virt : bool;
  intr : bool;
  raise_intr : Z;
  last_inst_priv : Z;
  last_csr_wr : Z;
  csr_dirty : bool;
  instruction_trapped : bool;
  mtimecmp : Z;
  stip : bool;
  seip : bool;
  reservation : Z;
  reservation_bytes : Z;
  vwaddr : Z;
  pwaddr : Z;
  wdata : Z;
  wlen : Z;
  rvaddr : Z;
  rpaddr : Z;
  rdata : Z;
  rlen : Z;
  iomm_addr : Z;
  skip : Z;
  (* globals *)
  riscv_isa_extensions : Z;
  nemu_md_interrupts : bool;
  g_vaddr : Z;
  riscv_h_fault_gpa : Z;
  riscv_h_fault_ptw : bool;
  riscv_h_fault_write : bool;
  riscv_h_explicit_trap : bool;
  cause : Z;
  tlb : tlb_state;
  pmp_any_active : bool;
  pmp_dec : gmap Z pmp_decoded;
  pmp_wcache : gmap Z pmp_wcache_entry;
  pmp_gen : Z;
  pmp_last_fault_addr : Z;
  mem : gmap Z Z;
  skip_ref : bool;
  (* time: the instruction count, the CLINT, and the host's clock, in
     microseconds at its n-th reading *)
  g_nr_guest_inst : Z;
  clint_msip : Z;
  boot_time : Z;
  host_clock : Z -> Z;
  host_reads : Z;
}.

#[export] Instance machine_fields : Fields machine := fun m =>
  mk_machine (sr m) (gpr m) (fpr m) (vreg m) (pc m) (cpc m)
    (inst m) (priv m) (virt m) (intr m) (raise_intr m) (last_inst_priv m)
    (last_csr_wr m) (csr_dirty m) (instruction_trapped m) (mtimecmp m) (stip m) (seip m)
    (reservation m) (reservation_bytes m) (vwaddr m) (pwaddr m) (wdata m) (wlen m)
    (rvaddr m) (rpaddr m) (rdata m) (rlen m) (iomm_addr m) (skip m)
    (riscv_isa_extensions m) (nemu_md_interrupts m) (g_vaddr m) (riscv_h_fault_gpa m) (riscv_h_fault_ptw m) (riscv_h_fault_write m)
    (riscv_h_explicit_trap m) (cause m) (tlb m) (pmp_any_active m) (pmp_dec m) (pmp_wcache m)
    (pmp_gen m) (pmp_last_fault_addr m) (mem m) (skip_ref m) (g_nr_guest_inst m) (clint_msip m)
    (boot_time m) (host_clock m) (host_reads m).

#[export] Instance set_sr : Setter sr := ltac:(build_setter sr).
#[export] Instance set_gpr : Setter gpr := ltac:(build_setter gpr).
#[export] Instance set_fpr : Setter fpr := ltac:(build_setter fpr).
#[export] Instance set_vreg : Setter vreg := ltac:(build_setter vreg).
#[export] Instance set_pc : Setter pc := ltac:(build_setter pc).
#[export] Instance set_cpc : Setter cpc := ltac:(build_setter cpc).
#[export] Instance set_inst : Setter inst := ltac:(build_setter inst).
#[export] Instance set_priv : Setter priv := ltac:(build_setter priv).
#[export] Instance set_virt : Setter virt := ltac:(build_setter virt).
#[export] Instance set_intr : Setter intr := ltac:(build_setter intr).
#[export] Instance set_raise_intr : Setter raise_intr := ltac:(build_setter raise_intr).
#[export] Instance set_last_inst_priv : Setter last_inst_priv := ltac:(build_setter last_inst_priv).
#[export] Instance set_last_csr_wr : Setter last_csr_wr := ltac:(build_setter last_csr_wr).
#[export] Instance set_csr_dirty : Setter csr_dirty := ltac:(build_setter csr_dirty).
#[export] Instance set_instruction_trapped : Setter instruction_trapped := ltac:(build_setter instruction_trapped).
#[export] Instance set_mtimecmp : Setter mtimecmp := ltac:(build_setter mtimecmp).
#[export] Instance set_stip : Setter stip := ltac:(build_setter stip).
#[export] Instance set_seip : Setter seip := ltac:(build_setter seip).
#[export] Instance set_reservation : Setter reservation := ltac:(build_setter reservation).
#[export] Instance set_reservation_bytes : Setter reservation_bytes := ltac:(build_setter reservation_bytes).
#[export] Instance set_vwaddr : Setter vwaddr := ltac:(build_setter vwaddr).
#[export] Instance set_pwaddr : Setter pwaddr := ltac:(build_setter pwaddr).
#[export] Instance set_wdata : Setter wdata := ltac:(build_setter wdata).
#[export] Instance set_wlen : Setter wlen := ltac:(build_setter wlen).
#[export] Instance set_rvaddr : Setter rvaddr := ltac:(build_setter rvaddr).
#[export] Instance set_rpaddr : Setter rpaddr := ltac:(build_setter rpaddr).
#[export] Instance set_rdata : Setter rdata := ltac:(build_setter rdata).
#[export] Instance set_rlen : Setter rlen := ltac:(build_setter rlen).
#[export] Instance set_iomm_addr : Setter iomm_addr := ltac:(build_setter iomm_addr).
#[export] Instance set_skip : Setter skip := ltac:(build_setter skip).
#[export] Instance set_riscv_isa_extensions : Setter riscv_isa_extensions := ltac:(build_setter riscv_isa_extensions).
#[export] Instance set_nemu_md_interrupts : Setter nemu_md_interrupts := ltac:(build_setter nemu_md_interrupts).
#[export] Instance set_g_vaddr : Setter g_vaddr := ltac:(build_setter g_vaddr).
#[export] Instance set_riscv_h_fault_gpa : Setter riscv_h_fault_gpa := ltac:(build_setter riscv_h_fault_gpa).
#[export] Instance set_riscv_h_fault_ptw : Setter riscv_h_fault_ptw := ltac:(build_setter riscv_h_fault_ptw).
#[export] Instance set_riscv_h_fault_write : Setter riscv_h_fault_write := ltac:(build_setter riscv_h_fault_write).
#[export] Instance set_riscv_h_explicit_trap : Setter riscv_h_explicit_trap := ltac:(build_setter riscv_h_explicit_trap).
#[export] Instance set_cause : Setter cause := ltac:(build_setter cause).
#[export] Instance set_tlb : Setter tlb := ltac:(build_setter tlb).
#[export] Instance set_pmp_any_active : Setter pmp_any_active := ltac:(build_setter pmp_any_active).
#[export] Instance set_pmp_dec : Setter pmp_dec := ltac:(build_setter pmp_dec).
#[export] Instance set_pmp_wcache : Setter pmp_wcache := ltac:(build_setter pmp_wcache).
#[export] Instance set_pmp_gen : Setter pmp_gen := ltac:(build_setter pmp_gen).
#[export] Instance set_pmp_last_fault_addr : Setter pmp_last_fault_addr := ltac:(build_setter pmp_last_fault_addr).
#[export] Instance set_mem : Setter mem := ltac:(build_setter mem).
#[export] Instance set_skip_ref : Setter skip_ref := ltac:(build_setter skip_ref).
#[export] Instance set_g_nr_guest_inst : Setter g_nr_guest_inst := ltac:(build_setter g_nr_guest_inst).
#[export] Instance set_clint_msip : Setter clint_msip := ltac:(build_setter clint_msip).
#[export] Instance set_boot_time : Setter boot_time := ltac:(build_setter boot_time).
#[export] Instance set_host_clock : Setter host_clock := ltac:(build_setter host_clock).
#[export] Instance set_host_reads : Setter host_reads := ltac:(build_setter host_reads).

(** The statically initialised globals: everything zero but the epochs and the
    PMP generation. *)
Definition machine_init : machine :=
  mk_machine ∅ ∅ ∅ ∅ 0 0 0 0 false false 0 0 0 false false 0
    false false 0 0 0 0 0 0 0 0 0 0 0 0 0 false
    0 0 false false false 0 tlb_init false ∅ ∅ 1 0 ∅ false
    0 0 0 (fun _ => 0) 0.

(** Reads and writes of [cpu.sr[]] and [cpu.gpr[]]. *)
Definition CSR (m : machine) (csr : Z) : Z := aget (sr m) (csr .& 0xfff).
Definition setCSR (csr v : Z) (m : machine) : machine := m <| sr ::= fun a => aset a (csr .& 0xfff) v |>.
Definition R (m : machine) (i : Z) : Z := aget (gpr m) i.
Definition setR (i v : Z) (m : machine) : machine := m <| gpr ::= fun a => aset a i v |>.
Definition difftest_skip_ref (m : machine) : machine := m <| skip_ref := true |>.
Definition machine_soft_tlb_flush {Cfg : Config} (m : machine) : machine :=
  m <| tlb ::= soft_tlb_flush |>.

(** ** Projections of updated states *)

(** [fields] reduces every projection of an updated machine in the goal. Each
    equation is proved for a variable state, so that the state at hand, however
    large, is never unfolded. *)
Ltac by_refl T := constr:(ltac:(intros; reflexivity) : T).
Ltac upd_rule p q :=
  match goal with
  | _ => let T := constr:(forall f m, p (upd q f m) = p m) in by_refl T
  | _ => let T := constr:(forall f m, p (upd q f m) = f (p m)) in by_refl T
  end.
Ltac field_step :=
  match goal with
  | |- context [?p (upd ?q ?f ?m)] =>
      let _ := constr:(_ : Setter p) in
      let H := upd_rule p q in rewrite (H f m)
  end.
Ltac fields := repeat (field_step; cbv beta).
Ltac field_step_in H :=
  match type of H with
  | context [?p (upd ?q ?f ?m)] =>
      let _ := constr:(_ : Setter p) in
      let E := upd_rule p q in rewrite (E f m) in H
  end.
Ltac fields_in H := repeat (field_step_in H; cbv beta in H).

Lemma CSR_setCSR_eq m csr v : CSR (setCSR csr v m) csr = v.
Proof. unfold CSR, setCSR. fields. apply aget_aset_eq. Qed.

Lemma CSR_setCSR_ne m csr csr' v :
  csr .& 0xfff <> csr' .& 0xfff -> CSR (setCSR csr v m) csr' = CSR m csr'.
Proof. intros. unfold CSR, setCSR. fields. by apply aget_aset_ne. Qed.

Lemma CSR_setCSR_low m csr csr' v :
  csr' .& 0xfff <> csr .& 0xfff -> CSR (setCSR csr v m) csr' = CSR m csr'.
Proof. intros. apply CSR_setCSR_ne. by intros E; apply H. Qed.

Lemma CSR_upd_sr m f csr : CSR (m <| sr ::= f |>) csr = aget (f (sr m)) (csr .& 0xfff).
Proof. done. Qed.

Lemma CSR_flush {Cfg : Config} m csr : CSR (machine_soft_tlb_flush m) csr = CSR m csr.
Proof. done. Qed.

Lemma gpr_setR m i v : gpr (setR i v m) = aset (gpr m) i v.
Proof. done. Qed.

Lemma CSR_setR m i v csr : CSR (setR i v m) csr = CSR m csr.
Proof. done. Qed.

Lemma CSR_skip_ref m csr : CSR (difftest_skip_ref m) csr = CSR m csr.
Proof. done. Qed.

(** [mach] also looks through CSR writes at concrete CSR numbers. *)
Ltac csr_step :=
  match goal with
  | |- context [CSR (setCSR ?c ?v ?m) ?d] =>
      first [ rewrite (CSR_setCSR_eq m c v)
            | rewrite (CSR_setCSR_ne m c d v) by (vm_compute; discriminate)
            | rewrite (CSR_setCSR_low m c d v) by assumption ]
  | |- context [CSR (upd ?q ?f ?m) ?c] =>
      let T := constr:(forall f' m' c', CSR (upd q f' m') c' = CSR m' c') in
      let H := by_refl T in rewrite (H f m c)
  | |- context [CSR (machine_soft_tlb_flush ?m) ?c] => rewrite (CSR_flush m c)
  | |- context [CSR (difftest_skip_ref ?m) ?c] => rewrite (CSR_skip_ref m c)
  | |- context [gpr (setR ?i ?v ?m)] => rewrite (gpr_setR m i v)
  | |- context [CSR (setR ?i ?v ?m) ?c] => rewrite (CSR_setR m i v c)
  | |- context [?p (setR ?i ?v ?m)] =>
      let _ := constr:(_ : Setter p) in
      let T := constr:(forall i' v' m', p (setR i' v' m') = p m') in
      let H := by_refl T in rewrite (H i v m)
  | |- context [?p (setCSR ?c ?v ?m)] =>
      let _ := constr:(_ : Setter p) in
      let T := constr:(forall c' v' m', p (setCSR c' v' m') = p m') in
      let H := by_refl T in rewrite (H c v m)
  | |- context [?p (machine_soft_tlb_flush ?m)] =>
      let _ := constr:(_ : Setter p) in
      let T := constr:(forall m', p (machine_soft_tlb_flush m') = p m') in
      let H := by_refl T in rewrite (H m)
  | |- context [?p (difftest_skip_ref ?m)] =>
      let _ := constr:(_ : Setter p) in
      let T := constr:(forall m', p (difftest_skip_ref m') = p m') in
      let H := by_refl T in rewrite (H m)
  end.

(** [steps] names the values bound by the [let]s of an unfolded operation, each
    with its equation, and [mach] then reads the named states through these
    equations, so that no state is written out more than once. *)
Lemma let_name {A} (e : A) (P : A -> Prop) : (forall x, x = e -> P x) -> P e.
Proof. intros H. by apply H. Qed.
Ltac step_let :=
  match goal with
  | |- context C [let x := ?e in @?b x] =>
      let g := constr:(fun y => ltac:(let g' := context C [b y] in exact g')) in
      let y := fresh x in let H := fresh "E" x in
      apply (let_name e g); intros y H; cbv beta
  end.
Tactic Notation "steps" reference(op) := cbv beta delta [op]; repeat step_let.
Ltac is_field p :=
  lazymatch p with CSR => idtac | _ => let _ := constr:(_ : Setter p) in idtac end.
Ltac read_step :=
  match goal with
  | E : ?x = _ |- context [?p ?x] => is_var x; is_field p; rewrite E
  end.
Lemma if_push {A B} (f : A -> B) (b : bool) x y : f (if b then x else y) = if b then f x else f y.
Proof. by destruct b. Qed.
Lemma if_same {A} (b : bool) (x : A) : (if b then x else x) = x.
Proof. by destruct b. Qed.
Ltac if_step :=
  match goal with
  | |- context [?p (if ?b then ?x else ?y)] =>
      let _ := constr:(_ : Setter p) in rewrite (if_push p b x y)
  | |- context [if ?b then ?x else ?x] => rewrite (if_same b x)
  end.
Lemma CSR_if (b : bool) x y c : CSR (if b then x else y) c = if b then CSR x c else CSR y c.
Proof. by destruct b. Qed.
Ltac mach :=
  repeat (first [field_step | csr_step | if_step | rewrite CSR_if | read_step]; cbv beta).

(** ** Inline predicates of [isa-def.h] *)

Section Predicates.
Context {Cfg : Config}.

Definition h_enabled (m : machine) : bool :=
  riscv_h_gstage_preview_enabled (riscv_isa_extensions m).

Definition riscv_virtual_timer_pending (m : machine) : bool :=
  if CONFIG_RV64 then
    h_enabled m
    && nz (CSR m CSR_MENVCFG .& (1 << 63))
    && nz (CSR m CSR_HENVCFG .& (1 << 63))
    && (CSR m CSR_VSTIMECMP <=? wrap 64 (CSR m CSR_TIME + CSR m CSR_HTIMEDELTA))
  else false.

Definition riscv_intr_may_pending (m : machine) : bool :=
  if CSR m CSR_MIE =? 0 then false
  else
    let sources := CSR m CSR_MIP
      .| (CSR m CSR_HVIP .& word (riscv_virtual_irq_mask (riscv_isa_extensions m)))
      .| (if seip m then 0x200 else 0) .| (if stip m then 0x20 else 0) in
    let sources := if riscv_virtual_timer_pending m then sources .| 0x40 else sources in
    let sources := if CONFIG_RAPTOR_MEMORY_MAP
                   then sources .| ((CSR m CSR_MBERR_STATUS .& 1) << 16) else sources in
    nz sources.

Definition pmp_effective_priv_ls (m : machine) : Z :=
  let ms := CSR m CSR_MSTATUS in
  if nz (ms .& CSR_MSTATUS_MPRV) && (priv m =? PRV_M)
  then (ms .& CSR_MSTATUS_MPP) >> 11
  else priv m.

Definition riscv_data_virtual_mode (m : machine) : bool :=
  if CONFIG_RV64 then
    let status := CSR m CSR_MSTATUS in
    h_enabled m
    && (virt m
        || ((priv m =? PRV_M) && nz (status .& CSR_MSTATUS_MPRV)
            && negb (((status .& CSR_MSTATUS_MPP) >> 11) =? PRV_M)
            && nz (status .& (1 << 39))))
  else false.

Definition riscv_pointer_mask (m : machine) (address : Z) : Z :=
  if CONFIG_RV64 then
    let exts := riscv_isa_extensions m in
    if negb (nz (exts .& (NEMU_ISA_EXT_SSNPM .| NEMU_ISA_EXT_SMNPM))) then address
    else
      let privilege := pmp_effective_priv_ls m in
      let guest := riscv_data_virtual_mode m in
      let mxr := CSR m CSR_MSTATUS .| (if guest then CSR m CSR_VSSTATUS else 0) in
      if (privilege =? PRV_M) || nz (mxr .& (1 << 19)) then address
      else
        let extension :=
          if guest || (privilege =? PRV_U) then NEMU_ISA_EXT_SSNPM else NEMU_ISA_EXT_SMNPM in
        if negb (nz (exts .& extension)) then address
        else
          let envcfg := if guest && (privilege =? PRV_S) then CSR_HENVCFG
                        else if privilege =? PRV_U then CSR_SENVCFG else CSR_MENVCFG in
          let pmm := (CSR m envcfg >> 32) .& 3 in
          let satp := if guest then CSR_VSATP else CSR_SATP in
          riscv_pointer_mask_value address pmm (nz (CSR m satp >> 60))
  else address.

End Predicates.
