(* ===== verification/Pmp.v ===== *)
(** * Pmp: physical memory protection ([system/pmp.c]): the packed CSR storage
    and its WARL rules, the decoded entries, the match cache and the check. *)
From S2P Require Import Prelude Config Tlb Machine.

Section Pmp.
Context {Cfg : Config}.

Definition PMP_N : Z := 8.
Definition PMP_CSR_N : Z := 16.
Definition PMP_G : Z := CONFIG_RV_PMP_GRANULARITY_LOG2 - 2.
Definition PMP_TOR_MASK : Z := (1 << PMP_G) - 1.

Definition PMPCFG_R_BIT : Z := 0.
Definition PMPCFG_W_BIT : Z := 1.
Definition PMPCFG_X_BIT : Z := 2.
Definition PMPCFG_A_LSB : Z := 3.
Definition PMPCFG_L_BIT : Z := 7.

Definition PMP_A_OFF : Z := 0.
Definition PMP_A_TOR : Z := 1.
Definition PMP_A_NA4 : Z := 2.
Definition PMP_A_NAPOT : Z := 3.

(** ** Packed storage *)

(** The CSR that holds entry [i]'s configuration byte, and the byte's offset. *)
Definition pmp_cfg_csr (i : Z) : Z :=
  if CONFIG_RV64 then CSR_PMPCFG0 + (i >> 3) * 2 else CSR_PMPCFG0 + (i >> 2).
Definition pmp_cfg_off (i : Z) : Z := if CONFIG_RV64 then (i .& 7) * 8 else (i .& 3) * 8.

Definition pmp_cfg (m : machine) (i : Z) : Z :=
  wrap 8 (CSR m (pmp_cfg_csr i) >> pmp_cfg_off i).

Definition pmp_cfg_set (i byte : Z) (m : machine) : machine :=
  let off := pmp_cfg_off i in
  let mask := wshl 0xff off in
  let p := CSR m (pmp_cfg_csr i) in
  setCSR (pmp_cfg_csr i) ((p .& wnot mask) .| (wshl byte off .& mask)) m.

Definition pmp_addr (m : machine) (i : Z) : Z := CSR m (CSR_PMPADDR0 + i).

Definition pmp_addr_set (i v : Z) (m : machine) : machine :=
  let v := if CONFIG_RV64 then v .& ((1 << CONFIG_RV_PMPADDR_BITS) - 1) else v in
  setCSR (CSR_PMPADDR0 + i) v m.

Definition pmp_csr_read (m : machine) (csr : Z) : Z :=
  let csr := csr .& 0xfff in
  if (csr <? CSR_PMPADDR0) || (CSR_PMPADDR0 + PMP_CSR_N <=? csr) then CSR m csr
  else
    let i := csr - CSR_PMPADDR0 in
    if PMP_N <=? i then 0
    else
      let addr := pmp_addr m i in
      if 0 <? PMP_G then
        if negb (((pmp_cfg m i >> PMPCFG_A_LSB) .& 3) =? PMP_A_NAPOT)
        then addr .& wnot PMP_TOR_MASK
        else if 1 <? PMP_G then addr .| ((1 << (PMP_G - 1)) - 1) else addr
      else addr.

(** ** Decoded entries *)

Definition PMP_WCACHE_SIZE : Z := 1 << 13.

(** The loop of [pmp_napot_mask], [n] iterations left. *)
Fixpoint napot_loop (n : nat) (j mask pa : Z) : Z :=
  match n with
  | O => mask
  | S n => if nz (pa .& (1 << (j - 1))) then napot_loop n (j + 1) (mask .| (1 << j)) pa else mask
  end.
Definition pmp_napot_mask (pa : Z) : Z := napot_loop (Z.to_nat (XLEN - 1)) 1 1 pa.

(** The body of the loop of [pmp_rebuild_decoded]; [d] is the old entry. *)
Definition pmp_decode_entry (m : machine) (i : Z) (d : pmp_decoded) : pmp_decoded :=
  let cfg := pmp_cfg m i in
  let a := (cfg >> PMPCFG_A_LSB) .& 0x3 in
  let pa := pmp_csr_read m (CSR_PMPADDR0 + i) in
  if a =? PMP_A_TOR then
    mk_pmp_decoded cfg a
      (if i =? 0 then 0 else pmp_addr m (i - 1) .& wnot PMP_TOR_MASK) pa 0 0
  else if a =? PMP_A_NA4 then mk_pmp_decoded cfg a (lo_w d) (hi_w d) pa 0
  else if a =? PMP_A_NAPOT then
    let mask := pmp_napot_mask pa in
    mk_pmp_decoded cfg a (lo_w d) (hi_w d) (pa .& wnot mask) mask
  else mk_pmp_decoded cfg a (lo_w d) (hi_w d) 0 0.

Definition pmp_decode_step (m : machine) (i : Z) : machine :=
  let d := pmp_decode_entry m i (aget (pmp_dec m) i) in
  let m := if negb (d_a d =? PMP_A_OFF) then m <| pmp_any_active := true |> else m in
  m <| pmp_dec ::= fun t => aset t i d |>.

(** The entries, in the order of every loop over them. *)
Definition pmp_entries : list Z := [0; 1; 2; 3; 4; 5; 6; 7].

Definition pmp_decode_all (m : machine) : machine :=
  foldl pmp_decode_step (m <| pmp_any_active := false |>) pmp_entries.

Definition pmp_rebuild_decoded (m : machine) : machine :=
  let m := pmp_decode_all m in
  let gen := wrap 32 (pmp_gen m + 1) in
  if gen =? 0 then m <| pmp_wcache := ∅ |> <| pmp_gen := 1 |> else m <| pmp_gen := gen |>.

Definition pmp_hart_switch (m : machine) : machine := pmp_rebuild_decoded m.

Definition pmp_restore_checkpoint (cfg addr : Z -> Z) (m : machine) : machine :=
  let m := foldl (fun m i =>
    pmp_addr_set i (if i <? PMP_N then addr i else 0)
      (pmp_cfg_set i (if i <? PMP_N then cfg i else 0) m)) m (seqZ 0 PMP_CSR_N) in
  machine_soft_tlb_flush (pmp_rebuild_decoded m).

(** ** CSR writes *)

(** The byte stored in an unlocked entry for the byte [b] written to it. *)
Definition pmp_cfg_warl (b : Z) : Z :=
  let nb := b .& 0x9f in
  let nb := if (nb .& 3) =? 2 then nb .& 0xf8 else nb in
  if (0 <? PMP_G) && (((nb >> PMPCFG_A_LSB) .& 3) =? PMP_A_NA4) then nb .& 0xe7 else nb.

Definition pmp_cfg_locked (m : machine) (i : Z) : bool :=
  nz (pmp_cfg m i .& (1 << PMPCFG_L_BIT)).

Definition pmp_cfg_write1 (base val : Z) (m : machine) (pi : Z) : machine :=
  if PMP_N <=? base + pi then m
  else if pmp_cfg_locked m (base + pi) then m
  else pmp_cfg_set (base + pi) (pmp_cfg_warl (wrap 8 (val >> (pi * 8)))) m.

(** Returns whether the CSR was a PMP CSR. *)
Definition pmp_csr_write (csr val : Z) (m : machine) : bool * machine :=
  let csr := csr .& 0xfff in
  if (CSR_PMPCFG0 <=? csr) && (csr <=? CSR_PMPCFG3) then
    if CONFIG_RV64 && nz (csr .& 1) then (true, m)
    else
      let base := if CONFIG_RV64 then (csr - CSR_PMPCFG0) / 2 * 8 else (csr - CSR_PMPCFG0) * 4 in
      let slots := if CONFIG_RV64 then pmp_entries else [0; 1; 2; 3] in
      let m := foldl (pmp_cfg_write1 base val) m slots in
      (true, machine_soft_tlb_flush (pmp_rebuild_decoded m))
  else if (CSR_PMPADDR0 <=? csr) && (csr <=? CSR_PMPADDR0 + PMP_CSR_N - 1) then
    let i := csr - CSR_PMPADDR0 in
    if PMP_N <=? i then (true, m)
    else if pmp_cfg_locked m i then (true, m)
    else if (i <? PMP_N - 1) && pmp_cfg_locked m (i + 1)
            && (((pmp_cfg m (i + 1) >> PMPCFG_A_LSB) .& 0x3) =? PMP_A_TOR)
    then (true, m)
    else (true, machine_soft_tlb_flush (pmp_rebuild_decoded (pmp_addr_set i val m)))
  else (false, m).

(** ** Matching *)

Record pmp_match := mk_pmp_match { any_match : bool; entry : Z; match_cfg : Z }.

Definition pmp_entry_match (d : pmp_decoded) (addr_w : Z) : bool :=
  if d_a d =? PMP_A_OFF then false
  else if d_a d =? PMP_A_TOR then (lo_w d <=? addr_w) && (addr_w <? hi_w d)
  else (addr_w .& wnot (mask_w d)) =? base_w d.

(** The search loop of [pmp_byte_lookup]: the lowest entry that matches, -1 if none. *)
Fixpoint pmp_search (dec : gmap Z pmp_decoded) (addr_w : Z) (idx : list Z) : Z * Z :=
  match idx with
  | [] => (-1, 0)
  | i :: idx =>
      let d := aget dec i in
      if pmp_entry_match d addr_w then (i, d_cfg d) else pmp_search dec addr_w idx
  end.

Definition pmp_slot (addr_w : Z) : Z := (addr_w .^ (addr_w >> 13)) .& (PMP_WCACHE_SIZE - 1).

Definition pmp_byte_lookup (addr_bytes : Z) (m : machine) : pmp_match * machine :=
  let addr_w := addr_bytes >> 2 in
  let c := aget (pmp_wcache m) (pmp_slot addr_w) in
  if (w_gen c =? pmp_gen m) && (w_word c =? addr_w) then
    (mk_pmp_match (0 <=? w_entry c) (w_entry c) (w_cfg c), m)
  else
    let '(found, found_cfg) := pmp_search (pmp_dec m) addr_w pmp_entries in
    (mk_pmp_match (0 <=? found) found found_cfg,
     m <| pmp_wcache ::= fun t =>
            aset t (pmp_slot addr_w) (mk_pmp_wcache_entry addr_w found found_cfg (pmp_gen m)) |>).

(** ** The check *)

Definition pmp_perm_ok (cfg : Z) (op_r op_w op_x : bool) : bool :=
  (negb op_r || nz ((cfg >> PMPCFG_R_BIT) .& 1))
  && (negb op_w || nz ((cfg >> PMPCFG_W_BIT) .& 1))
  && (negb op_x || nz ((cfg >> PMPCFG_X_BIT) .& 1)).

(** [true] with the fault address recorded. *)
Definition pmp_fault (addr : Z) (m : machine) : bool * machine :=
  (true, m <| pmp_last_fault_addr := word addr |>).

(** The loop over the grains between the two ends of a straddling access:
    whether every grain resolves to entry [e0]; [n] iterations left. *)
Fixpoint pmp_covered (n : nat) (addr addr_hi size e0 offset : Z) (m : machine) : bool * machine :=
  match n with
  | O => (true, m)
  | S n =>
    if offset <? size then
      let g := wrap 64 (addr + offset) in
      let grain := 1 << CONFIG_RV_PMP_GRANULARITY_LOG2 in
      if (g >> 2) =? (addr_hi >> 2) then pmp_covered n addr addr_hi size e0 (offset + grain) m
      else
        let '(part, m) := pmp_byte_lookup g m in
        if negb (entry part =? e0) then (false, m)
        else pmp_covered n addr addr_hi size e0 (offset + grain) m
    else (true, m)
  end.

(** One pass of the final loop: [None] to continue, [Some fail_addr] to fault. *)
Definition pmp_pass (pm : pmp_match) (fail_addr : Z) (is_m op_r op_w op_x : bool) : option Z :=
  if negb (any_match pm) then if negb is_m then Some fail_addr else None
  else if is_m && negb (nz ((match_cfg pm >> PMPCFG_L_BIT) .& 1)) then None
  else if negb (pmp_perm_ok (match_cfg pm) op_r op_w op_x) then Some fail_addr
  else None.

(** Returns whether the access must fault. *)
Definition pmp_check (addr size0 privilege : Z) (op_r op_w op_x : bool) (m : machine)
    : bool * machine :=
  if negb (pmp_any_active m) then
    if privilege =? PRV_M then (false, m) else pmp_fault addr m
  else
    let size := if size0 <=? 0 then 1 else size0 in
    let addr_hi := wrap 64 (addr + (size - 1)) in
    let grain_log2 := CONFIG_RV_PMP_GRANULARITY_LOG2 in
    if (addr_hi >> grain_log2) =? (addr >> grain_log2) then
      let '(one, m) := pmp_byte_lookup addr m in
      if negb (any_match one) then
        if privilege =? PRV_M then (false, m) else pmp_fault addr m
      else if (privilege =? PRV_M) && negb (nz ((match_cfg one >> PMPCFG_L_BIT) .& 1))
      then (false, m)
      else if pmp_perm_ok (match_cfg one) op_r op_w op_x then (false, m)
      else pmp_fault addr m
    else
      let '(lo, m) := pmp_byte_lookup addr m in
      let '(hi, m) := pmp_byte_lookup addr_hi m in
      let is_m := privilege =? PRV_M in
      let grain := 1 << grain_log2 in
      let '(covered, m) :=
        if op_x then (true, m)
        else if negb (entry hi =? entry lo) then (false, m)
        else pmp_covered (Z.to_nat size) addr addr_hi size (entry lo)
               (grain - (addr .& (grain - 1))) m in
      if negb covered then pmp_fault addr m
      else
        match pmp_pass lo addr is_m op_r op_w op_x with
        | Some fail_addr => pmp_fault fail_addr m
        | None =>
            match pmp_pass hi (addr_hi .& wrap 64 (~~ (size - 1))) is_m op_r op_w op_x with
            | Some fail_addr => pmp_fault fail_addr m
            | None => (false, m)
            end
        end.

End Pmp.
