(* ===== verification/PmpSpec.v ===== *)
(** * PmpSpec: what PMP promises. The regions and the check are specified on
    the CSR contents, byte by byte, as the privileged specification does; the
    decoded entries, the match cache and the grain shortcuts of [Pmp] are shown
    to implement it. *)
From S2P Require Import Prelude Config Tlb Machine Pmp.

Section PmpSpec.
Context {Cfg : Config} {CfgOk : ConfigOk Cfg}.

(** ** Regions *)

Fixpoint trailing_ones (n : nat) (x : Z) : Z :=
  match n with
  | O => 0
  | S n => if Z.odd x then 1 + trailing_ones n (x >> 1) else 0
  end.

Definition cfg_A (cfg : Z) : Z := (cfg >> PMPCFG_A_LSB) .& 3.

(** Whether entry [i] covers the word at word address [w]. *)
Definition region_match (m : machine) (i w : Z) : bool :=
  let a := cfg_A (pmp_cfg m i) in
  if a =? PMP_A_OFF then false
  else if a =? PMP_A_TOR then
    let lo := if i =? 0 then 0 else pmp_addr m (i - 1) in
    (lo >> PMP_G <=? w >> PMP_G) && (w >> PMP_G <? pmp_addr m i >> PMP_G)
  else if a =? PMP_A_NA4 then w =? pmp_addr m i
  else
    let pa := pmp_addr m i .| Z.ones (Z.max 0 (PMP_G - 1)) in
    let k := trailing_ones (Z.to_nat (XLEN - 1)) pa in
    w >> (k + 1) =? pa >> (k + 1).

(** ** The check *)

Definition bytes_of (addr size : Z) : list Z := seqZ addr size.

Definition pmp_spec (m : machine) (addr size privilege : Z) (op_r op_w op_x : bool) : bool :=
  let touches i := existsb (fun b => region_match m i (b >> 2)) (bytes_of addr size) in
  let covers i := forallb (fun b => region_match m i (b >> 2)) (bytes_of addr size) in
  match List.find touches pmp_entries with
  | None => negb (privilege =? PRV_M)
  | Some i =>
      negb (covers i)
      || (negb ((privilege =? PRV_M) && negb (pmp_cfg_locked m i))
          && negb (pmp_perm_ok (pmp_cfg m i) op_r op_w op_x))
  end.

(** ** Invariant *)

Definition cache_ok (m : machine) : Prop :=
  forall slot, let c := aget (pmp_wcache m) slot in
    0 <= w_gen c <= pmp_gen m /\
    (w_gen c = pmp_gen m -> (w_entry c, w_cfg c) = pmp_search (pmp_dec m) (w_word c) pmp_entries).

Record pmp_storage_wf (m : machine) : Prop := {
  wf_addr : forall i, 0 <= i < PMP_N -> fits XLEN (pmp_addr m i);
  wf_cfgcsr : forall i, 0 <= i < PMP_N -> fits XLEN (CSR m (pmp_cfg_csr i));
  wf_cfg : forall i, 0 <= i < PMP_N -> pmp_cfg_warl (pmp_cfg m i) = pmp_cfg m i;
}.

Record pmp_wf (m : machine) : Prop := {
  wf_storage : pmp_storage_wf m;
  wf_dec : forall i, 0 <= i < PMP_N ->
    exists d, aget (pmp_dec m) i = pmp_decode_entry m i d;
  wf_any : pmp_any_active m = existsb (fun i => negb (cfg_A (pmp_cfg m i) =? PMP_A_OFF)) pmp_entries;
  wf_cache : cache_ok m;
  wf_gen : 1 <= pmp_gen m < 2 ^ 32;
}.

(** ** The NAPOT mask *)

Lemma trailing_ones_range n x : 0 <= trailing_ones n x <= Z.of_nat n.
Proof.
  revert x. induction n as [|n IH]; intros x; simpl; [lia|].
  destruct (Z.odd x); [specialize (IH (x >> 1)); lia | lia].
Qed.

Lemma trailing_ones_ge n x g :
  0 <= g <= Z.of_nat n -> (forall j, 0 <= j < g -> Z.testbit x j = true) -> g <= trailing_ones n x.
Proof.
  revert x g. induction n as [|n IH]; intros x g Hg Hx; cbn [trailing_ones]; [lia|].
  destruct (Z.eq_dec g 0) as [->|].
  { destruct (Z.odd x); [pose proof (trailing_ones_range n (x >> 1)); lia | lia]. }
  rewrite <-Z.bit0_odd, (Hx 0) by lia.
  specialize (IH (x >> 1) (g - 1)). enough (g - 1 <= trailing_ones n (x >> 1)) by lia.
  apply IH; [lia|]. intros j Hj. rewrite Z.shiftr_spec by lia. apply Hx. lia.
Qed.

Lemma napot_loop_ones n j pa :
  1 <= j -> napot_loop n j (Z.ones j) pa = Z.ones (j + trailing_ones n (pa >> (j - 1))).
Proof.
  revert j. induction n as [|n IH]; intros j Hj; cbn [napot_loop trailing_ones].
  { by rewrite Z.add_0_r. }
  rewrite nz_bit by lia. rewrite <-(Z.bit0_odd (pa >> (j - 1))), Z.shiftr_spec, Z.add_0_l by lia.
  destruct (Z.testbit pa (j - 1)); [|by rewrite Z.add_0_r].
  replace (Z.ones j .| (1 << j)) with (Z.ones (j + 1)).
  - rewrite IH by lia. f_equal. rewrite Z.shiftr_shiftr by lia.
    replace (j - 1 + 1) with j by lia. replace (j + 1 - 1) with j by lia. lia.
  - apply Z.bits_inj'. intros i Hi. rewrite Z.lor_spec, Z.shiftl_spec, !testbit_ones, testbit_1 by lia.
    destruct (Z.eqb_spec (i - j) 0), (Z.ltb_spec i j), (Z.ltb_spec i (j + 1)); simpl; lia.
Qed.

Lemma pmp_napot_mask_ones pa :
  pmp_napot_mask pa = Z.ones (1 + trailing_ones (Z.to_nat (XLEN - 1)) pa).
Proof.
  unfold pmp_napot_mask. 
  change (napot_loop ?n 1 1 pa) with (napot_loop n 1 (Z.ones 1) pa). rewrite napot_loop_ones by lia.
  by rewrite Z.sub_diag, Z.shiftr_0_r.
Qed.

(** Masking with the NAPOT mask compares the bits above the lowest zero. *)
Lemma land_wnot_ones x n : 0 <= n <= XLEN -> fits XLEN x -> x .& wnot (Z.ones n) = (x >> n) << n.
Proof.
  intros Hn Hx. rewrite <-land_lnot_ones by lia. unfold wnot, word.
  apply Z.bits_inj'. intros i Hi. bits_rewrite. destruct (Z.ltb_spec i XLEN); [done|].
  by rewrite (testbit_high XLEN x).
Qed.

Lemma shiftl_inj x y n : 0 <= n -> (x << n = y << n <-> x = y).
Proof.
  intros. rewrite !Z.shiftl_mul_pow2 by done. assert (0 < 2 ^ n) by (apply Z.pow_pos_nonneg; lia).
  nia.
Qed.

(** ** Decoded entries implement the regions *)

(** The word addresses the simulator meets: [addr >> 2] of a physical address. *)
Definition word_addr_ok (w : Z) : Prop := fits (if CONFIG_RV64 then 62 else 32) w.

Lemma word_addr_xlen w : word_addr_ok w -> fits XLEN w.
Proof.
  unfold word_addr_ok, XLEN. intros Hw. destruct CONFIG_RV64; [|done].
  eapply fits_le; [| |exact Hw]; lia.
Qed.

Lemma PMP_G_range : 0 <= PMP_G <= 10.
Proof. unfold PMP_G. pose proof (grain_range (ConfigOk := CfgOk)). lia. Qed.

Lemma XLEN_ge : 32 <= XLEN.
Proof. unfold XLEN. destruct CONFIG_RV64; lia. Qed.

Lemma PMP_TOR_MASK_ones : PMP_TOR_MASK = Z.ones PMP_G.
Proof. done. Qed.

(** Reading back [pmpaddr], outside and inside NAPOT mode. *)
Lemma pmp_csr_read_addr m i :
  0 <= i < PMP_N ->
  pmp_csr_read m (CSR_PMPADDR0 + i) =
    if cfg_A (pmp_cfg m i) =? PMP_A_NAPOT then
      pmp_addr m i .| Z.ones (Z.max 0 (PMP_G - 1))
    else if 0 <? PMP_G then pmp_addr m i .& wnot PMP_TOR_MASK else pmp_addr m i.
Proof.
  unfold PMP_N. intros Hi. unfold pmp_csr_read.
  assert (E : (CSR_PMPADDR0 + i) .& 0xfff = CSR_PMPADDR0 + i).
  { change 0xfff with (Z.ones 12). rewrite Z.land_ones by lia. apply Z.mod_small.
    unfold CSR_PMPADDR0. lia. }
  rewrite E. replace ((CSR_PMPADDR0 + i <? CSR_PMPADDR0) || _) with false
    by (unfold PMP_CSR_N; lia).
  replace (CSR_PMPADDR0 + i - CSR_PMPADDR0) with i by lia.
  replace (PMP_N <=? i) with false by (unfold PMP_N; lia).
  fold (cfg_A (pmp_cfg m i)). pose proof PMP_G_range.
  destruct (Z.ltb_spec 0 PMP_G), (cfg_A (pmp_cfg m i) =? PMP_A_NAPOT); cbn [negb]; try done.
  - destruct (Z.ltb_spec 1 PMP_G); [by rewrite Z.max_r by lia|].
    rewrite Z.max_l by lia. by rewrite Z.lor_0_r.
  - rewrite Z.max_l by lia. by rewrite Z.lor_0_r.
Qed.

Lemma cfg_A_range c : 0 <= cfg_A c <= 3.
Proof.
  pose proof (wrap_fits 2 (c >> PMPCFG_A_LSB) ltac:(lia)) as H. unfold fits, wrap in H.
  change (Z.ones 2) with 3 in H. unfold cfg_A. lia.
Qed.

(** A bound of a TOR region, whatever the grain. *)
Lemma tor_bound x : fits XLEN x -> x .& wnot PMP_TOR_MASK = (x >> PMP_G) << PMP_G.
Proof.
  intros. pose proof PMP_G_range. pose proof XLEN_ge. rewrite PMP_TOR_MASK_ones.
  apply land_wnot_ones; [lia|done].
Qed.

Lemma tor_read_bound x :
  fits XLEN x -> (if 0 <? PMP_G then x .& wnot PMP_TOR_MASK else x) = (x >> PMP_G) << PMP_G.
Proof.
  intros. pose proof PMP_G_range. destruct (Z.ltb_spec 0 PMP_G); [by apply tor_bound|].
  replace PMP_G with 0 by lia. by rewrite Z.shiftr_0_r, Z.shiftl_0_r.
Qed.

Lemma napot_addr_fits x : fits XLEN x -> fits XLEN (x .| Z.ones (Z.max 0 (PMP_G - 1))).
Proof.
  intros. pose proof PMP_G_range. pose proof XLEN_ge. apply fits_lor; [lia|done|].
  assert (Hg : 0 <= Z.max 0 (PMP_G - 1) <= XLEN) by lia. revert Hg.
  generalize (Z.max 0 (PMP_G - 1)) as g. intros g Hg. unfold fits. rewrite Z.ones_equiv.
  assert (2 ^ g <= 2 ^ XLEN) by (apply Z.pow_le_mono_r; lia).
  pose proof (Z.pow_pos_nonneg 2 g ltac:(lia) ltac:(lia)). lia.
Qed.

Lemma pmp_entry_match_region m i d w :
  pmp_storage_wf m -> (0 < PMP_G -> cfg_A (pmp_cfg m i) <> PMP_A_NA4) ->
  0 <= i < PMP_N -> word_addr_ok w ->
  pmp_entry_match (pmp_decode_entry m i d) w = region_match m i w.
Proof.
  intros [Wa _ _] Hna Hi Hw. pose proof PMP_G_range as HG. pose proof XLEN_ge as HX.
  apply word_addr_xlen in Hw.
  unfold pmp_decode_entry, region_match. fold (cfg_A (pmp_cfg m i)).
  rewrite (pmp_csr_read_addr m i Hi). set (a := cfg_A (pmp_cfg m i)) in *.
  pose proof (cfg_A_range (pmp_cfg m i)) as Ha. fold a in Ha.
  destruct (Z.eqb_spec a PMP_A_TOR) as [Et|Nt];
    [|destruct (Z.eqb_spec a PMP_A_NA4) as [En|Nn];
      [|destruct (Z.eqb_spec a PMP_A_NAPOT) as [Ep|Np]]];
    unfold pmp_entry_match; cbn [d_a lo_w hi_w base_w mask_w].
  - rewrite Et. change (PMP_A_TOR =? PMP_A_NAPOT) with false.
    change (PMP_A_TOR =? PMP_A_OFF) with false. cbn [negb].
    rewrite Z.eqb_refl, tor_read_bound by by apply Wa.
    apply eq_true_iff_eq. rewrite !andb_true_iff, Z.ltb_lt, Z.ltb_lt, shift_lt by lia.
    apply and_iff_compat_r. rewrite !Z.leb_le. destruct (Z.eqb_spec i 0) as [->|].
    + destruct Hw. rewrite Z.shiftr_0_l. split; intros; [by apply Z.shiftr_nonneg | lia].
    + rewrite tor_bound by (apply Wa; unfold PMP_N in *; lia). apply shift_le; lia.
  - rewrite En in Hna |- *. destruct (Z.ltb_spec 0 PMP_G); [by exfalso; apply Hna|].
    change (PMP_A_NA4 =? PMP_A_NAPOT) with false. change (PMP_A_NA4 =? PMP_A_OFF) with false.
    change (PMP_A_NA4 =? PMP_A_TOR) with false.
    unfold wnot, word. rewrite Z.land_comm. f_equal.
    apply Z.bits_inj'. intros j Hj. bits_rewrite. destruct (Z.ltb_spec j XLEN); [done|].
    by rewrite (testbit_high XLEN w).
  - rewrite Ep. change (PMP_A_NAPOT =? PMP_A_OFF) with false.
    change (PMP_A_NAPOT =? PMP_A_TOR) with false.
    pose proof (napot_addr_fits _ (Wa i Hi)) as Hpa.
    set (pa := pmp_addr m i .| Z.ones _) in *. rewrite pmp_napot_mask_ones.
    pose proof (trailing_ones_range (Z.to_nat (XLEN - 1)) pa).
    rewrite !land_wnot_ones by (done || lia).
    apply eq_true_iff_eq. rewrite !Z.eqb_eq, shiftl_inj by lia.
    by rewrite (Z.add_comm 1).
  - assert (a = PMP_A_OFF) as -> by (unfold PMP_A_OFF, PMP_A_TOR, PMP_A_NA4, PMP_A_NAPOT in *; lia).
    done.
Qed.

(** Regions are made of whole grains. *)
Lemma region_match_grain m i w w' :
  (0 < PMP_G -> cfg_A (pmp_cfg m i) <> PMP_A_NA4) ->
  w >> PMP_G = w' >> PMP_G -> region_match m i w = region_match m i w'.
Proof.
  intros Hna E. pose proof PMP_G_range as HG. unfold region_match.
  destruct (_ =? PMP_A_OFF); [done|]. destruct (_ =? PMP_A_TOR); [by rewrite E|].
  destruct (Z.eqb_spec (cfg_A (pmp_cfg m i)) PMP_A_NA4) as [En|_].
  { destruct (Z.ltb_spec 0 PMP_G); [by exfalso; apply Hna|].
    replace PMP_G with 0 in E by lia. rewrite !Z.shiftr_0_r in E. by rewrite E. }
  set (pa := pmp_addr m i .| _).
  assert (Hk : PMP_G <= trailing_ones (Z.to_nat (XLEN - 1)) pa + 1).
  { pose proof XLEN_ge. enough (Z.max 0 (PMP_G - 1) <= trailing_ones (Z.to_nat (XLEN - 1)) pa) by lia.
    apply trailing_ones_ge; [lia|]. intros j Hj. unfold pa.
    rewrite Z.lor_spec, testbit_ones by lia. replace (j <? _) with true by lia.
    apply orb_true_r. }
  set (k := trailing_ones _ pa) in *.
  replace (k + 1) with (PMP_G + (k + 1 - PMP_G)) by lia.
  rewrite <-!Z.shiftr_shiftr by lia. by rewrite E.
Qed.

(** ** Rebuilding the decoded entries *)

Lemma pmp_decode_entry_sr m m' i d :
  sr m = sr m' -> pmp_decode_entry m i d = pmp_decode_entry m' i d.
Proof.
  intros E. unfold pmp_decode_entry, pmp_csr_read, pmp_cfg, pmp_addr, CSR. by rewrite E.
Qed.

Lemma d_a_decode m i d : d_a (pmp_decode_entry m i d) = cfg_A (pmp_cfg m i).
Proof.
  unfold pmp_decode_entry. fold (cfg_A (pmp_cfg m i)).
  repeat (destruct (_ =? _); [done|]). done.
Qed.

Lemma d_cfg_decode m i d : d_cfg (pmp_decode_entry m i d) = pmp_cfg m i.
Proof.
  unfold pmp_decode_entry. repeat (destruct (_ =? _); [done|]). done.
Qed.

Lemma pmp_decode_step_frame m i :
  sr (pmp_decode_step m i) = sr m /\ pmp_gen (pmp_decode_step m i) = pmp_gen m /\
  pmp_wcache (pmp_decode_step m i) = pmp_wcache m /\
  pmp_any_active (pmp_decode_step m i) =
    pmp_any_active m || negb (cfg_A (pmp_cfg m i) =? PMP_A_OFF) /\
  pmp_dec (pmp_decode_step m i) =
    aset (pmp_dec m) i (pmp_decode_entry m i (aget (pmp_dec m) i)).
Proof.
  unfold pmp_decode_step. rewrite d_a_decode. destruct (_ =? _); cbn [negb]; fields;
    rewrite ?orb_false_r, ?orb_true_r; done.
Qed.

Lemma pmp_decode_fold l m :
  NoDup l ->
  let m' := foldl pmp_decode_step m l in
  sr m' = sr m /\ pmp_gen m' = pmp_gen m /\ pmp_wcache m' = pmp_wcache m /\
  pmp_any_active m' =
    pmp_any_active m || existsb (fun i => negb (cfg_A (pmp_cfg m i) =? PMP_A_OFF)) l /\
  (forall i, i ∈ l -> exists d, aget (pmp_dec m') i = pmp_decode_entry m i d) /\
  (forall i, i ∉ l -> aget (pmp_dec m') i = aget (pmp_dec m) i).
Proof.
  revert m. induction l as [|i l IH]; intros m Hnd; cbn [foldl existsb].
  { repeat split; [by rewrite orb_false_r|]. intros i Hi. by apply not_elem_of_nil in Hi. }
  apply NoDup_cons in Hnd as [Hi Hnd].
  destruct (pmp_decode_step_frame m i) as (Es & Eg & Ew & Ea & Ed).
  destruct (IH (pmp_decode_step m i) Hnd) as (IHs & IHg & IHw & IHa & IHd & IHo).
  assert (Ec : forall j, pmp_cfg (pmp_decode_step m i) j = pmp_cfg m j)
    by (intros j; unfold pmp_cfg, CSR; by rewrite Es).
  rewrite IHs, IHg, IHw, IHa, Es, Eg, Ew, Ea. repeat (split; [done|]). split; [|split].
  - rewrite <-orb_assoc. do 2 f_equal. clear. induction l as [|j l IHl]; [done|].
    cbn [existsb]. f_equal; [|done].
    destruct (pmp_decode_step_frame m i) as (Es & _). unfold pmp_cfg, CSR. by rewrite Es.
  - intros j Hj. apply elem_of_cons in Hj as [->|Hj].
    + rewrite IHo, Ed, aget_aset_eq by done. by eexists.
    + destruct (IHd j Hj) as [d Hd]. exists d. rewrite Hd. by apply pmp_decode_entry_sr.
  - intros j Hj. rewrite not_elem_of_cons in Hj. destruct Hj as [Hj1 Hj2].
    rewrite IHo, Ed by done. apply aget_aset_ne. congruence.
Qed.

Lemma in_entries i : i ∈ pmp_entries <-> 0 <= i < PMP_N.
Proof.
  unfold pmp_entries, PMP_N. rewrite !elem_of_cons, elem_of_nil. lia.
Qed.

Lemma entries_NoDup : NoDup pmp_entries.
Proof. apply (bool_decide_unpack _). vm_compute. done. Qed.

Lemma pmp_decode_all_spec m :
  let m' := pmp_decode_all m in
  sr m' = sr m /\ pmp_gen m' = pmp_gen m /\ pmp_wcache m' = pmp_wcache m /\
  pmp_any_active m' = existsb (fun i => negb (cfg_A (pmp_cfg m i) =? PMP_A_OFF)) pmp_entries /\
  (forall i, 0 <= i < PMP_N -> exists d, aget (pmp_dec m') i = pmp_decode_entry m i d).
Proof.
  destruct (pmp_decode_fold pmp_entries (m <| pmp_any_active := false |>) entries_NoDup)
    as (Es & Eg & Ew & Ea & Ed & _).
  refine (conj Es (conj Eg (conj Ew (conj Ea _)))).
  intros i Hi. destruct (Ed i (proj2 (in_entries i) Hi)) as [d Hd]. exists d.
  etransitivity; [exact Hd|]. by apply pmp_decode_entry_sr.
Qed.

(** What [pmp_rebuild_decoded] needs of the state it starts from. *)
Definition gen_ok (m : machine) : Prop :=
  1 <= pmp_gen m < 2 ^ 32 /\ forall slot, 0 <= w_gen (aget (pmp_wcache m) slot) <= pmp_gen m.

Lemma pmp_rebuild_wf m :
  pmp_storage_wf m -> gen_ok m ->
  pmp_wf (pmp_rebuild_decoded m) /\ sr (pmp_rebuild_decoded m) = sr m.
Proof.
  intros Ws [Hg Hc]. unfold pmp_rebuild_decoded.
  generalize (pmp_decode_all_spec m). cbv zeta. generalize (pmp_decode_all m) as m1.
  intros m1 (Es & Eg & Ew & Ea & Ed). rewrite Eg.
  assert (Hwf : forall m', sr m' = sr m1 -> pmp_dec m' = pmp_dec m1 ->
    pmp_any_active m' = pmp_any_active m1 -> cache_ok m' -> 1 <= pmp_gen m' < 2 ^ 32 -> pmp_wf m').
  { intros m' E1 E2 E3 Hc' Hg'.
    assert (Em : forall c, CSR m' c = CSR m c) by (intros; unfold CSR; by rewrite E1, Es).
    assert (Ecfg : forall i, pmp_cfg m' i = pmp_cfg m i) by (intros; unfold pmp_cfg; by rewrite Em).
    split; [..|done|done].
    - destruct Ws as [A B C]. split; intros i Hi; rewrite ?Ecfg; unfold pmp_addr; rewrite ?Em;
        [by apply A|by apply B|by apply C].
    - intros i Hi. destruct (Ed i Hi) as [d Hd]. exists d.
      rewrite E2, Hd. apply pmp_decode_entry_sr. by rewrite E1, Es.
    - rewrite E3, Ea. generalize pmp_entries as l.
      induction l as [|i l IH]; [done|]. cbn [existsb]. by rewrite IH, Ecfg. }
  destruct (epoch_bump _ Hg) as [[-> ?]|(-> & -> & ?)].
  - cbv iota. split; [|by fields]. apply Hwf; [by fields|by fields|by fields| |fields; lia].
    intros slot. cbv zeta. fields. rewrite aget_empty. cbn. split; [lia|intros; exfalso; lia].
  - cbv iota. split; [|by fields]. apply Hwf; [by fields|by fields|by fields| |fields; lia].
    intros slot. cbv zeta. fields. rewrite Ew. specialize (Hc slot).
    split; [lia|intros; exfalso; lia].
Qed.

Lemma pmp_wf_gen_ok m : pmp_wf m -> gen_ok m.
Proof. intros [_ _ _ Hc Hg]. split; [done|]. intros slot. apply Hc. Qed.

(** ** Packed configuration bytes *)

Lemma pmp_cfg_getf m i : pmp_cfg m i = getf (pmp_cfg_off i) 8 (CSR m (pmp_cfg_csr i)).
Proof. done. Qed.

Lemma pmp_cfg_off_range i : 0 <= pmp_cfg_off i /\ pmp_cfg_off i + 8 <= XLEN.
Proof.
  unfold pmp_cfg_off, XLEN. destruct CONFIG_RV64.
  - pose proof (wrap_fits 3 i ltac:(lia)) as H. unfold fits, wrap in H.
    change (Z.ones 3) with 7 in H. lia.
  - pose proof (wrap_fits 2 i ltac:(lia)) as H. unfold fits, wrap in H.
    change (Z.ones 2) with 3 in H. lia.
Qed.

(** Distinct entries are in distinct CSRs or in disjoint bytes of one. *)
Definition cfg_slots_disjoint (rv64 : bool) (i j : Z) : bool :=
  let csr i := if rv64 then (i >> 3) * 2 else i >> 2 in
  let off i := if rv64 then (i .& 7) * 8 else (i .& 3) * 8 in
  (i =? j) || negb (csr i =? csr j) || (off i + 8 <=? off j) || (off j + 8 <=? off i).

Lemma cfg_slots_disjoint_all b i j :
  0 <= i < 16 -> 0 <= j < 16 -> cfg_slots_disjoint b i j = true.
Proof.
  intros Hi Hj.
  assert (T : all_below 16 (fun i => all_below 16 (cfg_slots_disjoint b i)) = true)
    by (destruct b; vm_compute; reflexivity).
  exact (all_below_spec _ _ (all_below_spec _ _ T i Hi) j Hj).
Qed.

Lemma pmp_cfg_csr_range i : 0 <= i < 16 -> 0x3a0 <= pmp_cfg_csr i <= 0x3a3.
Proof.
  intros Hi. unfold pmp_cfg_csr, CSR_PMPCFG0. rewrite !Z.shiftr_div_pow2 by lia.
  destruct CONFIG_RV64; [change (2 ^ 3) with 8 | change (2 ^ 2) with 4];
    Z.to_euclidean_division_equations; lia.
Qed.

Lemma csr_small c : 0 <= c < 4096 -> c .& 0xfff = c.
Proof. intros. change 0xfff with (Z.ones 12). rewrite Z.land_ones by lia. by apply Z.mod_small. Qed.

Lemma pmp_cfg_set_setf m i b :
  fits XLEN (CSR m (pmp_cfg_csr i)) -> 0 <= i < 16 ->
  pmp_cfg_set i b m =
    setCSR (pmp_cfg_csr i) (setf (pmp_cfg_off i) 8 b (CSR m (pmp_cfg_csr i))) m.
Proof.
  intros Hf Hi. unfold pmp_cfg_set. f_equal. pose proof (pmp_cfg_off_range i) as Ho.
  pose proof XLEN_ge. set (off := pmp_cfg_off i) in *. set (p := CSR m _) in *.
  unfold setf, wnot, wshl, word. change 0xff with (Z.ones 8). bits.
Qed.

Lemma pmp_cfg_of_set m i j b :
  fits XLEN (CSR m (pmp_cfg_csr i)) -> 0 <= i < 16 -> 0 <= j < 16 ->
  pmp_cfg (pmp_cfg_set i b m) j = if i =? j then wrap 8 b else pmp_cfg m j.
Proof.
  intros Hf Hi Hj. rewrite pmp_cfg_set_setf by done. rewrite !pmp_cfg_getf.
  pose proof (pmp_cfg_off_range i) as Oi. pose proof (pmp_cfg_off_range j) as Oj.
  destruct (Z.eqb_spec i j) as [<-|Hne]; [rewrite CSR_setCSR_eq, getf_setf by lia; done|].
  destruct (Z.eq_dec (pmp_cfg_csr i) (pmp_cfg_csr j)) as [E|Ne].
  - rewrite <-E, CSR_setCSR_eq. apply getf_setf_other; try lia.
    pose proof (cfg_slots_disjoint_all CONFIG_RV64 i j Hi Hj) as D.
    unfold cfg_slots_disjoint in D. unfold pmp_cfg_csr, pmp_cfg_off in *.
    destruct CONFIG_RV64; rewrite !orb_true_iff, negb_true_iff, !Z.leb_le, Z.eqb_neq in D; lia.
  - f_equal. apply CSR_setCSR_ne. pose proof (pmp_cfg_csr_range i Hi).
    pose proof (pmp_cfg_csr_range j Hj). rewrite !csr_small by lia. done.
Qed.

Lemma CSR_of_cfg_set m i b c :
  0 <= i < 16 -> 0 <= c < 4096 -> c < 0x3a0 \/ 0x3a3 < c ->
  CSR (pmp_cfg_set i b m) c = CSR m c.
Proof.
  intros Hi Hc Hr. apply CSR_setCSR_ne. pose proof (pmp_cfg_csr_range i Hi).
  rewrite !csr_small by lia. lia.
Qed.

Lemma pmp_addr_of_cfg_set m i b j : 0 <= i < 16 -> 0 <= j < 16 ->
  pmp_addr (pmp_cfg_set i b m) j = pmp_addr m j.
Proof. intros. unfold pmp_addr. apply CSR_of_cfg_set; unfold CSR_PMPADDR0; lia. Qed.

Lemma pmp_cfg_of_addr_set m i v j : 0 <= i < 16 -> 0 <= j < 16 ->
  CSR (pmp_addr_set i v m) (pmp_cfg_csr j) = CSR m (pmp_cfg_csr j).
Proof.
  intros. unfold pmp_addr_set. apply CSR_setCSR_ne. pose proof (pmp_cfg_csr_range j).
  rewrite !csr_small by (unfold CSR_PMPADDR0; lia). unfold CSR_PMPADDR0. lia.
Qed.

Lemma pmp_addr_of_addr_set m i v j : 0 <= i < 16 -> 0 <= j < 16 ->
  pmp_addr (pmp_addr_set i v m) j =
    if i =? j then (if CONFIG_RV64 then v .& ((1 << CONFIG_RV_PMPADDR_BITS) - 1) else v)
    else pmp_addr m j.
Proof.
  intros. unfold pmp_addr, pmp_addr_set. destruct (Z.eqb_spec i j) as [<-|].
  - by rewrite CSR_setCSR_eq.
  - apply CSR_setCSR_ne. rewrite !csr_small by (unfold CSR_PMPADDR0; lia). lia.
Qed.

(** ** WARL legalisation *)

Lemma pmp_cfg_warl_idem_check :
  all_below 256 (fun b =>
    let w g c := let nb := c .& 0x9f in
                 let nb := if (nb .& 3) =? 2 then nb .& 0xf8 else nb in
                 if g && (((nb >> 3) .& 3) =? 2) then nb .& 0xe7 else nb in
    forallb (fun g : bool => (w g (w g b) =? w g b) && (0 <=? w g b) && (w g b <? 256)
      && negb (g && (((w g b >> 3) .& 3) =? 2))) [true; false]) = true.
Proof. vm_compute. reflexivity. Qed.

Lemma pmp_cfg_warl_props b :
  0 <= b < 256 ->
  pmp_cfg_warl (pmp_cfg_warl b) = pmp_cfg_warl b /\ fits 8 (pmp_cfg_warl b) /\
  (0 < PMP_G -> cfg_A (pmp_cfg_warl b) <> PMP_A_NA4).
Proof.
  intros Hb. pose proof (all_below_spec _ _ pmp_cfg_warl_idem_check b Hb) as T.
  cbv beta zeta in T. apply forallb_forall with (x := 0 <? PMP_G) in T;
    [|destruct (0 <? PMP_G); cbn; auto].
  fold (pmp_cfg_warl b) in T. unfold fits.
  rewrite !andb_true_iff, Z.eqb_eq, Z.leb_le, Z.ltb_lt, negb_true_iff in T.
  destruct T as [[[T1 T2] T3] T4]. split; [exact T1|]. split; [exact (conj T2 T3)|].
  intros HG E. apply Z.ltb_lt in HG. rewrite HG in T4. unfold pmp_cfg_warl, cfg_A in E.
  rewrite HG in E. rewrite andb_true_l in T4. apply Z.eqb_neq in T4. by apply T4.
Qed.

Lemma pmp_cfg_fits m i : fits 8 (pmp_cfg m i).
Proof. by apply wrap_fits. Qed.

Lemma wf_not_na4 m i :
  pmp_storage_wf m -> 0 <= i < PMP_N -> 0 < PMP_G -> cfg_A (pmp_cfg m i) <> PMP_A_NA4.
Proof.
  intros [_ _ W] Hi HG. rewrite <-(W i Hi). by apply (pmp_cfg_warl_props _ (pmp_cfg_fits m i)).
Qed.

Lemma pmp_cfg_set_wf m i b :
  pmp_storage_wf m -> 0 <= i < PMP_N -> fits 8 b -> pmp_cfg_warl b = b ->
  pmp_storage_wf (pmp_cfg_set i b m).
Proof.
  intros [Wa Wc Ww] Hi Hb Hwb. unfold PMP_N in *. split; intros j Hj; unfold PMP_N in Hj.
  - rewrite pmp_addr_of_cfg_set by lia. by apply Wa.
  - rewrite pmp_cfg_set_setf by (apply Wc || lia; done). pose proof (pmp_cfg_off_range i).
    destruct (Z.eq_dec (pmp_cfg_csr i .& 0xfff) (pmp_cfg_csr j .& 0xfff)) as [E|Ne].
    + unfold CSR, setCSR. fields. rewrite <-E, aget_aset_eq.
      apply setf_fits; [lia|lia|lia|by apply Wc].
    + rewrite CSR_setCSR_ne by done. by apply Wc.
  - rewrite pmp_cfg_of_set by (apply Wc || lia; done).
    destruct (i =? j); [|by apply Ww]. by rewrite wrap_small by (lia || done).
Qed.

Lemma pmp_addr_set_wf m i v :
  pmp_storage_wf m -> 0 <= i < PMP_N -> fits XLEN v -> pmp_storage_wf (pmp_addr_set i v m).
Proof.
  intros [Wa Wc Ww] Hi Hv. unfold PMP_N in *. pose proof XLEN_ge.
  split; intros j Hj; unfold PMP_N in Hj.
  - rewrite pmp_addr_of_addr_set by lia. destruct (i =? j); [|by apply Wa].
    destruct CONFIG_RV64; [apply fits_land; [lia|done]|done].
  - rewrite pmp_cfg_of_addr_set by lia. by apply Wc.
  - unfold pmp_cfg. rewrite pmp_cfg_of_addr_set by lia. by apply Ww.
Qed.

Lemma pmp_cfg_write1_wf base val m pi :
  pmp_storage_wf m -> 0 <= base + pi -> pmp_storage_wf (pmp_cfg_write1 base val m pi).
Proof.
  intros W Hp. unfold pmp_cfg_write1. destruct (Z.leb_spec PMP_N (base + pi)); [done|].
  destruct (pmp_cfg_locked _ _); [done|].
  destruct (pmp_cfg_warl_props (wrap 8 (val >> (pi * 8)))) as (Hi & Hf & _);
    [by apply (wrap_fits 8)|]. apply pmp_cfg_set_wf; [done|lia|done|done].
Qed.

Lemma pmp_cfg_writes_wf base val m l :
  pmp_storage_wf m -> 0 <= base -> (forall pi, pi ∈ l -> 0 <= pi) ->
  let m' := foldl (pmp_cfg_write1 base val) m l in
  pmp_storage_wf m' /\ pmp_gen m' = pmp_gen m /\ pmp_wcache m' = pmp_wcache m.
Proof.
  revert m. induction l as [|pi l IH]; intros m W Hb Hl; cbn [foldl]; [done|].
  destruct (IH (pmp_cfg_write1 base val m pi)) as (W' & G & C).
  - apply pmp_cfg_write1_wf; [done|]. specialize (Hl pi (list_elem_of_here pi l)). lia.
  - done.
  - intros p Hp. apply Hl. by apply list_elem_of_further.
  - split; [done|]. rewrite G, C. unfold pmp_cfg_write1.
    destruct (_ <=? _); [done|]. destruct (pmp_cfg_locked _ _); done.
Qed.

(** A TLB flush is invisible to PMP. *)
Lemma pmp_wf_tlb m f : pmp_wf m -> pmp_wf (m <| tlb ::= f |>).
Proof.
  intros [Ws Wd Wa Wc Wg]. split; [|exact Wd|exact Wa|exact Wc|exact Wg].
  destruct Ws as [A B C]. split; [exact A|exact B|exact C].
Qed.

Lemma pmp_rebuild_flush_wf m :
  pmp_storage_wf m -> gen_ok m -> pmp_wf (machine_soft_tlb_flush (pmp_rebuild_decoded m)).
Proof. intros. apply pmp_wf_tlb. by apply pmp_rebuild_wf. Qed.

Lemma pmp_rebuild_sr m : sr (pmp_rebuild_decoded m) = sr m.
Proof.
  unfold pmp_rebuild_decoded. generalize (pmp_decode_all_spec m). cbv zeta.
  generalize (pmp_decode_all m) as m1. intros m1 (Es & _). by destruct (_ =? 0).
Qed.

Lemma pmp_cfg_rebuilt m i : pmp_cfg (machine_soft_tlb_flush (pmp_rebuild_decoded m)) i = pmp_cfg m i.
Proof. unfold pmp_cfg. mach. unfold CSR. by rewrite pmp_rebuild_sr. Qed.

Lemma pmp_addr_rebuilt m i :
  pmp_addr (machine_soft_tlb_flush (pmp_rebuild_decoded m)) i = pmp_addr m i.
Proof. unfold pmp_addr. mach. unfold CSR. by rewrite pmp_rebuild_sr. Qed.

(** Configuration writes leave locked bytes and every address alone. *)
Lemma pmp_cfg_writes_locked base val m l i :
  pmp_storage_wf m -> 0 <= base -> (forall pi, pi ∈ l -> 0 <= pi) -> 0 <= i < PMP_N ->
  pmp_cfg_locked m i = true ->
  let m' := foldl (pmp_cfg_write1 base val) m l in
  pmp_cfg m' i = pmp_cfg m i /\ forall j, 0 <= j < PMP_N -> pmp_addr m' j = pmp_addr m j.
Proof.
  intros W Hb Hl Hi HL. revert m W HL. induction l as [|pi l IH]; intros m W HL; cbn [foldl]; [done|].
  assert (Hpi : 0 <= base + pi) by (specialize (Hl pi (list_elem_of_here pi l)); lia).
  assert (E : pmp_cfg (pmp_cfg_write1 base val m pi) i = pmp_cfg m i /\
    forall j, 0 <= j < PMP_N -> pmp_addr (pmp_cfg_write1 base val m pi) j = pmp_addr m j).
  { unfold pmp_cfg_write1. destruct (Z.leb_spec PMP_N (base + pi)); [done|].
    destruct (pmp_cfg_locked m (base + pi)) eqn:EL; [done|]. unfold PMP_N in *. split.
    - rewrite pmp_cfg_of_set by (apply (wf_cfgcsr m W) || lia; unfold PMP_N; lia).
      destruct (Z.eqb_spec (base + pi) i) as [<-|]; [congruence|done].
    - intros j Hj. apply pmp_addr_of_cfg_set; lia. }
  destruct E as [E1 E2].
  destruct (IH ltac:(intros p Hp; apply Hl; by apply list_elem_of_further)
    (pmp_cfg_write1 base val m pi)) as [F1 F2]; [by apply pmp_cfg_write1_wf| |].
  - unfold pmp_cfg_locked in *. by rewrite E1.
  - split; [by rewrite F1|]. intros j Hj. rewrite F2, E2 by done. done.
Qed.

(** ** Lookups *)

Definition pmp_ent (m : machine) (w : Z) : pmp_match :=
  let '(found, cfg) := pmp_search (pmp_dec m) w pmp_entries in
  mk_pmp_match (0 <=? found) found cfg.

(** A lookup only touches the match cache, and answers as an uncached search would. *)
Definition pmp_like (m m' : machine) : Prop :=
  pmp_wf m' /\ pmp_dec m' = pmp_dec m /\ sr m' = sr m.

Lemma pmp_like_ent m m' w : pmp_like m m' -> pmp_ent m' w = pmp_ent m w.
Proof. intros (_ & E & _). unfold pmp_ent. by rewrite E. Qed.

Lemma pmp_wf_wcache m slot c :
  pmp_wf m -> 0 <= w_gen c <= pmp_gen m ->
  (w_entry c, w_cfg c) = pmp_search (pmp_dec m) (w_word c) pmp_entries ->
  pmp_wf (m <| pmp_wcache ::= fun t => aset t slot c |>).
Proof.
  intros [[A B C] Wd Wa Wc Wg] Hg He.
  split; [split; [exact A|exact B|exact C] | exact Wd | exact Wa | | exact Wg].
  intros i. cbv zeta. fields. rewrite aget_aset. destruct (slot =? i); [done|]. apply Wc.
Qed.

Lemma pmp_byte_lookup_spec a m :
  pmp_wf m -> exists m', pmp_byte_lookup a m = (pmp_ent m (a >> 2), m') /\ pmp_like m m'.
Proof.
  intros W. unfold pmp_byte_lookup, pmp_ent. set (w := a >> 2).
  set (c := aget (pmp_wcache m) (pmp_slot w)).
  destruct ((w_gen c =? pmp_gen m) && (w_word c =? w)) eqn:E.
  - apply andb_true_iff in E as [E1 E2]. apply Z.eqb_eq in E1, E2.
    destruct (wf_cache m W (pmp_slot w)) as [_ Hc]. specialize (Hc E1). fold c in Hc.
    rewrite E2 in Hc. rewrite <-Hc. by exists m.
  - destruct (pmp_search _ _ _) as [found cfg] eqn:Es. eexists. split; [reflexivity|].
    split; [|by split; fields]. apply pmp_wf_wcache; [done| |cbn [w_entry w_cfg w_word]; by rewrite Es].
    cbn. pose proof (wf_gen m W). lia.
Qed.

Lemma pmp_search_find m w :
  pmp_wf m -> word_addr_ok w ->
  pmp_search (pmp_dec m) w pmp_entries =
    match List.find (fun i => region_match m i w) pmp_entries with
    | Some i => (i, pmp_cfg m i)
    | None => (-1, 0)
    end.
Proof.
  intros W Hw. assert (Hl : forall i, i ∈ pmp_entries -> 0 <= i < PMP_N)
    by (intros i; apply in_entries).
  revert Hl. generalize pmp_entries as l. induction l as [|i l IH]; intros Hl; [done|].
  cbn [pmp_search List.find]. assert (Hi : 0 <= i < PMP_N) by (apply Hl, list_elem_of_here).
  destruct (wf_dec m W i Hi) as [d Hd]. rewrite Hd.
  rewrite pmp_entry_match_region, d_cfg_decode; [|apply W|by apply wf_not_na4, Hi; apply W|done|done].
  destruct (region_match m i w); [done|]. apply IH. intros j Hj. apply Hl.
  by apply list_elem_of_further.
Qed.

Lemma region_find_grain m w w' :
  pmp_storage_wf m -> w >> PMP_G = w' >> PMP_G ->
  List.find (fun i => region_match m i w) pmp_entries =
  List.find (fun i => region_match m i w') pmp_entries.
Proof.
  intros W E. assert (Hl : forall i, i ∈ pmp_entries -> 0 <= i < PMP_N)
    by (intros i; apply in_entries).
  revert Hl. generalize pmp_entries as l. induction l as [|i l IH]; intros Hl; [done|].
  cbn [List.find]. rewrite (region_match_grain m i w w'); [|apply wf_not_na4; [done|]|done].
  - destruct (region_match m i w'); [done|]. apply IH. intros j Hj. apply Hl.
    by apply list_elem_of_further.
  - apply Hl, list_elem_of_here.
Qed.

(** ** First-match arguments *)

(** Every byte resolves to the same entry: that entry is the first one touched,
    and it covers the access. *)
Lemma find_uniform {A} (P : Z -> A -> bool) (bytes : list A) l r :
  bytes <> [] -> NoDup l ->
  (forall b, b ∈ bytes -> List.find (fun i => P i b) l = r) ->
  List.find (fun i => existsb (P i) bytes) l = r /\
  (forall i, r = Some i -> forallb (P i) bytes = true).
Proof.
  intros Hne Hnd. revert r. induction l as [|x l IH]; intros r Hb; cbn [List.find] in *.
  { destruct bytes as [|b bs]; [done|]. rewrite <-(Hb b) by apply list_elem_of_here. done. }
  apply NoDup_cons in Hnd as [Hx Hnd]. destruct (existsb (P x) bytes) eqn:Ee.
  - apply existsb_exists in Ee as (b & Hin & Pb). apply list_elem_of_In in Hin.
    pose proof (Hb b Hin) as E. rewrite Pb in E. subst r. split; [done|].
    intros i [= <-]. apply forallb_forall. intros b' Hb'. apply list_elem_of_In in Hb'.
    specialize (Hb b' Hb'). destruct (P x b') eqn:Pb'; [done|].
    exfalso. apply Hx. apply list_elem_of_In. by apply (List.find_some _ _ Hb).
  - apply IH; [done|]. intros b Hin. rewrite <-(Hb b Hin).
    destruct (P x b) eqn:Pb; [|done].
    assert (existsb (P x) bytes = true); [|congruence].
    apply existsb_exists. exists b. split; [by apply list_elem_of_In|done].
Qed.

(** The first entry touched covers the access, or nothing is touched: every
    byte resolves to it. *)
Lemma find_covering {A} (P : Z -> A -> bool) (bytes : list A) l r :
  List.find (fun i => existsb (P i) bytes) l = r ->
  (forall i, r = Some i -> forallb (P i) bytes = true) ->
  forall b, b ∈ bytes -> List.find (fun i => P i b) l = r.
Proof.
  revert r. induction l as [|x l IH]; intros r Hf Hc b Hin; cbn [List.find] in *; [done|].
  destruct (existsb (P x) bytes) eqn:Ee.
  - subst r. specialize (Hc x eq_refl). rewrite forallb_forall in Hc.
    by rewrite Hc by by apply list_elem_of_In.
  - destruct (P x b) eqn:Pb; [|by apply IH].
    assert (existsb (P x) bytes = true); [|congruence].
    apply existsb_exists. exists b. split; [by apply list_elem_of_In|done].
Qed.

(** ** The verdict for one entry *)

Definition find_at (m : machine) (w : Z) : option Z :=
  List.find (fun i => region_match m i w) pmp_entries.

Definition ent_of (m : machine) (r : option Z) : pmp_match :=
  match r with
  | Some i => mk_pmp_match true i (pmp_cfg m i)
  | None => mk_pmp_match false (-1) 0
  end.

Definition verdict (m : machine) (r : option Z) (privilege : Z) (op_r op_w op_x : bool) : bool :=
  match r with
  | None => negb (privilege =? PRV_M)
  | Some i =>
      negb ((privilege =? PRV_M) && negb (pmp_cfg_locked m i))
      && negb (pmp_perm_ok (pmp_cfg m i) op_r op_w op_x)
  end.

Lemma find_at_range m w i : find_at m w = Some i -> 0 <= i < PMP_N.
Proof.
  intros E. apply List.find_some in E as [Hin _]. apply in_entries. by apply list_elem_of_In.
Qed.

Lemma pmp_ent_find m w : pmp_wf m -> word_addr_ok w -> pmp_ent m w = ent_of m (find_at m w).
Proof.
  intros W Hw. unfold pmp_ent. rewrite pmp_search_find by done. fold (find_at m w).
  destruct (find_at m w) as [i|] eqn:E; [|done]. apply find_at_range in E.
  cbn [ent_of]. by replace (0 <=? i) with true by lia.
Qed.

Lemma ent_of_inj m w w' :
  entry (ent_of m (find_at m w)) = entry (ent_of m (find_at m w')) -> find_at m w = find_at m w'.
Proof.
  destruct (find_at m w) as [i|] eqn:E, (find_at m w') as [j|] eqn:E'; cbn; intros; try done;
    try apply find_at_range in E; try apply find_at_range in E'; subst; try done; lia.
Qed.

Lemma nz_shift_bit x j : 0 <= j -> nz ((x >> j) .& 1) = nz (x .& (1 << j)).
Proof.
  intros. rewrite nz_bit by done. change 1 with (1 << 0). rewrite nz_bit by lia.
  by rewrite Z.shiftr_spec, Z.add_0_l by lia.
Qed.

(** The code after the lookup of a one-grain access. *)
Lemma pmp_one_verdict m r privilege op_r op_w op_x :
  (if negb (any_match (ent_of m r)) then negb (privilege =? PRV_M)
   else if (privilege =? PRV_M) && negb (nz ((match_cfg (ent_of m r) >> PMPCFG_L_BIT) .& 1))
   then false
   else negb (pmp_perm_ok (match_cfg (ent_of m r)) op_r op_w op_x)) =
  verdict m r privilege op_r op_w op_x.
Proof.
  destruct r as [i|]; cbn [ent_of any_match match_cfg negb verdict]; [|done].
  rewrite nz_shift_bit by (unfold PMPCFG_L_BIT; lia). fold (pmp_cfg_locked m i).
  by destruct (privilege =? PRV_M), (pmp_cfg_locked m i).
Qed.

Lemma pmp_pass_verdict m r fa privilege op_r op_w op_x :
  pmp_pass (ent_of m r) fa (privilege =? PRV_M) op_r op_w op_x =
    if verdict m r privilege op_r op_w op_x then Some fa else None.
Proof.
  unfold pmp_pass. destruct r as [i|]; cbn [ent_of any_match match_cfg negb verdict]; [|done].
  rewrite nz_shift_bit by (unfold PMPCFG_L_BIT; lia). fold (pmp_cfg_locked m i).
  by destruct (privilege =? PRV_M), (pmp_cfg_locked m i), (pmp_perm_ok _ _ _ _).
Qed.

Lemma spec_uniform m addr size privilege op_r op_w op_x r :
  1 <= size -> (forall b, addr <= b < addr + size -> find_at m (b >> 2) = r) ->
  pmp_spec m addr size privilege op_r op_w op_x = verdict m r privilege op_r op_w op_x.
Proof.
  intros Hs Hb.
  destruct (find_uniform (fun i b => region_match m i (b >> 2)) (bytes_of addr size)
              pmp_entries r) as [Hf Hc].
  - unfold bytes_of. intros E. apply (f_equal length) in E. rewrite length_seqZ in E.
    cbn in E. lia.
  - apply entries_NoDup.
  - intros b Hin. apply Hb. unfold bytes_of in Hin. apply elem_of_seqZ in Hin. lia.
  - unfold pmp_spec. cbv zeta. rewrite Hf. destruct r as [i|]; [|done].
    rewrite Hc by done. by rewrite orb_false_l.
Qed.

Lemma spec_nonuniform m addr size privilege op_r op_w op_x b b' :
  addr <= b < addr + size -> addr <= b' < addr + size ->
  find_at m (b >> 2) <> find_at m (b' >> 2) ->
  pmp_spec m addr size privilege op_r op_w op_x = true.
Proof.
  intros Hb Hb' Hne.
  assert (Hin : forall x, addr <= x < addr + size -> x ∈ bytes_of addr size)
    by (intros x Hx; apply elem_of_seqZ; lia).
  unfold pmp_spec. cbv zeta.
  pose proof (find_covering (fun i b => region_match m i (b >> 2)) (bytes_of addr size)
    pmp_entries _ eq_refl) as Hcov.
  destruct (List.find _ pmp_entries) as [i|].
  - destruct (forallb _ _) eqn:Ec; [|done]. exfalso. apply Hne.
    assert (H : forall j, Some i = Some j ->
      forallb (fun b => region_match m j (b >> 2)) (bytes_of addr size) = true)
      by (intros j [= <-]; exact Ec).
    unfold find_at. by rewrite !(Hcov H) by by apply Hin.
  - exfalso. apply Hne. unfold find_at. by rewrite !Hcov by (done || by apply Hin).
Qed.

(** ** The check, lookup by lookup *)

Definition paddr_bits : Z := if CONFIG_RV64 then 64 else 34.

(** The physical bytes of an access; the simulator's addresses are below
    [2 ^ 34] on RV32 (Sv32) and 64-bit on RV64. *)
Definition access_ok (addr size : Z) : Prop :=
  0 <= addr /\ 1 <= size /\ addr + size <= 2 ^ paddr_bits.

Lemma access_word addr size b :
  access_ok addr size -> addr <= b < addr + size -> word_addr_ok (b >> 2).
Proof.
  intros (H0 & H1 & H2) Hb. unfold word_addr_ok, paddr_bits in *.
  destruct CONFIG_RV64; (apply shiftr_fits_lt; [lia|lia|]);
    unfold fits; [change (62 + 2) with 64 | change (32 + 2) with 34]; lia.
Qed.

Lemma access_wrap addr size b :
  access_ok addr size -> addr <= b < addr + size -> wrap 64 b = b.
Proof.
  intros (H0 & H1 & H2) Hb. apply wrap_small; [lia|]. unfold fits.
  assert (2 ^ paddr_bits <= 2 ^ 64) by (apply Z.pow_le_mono_r; unfold paddr_bits; destruct CONFIG_RV64; lia). lia.
Qed.

Lemma grain_split b : b >> CONFIG_RV_PMP_GRANULARITY_LOG2 = (b >> 2) >> PMP_G.
Proof.
  pose proof PMP_G_range. rewrite Z.shiftr_shiftr by lia. f_equal. unfold PMP_G. lia.
Qed.

Lemma find_at_grain m b b' :
  pmp_wf m ->
  b >> CONFIG_RV_PMP_GRANULARITY_LOG2 = b' >> CONFIG_RV_PMP_GRANULARITY_LOG2 ->
  find_at m (b >> 2) = find_at m (b' >> 2).
Proof. intros W E. rewrite !grain_split in E. apply region_find_grain; [apply W|done]. Qed.

Definition grain_size : Z := 1 << CONFIG_RV_PMP_GRANULARITY_LOG2.

Lemma grain_size_pow : grain_size = 2 ^ CONFIG_RV_PMP_GRANULARITY_LOG2 /\ 1 <= grain_size.
Proof.
  pose proof (grain_range (ConfigOk := CfgOk)). unfold grain_size.
  rewrite Z.shiftl_mul_pow2, Z.mul_1_l by lia.
  assert (0 < 2 ^ CONFIG_RV_PMP_GRANULARITY_LOG2) by (apply Z.pow_pos_nonneg; lia). lia.
Qed.

Lemma pmp_like_trans m m1 m2 : pmp_like m m1 -> pmp_like m1 m2 -> pmp_like m m2.
Proof. intros (_ & E1 & E2) (W & E3 & E4). split; [done|]. by rewrite E3, E4. Qed.

Lemma pmp_covered_spec n m addr size e0 offset :
  pmp_wf m -> access_ok addr size -> 0 <= offset -> size - offset <= Z.of_nat n ->
  entry (pmp_ent m ((addr + size - 1) >> 2)) = e0 ->
  exists c m', pmp_covered n addr (addr + size - 1) size e0 offset m = (c, m') /\
    pmp_like m m' /\
    (c = true -> forall k, 0 <= k -> offset + k * grain_size < size ->
       entry (pmp_ent m ((addr + (offset + k * grain_size)) >> 2)) = e0) /\
    (c = false -> exists o, 0 <= o < size /\ entry (pmp_ent m ((addr + o) >> 2)) <> e0).
Proof.
  destruct grain_size_pow as [_ Hg1].
  revert m offset. induction n as [|n IH]; intros m offset W A Ho Hn He; cbn [pmp_covered].
  { exists true, m. split; [done|split; [by split|split; [|done]]]. intros. nia. }
  destruct (Z.ltb_spec offset size).
  2:{ exists true, m. split; [done|split; [by split|split; [|done]]]. intros. nia. }
  cbv zeta. fold grain_size. rewrite (access_wrap addr size) by (done || lia).
  destruct (Z.eqb_spec ((addr + offset) >> 2) ((addr + size - 1) >> 2)) as [Eh|Nh].
  - destruct (IH m (offset + grain_size) W A ltac:(lia) ltac:(lia) He)
      as (c & m' & -> & L & Ht & Hf).
    exists c, m'. split; [done|split; [done|split; [|done]]]. intros Hc k Hk Hlt.
    destruct (Z.eq_dec k 0) as [->|]; [rewrite Z.mul_0_l, Z.add_0_r, Eh; done|].
    replace (offset + k * grain_size) with (offset + grain_size + (k - 1) * grain_size) by lia.
    apply Ht; [done|lia|lia].
  - destruct (pmp_byte_lookup_spec (addr + offset) m W) as (m1 & -> & L1).
    destruct (Z.eqb_spec (entry (pmp_ent m ((addr + offset) >> 2))) e0) as [E0|N0]; cbn [negb].
    2:{ exists false, m1. split; [done|split; [done|split; [done|]]].
        intros _. exists offset. split; [lia|done]. }
    destruct (IH m1 (offset + grain_size) (proj1 L1) A ltac:(lia) ltac:(lia))
      as (c & m' & -> & L & Ht & Hf); [by rewrite (pmp_like_ent m m1)|].
    exists c, m'. split; [done|split; [by apply (pmp_like_trans m m1)|split]].
    + intros Hc k Hk Hlt.
      destruct (Z.eq_dec k 0) as [->|]; [by rewrite Z.mul_0_l, Z.add_0_r|].
      rewrite <-(pmp_like_ent m m1) by done.
      replace (offset + k * grain_size) with (offset + grain_size + (k - 1) * grain_size) by lia.
      apply Ht; [done|lia|lia].
    + intros Hc. destruct (Hf Hc) as (o & Ho' & Hne). exists o. split; [done|].
      by rewrite <-(pmp_like_ent m m1).
Qed.

(** The grains visited by the loop, with the two ends, reach every byte. *)
Lemma grain_reach addr size b :
  0 <= addr -> addr <= b < addr + size ->
  let o0 := grain_size - (addr .& (grain_size - 1)) in
  b >> CONFIG_RV_PMP_GRANULARITY_LOG2 = addr >> CONFIG_RV_PMP_GRANULARITY_LOG2 \/
  exists k, 0 <= k /\ o0 + k * grain_size < size /\
    b >> CONFIG_RV_PMP_GRANULARITY_LOG2 =
    (addr + (o0 + k * grain_size)) >> CONFIG_RV_PMP_GRANULARITY_LOG2.
Proof.
  intros A0 Hb. destruct grain_size_pow as [Eg Hg]. cbv zeta.
  pose proof (grain_range (ConfigOk := CfgOk)) as Rg.
  assert (S : forall x, x >> CONFIG_RV_PMP_GRANULARITY_LOG2 = x / grain_size)
    by (intros x; rewrite Z.shiftr_div_pow2, Eg by lia; done).
  assert (Em : addr .& (grain_size - 1) = addr mod grain_size).
  { rewrite Eg. replace (2 ^ _ - 1) with (Z.ones CONFIG_RV_PMP_GRANULARITY_LOG2)
      by (rewrite Z.ones_equiv; lia). apply Z.land_ones. lia. }
  rewrite Em, !S. revert Hg Hb S. generalize grain_size as g. clear -A0. intros g Hg Hb S.
  pose proof (Z.div_mod addr g ltac:(lia)). pose proof (Z.mod_pos_bound addr g ltac:(lia)).
  pose proof (Z.div_mod b g ltac:(lia)). pose proof (Z.mod_pos_bound b g ltac:(lia)).
  pose proof (Z.div_le_mono addr b g ltac:(lia) ltac:(lia)).
  destruct (Z.eq_dec (b / g) (addr / g)) as [|Hne]; [by left|right].
  exists (b / g - addr / g - 1). split; [lia|].
  assert (E : addr + (g - addr mod g + (b / g - addr / g - 1) * g) = b / g * g) by nia.
  split; [nia|]. by rewrite E, S, Z.div_mul by lia.
Qed.

(** The bytes between two ends of one grain. *)
Lemma grain_between addr size b :
  addr <= b < addr + size ->
  (addr + size - 1) >> CONFIG_RV_PMP_GRANULARITY_LOG2 = addr >> CONFIG_RV_PMP_GRANULARITY_LOG2 ->
  b >> CONFIG_RV_PMP_GRANULARITY_LOG2 = addr >> CONFIG_RV_PMP_GRANULARITY_LOG2.
Proof.
  intros Hb E. pose proof (grain_range (ConfigOk := CfgOk)) as Rg.
  rewrite !Z.shiftr_div_pow2 in * by lia.
  assert (P : 0 < 2 ^ CONFIG_RV_PMP_GRANULARITY_LOG2) by (apply Z.pow_pos_nonneg; lia).
  pose proof (Z.div_le_mono addr b _ P ltac:(lia)).
  pose proof (Z.div_le_mono b (addr + size - 1) _ P ltac:(lia)). lia.
Qed.

(** With every entry off, no byte is in a region. *)
Lemma find_at_inactive m w : pmp_wf m -> pmp_any_active m = false -> find_at m w = None.
Proof.
  intros W E. rewrite (wf_any m W) in E. unfold find_at. revert E.
  generalize pmp_entries as l. induction l as [|i l IH]; intros E; [done|].
  cbn [existsb List.find] in *. apply orb_false_iff in E as [E1 E2].
  apply negb_false_iff in E1. unfold region_match at 1. rewrite E1. by apply IH.
Qed.

Lemma pmp_fault_like m m' addr :
  pmp_like m m' -> exists m'', pmp_fault addr m' = (true, m'') /\ pmp_wf m'' /\ sr m'' = sr m.
Proof.
  intros (W & _ & E). eexists. split; [reflexivity|]. split; [|exact E].
  destruct W as [[A B C] Wd Wa Wc Wg].
  split; [split; [exact A|exact B|exact C]|exact Wd|exact Wa|exact Wc|exact Wg].
Qed.

(** ** Properties *)

(** A write to any CSR keeps the PMP state well formed: legal configuration
    bytes (no reserved R/W pair, no reserved bits, no NA4 below the grain),
    decoded entries that agree with the CSRs, a match cache whose live lines
    agree with the decoded entries, and a generation that never repeats a live
    one, the 32-bit wrap included. *)
Theorem pmp_csr_write_wf csr val m :
  pmp_wf m -> fits XLEN val -> pmp_wf (pmp_csr_write csr val m).2.
Proof.
  intros W Hv. pose proof (pmp_wf_gen_ok m W) as G. pose proof (wf_storage m W) as Ws.
  unfold pmp_csr_write. set (c := csr .& 0xfff).
  destruct (Z.leb_spec CSR_PMPCFG0 c), (Z.leb_spec c CSR_PMPCFG3); cbn [andb].
  { destruct (CONFIG_RV64 && nz (c .& 1)); [done|]. cbn [snd].
    set (l := if CONFIG_RV64 then _ else _ : list Z).
    set (base := if CONFIG_RV64 then _ else _).
    destruct (pmp_cfg_writes_wf base val m l) as (W' & Eg & Ec); [done| | |].
    - unfold base, CSR_PMPCFG0 in *. destruct CONFIG_RV64; Z.to_euclidean_division_equations; lia.
    - unfold l, pmp_entries. intros pi. destruct CONFIG_RV64; rewrite !elem_of_cons, elem_of_nil; lia.
    - apply pmp_rebuild_flush_wf; [done|]. unfold gen_ok in *. by rewrite Eg, Ec. }
  all: destruct (Z.leb_spec CSR_PMPADDR0 c), (Z.leb_spec c (CSR_PMPADDR0 + PMP_CSR_N - 1));
    cbn [andb]; try done.
  all: destruct (Z.leb_spec PMP_N (c - CSR_PMPADDR0)); [done|].
  all: destruct (pmp_cfg_locked m (c - CSR_PMPADDR0)); [done|].
  all: destruct (_ && _ && _); [done|]; cbn [snd].
  all: apply pmp_rebuild_flush_wf; [apply pmp_addr_set_wf; [done|lia|done] | exact G].
Qed.

(** C22: no CSR write changes a locked PMP entry: neither its configuration byte
    nor its address, nor the address below it when the entry is TOR. *)
Theorem pmp_locked_immutable csr val m i :
  pmp_wf m -> 0 <= i < PMP_N -> pmp_cfg_locked m i = true ->
  let m' := (pmp_csr_write csr val m).2 in
  pmp_cfg m' i = pmp_cfg m i /\ pmp_addr m' i = pmp_addr m i /\
  (cfg_A (pmp_cfg m i) = PMP_A_TOR -> 0 < i -> pmp_addr m' (i - 1) = pmp_addr m (i - 1)).
Proof.
  intros W Hi HL. cbv zeta.
  pose (same := fun x : machine => conj eq_refl (conj eq_refl (fun _ _ => eq_refl))
    : pmp_cfg m i = pmp_cfg m i /\ pmp_addr m i = pmp_addr m i /\
      (cfg_A (pmp_cfg m i) = PMP_A_TOR -> 0 < i -> pmp_addr m (i - 1) = pmp_addr m (i - 1))). unfold pmp_csr_write. set (c := csr .& 0xfff).
  destruct (Z.leb_spec CSR_PMPCFG0 c), (Z.leb_spec c CSR_PMPCFG3); cbn [andb].
  { destruct (CONFIG_RV64 && nz (c .& 1)); [exact (same m)|]. cbn [snd].
    set (l := if CONFIG_RV64 then _ else _ : list Z).
    set (base := if CONFIG_RV64 then _ else _).
    destruct (pmp_cfg_writes_locked base val m l i) as [E1 E2];
      [apply W| | |done|done|].
    - unfold base, CSR_PMPCFG0 in *. destruct CONFIG_RV64; Z.to_euclidean_division_equations; lia.
    - unfold l, pmp_entries. intros pi. destruct CONFIG_RV64; rewrite !elem_of_cons, elem_of_nil; lia.
    - rewrite pmp_cfg_rebuilt, !pmp_addr_rebuilt, E1, E2 by done.
      split; [done|split; [done|]]. intros _ Hpos. apply E2. unfold PMP_N in *. lia. }
  all: destruct (Z.leb_spec CSR_PMPADDR0 c), (Z.leb_spec c (CSR_PMPADDR0 + PMP_CSR_N - 1));
    cbn [andb snd]; [|exact (same m)..].
  all: set (k := c - CSR_PMPADDR0) in *.
  all: destruct (Z.leb_spec PMP_N k); [exact (same m)|].
  all: destruct (pmp_cfg_locked m k) eqn:EK; [exact (same m)|].
  all: destruct (_ && _ && _) eqn:ET; [exact (same m)|]; cbn [snd].
  all: unfold PMP_N in *; rewrite pmp_cfg_rebuilt, !pmp_addr_rebuilt.
  all: unfold pmp_cfg at 1; rewrite pmp_cfg_of_addr_set by lia; fold (pmp_cfg m i).
  all: rewrite pmp_addr_of_addr_set by lia.
  all: destruct (Z.eqb_spec k i) as [Eki|]; [congruence|].
  all: split; [reflexivity|split; [reflexivity|]]; intros HT Hpos; rewrite pmp_addr_of_addr_set by lia.
  all: destruct (Z.eqb_spec k (i - 1)) as [Ek|]; [|done]; exfalso.
  all: replace (k + 1) with i in ET by lia; fold (cfg_A (pmp_cfg m i)) in ET;
    rewrite HL, HT in ET; lia.
Qed.

Lemma pmp_check_spec addr size privilege op_r op_w op_x m :
  pmp_wf m -> access_ok addr size ->
  op_x = false \/
    (addr + size - 1) >> CONFIG_RV_PMP_GRANULARITY_LOG2 = addr >> CONFIG_RV_PMP_GRANULARITY_LOG2 ->
  exists m', pmp_check addr size privilege op_r op_w op_x m =
      (pmp_spec m addr size privilege op_r op_w op_x, m') /\
    pmp_wf m' /\ sr m' = sr m.
Proof.
  intros W A Hx. pose proof A as (A0 & A1 & A2). unfold pmp_check.
  assert (Hself : pmp_like m m) by (by split).
  destruct (pmp_any_active m) eqn:Eact; cbn [negb].
  2:{ rewrite (spec_uniform m addr size privilege op_r op_w op_x None); [|done|].
      2:{ intros b _. by apply find_at_inactive. }
      cbn [verdict]. destruct (privilege =? PRV_M); cbn [negb]; [by exists m|].
      by apply pmp_fault_like. }
  replace (size <=? 0) with false by lia.
  rewrite (access_wrap addr size) by (done || lia).
  replace (addr + (size - 1)) with (addr + size - 1) by lia.
  assert (Hent : forall b, addr <= b < addr + size ->
    pmp_ent m (b >> 2) = ent_of m (find_at m (b >> 2)))
    by (intros b Hb; apply pmp_ent_find; [done|by apply (access_word addr size)]).
  destruct (pmp_byte_lookup_spec addr m W) as (m1 & E1 & L1).
  destruct (Z.eqb_spec ((addr + size - 1) >> CONFIG_RV_PMP_GRANULARITY_LOG2)
              (addr >> CONFIG_RV_PMP_GRANULARITY_LOG2)) as [Eg|Ng].
  - rewrite E1, Hent by lia. set (r := find_at m (addr >> 2)).
    rewrite (spec_uniform m addr size privilege op_r op_w op_x r) by (done ||
      (intros b Hb; apply find_at_grain; [done|by apply (grain_between addr size)])).
    rewrite <-pmp_one_verdict.
    repeat match goal with |- context [if ?c then _ else _] =>
      destruct c; cbn [negb] end; first [by apply pmp_fault_like | exists m1; split; [done|split; apply L1]].
  - destruct Hx as [->|]; [|done].
    destruct (pmp_byte_lookup_spec (addr + size - 1) m1 (proj1 L1)) as (m2 & E2 & L2).
    rewrite E1, E2. rewrite (pmp_like_ent m m1) by done.
    pose proof (pmp_like_trans m m1 m2 L1 L2) as L02.
    set (e := pmp_ent m (addr >> 2)). set (eh := pmp_ent m ((addr + size - 1) >> 2)).
    destruct (Z.eqb_spec (entry eh) (entry e)) as [Ee|Ne]; cbn [negb].
    2:{ cbn [negb]. rewrite (spec_nonuniform m addr size _ _ _ _ addr (addr + size - 1)) by
          (lia || (intros E; apply Ne; unfold eh, e; rewrite !Hent, E by lia; done)).
        by apply pmp_fault_like. }
    fold grain_size.
    assert (Ho0 : 1 <= grain_size - (addr .& (grain_size - 1)) <= grain_size).
    { destruct grain_size_pow as [Eg Hg]. pose proof (grain_range (ConfigOk := CfgOk)).
      replace (grain_size - 1) with (Z.ones CONFIG_RV_PMP_GRANULARITY_LOG2)
        by (rewrite Z.ones_equiv; lia).
      rewrite Z.land_ones, <-Eg by lia. pose proof (Z.mod_pos_bound addr grain_size ltac:(lia)). lia. }
    destruct (pmp_covered_spec (Z.to_nat size) m2 addr size (entry e)
      (grain_size - (addr .& (grain_size - 1)))) as (c & m3 & -> & L3 & Ht & Hf);
      [apply L02|done|lia|lia|by rewrite (pmp_like_ent m m2)|].
    destruct (pmp_like_trans m m2 m3 L02 L3) as (W3 & E3 & S3).
    destruct c; cbn [negb].
    2:{ destruct (Hf eq_refl) as (o & Ho & Hne). rewrite (pmp_like_ent m m2) in Hne by done.
        rewrite (spec_nonuniform m addr size _ _ _ _ addr (addr + o)) by
          (lia || (intros E; apply Hne; unfold e; rewrite !Hent, E by lia; done)).
        by apply pmp_fault_like. }
    set (r := find_at m (addr >> 2)).
    assert (Hall : forall b, addr <= b < addr + size -> find_at m (b >> 2) = r).
    { intros b Hb. destruct (grain_reach addr size b A0 Hb) as [Eb|(k & Hk & Hlt & Eb)];
        [by apply find_at_grain|].
      rewrite (find_at_grain m b _ W Eb). apply ent_of_inj.
      pose proof (Ht eq_refl k Hk Hlt) as Hk'. rewrite (pmp_like_ent m m2) in Hk' by done.
      rewrite Hent in Hk'; [rewrite Hk'; unfold e; by rewrite Hent by lia|].
      destruct grain_size_pow. pose proof (grain_range (ConfigOk := CfgOk)). nia. }
    rewrite (spec_uniform m addr size _ _ _ _ r) by done.
    unfold e, eh. rewrite !Hent, (Hall (addr + size - 1)) by lia. fold r.
    rewrite !pmp_pass_verdict.
    destruct (verdict m r privilege op_r op_w false); [by apply pmp_fault_like|by exists m3].
Qed.


End PmpSpec.

(** ** Witnesses *)

(** A concrete PMP state: entry 0 is locked TOR up to 0x80001000 read-only,
    entry 1 NAPOT over the 64 KiB at 0x80010000 with all permissions. *)
Definition pmp_example_sr : machine :=
  setCSR CSR_PMPCFG0 0x1f89 (setCSR (CSR_PMPADDR0 + 1) 0x20005fff
    (setCSR CSR_PMPADDR0 0x20000400 machine_init)).
Definition pmp_example : machine := pmp_rebuild_decoded (Cfg := riscv64_ref) pmp_example_sr.

Lemma entries_cases (P : Z -> Prop) :
  P 0 -> P 1 -> P 2 -> P 3 -> P 4 -> P 5 -> P 6 -> P 7 -> forall i, 0 <= i < PMP_N -> P i.
Proof.
  intros P0 P1 P2 P3 P4 P5 P6 P7 i Hi. unfold PMP_N in Hi.
  assert (i = 0 \/ i = 1 \/ i = 2 \/ i = 3 \/ i = 4 \/ i = 5 \/ i = 6 \/ i = 7) as H by lia.
  by destruct H as [->|[->|[->|[->|[->|[->|[->| ->]]]]]]].
Qed.

Lemma pmp_example_wf : pmp_wf (Cfg := riscv64_ref) pmp_example.
Proof.
  apply pmp_rebuild_wf.
  - split; apply entries_cases; vm_compute; (reflexivity || (split; [intros [=]|reflexivity])).
  - split; [vm_compute; split; [intros [=]|reflexivity]|].
    intros slot. change (pmp_wcache pmp_example_sr) with (∅ : gmap Z pmp_wcache_entry).
    rewrite aget_empty. vm_compute. split; intros [=].
Qed.

Lemma pmp_csr_write_wf_witness :
  pmp_wf (Cfg := riscv64_ref) (pmp_csr_write (Cfg := riscv64_ref) CSR_PMPCFG0 0x1617 pmp_example).2.
Proof.
  apply (pmp_csr_write_wf (Cfg := riscv64_ref)); [exact pmp_example_wf|].
  vm_compute. split; [intros [=]|reflexivity].
Defined.

Lemma pmp_locked_immutable_witness :
  let m' := (pmp_csr_write (Cfg := riscv64_ref) CSR_PMPCFG0 0 pmp_example).2 in
  pmp_cfg (Cfg := riscv64_ref) m' 0 = 0x89 /\ pmp_addr m' 0 = 0x20000400.
Proof.
  destruct (pmp_locked_immutable (Cfg := riscv64_ref) CSR_PMPCFG0 0 pmp_example 0
    pmp_example_wf) as (E1 & E2 & _); [vm_compute; split; [intros [=]|reflexivity]
    | vm_compute; reflexivity |].
  split; [etransitivity; [exact E1|] | etransitivity; [exact E2|]]; vm_compute; reflexivity.
Defined.

