(* ===== verification/Trap.v ===== *)
(** * Trap: trap entry, interrupt selection and trap return
    ([system/intr.c], and the [mret]/[sret] bodies of [inst.c]) *)
From S2P Require Import Prelude Config Tlb Machine.

Section Trap.
Context {Cfg : Config}.

(** ** Fields of [csr_t.mstatus] *)

Definition get_sie := getf 1 1.
Definition set_sie := setf 1 1.
Definition get_mie := getf 3 1.
Definition set_mie := setf 3 1.
Definition get_spie := getf 5 1.
Definition set_spie := setf 5 1.
Definition get_mpie := getf 7 1.
Definition set_mpie := setf 7 1.
Definition get_spp := getf 8 1.
Definition set_spp := setf 8 1.
Definition get_mpp := getf 11 2.
Definition set_mpp := setf 11 2.
Definition set_mprv := setf 17 1.
Definition get_tvm := getf 20 1.
Definition get_tw := getf 21 1.
Definition get_tsr := getf 22 1.

(** ** Trap entry *)

Definition is_interrupt (NO : Z) : bool := nz (NO .& MCA_INTR_BIT).
Definition cause_code (NO : Z) : Z := NO .& wnot MCA_INTR_BIT.

Definition one_of (x : Z) (l : list Z) : bool := existsb (Z.eqb x) l.

(** The value reported in [xtval]. *)
Definition trap_tval (m : machine) (NO epc : Z) : Z :=
  if is_interrupt NO then 0
  else if one_of NO [MCA_ILLEGAL_INS; MCA_VIRT_INS] then
    if (inst m .& 3) =? 3 then inst m else inst m .& 0xffff
  else if one_of NO [MCA_INS_ADD_MIS; MCA_INS_ACC_FAU] then
    if nz (g_vaddr m) then g_vaddr m else epc
  else if NO =? MCA_BREAK_POINT then epc
  else if one_of NO [MCA_LOA_ADD_MIS; MCA_LOA_ACC_FAU; MCA_STO_ADD_MIS; MCA_STO_ACC_FAU]
  then g_vaddr m
  else if one_of NO [MCA_ENV_CAL_UMO; MCA_ENV_CAL_SMO; MCA_ENV_CAL_VSMO; MCA_ENV_CAL_MMO] then 0
  else if one_of NO [MCA_INS_PAG_FAU; MCA_INS_GUEST_PAG_FAU] then g_vaddr m
  else if one_of NO [MCA_LOA_PAG_FAU; MCA_STO_PAG_FAU; MCA_LOA_GUEST_PAG_FAU;
                     MCA_STO_GUEST_PAG_FAU] then g_vaddr m
  else 0.

(** Traps taken in S-mode: the cause is below [XLEN] and its delegation bit is set. *)
Definition trap_delegated (m : machine) (NO : Z) : bool :=
  let delegation :=
    CSR m (if is_interrupt NO then CSR_MIDELEG else CSR_MEDELEG)
      .| (if is_interrupt NO then word (riscv_virtual_irq_mask (riscv_isa_extensions m)) else 0) in
  (priv m <=? PRV_S) && (cause_code NO <? XLEN) && nz ((delegation >> cause_code NO) .& 1).

(** ... and further in VS-mode. *)
Definition trap_to_guest (m : machine) (NO : Z) : bool :=
  virt m && h_enabled m
  && nz ((CSR m (if is_interrupt NO then CSR_HIDELEG else CSR_HEDELEG) >> cause_code NO) .& 1).

(** [base], or [base + 4 * cause] for an interrupt in vectored mode. *)
Definition trap_vector (tvec NO : Z) : Z :=
  let base := tvec .& wnot 0x3 in
  if ((tvec .& 0x3) =? 1) && is_interrupt NO then word (base + word (cause_code NO * 4))
  else base.

(** [spp]/[spie]/[sie] on entry to (V)S-mode; [mpp]/[mpie]/[mie] to M-mode. *)
Definition status_enter_s (status privilege : Z) : Z :=
  let reg := set_spp privilege status in
  let reg := set_spie (get_sie reg) reg in
  set_sie 0 reg.
Definition status_enter_m (status privilege : Z) : Z :=
  let reg := set_mpp privilege status in
  let reg := set_mpie (get_mie reg) reg in
  set_mie 0 reg.

Definition guest_page_fault (NO : Z) : bool :=
  one_of NO [MCA_INS_GUEST_PAG_FAU; MCA_LOA_GUEST_PAG_FAU; MCA_STO_GUEST_PAG_FAU].

(** The exceptions whose [tval] is a guest address when they come from V-mode. *)
Definition guest_address_cause (NO : Z) : bool :=
  one_of NO [MCA_BREAK_POINT; MCA_INS_PAG_FAU; MCA_LOA_PAG_FAU; MCA_STO_PAG_FAU]
  || guest_page_fault NO
  || one_of NO [MCA_INS_ACC_FAU; MCA_LOA_ACC_FAU; MCA_STO_ACC_FAU; MCA_INS_ADD_MIS;
                MCA_LOA_ADD_MIS; MCA_STO_ADD_MIS].

Definition raise_to_vs (NO epc tval : Z) (m : machine) : Z * machine :=
  let cause := cause_code NO in
  let vs_cause :=
    if is_interrupt NO
       && nz (wshl 1 cause .& word (riscv_virtual_irq_mask (riscv_isa_extensions m)))
    then MCA_INTR_BIT .| word (cause - 1) else NO in
  let m := setCSR CSR_VSTVAL tval m in
  let m := setCSR CSR_VSEPC epc m in
  let m := setCSR CSR_VSCAUSE vs_cause m in
  let m := setCSR CSR_VSSTATUS (status_enter_s (CSR m CSR_VSSTATUS) (priv m)) m in
  let m := m <| last_inst_priv := priv m |> in
  let m := m <| priv := PRV_S |> in
  let m := machine_soft_tlb_flush m in
  let vstvec := CSR m CSR_VSTVEC in
  let base := vstvec .& wnot 0x3 in
  (if is_interrupt NO && ((vstvec .& 0x3) =? 1)
   then word (base + word (cause_code vs_cause * 4)) else base, m).

(** The hypervisor's trap information, written with an HS-mode trap. *)
Definition hs_trap_info (NO : Z) (m : machine) : machine :=
  if h_enabled m then
    let guest_fault := guest_page_fault NO in
    let m := setCSR CSR_HTVAL (if guest_fault then word (riscv_h_fault_gpa m >> 2) else 0) m in
    let m := setCSR CSR_HTINST (if guest_fault && riscv_h_fault_ptw m
                                then (if riscv_h_fault_write m then 0x3020 else 0x3000) else 0) m in
    let hstatus := CSR m CSR_HSTATUS .& wnot (3 << 6) in
    let guest_address := virt m && guest_address_cause NO in
    let hstatus := if guest_address || riscv_h_explicit_trap m then hstatus .| (1 << 6) else hstatus in
    let hstatus := if virt m then hstatus .| (1 << 7) else hstatus in
    let hstatus :=
      if virt m then
        let hstatus := hstatus .& wnot (1 << 8) in
        if priv m =? PRV_S then hstatus .| (1 << 8) else hstatus
      else hstatus in
    setCSR CSR_HSTATUS hstatus m
  else m.

Definition raise_to_s (NO epc tval : Z) (m : machine) : Z * machine :=
  let m := setCSR CSR_STVAL tval m in
  let m := hs_trap_info NO m in
  let m := setCSR CSR_SEPC epc m in
  let m := setCSR CSR_SCAUSE NO m in
  let m := setCSR CSR_SSTATUS (status_enter_s (CSR m CSR_SSTATUS) (priv m)) m in
  let m := setCSR CSR_MSTATUS (status_enter_s (CSR m CSR_MSTATUS) (priv m)) m in
  let m := m <| last_inst_priv := priv m |> in
  let m := m <| priv := PRV_S |> in
  let m := m <| virt := false |> in
  let m := machine_soft_tlb_flush m in
  (riscv_legalize_pc (trap_vector (CSR m CSR_STVEC) NO), m).

Definition m_trap_info (NO : Z) (m : machine) : machine :=
  if h_enabled m then
    let guest_fault := guest_page_fault NO in
    let m := setCSR CSR_MTVAL2 (if guest_fault then word (riscv_h_fault_gpa m >> 2) else 0) m in
    setCSR CSR_MTINST (if guest_fault && riscv_h_fault_ptw m
                       then (if riscv_h_fault_write m then 0x3020 else 0x3000) else 0) m
  else m.

(** [mstatus.MPV] and [mstatus.GVA]. *)
Definition m_guest_status (NO : Z) (m : machine) (status : Z) : Z :=
  if h_enabled m then
    let status := status .& wnot (word (3 << 38)) in
    let status := if virt m then status .| word (1 << 39) else status in
    let guest_address := virt m && guest_address_cause NO in
    let guest_address := guest_address
      || (riscv_data_virtual_mode m
          && one_of NO [MCA_LOA_PAG_FAU; MCA_STO_PAG_FAU; MCA_LOA_GUEST_PAG_FAU;
                        MCA_STO_GUEST_PAG_FAU; MCA_LOA_ACC_FAU; MCA_STO_ACC_FAU;
                        MCA_LOA_ADD_MIS; MCA_STO_ADD_MIS]) in
    if guest_address || riscv_h_explicit_trap m then status .| word (1 << 38) else status
  else status.

Definition raise_to_m (NO epc tval : Z) (m : machine) : Z * machine :=
  let m := setCSR CSR_MTVAL tval m in
  let m := m_trap_info NO m in
  let m := setCSR CSR_MEPC epc m in
  let m := setCSR CSR_MCAUSE NO m in
  let reg := status_enter_m (CSR m CSR_MSTATUS) (priv m) in
  let m := setCSR CSR_MSTATUS (m_guest_status NO m reg) m in
  let m := m <| last_inst_priv := priv m |> in
  let m := m <| raise_intr := NO |> in
  let m := m <| priv := PRV_M |> in
  let m := m <| virt := false |> in
  let m := machine_soft_tlb_flush m in
  (riscv_legalize_pc (trap_vector (CSR m CSR_MTVEC) NO), m).

(** Returns the address of the trap handler. *)
Definition isa_raise_intr (NO epc : Z) (m : machine) : Z * machine :=
  let m := m <| csr_dirty := true |> in
  let m := if negb (is_interrupt NO) then m <| instruction_trapped := true |> else m in
  let tval := trap_tval m NO epc in
  if trap_delegated m NO then
    if trap_to_guest m NO then raise_to_vs NO epc tval m else raise_to_s NO epc tval m
  else raise_to_m NO epc tval m.

(** ** Pending interrupts *)

Definition sstc_enabled (m : machine) : bool :=
  if CONFIG_RV64 then nz (CSR m CSR_MENVCFG >> 63) else nz (CSR m CSR_MENVCFGH >> 31).

Definition riscv_mip_value (m : machine) : Z :=
  let vmask := word (riscv_virtual_irq_mask (riscv_isa_extensions m)) in
  let value := (CSR m CSR_MIP .& wnot vmask) .| (if seip m then 0x200 else 0) in
  let value := value .| (CSR m CSR_HVIP .& vmask) in
  let value :=
    if CONFIG_RAPTOR_MEMORY_MAP
    then (value .& wnot (1 << 16)) .| ((CSR m CSR_MBERR_STATUS .& 1) << 16) else value in
  let value :=
    if sstc_enabled m then (value .& wnot 0x20) .| (if stip m then 0x20 else 0) else value in
  if riscv_virtual_timer_pending m then value .| 0x40 else value.

Definition can_take_interrupt (m : machine) (bit : Z) (reg_mstatus : Z) : bool :=
  let irq_bit := 1 << bit in
  if nz (irq_bit .& word (riscv_virtual_irq_mask (riscv_isa_extensions m))) then
    if nz (CSR m CSR_HIDELEG .& irq_bit) then
      virt m && ((priv m <? PRV_S) || ((priv m =? PRV_S) && nz (CSR m CSR_VSSTATUS .& 0x2)))
    else virt m || (priv m <? PRV_S) || ((priv m =? PRV_S) && nz (get_sie reg_mstatus))
  else if nz (CSR m CSR_MIDELEG .& irq_bit) then
    virt m || (priv m <? PRV_S) || ((priv m =? PRV_S) && nz (get_sie reg_mstatus))
  else (priv m <? PRV_M) || ((priv m =? PRV_M) && nz (get_mie reg_mstatus)).

(** The interrupts in the order they are tried, with their MIP bits. *)
Definition interrupt_order : list (Z * Z) :=
  [ (11, MCA_MAC_EXT_INT); (3, MCA_MAC_SOF_INT); (7, MCA_MAC_TIM_INT);
    (9, MCA_SUP_EXT_INT); (1, MCA_SUP_SOF_INT); (5, MCA_SUP_TIM_INT);
    (10, MCA_VSUP_EXT_INT); (2, MCA_VSUP_SOF_INT); (6, MCA_VSUP_TIM_INT) ].

Fixpoint first_interrupt (m : machine) (pending reg_mstatus : Z) (l : list (Z * Z)) : option Z :=
  match l with
  | [] => None
  | (bit, NO) :: l =>
      if nz (pending .& (1 << bit)) && can_take_interrupt m bit reg_mstatus then Some NO
      else first_interrupt m pending reg_mstatus l
  end.

(** Whether this build takes interrupts by itself: a shared-library build
    without the replay support of system mode never does, and one with it only
    when the harness enables it. *)
Definition interrupts_enabled (m : machine) : bool :=
  if CONFIG_TARGET_SHARE then CONFIG_MODE_SYSTEM && nemu_md_interrupts m else true.

Definition isa_query_intr (m : machine) : Z :=
  if negb (interrupts_enabled m) then INTR_EMPTY
  else
    let reg_mstatus := CSR m CSR_MSTATUS in
    let pending := riscv_mip_value m .& CSR m CSR_MIE in
    if pending =? 0 then INTR_EMPTY
    else
      match first_interrupt m pending reg_mstatus interrupt_order with
      | Some NO => NO
      | None =>
          if riscv_sscofpmf_enabled (riscv_isa_extensions m) && nz (pending .& (1 << 13))
             && can_take_interrupt m 13 reg_mstatus
          then MCA_COU_OVE_INT else INTR_EMPTY
      end.

(** ** Trap return: the address to continue at and the new state, from the
    address [spc] of the instruction *)

Definition mret (spc : Z) (m : machine) : Z * machine :=
  if negb (priv m =? PRV_M) then isa_raise_intr MCA_ILLEGAL_INS spc m
  else
    let dnpc := CSR m CSR_MEPC in
    let reg := CSR m CSR_MSTATUS in
    let m := m <| last_inst_priv := priv m |> in
    let m := m <| priv := get_mpp reg |> in
    let m := m <| virt := h_enabled m && negb (priv m =? PRV_M) && nz ((reg >> 39) .& 1) |> in
    let reg := reg .& wnot (word (1 << 39)) in
    let reg := if negb (priv m =? PRV_M) then set_mprv 0 reg else reg in
    let reg := set_mie (get_mpie reg) reg in
    let reg := set_mpie 1 reg in
    let reg := set_mpp PRV_U reg in
    let m := setCSR CSR_MSTATUS reg m in
    let m := m <| csr_dirty := true |> in
    (dnpc, machine_soft_tlb_flush m).

(** [sret] executed in V-mode returns within the guest. *)
Definition sret_vs (m : machine) : Z * machine :=
  let vsstatus := CSR m CSR_VSSTATUS in
  let dnpc := CSR m CSR_VSEPC in
  let m := m <| last_inst_priv := priv m |> in
  let m := m <| priv := (vsstatus >> 8) .& 1 |> in
  let vsstatus := (vsstatus .& wnot 0x122) .| (((vsstatus >> 5) .& 1) << 1) .| (1 << 5) in
  let m := setCSR CSR_VSSTATUS vsstatus m in
  let m := m <| csr_dirty := true |> in
  (dnpc, machine_soft_tlb_flush m).

Definition sret_hs (m : machine) : Z * machine :=
  let reg := CSR m CSR_MSTATUS in
  let dnpc := CSR m CSR_SEPC in
  let m := m <| last_inst_priv := priv m |> in
  let hstatus := CSR m CSR_HSTATUS in
  let m := m <| virt := h_enabled m && nz ((hstatus >> 7) .& 1) |> in
  let m := m <| priv := get_spp reg |> in
  let m := if h_enabled m then setCSR CSR_HSTATUS (hstatus .& wnot (1 << 7)) m else m in
  let reg := set_sie (get_spie reg) reg in
  let reg := set_spie 1 reg in
  let reg := set_spp 0 reg in
  let reg := if negb (priv m =? PRV_M) then set_mprv 0 reg else reg in
  let m := setCSR CSR_MSTATUS reg m in
  let m := m <| csr_dirty := true |> in
  (dnpc, machine_soft_tlb_flush m).

Definition sret (spc : Z) (m : machine) : Z * machine :=
  if virt m && h_enabled m
     && ((priv m =? PRV_U) || nz (CSR m CSR_HSTATUS .& CSR_HSTATUS_VTSR))
  then isa_raise_intr MCA_VIRT_INS spc m
  else if (priv m =? PRV_U)
          || ((priv m =? PRV_S) && negb (virt m) && nz (get_tsr (CSR m CSR_MSTATUS)))
  then let '(dnpc, m) := isa_raise_intr MCA_ILLEGAL_INS spc m in (dnpc, difftest_skip_ref m)
  else if virt m then sret_vs m
  else sret_hs m.

End Trap.
