(* ===== verification/TrapSpec.v ===== *)
(** * TrapSpec: what trap entry, interrupt selection and trap return promise:
    the privilege discipline, the state a handler is entered with, that [mret]
    and [sret] undo it, and which interrupt is taken. *)
From S2P Require Import Prelude Config Tlb Machine Trap.

(** A concrete number is not in a concrete list. *)
Ltac notin := apply (bool_decide_unpack _); vm_compute; exact I.

Section TrapSpec.
Context {Cfg : Config}.

(** The trap is entered on the state with the two flags of the entry set. *)
Definition trap_start (NO : Z) (m : machine) : machine :=
  let m := m <| csr_dirty := true |> in
  if negb (is_interrupt NO) then m <| instruction_trapped := true |> else m.

Lemma isa_raise_intr_cases NO epc m :
  isa_raise_intr NO epc m =
    if trap_delegated m NO then
      if trap_to_guest m NO then raise_to_vs NO epc (trap_tval m NO epc) (trap_start NO m)
      else raise_to_s NO epc (trap_tval m NO epc) (trap_start NO m)
    else raise_to_m NO epc (trap_tval m NO epc) (trap_start NO m).
Proof. unfold isa_raise_intr, trap_start. by destruct (negb (is_interrupt NO)). Qed.

Lemma trap_start_frame NO m :
  sr (trap_start NO m) = sr m /\ priv (trap_start NO m) = priv m /\
  virt (trap_start NO m) = virt m /\ gpr (trap_start NO m) = gpr m /\
  riscv_isa_extensions (trap_start NO m) = riscv_isa_extensions m /\
  mem (trap_start NO m) = mem m.
Proof. unfold trap_start. by destruct (negb (is_interrupt NO)). Qed.

Lemma CSR_sr m m' c : sr m' = sr m -> CSR m' c = CSR m c.
Proof. unfold CSR. by intros ->. Qed.

Lemma hs_trap_info_frame NO m :
  priv (hs_trap_info NO m) = priv m /\ virt (hs_trap_info NO m) = virt m /\
  gpr (hs_trap_info NO m) = gpr m /\ mem (hs_trap_info NO m) = mem m /\
  riscv_isa_extensions (hs_trap_info NO m) = riscv_isa_extensions m.
Proof. unfold hs_trap_info. destruct (h_enabled m); [|done]. mach. done. Qed.

Lemma CSR_hs_trap_info NO m c :
  c .& 0xfff <> CSR_HTVAL -> c .& 0xfff <> CSR_HTINST -> c .& 0xfff <> CSR_HSTATUS ->
  CSR (hs_trap_info NO m) c = CSR m c.
Proof.
  intros H1 H2 H3. unfold hs_trap_info. destruct (h_enabled m); [|done]. cbv zeta.
  rewrite !CSR_setCSR_ne by (intros E; rewrite <-E in *; done). done.
Qed.

Lemma m_trap_info_frame NO m :
  priv (m_trap_info NO m) = priv m /\ virt (m_trap_info NO m) = virt m /\
  gpr (m_trap_info NO m) = gpr m /\ mem (m_trap_info NO m) = mem m /\
  riscv_isa_extensions (m_trap_info NO m) = riscv_isa_extensions m.
Proof. unfold m_trap_info. destruct (h_enabled m); [|done]. mach. done. Qed.

Lemma CSR_m_trap_info NO m c :
  c .& 0xfff <> CSR_MTVAL2 -> c .& 0xfff <> CSR_MTINST ->
  CSR (m_trap_info NO m) c = CSR m c.
Proof.
  intros H1 H2. unfold m_trap_info. destruct (h_enabled m); [|done]. cbv zeta.
  rewrite !CSR_setCSR_ne by (intros E; rewrite <-E in *; done). done.
Qed.

(** Privilege mode and virtualization after each kind of entry. *)
Lemma raise_to_vs_mode NO epc tval m :
  priv (raise_to_vs NO epc tval m).2 = PRV_S /\ virt (raise_to_vs NO epc tval m).2 = virt m.
Proof. steps raise_to_vs. cbn [fst snd]. mach. done. Qed.

Lemma raise_to_s_mode NO epc tval m :
  priv (raise_to_s NO epc tval m).2 = PRV_S /\ virt (raise_to_s NO epc tval m).2 = false.
Proof. steps raise_to_s. cbn [fst snd]. mach. done. Qed.

Lemma raise_to_m_mode NO epc tval m :
  priv (raise_to_m NO epc tval m).2 = PRV_M /\ virt (raise_to_m NO epc tval m).2 = false.
Proof. steps raise_to_m. cbn [fst snd]. mach. done. Qed.

Lemma trap_delegated_priv m NO : trap_delegated m NO = true -> priv m <= PRV_S.
Proof. unfold trap_delegated. rewrite !andb_true_iff, Z.leb_le. tauto. Qed.

Lemma trap_to_guest_virt m NO : trap_to_guest m NO = true -> virt m = true.
Proof. unfold trap_to_guest. rewrite !andb_true_iff. tauto. Qed.

(** The privilege modes the simulator runs in. *)
Definition mode_ok (m : machine) : Prop :=
  (priv m = PRV_U \/ priv m = PRV_S \/ priv m = PRV_M) /\
  (virt m = true -> priv m <> PRV_M).

(** A trap never lowers the privilege level: it is taken in M-mode unless
    its cause is delegated and the hart is below M-mode, in which case it is
    taken in (V)S-mode; M-mode and HS-mode handlers run with V = 0, and the
    guest handles a trap only if the hart was in V-mode and both delegation
    bits are set. *)
Theorem isa_raise_intr_privilege NO epc m :
  mode_ok m ->
  let m' := (isa_raise_intr NO epc m).2 in
  mode_ok m' /\ priv m <= priv m' /\
  priv m' = (if trap_delegated m NO then PRV_S else PRV_M) /\
  virt m' = (trap_delegated m NO && trap_to_guest m NO).
Proof.
  intros [Hp Hv] m'. subst m'. rewrite isa_raise_intr_cases.
  pose proof (trap_delegated_priv m NO) as Hd. pose proof (trap_to_guest_virt m NO) as Hg.
  destruct (trap_start_frame NO m) as (_ & _ & Ev & _).
  destruct (trap_delegated m NO); [destruct (trap_to_guest m NO)|]; unfold mode_ok.
  - destruct (raise_to_vs_mode NO epc (trap_tval m NO epc) (trap_start NO m)) as [-> ->].
    rewrite Ev, Hg by done. specialize (Hd eq_refl). unfold PRV_S, PRV_M, PRV_U in *.
    split; [split; [tauto | done] | split; [lia | done]].
  - destruct (raise_to_s_mode NO epc (trap_tval m NO epc) (trap_start NO m)) as [-> ->].
    specialize (Hd eq_refl). unfold PRV_S, PRV_M, PRV_U in *.
    split; [split; [tauto | done] | split; [lia | done]].
  - destruct (raise_to_m_mode NO epc (trap_tval m NO epc) (trap_start NO m)) as [-> ->].
    unfold PRV_S, PRV_M, PRV_U in *.
    split; [split; [tauto | done] | split; [lia | done]].
Qed.

(** ** Entry into M-mode, and return by [mret] *)

Lemma testbit_ge_XLEN x i : fits XLEN x -> XLEN <= i -> Z.testbit x i = false.
Proof. apply testbit_high. Qed.

(** Only MPV and GVA depend on the virtualization mode. *)
Lemma m_guest_status_testbit NO m status i :
  fits XLEN status -> 0 <= i -> i <> 38 -> i <> 39 ->
  Z.testbit (m_guest_status NO m status) i = Z.testbit status i.
Proof.
  intros Hf Hi H38 H39. unfold m_guest_status. destruct (h_enabled m); [|done]. cbv zeta.
  match goal with |- context [if ?b then _ .| word (1 << 38) else _] => destruct b end;
  destruct (virt m);
    rewrite ?Z.lor_spec, Z.land_spec, testbit_wnot, !testbit_word,
      ?testbit_shl1, testbit_shl3 by done;
    destruct (Z.ltb_spec i XLEN) as [|G];
    rewrite ?(testbit_ge_XLEN status i Hf G);
    replace (i =? 38) with false by lia; try replace (i =? 38 + 1) with false by lia;
    try replace (i =? 39) with false by lia; cbn; rewrite ?andb_true_r, ?orb_false_r; done.
Qed.

Lemma m_guest_status_fits NO m status :
  fits XLEN status -> fits XLEN (m_guest_status NO m status).
Proof.
  intros Hf. unfold m_guest_status. pose proof XLEN_pos.
  repeat match goal with |- context [if ?b then _ else _] => destruct b end; unfold word;
    auto 10 with fits lia.
Qed.

Lemma m_guest_status_mpv NO m status :
  fits XLEN status -> h_enabled m = true ->
  Z.testbit (m_guest_status NO m status) 39 = CONFIG_RV64 && virt m.
Proof.
  intros Hf Eh. unfold m_guest_status. rewrite Eh. cbv zeta.
  assert (EX : (39 <? XLEN) = CONFIG_RV64) by (unfold XLEN; by destruct CONFIG_RV64).
  assert (G : CONFIG_RV64 = false -> Z.testbit status 39 = false).
  { intros E. apply (testbit_ge_XLEN _ _ Hf). unfold XLEN. rewrite E. lia. }
  match goal with |- context [if ?b then _ .| word (1 << 38) else _] => destruct b end;
  destruct (virt m);
    rewrite ?Z.lor_spec, Z.land_spec, testbit_wnot, !testbit_word, EX by done;
    destruct CONFIG_RV64; cbn; rewrite ?G, ?andb_false_r by done; done.
Qed.

Lemma status_enter_m_testbit s p i :
  0 <= i ->
  Z.testbit (status_enter_m s p) i =
    if i =? 3 then false else if i =? 7 then Z.testbit s 3
    else if (i =? 11) || (i =? 12) then Z.testbit p (i - 11) else Z.testbit s i.
Proof.
  intros Hi. unfold status_enter_m, set_mie, set_mpie, set_mpp, get_mie.
  rewrite !setf_testbit by lia. rewrite Z.testbit_0_l.
  destruct (Z.eqb_spec i 3) as [->|]; [done|].
  replace ((3 <=? i) && (i <? 3 + 1)) with false by lia.
  destruct (Z.eqb_spec i 7) as [->|].
  - cbn [andb]. rewrite getf_testbit, setf_testbit by lia. done.
  - replace ((7 <=? i) && (i <? 7 + 1)) with false by lia.
    destruct (Z.eqb_spec i 11) as [->|]; [done|]. destruct (Z.eqb_spec i 12) as [->|]; [done|].
    replace ((11 <=? i) && (i <? 11 + 2)) with false by lia. done.
Qed.

Lemma status_enter_m_fits s p : fits XLEN s -> fits XLEN (status_enter_m s p).
Proof.
  intros. pose proof XLEN_pos.
  unfold status_enter_m, set_mie, set_mpie, set_mpp. repeat apply setf_fits; lia || done.
Qed.

(** Equal fields from equal bits. *)
Lemma getf_ext lo w x y :
  0 <= lo -> 0 <= w -> (forall i, lo <= i < lo + w -> Z.testbit x i = Z.testbit y i) ->
  getf lo w x = getf lo w y.
Proof.
  intros Hl Hw E. apply Z.bits_inj'. intros i Hi. rewrite !getf_testbit by lia.
  destruct (Z.ltb_spec i w); [|done]. cbn. apply E. lia.
Qed.

Lemma mpp_of_entry m :
  mode_ok m -> get_mpp (status_enter_m (CSR m CSR_MSTATUS) (priv m)) = priv m.
Proof.
  intros [Hp _]. apply Z.bits_inj'; intros i Hi. unfold get_mpp.
  rewrite getf_testbit, status_enter_m_testbit by lia. destruct (Z.ltb_spec i 2); cbn [andb].
  - replace (i + 11 =? 3) with false by lia. replace (i + 11 =? 7) with false by lia.
    replace ((i + 11 =? 11) || (i + 11 =? 12)) with true by lia. f_equal. lia.
  - symmetry. apply (testbit_high 2); [|done]. unfold fits, PRV_U, PRV_S, PRV_M in *. lia.
Qed.

Lemma raise_to_m_state NO epc tval m :
  let '(dnpc, m') := raise_to_m NO epc tval m in
  let status := m_guest_status NO m (status_enter_m (CSR m CSR_MSTATUS) (priv m)) in
  dnpc = riscv_legalize_pc (trap_vector (CSR m CSR_MTVEC) NO) /\
  CSR m' CSR_MEPC = epc /\ CSR m' CSR_MCAUSE = NO /\ CSR m' CSR_MTVAL = tval /\
  CSR m' CSR_MSTATUS = status /\
  riscv_isa_extensions m' = riscv_isa_extensions m /\
  gpr m' = gpr m /\ mem m' = mem m /\
  (forall c, (c .& 0xfff) ∉ [CSR_MTVAL; CSR_MTVAL2; CSR_MTINST; CSR_MEPC; CSR_MCAUSE; CSR_MSTATUS] ->
     CSR m' c = CSR m c).
Proof.
  steps raise_to_m. cbv zeta.
  destruct (m_trap_info_frame NO m0) as (Ep & Ev & Eg & Emem & Ee).
  rewrite <-Em0 in *.
  assert (E1 : forall c, (c .& 0xfff) ∉ [CSR_MTVAL; CSR_MTVAL2; CSR_MTINST] -> CSR m1 c = CSR m c).
  { intros c Hc. rewrite !not_elem_of_cons in Hc. destruct Hc as (H1 & H2 & H3 & _).
    rewrite Em0, Em. by rewrite CSR_m_trap_info, CSR_setCSR_ne. }
  assert (Et : CSR m1 CSR_MTVAL = tval).
  { rewrite Em0, CSR_m_trap_info by done. mach. done. }
  assert (EM : CSR m1 CSR_MSTATUS = CSR m CSR_MSTATUS) by (apply E1; notin).
  assert (EV : CSR m1 CSR_MTVEC = CSR m CSR_MTVEC) by (apply E1; notin).
  assert (Ex : riscv_h_explicit_trap m1 = riscv_h_explicit_trap m).
  { rewrite Em0. unfold m_trap_info. destruct (h_enabled m0); [|by mach]. cbv zeta. by mach. }
  clear Em0. split_and!; mach; try done; rewrite ?EM, ?EV, ?Ep, ?Ev, ?Ee, ?Eg, ?Emem; mach; try done.
  - subst status reg. unfold m_guest_status, riscv_data_virtual_mode, h_enabled. mach.
    by rewrite ?EM, ?EV, ?Ep, ?Ev, ?Ee, ?Ex; mach; rewrite ?EM, ?EV, ?Ep, ?Ev, ?Ee; mach.
  - intros c Hc. rewrite !not_elem_of_cons in Hc. destruct Hc as (H1 & H2 & H3 & H4 & H5 & H6 & _).
    mach. apply E1. rewrite !not_elem_of_cons. split_and!; try done. apply not_elem_of_nil.
Qed.

(** A trap that is not delegated enters the M-mode handler with [mepc],
    [mcause] and [mtval] set, the previous privilege in MPP, the previous MIE
    in MPIE and MIE clear; the handler address follows [mtvec], vectored for
    interrupts only; registers, memory and the other CSRs are untouched. *)
Theorem m_trap_state NO epc m :
  mode_ok m -> trap_delegated m NO = false ->
  let '(dnpc, m') := isa_raise_intr NO epc m in
  let status := CSR m CSR_MSTATUS in
  let status' := CSR m' CSR_MSTATUS in
  CSR m' CSR_MEPC = epc /\ CSR m' CSR_MCAUSE = NO /\ CSR m' CSR_MTVAL = trap_tval m NO epc /\
  (fits XLEN status ->
    get_mpp status' = priv m /\ get_mpie status' = get_mie status /\ get_mie status' = 0) /\
  dnpc = riscv_legalize_pc (trap_vector (CSR m CSR_MTVEC) NO) /\
  gpr m' = gpr m /\ mem m' = mem m /\
  (forall c, (c .& 0xfff) ∉ [CSR_MTVAL; CSR_MTVAL2; CSR_MTINST; CSR_MEPC; CSR_MCAUSE; CSR_MSTATUS] ->
     CSR m' c = CSR m c).
Proof.
  intros [Hp _] Hd. rewrite isa_raise_intr_cases, Hd.
  pose proof (raise_to_m_state NO epc (trap_tval m NO epc) (trap_start NO m)) as H.
  destruct (trap_start_frame NO m) as (Es & Ep & Ev & Eg & Ee & Em).
  pose proof (CSR_sr _ _ CSR_MSTATUS Es) as EM. pose proof (CSR_sr _ _ CSR_MTVEC Es) as ET.
  destruct (raise_to_m NO epc (trap_tval m NO epc) (trap_start NO m)) as [dnpc m'].
  cbv zeta in H. destruct H as (H1 & H2 & H3 & H4 & H5 & _ & H7 & H8 & H9).
  split_and!; try done; try congruence.
  - intros Hf. pose proof (status_enter_m_fits _ (priv m) Hf) as Hf'.
    rewrite H5, EM, Ep.
    split_and!; (etransitivity;
      [apply getf_ext; [lia|lia|]; intros i Hi; apply m_guest_status_testbit; [done|lia..]|]);
      apply Z.bits_inj'; intros i Hi; rewrite ?getf_testbit, status_enter_m_testbit by lia.
    + destruct (Z.ltb_spec i 2); cbn [andb].
      * replace (i + 11 =? 3) with false by lia. replace (i + 11 =? 7) with false by lia.
        replace ((i + 11 =? 11) || (i + 11 =? 12)) with true by lia. f_equal. lia.
      * symmetry. apply (testbit_high 2); [|done]. unfold fits, PRV_U, PRV_S, PRV_M in *. lia.
    + unfold get_mie. rewrite getf_testbit by lia. destruct (Z.ltb_spec i 1); [|done].
      replace (i + 7 =? 3) with false by lia. replace (i + 7 =? 7) with true by lia.
      f_equal. f_equal. lia.
    + rewrite Z.bits_0. destruct (Z.ltb_spec i 1); [|done].
      by replace (i + 3 =? 3) with true by lia.
  - intros c Hc. rewrite H9 by done. by apply CSR_sr.
Qed.

Lemma mret_state spc m :
  priv m = PRV_M ->
  let '(dnpc, m') := mret spc m in
  let status := CSR m CSR_MSTATUS in
  let mpp := get_mpp status in
  dnpc = CSR m CSR_MEPC /\ priv m' = mpp /\
  virt m' = h_enabled m && negb (mpp =? PRV_M) && Z.testbit status 39 /\
  gpr m' = gpr m /\ mem m' = mem m /\
  riscv_isa_extensions m' = riscv_isa_extensions m /\
  (fits XLEN status -> forall i, 0 <= i ->
    Z.testbit (CSR m' CSR_MSTATUS) i =
      if (i =? 11) || (i =? 12) || (i =? 39) then false
      else if i =? 7 then true else if i =? 3 then Z.testbit status 7
      else if (i =? 17) && negb (mpp =? PRV_M) then false else Z.testbit status i) /\
  (forall c, (c .& 0xfff) <> CSR_MSTATUS -> CSR m' c = CSR m c).
Proof.
  intros Hp. steps mret. rewrite Hp. cbn [negb Z.eqb PRV_M Pos.eqb].
  assert (Ep : priv m2 = get_mpp reg) by by mach.
  split_and!; mach; try done.
  - by rewrite Ereg.
  - rewrite Ereg, nz_shift_testbit by lia. unfold h_enabled. by mach.
  - intros Hf i Hi. rewrite Ereg4, Ereg3, Ereg2, Ereg1, Ep. clear -Hf Hi Ereg Ereg0 Cfg.
    rewrite Ereg in *. set (st := CSR m CSR_MSTATUS) in *. clearbody st. clear Ereg.
    unfold set_mpp, set_mpie, set_mie, get_mpie. rewrite !setf_testbit by lia.
    destruct (Z.eqb_spec i 11) as [->|]; [done|]. destruct (Z.eqb_spec i 12) as [->|]; [done|].
    replace ((11 <=? i) && (i <? 11 + 2)) with false by lia. cbn [orb].
    destruct (Z.eqb_spec i 7) as [->|]; [done|].
    replace ((7 <=? i) && (i <? 7 + 1)) with false by lia.
    assert (E0 : forall j, 0 <= j -> Z.testbit reg0 j = if j =? 39 then false else Z.testbit st j).
    { intros j Hj. rewrite Ereg0, Z.land_spec, testbit_wnot, testbit_word, testbit_shl1 by done.
      destruct (Z.ltb_spec j XLEN) as [|G]; [|rewrite (testbit_ge_XLEN st j Hf G)];
      destruct (j =? 39); cbn; by rewrite ?andb_true_r, ?andb_false_r. }
    destruct (Z.eqb_spec i 3) as [->|].
    + cbn [andb Z.leb Z.ltb Z.compare Pos.compare Pos.compare_cont Z.add Pos.add]. 
      rewrite getf_testbit by lia. destruct (negb _); unfold set_mprv;
        rewrite ?setf_testbit, E0 by lia; done.
    + replace ((3 <=? i) && (i <? 3 + 1)) with false by lia.
      destruct (negb _); unfold set_mprv; rewrite ?setf_testbit, E0 by lia;
        destruct (Z.eqb_spec i 39) as [->|]; try done; destruct (Z.eqb_spec i 17) as [->|]; try done.
      by replace ((17 <=? i) && (i <? 17 + 1)) with false by lia.
  - intros c Hc. by mach.
Qed.

(** C23: [mret] undoes a trap into M-mode: it resumes at the trapped
    address, in the interrupted privilege and virtualization modes, with MIE
    and every other [mstatus] field restored except the trap's own (MPIE, MPP,
    MPV, GVA) and MPRV, which is cleared when leaving M-mode. *)
Theorem mret_undoes_trap NO epc spc m :
  mode_ok m -> fits XLEN (CSR m CSR_MSTATUS) ->
  (virt m = true -> CONFIG_RV64 = true /\ h_enabled m = true) ->
  trap_delegated m NO = false ->
  let m1 := (isa_raise_intr NO epc m).2 in
  let '(dnpc, m2) := mret spc m1 in
  dnpc = epc /\ priv m2 = priv m /\ virt m2 = virt m /\ gpr m2 = gpr m /\ mem m2 = mem m /\
  (forall i, 0 <= i -> i ∉ [7; 11; 12; 38; 39] -> (i = 17 -> priv m = PRV_M) ->
    Z.testbit (CSR m2 CSR_MSTATUS) i = Z.testbit (CSR m CSR_MSTATUS) i) /\
  (forall c, (c .& 0xfff) ∉ [CSR_MTVAL; CSR_MTVAL2; CSR_MTINST; CSR_MEPC; CSR_MCAUSE; CSR_MSTATUS] ->
    CSR m2 c = CSR m c).
Proof.
  intros Hm Hf Hv Hd m1.
  pose proof (raise_to_m_state NO epc (trap_tval m NO epc) (trap_start NO m)) as H.
  destruct (raise_to_m_mode NO epc (trap_tval m NO epc) (trap_start NO m)) as [Hp1 _].
  destruct (trap_start_frame NO m) as (Es & Ep & Ev & Eg & Ee & Em).
  pose proof (CSR_sr _ _ CSR_MSTATUS Es) as EM.
  subst m1. rewrite isa_raise_intr_cases, Hd.
  destruct (raise_to_m NO epc (trap_tval m NO epc) (trap_start NO m)) as [d m1].
  cbn [snd] in *. cbv zeta in H. destruct H as (_ & H2 & _ & _ & H5 & H6 & H7 & H8 & H9).
  pose proof (mret_state spc m1 Hp1) as G. destruct (mret spc m1) as [dnpc m2].
  cbv zeta in G. destruct G as (G1 & G2 & G3 & G4 & G5 & _ & G7 & G8).
  pose proof (status_enter_m_fits _ (priv m) Hf) as Hf'.
  rewrite EM, Ep in H5. rewrite H5 in G2, G3, G7.
  set (st1 := status_enter_m (CSR m CSR_MSTATUS) (priv m)) in *.
  set (st2 := m_guest_status NO (trap_start NO m) st1) in *.
  assert (B : forall i, 0 <= i -> i <> 38 -> i <> 39 -> Z.testbit st2 i = Z.testbit st1 i)
    by (intros; by apply m_guest_status_testbit).
  assert (Hmpp : get_mpp st2 = priv m).
  { transitivity (get_mpp st1); [apply getf_ext; [lia..|intros; apply B; lia]|].
    by apply mpp_of_entry. }
  rewrite Hmpp in *.
  split_and!; try congruence.
  - rewrite G3. unfold h_enabled. rewrite H6, Ee. destruct Hm as [_ Hm].
    destruct (riscv_h_gstage_preview_enabled (riscv_isa_extensions m)) eqn:Eh.
    + subst st2. rewrite m_guest_status_mpv; [|done|unfold h_enabled; by rewrite Ee].
      rewrite Ev. destruct (virt m) eqn:Evm; [|by rewrite !andb_false_r].
      destruct (Hv eq_refl) as [-> _]. destruct (Z.eqb_spec (priv m) PRV_M); [by destruct Hm|done].
    + destruct (virt m); [|done]. destruct (Hv eq_refl) as [_ Hh].
      unfold h_enabled in Hh. congruence.
  - intros i Hi Hn H17. rewrite !not_elem_of_cons in Hn. destruct Hn as (N7 & N11 & N12 & N38 & N39 & _).
    rewrite G7; [|by apply m_guest_status_fits|done].
    replace ((i =? 11) || (i =? 12) || (i =? 39)) with false by lia.
    replace (i =? 7) with false by lia.
    rewrite !B by lia. unfold st1. rewrite !status_enter_m_testbit by lia.
    destruct (Z.eqb_spec i 3) as [->|]; [done|]. replace (i =? 7) with false by lia.
    replace ((i =? 11) || (i =? 12)) with false by lia.
    destruct (Z.eqb_spec i 17) as [E17|]; [|done]. by rewrite (H17 E17).
  - intros c Hc. rewrite G8, H9; [|done|by intros E; apply Hc; rewrite E; do 5 right; left]. by apply CSR_sr.
Qed.

(** ** Return from a guest or from HS-mode *)

(** The cause register of the mode a handler runs in. *)
Definition handler_cause (m : machine) : Z :=
  CSR m (if priv m =? PRV_M then CSR_MCAUSE else if virt m then CSR_VSCAUSE else CSR_SCAUSE).

Lemma raise_to_vs_cause NO epc tval m :
  is_interrupt NO = false -> virt m = true -> handler_cause (raise_to_vs NO epc tval m).2 = NO.
Proof.
  intros E Ev. unfold handler_cause.
  destruct (raise_to_vs_mode NO epc tval m) as [-> ->]. rewrite Ev. cbn [Z.eqb PRV_S PRV_M Pos.eqb].
  steps raise_to_vs. rewrite E in Evs_cause. cbn [andb] in Evs_cause. subst vs_cause.
  cbn [snd]. by mach.
Qed.

Lemma raise_to_s_cause NO epc tval m : handler_cause (raise_to_s NO epc tval m).2 = NO.
Proof.
  unfold handler_cause. destruct (raise_to_s_mode NO epc tval m) as [-> ->].
  cbn [Z.eqb PRV_S PRV_M Pos.eqb]. steps raise_to_s. cbn [snd]. by mach.
Qed.

Lemma raise_to_m_cause NO epc tval m : handler_cause (raise_to_m NO epc tval m).2 = NO.
Proof.
  unfold handler_cause. destruct (raise_to_m_mode NO epc tval m) as [-> ->].
  cbn [Z.eqb PRV_M Pos.eqb]. steps raise_to_m. cbn [snd]. by mach.
Qed.

Lemma isa_raise_intr_cause NO epc m :
  is_interrupt NO = false -> handler_cause (isa_raise_intr NO epc m).2 = NO.
Proof.
  intros E. rewrite isa_raise_intr_cases. destruct (trap_start_frame NO m) as (_ & _ & Ev & _).
  destruct (trap_delegated m NO); [destruct (trap_to_guest m NO) eqn:Eg|].
  - apply raise_to_vs_cause; [done|]. rewrite Ev. by apply (trap_to_guest_virt m NO).
  - apply raise_to_s_cause.
  - apply raise_to_m_cause.
Qed.

Lemma isa_raise_intr_priv NO epc m : mode_ok m -> priv m <= priv (isa_raise_intr NO epc m).2.
Proof.
  intros [Hp _]. rewrite isa_raise_intr_cases. pose proof (trap_delegated_priv m NO) as Hd.
  destruct (trap_delegated m NO); [destruct (trap_to_guest m NO)|].
  - destruct (raise_to_vs_mode NO epc (trap_tval m NO epc) (trap_start NO m)) as [-> _]. auto.
  - destruct (raise_to_s_mode NO epc (trap_tval m NO epc) (trap_start NO m)) as [-> _]. auto.
  - destruct (raise_to_m_mode NO epc (trap_tval m NO epc) (trap_start NO m)) as [-> _].
    unfold PRV_S, PRV_M, PRV_U in *. lia.
Qed.

Lemma sret_vs_state m :
  (priv (sret_vs m).2 = PRV_U \/ priv (sret_vs m).2 = PRV_S) /\ virt (sret_vs m).2 = virt m.
Proof.
  unfold PRV_U, PRV_S. split.
  - assert (priv (sret_vs m).2 = (CSR m CSR_VSSTATUS >> 8) .& 1) as ->; [|apply bit_cases].
    steps sret_vs. cbn [snd]. mach. by rewrite Evsstatus.
  - steps sret_vs. cbn [snd]. by mach.
Qed.

Lemma sret_hs_state m :
  (priv (sret_hs m).2 = PRV_U \/ priv (sret_hs m).2 = PRV_S) /\
  virt (sret_hs m).2 = h_enabled m && Z.testbit (CSR m CSR_HSTATUS) 7.
Proof.
  unfold PRV_U, PRV_S. split.
  - assert (priv (sret_hs m).2 = get_spp (CSR m CSR_MSTATUS)) as ->; [|apply bit_cases].
    steps sret_hs. cbn [snd]. mach. by rewrite Ereg.
  - steps sret_hs. cbn [snd]. mach. rewrite Ehstatus, nz_shift_testbit by lia.
    unfold h_enabled. by mach.
Qed.

(** C26: [sret] never raises the privilege: it either traps with an
    illegal-instruction exception (virtual-instruction from a guest), exactly in
    the cases where it is not permitted, or resumes in U- or S-mode; a guest
    resumes inside the guest, and a guest is entered only from HS-mode with SPV set. *)
Theorem sret_confined spc m :
  mode_ok m -> (virt m = true -> h_enabled m = true) ->
  let illegal := (priv m =? PRV_U) ||
    (if virt m then nz (CSR m CSR_HSTATUS .& CSR_HSTATUS_VTSR)
     else (priv m =? PRV_S) && nz (get_tsr (CSR m CSR_MSTATUS))) in
  let m' := (sret spc m).2 in
  if illegal then
    priv m <= priv m' /\ handler_cause m' = (if virt m then MCA_VIRT_INS else MCA_ILLEGAL_INS)
  else
    (priv m' = PRV_U \/ priv m' = PRV_S) /\
    virt m' = virt m || (h_enabled m && Z.testbit (CSR m CSR_HSTATUS) 7).
Proof.
  intros Hm Hv. cbv zeta. unfold sret.
  assert (NI : is_interrupt MCA_VIRT_INS = false /\ is_interrupt MCA_ILLEGAL_INS = false)
    by (unfold is_interrupt, MCA_INTR_BIT, XLEN; by destruct CONFIG_RV64).
  destruct NI as [N1 N2].
  pose proof (isa_raise_intr_priv MCA_VIRT_INS spc m Hm) as P1.
  pose proof (isa_raise_intr_priv MCA_ILLEGAL_INS spc m Hm) as P2.
  pose proof (isa_raise_intr_cause MCA_VIRT_INS spc m N1) as C1.
  pose proof (isa_raise_intr_cause MCA_ILLEGAL_INS spc m N2) as C2.
  destruct (virt m) eqn:Ev.
  - rewrite (Hv eq_refl). cbn [negb andb orb]. rewrite andb_false_r, orb_false_r.
    destruct (priv m =? PRV_U); cbn [orb]; [done|].
    destruct (nz _); [done|]. destruct (sret_vs_state m) as [? ->]. by rewrite Ev.
  - cbn [negb andb orb]. rewrite andb_true_r.
    destruct (_ || _); [|apply sret_hs_state].
    destruct (isa_raise_intr MCA_ILLEGAL_INS spc m) as [d m']; cbn [snd] in *.
    unfold handler_cause in *. mach. done.
Qed.

(** ** Interrupt selection *)

(** Interrupt [bit] is pending, enabled and may be taken now. *)
Definition takeable (m : machine) (bit : Z) : bool :=
  Z.testbit (riscv_mip_value m .& CSR m CSR_MIE) bit && can_take_interrupt m bit (CSR m CSR_MSTATUS).

(** All the sources, the highest priority first. *)
Definition interrupt_sources (m : machine) : list (Z * Z) :=
  interrupt_order
  ++ (if riscv_sscofpmf_enabled (riscv_isa_extensions m) then [(13, MCA_COU_OVE_INT)] else []).

Lemma first_interrupt_find m l :
  (forall p, p ∈ l -> 0 <= p.1) ->
  first_interrupt m (riscv_mip_value m .& CSR m CSR_MIE) (CSR m CSR_MSTATUS) l
  = option_map snd (List.find (fun p => takeable m p.1) l).
Proof.
  induction l as [|[b n] l IH]; intros Hl; [done|]. cbn [first_interrupt List.find fst].
  unfold takeable at 1. rewrite nz_bit by (apply (Hl (b, n)); set_solver).
  destruct (_ && _); [done|]. apply IH. set_solver.
Qed.

Lemma find_app {A} (f : A -> bool) l1 l2 :
  List.find f (l1 ++ l2) = match List.find f l1 with Some x => Some x | None => List.find f l2 end.
Proof. induction l1 as [|a l1 IH]; [done|]. cbn. by destruct (f a). Qed.

Lemma find_none_all {A} (f : A -> bool) l : (forall x, x ∈ l -> f x = false) -> List.find f l = None.
Proof.
  induction l as [|a l IH]; intros H; [done|]. cbn. rewrite H by set_solver. apply IH. set_solver.
Qed.

Lemma interrupt_order_bits p : p ∈ interrupt_order -> 0 <= p.1.
Proof. unfold interrupt_order. rewrite !elem_of_cons, elem_of_nil. naive_solver lia. Qed.

Lemma isa_query_intr_find m :
  interrupts_enabled m = true ->
  isa_query_intr m = match List.find (fun p => takeable m p.1) (interrupt_sources m) with
                     | Some p => p.2 | None => INTR_EMPTY end.
Proof.
  intros He. unfold isa_query_intr. rewrite He. cbn [negb]. cbv zeta.
  rewrite first_interrupt_find by apply interrupt_order_bits.
  unfold interrupt_sources. rewrite find_app.
  destruct (Z.eqb_spec (riscv_mip_value m .& CSR m CSR_MIE) 0) as [E|].
  - assert (T : forall b, takeable m b = false) by (intros; unfold takeable; by rewrite E, Z.bits_0).
    rewrite !find_none_all by (intros; apply T). done.
  - destruct (List.find _ interrupt_order); [done|]. cbn [option_map].
    destruct (riscv_sscofpmf_enabled _); [|done]. cbn [List.find andb].
    unfold takeable. cbn [fst]. rewrite nz_bit by lia. by destruct (_ && _).
Qed.

Lemma interrupt_sources_causes m p :
  p ∈ interrupt_sources m -> is_interrupt p.2 = true /\ cause_code p.2 = p.1.
Proof.
  assert (H : Forall (fun p => is_interrupt p.2 = true /\ cause_code p.2 = p.1)
                (interrupt_order ++ [(13, MCA_COU_OVE_INT)])).
  { unfold interrupt_order, is_interrupt, cause_code, wnot, word, MCA_MAC_EXT_INT, MCA_MAC_SOF_INT,
      MCA_MAC_TIM_INT, MCA_SUP_EXT_INT, MCA_SUP_SOF_INT, MCA_SUP_TIM_INT, MCA_VSUP_EXT_INT,
      MCA_VSUP_SOF_INT, MCA_VSUP_TIM_INT, MCA_COU_OVE_INT, MCA_INTR_BIT, XLEN.
    destruct CONFIG_RV64; repeat constructor. }
  rewrite Forall_app, Forall_singleton in H. destruct H as [H1 H2]. unfold interrupt_sources.
  rewrite elem_of_app. intros [Hp|Hp]; [by apply (proj1 (list.Forall_forall _ _) H1)|].
  destruct (riscv_sscofpmf_enabled _).
  - apply list_elem_of_singleton in Hp. by subst.
  - by apply elem_of_nil in Hp.
Qed.

(** The interrupt taken is the first of the priority order that is pending,
    enabled and takeable, reported with its cause code; none is taken exactly
    when none is takeable. *)
Theorem isa_query_intr_highest m :
  interrupts_enabled m = true ->
  (isa_query_intr m = INTR_EMPTY /\ forall p, p ∈ interrupt_sources m -> takeable m p.1 = false) \/
  (exists l1 bit NO l2, interrupt_sources m = l1 ++ (bit, NO) :: l2 /\
     isa_query_intr m = NO /\ is_interrupt NO = true /\ cause_code NO = bit /\
     takeable m bit = true /\ forall p, p ∈ l1 -> takeable m p.1 = false).
Proof.
  intros He. rewrite isa_query_intr_find by done.
  pose proof (interrupt_sources_causes m) as Hc. revert Hc.
  generalize (interrupt_sources m) as l. induction l as [|[b n] l IH]; intros Hc.
  - left. split; [done|]. intros p Hp. by apply elem_of_nil in Hp.
  - cbn [List.find fst]. destruct (takeable m b) eqn:Et.
    + right. exists [], b, n, l. destruct (Hc (b, n)) as [En Hb]; [by left|].
      split_and!; try done. intros p Hp. by apply elem_of_nil in Hp.
    + destruct IH as [[E H]|(l1 & b' & n' & l2 & E & H1 & H2 & H3 & H4 & H5)].
      * intros p Hp. apply Hc. by right.
      * left. split; [done|]. intros p [->|]%elem_of_cons; auto.
      * right. exists ((b, n) :: l1), b', n', l2. subst l. split_and!; try done.
        intros p [->|]%elem_of_cons; auto.
Qed.

(** The cheap test of the execution loop never misses an interrupt. *)
Theorem riscv_intr_may_pending_complete m :
  isa_query_intr m <> INTR_EMPTY \/ (exists bit, takeable m bit = true) ->
  riscv_intr_may_pending m = true.
Proof.
  intros H. assert (P : riscv_mip_value m .& CSR m CSR_MIE <> 0).
  { intros E. destruct H as [H|[b H]].
    - apply H. unfold isa_query_intr. destruct (negb _); [done|]. cbv zeta. by rewrite E.
    - unfold takeable in H. by rewrite E, Z.bits_0 in H. }
  unfold riscv_intr_may_pending. destruct (Z.eqb_spec (CSR m CSR_MIE) 0) as [E|_].
  { destruct P. by rewrite E, Z.land_0_r. }
  cbv zeta. apply nz_true. intros E. apply P. clear P H.
  set (vmask := word (riscv_virtual_irq_mask (riscv_isa_extensions m))) in *.
  assert (E0 : CSR m CSR_MIP = 0 /\ CSR m CSR_HVIP .& vmask = 0 /\ seip m = false /\ stip m = false
               /\ riscv_virtual_timer_pending m = false
               /\ (CONFIG_RAPTOR_MEMORY_MAP = true -> (CSR m CSR_MBERR_STATUS .& 1) << 16 = 0)).
  { destruct CONFIG_RAPTOR_MEMORY_MAP, (riscv_virtual_timer_pending m), (seip m), (stip m);
      rewrite ?Z.lor_eq_0_iff in E; naive_solver. }
  destruct E0 as (E0 & E1 & E2 & E3 & E4 & E5).
  unfold riscv_mip_value. fold vmask. rewrite E0, E1, E2, E3, E4.
  destruct CONFIG_RAPTOR_MEMORY_MAP; [rewrite E5 by done|]; by destruct (sstc_enabled m).
Qed.

Lemma isa_raise_intr_frame NO epc m :
  riscv_isa_extensions (isa_raise_intr NO epc m).2 = riscv_isa_extensions m.
Proof.
  rewrite isa_raise_intr_cases. destruct (trap_start_frame NO m) as (_ & _ & _ & _ & <- & _).
  destruct (trap_delegated m NO); [destruct (trap_to_guest m NO)|].
  - steps raise_to_vs. cbn [snd]. by mach.
  - steps raise_to_s. cbn [snd]. mach.
    rewrite (proj2 (proj2 (proj2 (proj2 (hs_trap_info_frame NO m0))))). by mach.
  - steps raise_to_m. cbn [snd]. mach.
    rewrite (proj2 (proj2 (proj2 (proj2 (m_trap_info_frame NO m0))))). by mach.
Qed.

Lemma s_trap_sie NO epc tval m : get_sie (CSR (raise_to_s NO epc tval m).2 CSR_MSTATUS) = 0.
Proof.
  steps raise_to_s. cbn [snd]. mach. unfold status_enter_s, get_sie, set_sie.
  by rewrite getf_setf by lia.
Qed.

Lemma m_trap_mie NO epc tval m :
  fits XLEN (CSR m CSR_MSTATUS) -> get_mie (CSR (raise_to_m NO epc tval m).2 CSR_MSTATUS) = 0.
Proof.
  intros Hf. pose proof (raise_to_m_state NO epc tval m) as H.
  destruct (raise_to_m NO epc tval m) as [d m']. cbv zeta in H. cbn [snd].
  destruct H as (_ & _ & _ & _ & -> & _). pose proof (status_enter_m_fits _ (priv m) Hf).
  unfold get_mie. etransitivity.
  - apply getf_ext; [lia..|]. intros i Hi. apply m_guest_status_testbit; [done|lia..].
  - unfold status_enter_m, set_mie. by rewrite getf_setf by lia.
Qed.


End TrapSpec.

(** ** Witnesses: a U-mode program on RV64, interrupts enabled *)

Definition user_machine : machine :=
  setCSR CSR_MIE 0x888 (setCSR CSR_MIP 0x80 (setCSR CSR_MTVEC 0x80000101
    (setCSR CSR_MSTATUS 0xa00000088 machine_init))) <| nemu_md_interrupts := true |>.

Lemma user_machine_mode : mode_ok user_machine.
Proof. split; [by left | done]. Qed.
Lemma user_machine_status : fits (@XLEN riscv64_ref) (CSR user_machine CSR_MSTATUS).
Proof. split; vm_compute; congruence. Qed.

Lemma isa_raise_intr_privilege_witness :
  priv (isa_raise_intr (Cfg := riscv64_ref) MCA_ENV_CAL_UMO 0x1000 user_machine).2 = PRV_M.
Proof.
  pose proof (isa_raise_intr_privilege (Cfg := riscv64_ref) MCA_ENV_CAL_UMO 0x1000 user_machine
    user_machine_mode) as (_ & _ & -> & _). reflexivity.
Defined.

Lemma m_trap_state_witness :
  let '(dnpc, m') := isa_raise_intr (Cfg := riscv64_ref)
                       (@MCA_MAC_TIM_INT riscv64_ref) 0x1000 user_machine in
  dnpc = 0x80000100 + 28 /\ CSR m' CSR_MEPC = 0x1000 /\ get_mpie (CSR m' CSR_MSTATUS) = 1.
Proof.
  pose proof (m_trap_state (Cfg := riscv64_ref) (@MCA_MAC_TIM_INT riscv64_ref) 0x1000 user_machine
    user_machine_mode ltac:(reflexivity)) as H.
  destruct (isa_raise_intr _ _ _) as [dnpc m'].
  destruct H as (H1 & _ & _ & H4 & H5 & _). destruct (H4 user_machine_status) as (_ & -> & _).
  split; [by rewrite H5 | split; [done | reflexivity]].
Defined.

Lemma mret_undoes_trap_witness :
  let m1 := (isa_raise_intr (Cfg := riscv64_ref) MCA_ENV_CAL_UMO 0x1000 user_machine).2 in
  let '(dnpc, m2) := mret (Cfg := riscv64_ref) 0x80000104 m1 in
  dnpc = 0x1000 /\ priv m2 = PRV_U.
Proof.
  pose proof (mret_undoes_trap (Cfg := riscv64_ref) MCA_ENV_CAL_UMO 0x1000 0x80000104 user_machine
    user_machine_mode user_machine_status ltac:(done) ltac:(reflexivity)) as H.
  cbv zeta in *. destruct (mret _ _) as [dnpc m2]. destruct H as (H1 & H2 & _).
  split; [exact H1 | exact H2].
Defined.

Lemma sret_confined_witness :
  let m' := (sret (Cfg := riscv64_ref) 0x1000 (user_machine <| priv := PRV_S |>)).2 in
  priv m' = PRV_U \/ priv m' = PRV_S.
Proof.
  refine (proj1 (sret_confined (Cfg := riscv64_ref) 0x1000 (user_machine <| priv := PRV_S |>) _ _)).
  - split; [by right; left | done].
  - done.
Defined.

Lemma isa_query_intr_highest_witness :
  isa_query_intr (Cfg := riscv64_ref) user_machine = @MCA_MAC_TIM_INT riscv64_ref.
Proof.
  destruct (isa_query_intr_highest (Cfg := riscv64_ref) user_machine eq_refl) as [[E _]|_];
    [vm_compute in E; discriminate | vm_compute; reflexivity].
Defined.

Lemma riscv_intr_may_pending_complete_witness :
  riscv_intr_may_pending (Cfg := riscv64_ref) user_machine = true.
Proof. apply riscv_intr_may_pending_complete. left. vm_compute. discriminate. Defined.

