(* ===== verification/Clint.v ===== *)
(** * Clint: the guest clock ([utils/timer.c]) and the CLINT of one hart
    ([device/timer.c]): the timer and software interrupt lines it drives, and
    the fast-forward of [wfi]. *)
From S2P Require Import Prelude Config Machine Trap.

Section Clint.
Context {Cfg : Config}.

Definition MIP_MSIP_BIT : Z := 1 << 3.
Definition MIP_MTIP_BIT : Z := 1 << 7.
Definition UINT64_MAX : Z := Z.ones 64.

(** ** The clock *)

Definition get_time_internal (m : machine) : Z * machine :=
  if CONFIG_TIMER_CYCLE then (g_nr_guest_inst m / 1000, m)
  else (wrap 64 (host_clock m (host_reads m)), m <| host_reads ::= Z.succ |>).

Definition get_time (m : machine) : Z * machine :=
  if CONFIG_TIMER_CYCLE then get_time_internal m
  else
    let m := if boot_time m =? 0
             then let '(t, m) := get_time_internal m in m <| boot_time := t |> else m in
    let '(now, m) := get_time_internal m in
    (wrap 64 (now - boot_time m), m).

Definition clint_get_ticks (m : machine) : Z * machine :=
  if CONFIG_TIMER_CYCLE then (g_nr_guest_inst m / 100, m)
  else let '(us, m) := get_time m in (wrap 64 (us * 10), m).

(** ** Interrupt lines *)

Definition sstc_get_stimecmp (m : machine) : Z :=
  if CONFIG_RV64 then CSR m 0x14d
  else (wrap 32 (CSR m 0x15d) << 32) .| wrap 32 (CSR m 0x14d).

(** [mip |= bit] or [mip &= ~bit]; the complement is that of a 32-bit constant. *)
Definition mip_line (bit : Z) (level : bool) (m : machine) : machine :=
  setCSR CSR_MIP (if level then CSR m CSR_MIP .| bit else CSR m CSR_MIP .& wrap 32 (~~ bit)) m.

(** The body of the loop over the harts. *)
Definition clint_update_hart (ticks : Z) (m : machine) : machine :=
  let m := mip_line MIP_MTIP_BIT (mtimecmp m <=? ticks) m in
  let m := m <| stip := sstc_get_stimecmp m <=? ticks |> in
  let m := mip_line MIP_MSIP_BIT (nz (clint_msip m .& 1)) m in
  let m := setCSR CSR_SIP (riscv_mip_value m .& CSR m CSR_MIDELEG
                           .& word (riscv_supervisor_irq_mask (riscv_isa_extensions m))) m in
  let m := setCSR CSR_TIME (word ticks) m in
  if CONFIG_RV64 then m else setCSR CSR_TIMEH (wrap 32 (ticks >> 32)) m.

(** A shared-library build has no CLINT of its own. *)
Definition clint_update_mip (m : machine) : machine :=
  if CONFIG_TARGET_SHARE then m
  else let '(ticks, m) := clint_get_ticks m in clint_update_hart ticks m.

(** ** [wfi] *)

(** [compare > ticks && compare < next_cmp]: the earlier of two deadlines. *)
Definition nearer (ticks compare next_cmp : Z) : Z :=
  if (ticks <? compare) && (compare <? next_cmp) then compare else next_cmp.

(** The next armed timer compare of the hart, [UINT64_MAX] if there is none. *)
Definition wfi_next_cmp (ticks : Z) (m : machine) : Z :=
  let next_cmp := nearer ticks (mtimecmp m) UINT64_MAX in
  let next_cmp := if sstc_enabled m then nearer ticks (sstc_get_stimecmp m) next_cmp else next_cmp in
  if CONFIG_RV64 && h_enabled m && sstc_enabled m && nz (CSR m CSR_HENVCFG .& (1 << 63))
  then nearer ticks (word (CSR m CSR_VSTIMECMP - CSR m CSR_HTIMEDELTA)) next_cmp else next_cmp.

(** Returns whether the clock was advanced. *)
Definition clint_wfi_advance (m : machine) : bool * machine :=
  if negb CONFIG_TARGET_SHARE && CONFIG_TIMER_CYCLE then
    let '(ticks, m) := clint_get_ticks m in
    let next_cmp := wfi_next_cmp ticks m in
    if (ticks <? next_cmp) && (next_cmp <=? UINT64_MAX / 100)
    then (true, clint_update_mip (m <| g_nr_guest_inst := wrap 64 (next_cmp * 100) |>))
    else (false, m)
  else (false, m).

End Clint.
