(* ===== verification/ClintSpec.v ===== *)
(** * ClintSpec: [wfi] wakes up *)
From S2P Require Import Prelude Config Machine Trap Clint.

(** A standalone 64-bit simulator whose clock counts instructions. *)
Definition riscv64_standalone : Config := {|
  CONFIG_RV64 := true; CONFIG_RV_ASID_BITS := 16; CONFIG_RV_PMPADDR_BITS := 54;
  CONFIG_RV_PC_BITS := 64; CONFIG_RV_PMP_GRANULARITY_LOG2 := 2;
  CONFIG_RV_F := true; CONFIG_RV_D := true; CONFIG_RVE := false; CONFIG_RV_SVADE := false;
  CONFIG_RV_MCOUNTINHIBIT := false; CONFIG_MODE_SYSTEM := true; CONFIG_TARGET_SHARE := false;
  CONFIG_RAPTOR_MEMORY_MAP := false; CONFIG_RAPTOR_PMEM_2G := false;
  CONFIG_MBASE := 0x80000000; CONFIG_MSIZE := 0x8000000; CONFIG_TIMER_CYCLE := true |}.

Section ClintSpec.
Context {Cfg : Config}.

(** The armed timer compares, with the interrupt line each one raises. *)
Definition armed (m : machine) : list (Z * Z) :=
  [(7, mtimecmp m)]
  ++ (if sstc_enabled m then [(5, sstc_get_stimecmp m)] else [])
  ++ (if CONFIG_RV64 && h_enabled m && sstc_enabled m && nz (CSR m CSR_HENVCFG .& (1 << 63))
      then [(6, word (CSR m CSR_VSTIMECMP - CSR m CSR_HTIMEDELTA))] else []).

Definition nearest (ticks : Z) (l : list (Z * Z)) (n : Z) : Z :=
  fold_left (fun n p => nearer ticks p.2 n) l n.

Lemma wfi_next_cmp_nearest ticks m : wfi_next_cmp ticks m = nearest ticks (armed m) UINT64_MAX.
Proof.
  unfold wfi_next_cmp, armed, nearest.
  destruct (sstc_enabled m), (_ && nz (CSR m CSR_HENVCFG .& (1 << 63))) eqn:E; try reflexivity;
    rewrite ?andb_false_r in E; done.
Qed.

Lemma nearest_spec ticks l n :
  let r := nearest ticks l n in
  r <= n /\ (r = n \/ exists p, p ∈ l /\ p.2 = r /\ ticks < r) /\
  (forall p, p ∈ l -> ticks < p.2 -> r <= p.2).
Proof.
  revert n. induction l as [|[b c] l IH]; intros n.
  - cbn. split; [lia|]. split; [by left|]. intros p H. by apply elem_of_nil in H.
  - cbv zeta. change (nearest ticks ((b, c) :: l) n) with (nearest ticks l (nearer ticks c n)).
    destruct (IH (nearer ticks c n)) as (H1 & H2 & H3).
    assert (N : nearer ticks c n <= n /\ (ticks < c -> nearer ticks c n <= c) /\
                (nearer ticks c n = n \/ (nearer ticks c n = c /\ ticks < c)))
      by (unfold nearer; destruct (Z.ltb_spec ticks c), (Z.ltb_spec c n); cbn [andb]; lia).
    destruct N as (N1 & N2 & N3). split; [lia|]. split.
    + destruct H2 as [->|(p & Hp & E & L)].
      * destruct N3 as [->|[E L]]; [by left|]. right. exists (b, c). rewrite E. split; [left|done].
      * right. exists p. split; [by right|done].
    + intros p [->|Hp]%elem_of_cons L; [specialize (N2 L); cbn [snd] in *; lia | by apply H3].
Qed.

(** ** The lines after an update *)

Definition raised (m : machine) (bit : Z) : Prop := Z.testbit (riscv_mip_value m) bit = true.

(** Bits 5, 6 and 7 of [mip], read off the lines. *)
(** A line of machine mode is shown as it is. *)
Lemma mip_bit_machine m b : b = 7 \/ b = 11 -> Z.testbit (CSR m CSR_MIP) b = true -> raised m b.
Proof.
  intros D H. pose proof xlen_pos. unfold raised, riscv_mip_value.
  set (vmask := word (riscv_virtual_irq_mask (riscv_isa_extensions m))).
  assert (V : Z.testbit vmask b = false).
  { unfold vmask, riscv_virtual_irq_mask, word. rewrite testbit_wrap by lia.
    destruct D as [-> | ->], (riscv_h_gstage_preview_enabled _); by rewrite andb_false_r. }
  assert (X : (b <? XLEN) = true) by (destruct D; subst b; lia).
  assert (B : Z.testbit ((CSR m CSR_MIP .& wnot vmask) .| (if seip m then 0x200 else 0)) b = true).
  { rewrite Z.lor_spec, Z.land_spec, testbit_wnot, H, V, X by lia. done. }
  cbv zeta. assert (O : forall c (x y : Z), Z.testbit x b = true -> Z.testbit y b = true ->
    Z.testbit (if c : bool then x else y) b = true) by (by intros [] ? ?).
  assert (K : forall x k, k = 0x20 \/ k = 1 << 16 -> Z.testbit x b = true -> Z.testbit (x .& wnot k) b = true).
  { intros x k Hk E. rewrite Z.land_spec, testbit_wnot, E, X by lia.
    by destruct D as [-> | ->], Hk as [-> | ->]. }
  repeat first [ apply O | exact B | rewrite Z.lor_spec; apply orb_true_intro; left
               | apply K; [by left|] | apply K; [by right|] ].
Qed.

Lemma mip_bit_5 m : sstc_enabled m = true -> stip m = true -> raised m 5.
Proof.
  intros H1 H2. unfold raised, riscv_mip_value. rewrite H1, H2. cbv zeta.
  destruct (riscv_virtual_timer_pending m); rewrite ?Z.lor_spec; by rewrite ?orb_true_r.
Qed.

Lemma mip_bit_6 m : riscv_virtual_timer_pending m = true -> raised m 6.
Proof. intros H. unfold raised, riscv_mip_value. rewrite H. cbv zeta. rewrite Z.lor_spec. apply orb_true_r. Qed.

Lemma mip_line_testbit bit level m b : 0 <= b -> 0 <= bit < 32 ->
  Z.testbit (CSR (mip_line (1 << bit) level m) CSR_MIP) b =
    if b =? bit then level else Z.testbit (CSR m CSR_MIP) b && (level || (b <? 32)).
Proof.
  intros Hb Hbit. unfold mip_line. rewrite CSR_setCSR_eq. destruct level.
  - rewrite Z.lor_spec, testbit_shl1 by lia. destruct (b =? bit); [apply orb_true_r|].
    by rewrite orb_false_r, andb_true_r.
  - rewrite Z.land_spec, testbit_wrap, Z.lnot_spec, testbit_shl1 by lia.
    destruct (Z.eqb_spec b bit) as [->|]; [by rewrite !andb_false_r|]. by rewrite andb_true_r.
Qed.

(** An update changes the interrupt lines, the clock and the view [sip]. *)
Definition clint_frame (m m' : machine) : Prop :=
  mtimecmp m' = mtimecmp m /\ clint_msip m' = clint_msip m /\ riscv_isa_extensions m' = riscv_isa_extensions m /\
  seip m' = seip m /\ last_csr_wr m' = last_csr_wr m /\
  forall c, c .& 0xfff ∉ [CSR_MIP; CSR_SIP; CSR_TIME; CSR_TIMEH] -> CSR m' c = CSR m c.

Lemma clint_update_hart_frame ticks m : clint_frame m (clint_update_hart ticks m).
Proof.
  steps clint_update_hart. unfold mip_line in *.
  split_and!; [destruct CONFIG_RV64; by mach..|].
  intros c Hc. rewrite !not_elem_of_cons in Hc. destruct Hc as (H1 & H2 & H3 & H4 & _).
  destruct CONFIG_RV64; mach; rewrite ?CSR_setCSR_ne by (intros E; by rewrite <-E in *); by mach.
Qed.

Lemma clint_get_ticks_frame m : clint_frame m (clint_get_ticks m).2.
Proof.
  unfold clint_get_ticks, get_time, get_time_internal. destruct CONFIG_TIMER_CYCLE; [by split_and!|].
  by destruct (boot_time m =? 0); split_and!.
Qed.

Lemma clint_frame_refl m : clint_frame m m.
Proof. by split_and!. Qed.

Lemma clint_frame_trans m1 m2 m3 : clint_frame m1 m2 -> clint_frame m2 m3 -> clint_frame m1 m3.
Proof.
  intros (A1 & A2 & A3 & A4 & A5 & A6) (B1 & B2 & B3 & B4 & B5 & B6).
  split_and!; [by rewrite ?B1, ?B2, ?B3, ?B4, ?B5..|]. intros c Hc. by rewrite B6, A6.
Qed.

Lemma clint_update_mip_frame m : clint_frame m (clint_update_mip m).
Proof.
  unfold clint_update_mip. destruct CONFIG_TARGET_SHARE; [apply clint_frame_refl|].
  pose proof (clint_get_ticks_frame m) as F. destruct (clint_get_ticks m) as [ticks m'].
  exact (clint_frame_trans _ _ _ F (clint_update_hart_frame ticks m')).
Qed.

Lemma mip_line_frame {A} (p : machine -> A) bit level m :
  (forall c v m, p (setCSR c v m) = p m) -> p (mip_line bit level m) = p m.
Proof. intros H. apply H. Qed.

Lemma mip_line_CSR bit level m c : c .& 0xfff <> CSR_MIP .& 0xfff -> CSR (mip_line bit level m) c = CSR m c.
Proof. intros H. apply CSR_setCSR_ne. by intros E; apply H. Qed.

(** What an update at [ticks] makes of the lines. *)
Definition clint_lines (ticks : Z) (m m' : machine) : Prop :=
  Z.testbit (CSR m' CSR_MIP) 7 = (mtimecmp m <=? ticks) /\
  Z.testbit (CSR m' CSR_MIP) 3 = nz (clint_msip m .& 1) /\
  stip m' = (sstc_get_stimecmp m <=? ticks) /\
  CSR m' CSR_TIME = word ticks.

Lemma clint_update_hart_lines ticks m : clint_lines ticks m (clint_update_hart ticks m).
Proof.
  steps clint_update_hart. set (r := if CONFIG_RV64 then _ else _).
  assert (S0 : sstc_get_stimecmp m0 = sstc_get_stimecmp m).
  { unfold sstc_get_stimecmp. rewrite Em, !mip_line_CSR by (vm_compute; discriminate). done. }
  assert (M0 : clint_msip m1 = clint_msip m) by (rewrite Em0; fields; rewrite Em; apply mip_line_frame; done).
  assert (C1 : CSR m1 CSR_MIP = CSR m0 CSR_MIP) by (rewrite Em0; by mach).
  assert (R : CSR r CSR_MIP = CSR m2 CSR_MIP /\ stip r = stip m2 /\ CSR r CSR_TIME = word ticks).
  { unfold r. destruct CONFIG_RV64; split_and!; rewrite ?Em3, ?Em2; by mach. }
  destruct R as (R1 & R2 & R3). unfold clint_lines. rewrite R1, R2, R3, Em1. unfold MIP_MSIP_BIT.
  rewrite !mip_line_testbit by lia. cbn [Z.eqb Z.ltb Z.compare]. rewrite C1, M0, Em. unfold MIP_MTIP_BIT.
  rewrite !mip_line_testbit by lia. split_and!; [|done| |done].
  - cbn. by rewrite orb_true_r, andb_true_r.
  - rewrite mip_line_frame by done. rewrite Em0. fields. rewrite <-S0. by rewrite Em.
Qed.

(** ** [wfi] *)

Record clint_wf (m : machine) : Prop := {
  wf_csr : forall c, fits XLEN (CSR m c);
  wf_mtimecmp : fits 64 (mtimecmp m);
  wf_count : fits 64 (g_nr_guest_inst m);
}.

Lemma top_bit x : fits 64 x -> nz (x >> 63) = nz (x .& (1 << 63)).
Proof.
  intros H. rewrite nz_bit, <-(nz_shift_testbit x 63) by lia. f_equal. apply Z.bits_inj'. intros i Hi.
  rewrite Z.land_spec, testbit_1, Z.shiftr_spec by lia.
  destruct (Z.eqb_spec i 0); [by rewrite andb_true_r|]. rewrite andb_false_r. apply (testbit_high 64); [done|lia].
Qed.

Lemma armed_frame m m' : clint_frame m m' -> armed m' = armed m /\ h_enabled m' = h_enabled m.
Proof.
  intros (E1 & _ & E3 & _ & _ & E4).
  assert (C : forall c, c .& 0xfff ∉ [CSR_MIP; CSR_SIP; CSR_TIME; CSR_TIMEH] -> CSR m' c = CSR m c) by exact E4.
  unfold armed, sstc_enabled, sstc_get_stimecmp, h_enabled.
  rewrite E1, E3, !C by (rewrite !not_elem_of_cons; split_and!; try (vm_compute; discriminate); apply not_elem_of_nil).
  done.
Qed.

(** The line of a deadline is up once the clock has reached it. *)
Lemma deadline_raised m p ticks :
  (forall c, fits XLEN (CSR m c)) -> fits 64 ticks -> p ∈ armed m -> p.2 = ticks ->
  raised (clint_update_hart ticks m) p.1.
Proof.
  intros W Ht Hp E. destruct (armed_frame m _ (clint_update_hart_frame ticks m)) as [Ea Eh].
  destruct (clint_update_hart_lines ticks m) as (L7 & _ & L5 & LT).
  pose proof (clint_update_hart_frame ticks m) as (_ & _ & _ & _ & _ & C). set (m' := clint_update_hart ticks m) in *.
  assert (S0 : sstc_enabled m' = sstc_enabled m).
  { unfold sstc_enabled. rewrite !C by (rewrite !not_elem_of_cons; split_and!; try (vm_compute; discriminate);
      apply not_elem_of_nil). done. }
  unfold armed in Hp. rewrite !elem_of_app, list_elem_of_singleton in Hp. destruct Hp as [->|[Hp|Hp]].
  - apply (mip_bit_machine _ 7); [by left|]. cbn [snd] in E. rewrite L7. lia.
  - destruct (sstc_enabled m) eqn:Es; [|by apply elem_of_nil in Hp].
    apply list_elem_of_singleton in Hp as ->. apply mip_bit_5; [done|]. cbn [snd] in E. rewrite L5. lia.
  - destruct (CONFIG_RV64) eqn:E64; cbn [andb] in Hp; [|by apply elem_of_nil in Hp].
    assert (X : XLEN = 64) by (unfold XLEN; by rewrite E64).
    destruct (h_enabled m && sstc_enabled m && nz (CSR m CSR_HENVCFG .& (1 << 63))) eqn:Ec; [|by apply elem_of_nil in Hp].
    apply list_elem_of_singleton in Hp as ->. apply mip_bit_6. cbn [snd] in E.
    rewrite !andb_true_iff in Ec. destruct Ec as [[Ec1 Ec2] Ec3].
    unfold riscv_virtual_timer_pending. rewrite E64, Eh, Ec1, LT.
    rewrite !C by (rewrite !not_elem_of_cons; split_and!; try (vm_compute; discriminate); apply not_elem_of_nil).
    unfold sstc_enabled in Ec2. rewrite E64 in Ec2. pose proof (W CSR_MENVCFG) as Wm. rewrite X in Wm.
    rewrite top_bit in Ec2 by done. rewrite Ec2, Ec3. cbn [andb]. apply Z.leb_le.
    pose proof (W CSR_VSTIMECMP) as Wv. rewrite X in Wv.
    rewrite <-E. unfold word. rewrite X, !wrap_mod by lia. rewrite Zmod_mod, Zplus_mod_idemp_l, Z.sub_add.
    rewrite Z.mod_small by exact Wv. lia.
Qed.

(** C12: with an instruction-counting clock, a [wfi] that finds an armed timer
    compare ahead of the clock (and in its range) advances the clock exactly to
    the first such compare, whose interrupt line is then up; with none ahead it
    changes nothing. *)
Theorem clint_wfi_advance_wakes m :
  CONFIG_TARGET_SHARE = false -> CONFIG_TIMER_CYCLE = true -> clint_wf m ->
  let ticks := (clint_get_ticks m).1 in
  ((exists p, p ∈ armed m /\ ticks < p.2 <= UINT64_MAX / 100) ->
   exists m' p, clint_wfi_advance m = (true, m') /\ p ∈ armed m /\ (clint_get_ticks m').1 = p.2 /\
     ticks < p.2 /\ (forall q, q ∈ armed m -> q.2 <= ticks \/ p.2 <= q.2) /\ raised m' p.1) /\
  ((forall p, p ∈ armed m -> p.2 <= ticks \/ UINT64_MAX / 100 < p.2) -> clint_wfi_advance m = (false, m)).
Proof.
  intros Es Ec [W Wm Wg]. cbv zeta. unfold clint_wfi_advance, clint_get_ticks. rewrite Es, Ec. cbn [negb andb fst].
  rewrite wfi_next_cmp_nearest. set (ticks := g_nr_guest_inst m / 100) in *.
  destruct (nearest_spec ticks (armed m) UINT64_MAX) as (H1 & H2 & H3). set (n := nearest ticks (armed m) UINT64_MAX) in *.
  assert (U : UINT64_MAX / 100 < UINT64_MAX) by (vm_compute; done). split.
  - intros (p & Hp & L1 & L2). pose proof (H3 p Hp L1).
    destruct H2 as [->|(q & Hq & E & L)]; [lia|].
    rewrite (proj2 (Z.ltb_lt ticks n)), (proj2 (Z.leb_le n (UINT64_MAX / 100))) by lia. cbn [andb].
    assert (B : 0 <= ticks) by (apply Z.div_pos; [apply Wg|lia]).
    assert (N : n * 100 <= UINT64_MAX) by (pose proof (Z.mul_div_le UINT64_MAX 100 ltac:(lia)); lia).
    assert (F : fits 64 (n * 100)) by (split; [lia|]; change (2 ^ 64) with (UINT64_MAX + 1); lia).
    rewrite (wrap_small 64) by (lia || exact F). unfold clint_update_mip, clint_get_ticks. rewrite Es, Ec.
    set (m1 := m <| g_nr_guest_inst := n * 100 |>). change (g_nr_guest_inst m1) with (n * 100).
    rewrite Z.div_mul by lia.
    assert (G : forall t m0, g_nr_guest_inst (clint_update_hart t m0) = g_nr_guest_inst m0)
      by (intros; steps clint_update_hart; unfold mip_line in *; destruct CONFIG_RV64; by mach).
    eexists _, q. rewrite E. split_and!; [done|done| |done| |].
    + cbn [fst]. rewrite G. change (g_nr_guest_inst m1) with (n * 100). by rewrite Z.div_mul by lia.
    + intros r Hr. destruct (Z.le_gt_cases r.2 ticks); [by left|right]. apply H3; [done|lia].
    + apply deadline_raised; [exact W| |exact Hq|done].
      split; [lia|]. change (2 ^ 64) with (UINT64_MAX + 1). lia.
  - intros H. destruct (Z.ltb_spec ticks n) as [L|L]; [|done].
    destruct (Z.leb_spec n (UINT64_MAX / 100)) as [L'|]; [|done]. exfalso.
    destruct H2 as [E|(p & Hp & E & Lp)]; [lia|]. destruct (H p Hp); lia.
Qed.

End ClintSpec.

(** A guest that sleeps until [stimecmp], 300 ticks ahead. *)
Definition sleeping : machine :=
  setCSR CSR_MENVCFG (1 << 63) (setCSR 0x14d 500
    (machine_init <| mtimecmp := UINT64_MAX |> <| g_nr_guest_inst := 20000 |>)).

Lemma sleeping_csr c : CSR sleeping c = if c .& 0xfff =? CSR_MENVCFG then 1 << 63 else if c .& 0xfff =? 0x14d then 500 else 0.
Proof. unfold sleeping, CSR, setCSR. fields. rewrite !aget_aset. rewrite !(Z.eqb_sym _ (c .& 0xfff)). done. Qed.

Lemma sleeping_wf : clint_wf (Cfg := riscv64_standalone) sleeping.
Proof.
  split; [|split; vm_compute; done..]. intros c. rewrite sleeping_csr.
  destruct (_ =? _); [split; vm_compute; done|]. destruct (_ =? _); split; vm_compute; done.
Qed.

Lemma clint_wfi_advance_wakes_witness :
  exists m', clint_wfi_advance (Cfg := riscv64_standalone) sleeping = (true, m') /\
    exists b, raised (Cfg := riscv64_standalone) m' b.
Proof.
  destruct (clint_wfi_advance_wakes (Cfg := riscv64_standalone) sleeping eq_refl eq_refl sleeping_wf) as [H _].
  destruct H as (m' & p & H1 & _ & _ & _ & _ & H2).
  - exists (5, 500). split; [vm_compute; right; left | split; vm_compute; done].
  - exists m'. split; [exact H1|]. exists p.1. exact H2.
Defined.
