(* ===== verification/VecAlu.v ===== *)
(** * VecAlu: the vector register file and the element functions of
    [vector-control.c]

    Elements are [uint64_t]; the functions that need more compute in [__int128]
    in the code and in [Z] here, where no intermediate value exceeds 127 bits. *)
From S2P Require Import Prelude Config Machine.

(** ** The register file *)

(** 32 registers of 16 bytes, register [r] at [16 * r]. *)
Definition registers : Type := gmap Z Z.

(** The byte of the file an element starts at. *)
Definition vector_element_at (reg index bytes : Z) : Z :=
  let offset := index * bytes in 16 * (reg + offset / 16) + offset mod 16.

Fixpoint read_bytes (v : registers) (a : Z) (n : nat) (byte : Z) : Z :=
  match n with
  | O => 0
  | S n => (aget v (a + byte) << (8 * byte)) .| read_bytes v a n (byte + 1)
  end.

Definition vector_snapshot_read (v : registers) (reg index bytes : Z) : Z :=
  read_bytes v (vector_element_at reg index bytes) (Z.to_nat bytes) 0.
Definition vector_element_read (m : machine) (reg index bytes : Z) : Z :=
  vector_snapshot_read (vreg m) reg index bytes.

Fixpoint write_bytes (v : registers) (a : Z) (n : nat) (byte value : Z) : registers :=
  match n with
  | O => v
  | S n => write_bytes (aset v (a + byte) (wrap 8 (value >> (8 * byte)))) a n (byte + 1) value
  end.

Definition element_write (reg index bytes value : Z) (v : registers) : registers :=
  write_bytes v (vector_element_at reg index bytes) (Z.to_nat bytes) 0 value.
Definition vector_element_write (reg index bytes value : Z) (m : machine) : machine :=
  m <| vreg ::= element_write reg index bytes value |>.

Definition mask_bit_of (v : registers) (reg index : Z) : bool :=
  nz ((aget v (16 * reg + index / 8) >> (index mod 8)) .& 1).
Definition vector_mask_bit (m : machine) (reg index : Z) : bool := mask_bit_of (vreg m) reg index.

(** [*mask_byte = ( *mask_byte & ~bit) | (result ? bit : 0)]. *)
Definition mask_bit_set (reg index : Z) (result : bool) (v : registers) : registers :=
  let a := 16 * reg + index / 8 in
  let bit := wrap 8 (1 << (index mod 8)) in
  aset v a (wrap 8 ((aget v a .& ~~ bit) .| (if result then bit else 0))).
Definition vector_mask_write (reg index : Z) (result : bool) (m : machine) : machine :=
  m <| vreg ::= mask_bit_set reg index result |>.

Definition vector_group_valid (reg group : Z) : bool := (reg mod group =? 0) && (reg + group <=? 32).

(** ** Bit permutations *)

Definition vector_reverse_bits_in_bytes (value : Z) : Z :=
  let value := wrap 64 ((value .& 0x5555555555555555) << 1) .| ((value .& 0xaaaaaaaaaaaaaaaa) >> 1) in
  let value := wrap 64 ((value .& 0x3333333333333333) << 2) .| ((value .& 0xcccccccccccccccc) >> 2) in
  wrap 64 ((value .& 0x0f0f0f0f0f0f0f0f) << 4) .| ((value .& 0xf0f0f0f0f0f0f0f0) >> 4).

Fixpoint reverse_loop (value bytes : Z) (n : nat) (byte result : Z) : Z :=
  match n with
  | O => result
  | S n => reverse_loop value bytes n (byte + 1)
             (result .| wrap 64 (((value >> (8 * byte)) .& 255) << (8 * (bytes - byte - 1))))
  end.
Definition vector_reverse_bytes (value bytes : Z) : Z := reverse_loop value bytes (Z.to_nat bytes) 0 0.

(** ** Integer elements *)

(** [bits == 64 ? UINT64_MAX : (1 << bits) - 1]. *)
Definition element_mask (bits : Z) : Z := Z.ones bits.

Definition vector_integer_result (function left right bits : Z) (carry_in : bool) : Z :=
  let left := left .& element_mask bits in
  let right := right .& element_mask bits in
  let sign := 1 << (bits - 1) in
  let less a b := (a .^ sign) <? (b .^ sign) in
  let amount := right .& (bits - 1) in
  match function with
  | 0x00 => wrap 64 (left + right)
  | 0x02 => wrap 64 (left - right)
  | 0x03 => wrap 64 (right - left)
  | 0x04 => if left <? right then left else right
  | 0x05 => if less left right then left else right
  | 0x06 => if right <? left then left else right
  | 0x07 => if less right left then left else right
  | 0x09 => left .& right
  | 0x0a => left .| right
  | 0x0b => left .^ right
  | 0x10 => wrap 64 (left + right + b2z carry_in)
  | 0x11 => wrap 64 ((left + right + b2z carry_in) >> bits)
  | 0x12 => wrap 64 (left - right - b2z carry_in)
  | 0x13 => b2z (left <? right + b2z carry_in)
  | 0x25 => wrap 64 (left << amount)
  | 0x28 => left >> amount
  | 0x29 => wrap 64 (signed 64 ((left .^ sign) - sign) >> amount)
  | 0x18 => b2z (left =? right)
  | 0x19 => b2z (negb (left =? right))
  | 0x1a => b2z (left <? right)
  | 0x1b => b2z (less left right)
  | 0x1c => b2z (left <=? right)
  | 0x1d => b2z ((left .^ sign) <=? (right .^ sign))
  | 0x1e => b2z (right <? left)
  | 0x1f => b2z (less right left)
  | _ => 0
  end.

Definition vector_mask_logic_result (function : Z) (left right : bool) : bool :=
  match function .& 7 with
  | 0 => left && negb right
  | 1 => left && right
  | 2 => left || right
  | 3 => xorb left right
  | 4 => left || negb right
  | 5 => negb (left && right)
  | 6 => negb (left || right)
  | _ => eqb left right
  end.

Definition vector_signed_value (value bits : Z) : Z :=
  let value := if bits <? 64 then value .& Z.ones bits else value in
  if nz (value .& (1 << (bits - 1))) then value - (1 << bits) else value.

(** Clamping, with the flag raised when it changes the value. *)
Definition clamp (minimum maximum value : Z) : Z * bool :=
  let '(value, saturated) := if value <? minimum then (minimum, true) else (value, false) in
  if maximum <? value then (maximum, true) else (value, saturated).

Definition element_minimum (signed_operation : bool) (bits : Z) : Z :=
  if signed_operation then - (1 << (bits - 1)) else 0.
Definition element_maximum (signed_operation : bool) (bits : Z) : Z :=
  if signed_operation then (1 << (bits - 1)) - 1 else element_mask bits.

Definition vector_saturating_result (function left right bits : Z) : Z * bool :=
  let left := left .& element_mask bits in
  let right := right .& element_mask bits in
  let signed_operation := nz (function .& 1) in
  let left_value := if signed_operation then vector_signed_value left bits else left in
  let right_value := if signed_operation then vector_signed_value right bits else right in
  let result := if nz (function .& 2) then left_value - right_value else left_value + right_value in
  let '(result, saturated) :=
    clamp (element_minimum signed_operation bits) (element_maximum signed_operation bits) result in
  (result .& element_mask bits, saturated).

(** [value / 2^shift], rounded as [vxrm] says. *)
Definition vector_round_result (value shift mode : Z) : Z :=
  let scale := 1 << shift in
  let quotient := Z.quot value scale in
  let remainder := Z.rem value scale in
  let '(quotient, remainder) :=
    if remainder <? 0 then (quotient - 1, remainder + scale) else (quotient, remainder) in
  let odd := nz (quotient .& 1) in
  if ((mode =? 0) && (scale <=? 2 * remainder))
     || ((mode =? 1) && ((scale <? 2 * remainder) || ((2 * remainder =? scale) && odd)))
     || ((mode =? 3) && nz remainder && negb odd)
  then quotient + 1 else quotient.

Definition vector_rounded_fixed_result (function left right bits mode : Z) : Z * bool :=
  let left := left .& element_mask bits in
  let right := right .& element_mask bits in
  let signed_operation := nz (function .& 1) in
  let left_value := if signed_operation then vector_signed_value left bits else left in
  let right_value := if signed_operation then vector_signed_value right bits else right in
  let '(value, shift) :=
    if function <=? 0x0b
    then (if nz (function .& 2) then left_value - right_value else left_value + right_value, 1)
    else if function =? 0x27 then (vector_signed_value left bits * vector_signed_value right bits, bits - 1)
    else (left_value, right .& (bits - 1)) in
  let value := vector_round_result value shift mode in
  let '(value, saturated) :=
    if function =? 0x27 then clamp (element_minimum true bits) (element_maximum true bits) value
    else (value, false) in
  (value .& element_mask bits, saturated).

(** The narrowing clip of a source of twice the width. *)
Definition vector_clip_result (signed_operation : bool) (source shift_operand bits mode : Z) : Z * bool :=
  let source_bits := bits * 2 in
  let shift := shift_operand .& (source_bits - 1) in
  let value := if signed_operation then vector_signed_value source source_bits else source in
  let value := vector_round_result value shift mode in
  let '(value, saturated) :=
    clamp (element_minimum signed_operation bits) (element_maximum signed_operation bits) value in
  (value .& element_mask bits, saturated).

Definition vector_muldiv_result (function left right bits : Z) : Z :=
  let mask := element_mask bits in
  let left := left .& mask in
  let right := right .& mask in
  let operation := function .& 7 in
  if operation <? 4 then
    if right =? 0 then if nz (operation .& 2) then left else mask
    else if nz (operation .& 1) then
      let dividend := vector_signed_value left bits in
      let divisor := vector_signed_value right bits in
      (if nz (operation .& 2) then Z.rem dividend divisor else Z.quot dividend divisor) .& mask
    else if nz (operation .& 2) then left mod right else left / right
  else if operation =? 5 then wrap 64 (left * right) .& mask
  else
    let product :=
      if operation =? 4 then left * right
      else wrap 128 (vector_signed_value left bits
                     * (if operation =? 6 then right else vector_signed_value right bits)) in
    (product >> bits) .& mask.

(** ** Reciprocal estimates *)

(** The bisection for the 8-bit root: [low * low * denominator <= numerator]. *)
Fixpoint root_search (fuel : nat) (denominator numerator low high : Z) : Z :=
  match fuel with
  | O => low
  | S fuel =>
      if low + 1 <? high then
        let middle := (low + high) / 2 in
        if middle * middle * denominator <=? numerator
        then root_search fuel denominator numerator middle high
        else root_search fuel denominator numerator low middle
      else low
  end.

Definition estimate_of (reciprocal_sqrt : bool) (table_index : Z) : Z :=
  if reciprocal_sqrt then
    let denominator := 129 + 2 * (table_index .& 63) in
    let numerator := if nz (table_index .& 64) then 8388608 else 4194304 in
    let low := root_search 8 denominator numerator 128 256 in
    low + b2z ((2 * low + 1) * (2 * low + 1) * denominator <=? 4 * numerator) - 128
  else
    let denominator := 257 + 2 * table_index in
    (131072 + denominator) / (2 * denominator) - 128.

(** [for (bit = 0; bit < n; bit++) if (fraction & (1 << bit)) leading = bit;] *)
Fixpoint leading_bit (fraction : Z) (n : nat) (bit leading : Z) : Z :=
  match n with
  | O => leading
  | S n => leading_bit fraction n (bit + 1) (if nz (fraction .& (1 << bit)) then bit else leading)
  end.

(** The exponent and the 7 leading fraction bits, of a subnormal too. *)
Definition estimate_normalize (exponent fraction fraction_bits : Z) : Z * Z :=
  if exponent =? 0 then
    let leading := leading_bit fraction (Z.to_nat fraction_bits) 0 0 in
    (leading - fraction_bits + 1,
     (wrap 64 (fraction << (fraction_bits - leading)) >> (fraction_bits - 7)) .& 127)
  else (exponent, fraction >> (fraction_bits - 7)).

Definition vector_fp_estimate (operand bytes : Z) (reciprocal_sqrt : bool) (rm : Z) : Z * Z :=
  let fraction_bits := if bytes =? 4 then 23 else 52 in
  let exponent_bits := if bytes =? 4 then 8 else 11 in
  let bias := (1 << (exponent_bits - 1)) - 1 in
  let max_exponent := (1 << exponent_bits) - 1 in
  let fraction_mask := (1 << fraction_bits) - 1 in
  let sign := (operand >> (fraction_bits + exponent_bits)) .& 1 in
  let exponent := (operand >> fraction_bits) .& max_exponent in
  let fraction := operand .& fraction_mask in
  let canonical_nan := (max_exponent << fraction_bits) .| (1 << (fraction_bits - 1)) in
  let signed_zero := sign << (fraction_bits + exponent_bits) in
  let infinity := signed_zero .| (max_exponent << fraction_bits) in
  if (exponent =? max_exponent) && nz fraction then
    (canonical_nan, if nz (fraction .& (1 << (fraction_bits - 1))) then 0 else 1 << 4)
  else if (exponent =? 0) && (fraction =? 0) then (infinity, 1 << 3)
  else if reciprocal_sqrt && nz sign then (canonical_nan, 1 << 4)
  else if exponent =? max_exponent then (signed_zero, 0)
  else
    let '(normalized_exponent, normalized_fraction) := estimate_normalize exponent fraction fraction_bits in
    let table_index :=
      if reciprocal_sqrt then ((wrap 32 normalized_exponent .& 1) << 6) .| (normalized_fraction >> 1)
      else normalized_fraction in
    let output_exponent :=
      if reciprocal_sqrt then Z.quot (3 * bias - 1 - normalized_exponent) 2
      else 2 * bias - 1 - normalized_exponent in
    let significand := (1 << fraction_bits) .| (estimate_of reciprocal_sqrt table_index << (fraction_bits - 7)) in
    let '(significand, output_exponent) :=
      if negb reciprocal_sqrt && (output_exponent <=? 0)
      then (significand >> (1 - output_exponent), 0) else (significand, output_exponent) in
    if negb reciprocal_sqrt && (max_exponent <=? output_exponent) then
      (if (rm =? 1) || ((rm =? 2) && negb (nz sign)) || ((rm =? 3) && nz sign)
       then signed_zero .| ((max_exponent - 1) << fraction_bits) .| fraction_mask else infinity, 5)
    else (signed_zero .| (output_exponent << fraction_bits) .| (significand .& fraction_mask), 0).
