(* ===== verification/VecExec.v ===== *)
(** * VecExec: the element instructions of the vector unit
    ([riscv_vector_execute] of [vector-control.c])

    The function is a sequence of blocks, one per family of instructions: a
    block that recognises the instruction either refuses it, leaving the state
    as it was, or executes it. Here a block is a recogniser, a predicate of
    legality and the effect. A loop over the elements runs from VSTART to VL. *)
From S2P Require Import Prelude Config Tlb Fp Machine Trap Vector VecAlu.

Section VecExec.
Context {Cfg : Config} {SF : SoftFloat}.

(** ** The instruction and the type it runs under *)

Record vinst := mk_vinst {
  destination : Z; source1 : Z; source2 : Z; form : Z; function : Z; unmasked : bool;
  bytes : Z; maximum : Z; group : Z; lmul : Z;
}.

Definition decode_vinst (instruction : Z) (m : machine) : vinst :=
  let vtype := CSR m CSR_VTYPE in
  mk_vinst ((instruction >> 7) .& 31) ((instruction >> 15) .& 31) ((instruction >> 20) .& 31)
    ((instruction >> 12) .& 7) (instruction >> 26) (nz (instruction .& (1 << 25)))
    (1 << ((vtype >> 3) .& 7)) (vector_vlmax vtype)
    (if vtype .& 7 <? 4 then 1 << (vtype .& 7) else 1)
    (if vtype .& 7 <? 4 then vtype .& 7 else vtype .& 7 - 8).

(** [cpu.sr[CSR_VSTART] = 0; vector_mark_dirty(floating); cpu.csr_dirty = true]. *)
Definition vector_finish (floating : bool) (m : machine) : machine :=
  (vector_mark_dirty floating (setCSR CSR_VSTART 0 m)) <| csr_dirty := true |>.

(** [n] iterations from [index] on, over a state [S]. *)
Fixpoint vfold {S} (f : Z -> S -> S) (n : nat) (index : Z) (s : S) : S :=
  match n with O => s | Datatypes.S n => vfold f n (index + 1) (f index s) end.

Definition elements (first last : Z) : nat := Z.to_nat (last - first).

(** [for (index = cpu.sr[CSR_VSTART]; index < cpu.sr[CSR_VL]; index++)]. *)
Definition vloop (f : Z -> machine -> machine) (m : machine) : machine :=
  vfold f (elements (CSR m CSR_VSTART) (CSR m CSR_VL)) (CSR m CSR_VSTART) m.
(** ... with the accumulated floating-point flags. *)
Definition vloop_flags (f : Z -> machine -> machine * Z) (m : machine) : machine * Z :=
  vfold (fun index '(m, fp_flags) => let '(m, flags) := f index m in (m, fp_flags .| flags))
    (elements (CSR m CSR_VSTART) (CSR m CSR_VL)) (CSR m CSR_VSTART) (m, 0).

Definition active (i : vinst) (index : Z) (m : machine) : bool := unmasked i || vector_mask_bit m 0 index.

(** The sign-extended scalar operand. *)
Definition xscalar (i : vinst) (m : machine) : Z := wrap 64 (sword (R m (source1 i))).

(** The registers a group with exponent [e] occupies, and whether two ranges meet. *)
Definition group_of (e : Z) : Z := if 0 <? e then 1 << e else 1.
Definition overlap (a size_a b size_b : Z) : bool := (a <? b + size_b) && (b <? a + size_a).
(** A widening destination may only overlap the top of its source. *)
Definition widen_conflict (i : vinst) (destination_group source source_group : Z) : bool :=
  overlap (destination i) destination_group source source_group
  && ((lmul i <? 0) || negb (destination i + destination_group =? source + source_group)).

(** What each block asks for first. *)
Definition masked_v0 (i : vinst) : bool := negb (unmasked i) && (destination i =? 0).
Definition vector_scalar_form (i : vinst) : bool := (form i =? 0) || (form i =? 3) || (form i =? 4).

(** ** Whole-register moves *)

Definition is_move (i : vinst) : bool := (function i =? 0x27) && (form i =? 3).

Definition move_group (i : vinst) : Z := source1 i + 1.
Definition move_legal (i : vinst) (m : machine) : bool :=
  unmasked i && negb (maximum i =? 0)
  && one_of (move_group i) [1; 2; 4; 8]
  && negb (move_group i * 16 / bytes i <=? CSR m CSR_VSTART)
  && vector_group_valid (destination i) (move_group i)
  && vector_group_valid (source2 i) (move_group i).

(** [memmove] of one element. *)
Definition move_element (i : vinst) (index : Z) (m : machine) : machine :=
  vector_element_write (destination i) index (bytes i) (vector_element_read m (source2 i) index (bytes i)) m.
Definition move_exec (i : vinst) (m : machine) : machine :=
  vfold (move_element i) (elements (CSR m CSR_VSTART) (move_group i * 16 / bytes i)) (CSR m CSR_VSTART) m.

(** ** Scalar insertion *)

Definition is_insert (i : vinst) : bool := (function i =? 0x10) && (form i =? 6).
Definition insert_legal (i : vinst) (m : machine) : bool := unmasked i && (source2 i =? 0).
Definition insert_exec (i : vinst) (m : machine) : machine :=
  if CSR m CSR_VSTART <? CSR m CSR_VL
  then vector_element_write (destination i) 0 (bytes i) (xscalar i m) m else m.

(** ** Bit manipulation (Zvbb) *)

Definition zvbb_unary (i : vinst) : bool :=
  (function i =? 0x12) && (form i =? 2) && one_of (source1 i) [8; 9; 10; 12; 13; 14].
Definition zvbb_binary (i : vinst) : bool :=
  ((function i =? 0x01) && ((form i =? 0) || (form i =? 4)))
  || (((function i =? 0x14) || (function i =? 0x15)) && vector_scalar_form i)
  || ((function i =? 0x35) && vector_scalar_form i).
Definition is_zvbb (i : vinst) : bool := zvbb_unary i || zvbb_binary i.

Definition zvbb_widening (i : vinst) : bool := function i =? 0x35.
Definition zvbb_legal (i : vinst) (m : machine) : bool :=
  let widening := zvbb_widening i in
  let destination_exponent := lmul i + b2z widening in
  let destination_group := group_of destination_exponent in
  riscv_zvbb_enabled (riscv_isa_extensions m)
  && negb (widening && ((bytes i =? 8) || (3 <? destination_exponent)))
  && vector_group_valid (destination i) destination_group
  && vector_group_valid (source2 i) (group i)
  && negb ((form i =? 0) && negb (vector_group_valid (source1 i) (group i)))
  && negb (masked_v0 i)
  && negb (widening && widen_conflict i destination_group (source2 i) (group i))
  && negb (widening && (form i =? 0) && widen_conflict i destination_group (source1 i) (group i)).

(** [__builtin_clzll], [__builtin_ctzll] and [__builtin_popcountll]. *)
Definition clzll (value : Z) : Z := 63 - Z.log2 value.
Fixpoint ctz_from (value : Z) (n : nat) (i : Z) : Z :=
  match n with O => i | S n => if nz ((value >> i) .& 1) then i else ctz_from value n (i + 1) end.
Definition ctzll (value : Z) : Z := ctz_from value 64 0.
Fixpoint popcount_from (value : Z) (n : nat) (i : Z) : Z :=
  match n with O => 0 | S n => ((value >> i) .& 1) + popcount_from value n (i + 1) end.
Definition popcountll (value : Z) : Z := popcount_from value 64 0.

Definition zvbb_unary_result (i : vinst) (value : Z) : Z :=
  let bits := bytes i * 8 in
  let s := source1 i in
  let value := if (s =? 8) || (s =? 10) then vector_reverse_bits_in_bytes value else value in
  let value := if (s =? 9) || (s =? 10) then vector_reverse_bytes value (bytes i) else value in
  if s =? 12 then if nz value then wrap 64 (clzll value - (64 - bits)) else bits
  else if s =? 13 then if nz value then ctzll value else bits
  else if s =? 14 then popcountll value
  else value.

(** vandn, vror and vrol. *)
Definition zvbb_binary_result (i : vinst) (value operand : Z) : Z :=
  let bits := bytes i * 8 in
  if function i =? 0x01 then value .& wrap 64 (~~ operand)
  else
    let shift := operand .& (bits - 1) in
    if shift =? 0 then value
    else if (function i =? 0x15) && negb (form i =? 3)
    then wrap 64 (value << shift) .| (value >> (bits - shift))
    else (value >> shift) .| wrap 64 (value << (bits - shift)).

Definition zvbb_operand (i : vinst) (v : registers) (scalar index : Z) : Z :=
  if form i =? 0 then vector_snapshot_read v (source1 i) index (bytes i)
  else if form i =? 4 then scalar
  else source1 i .| ((if negb (zvbb_widening i) then function i .& 1 else 0) << 5).

Definition zvbb_element (i : vinst) (v : registers) (scalar index : Z) (m : machine) : machine :=
  if negb (active i index m) then m
  else
    let bits := bytes i * 8 in
    let value := vector_snapshot_read v (source2 i) index (bytes i) in
    let operand := zvbb_operand i v scalar index in
    if zvbb_unary i then
      vector_element_write (destination i) index (bytes i) (zvbb_unary_result i value .& element_mask bits) m
    else if zvbb_widening i then
      vector_element_write (destination i) index (bytes i * 2)
        (wrap 64 (value << (operand .& (2 * bits - 1)))) m
    else
      vector_element_write (destination i) index (bytes i) (zvbb_binary_result i value operand .& element_mask bits) m.

Definition zvbb_exec (i : vinst) (m : machine) : machine :=
  vloop (zvbb_element i (vreg m) (xscalar i m)) m.

(** ** Floating point, elements of one width *)

Definition fp_form (i : vinst) : bool := (form i =? 1) || (form i =? 5).
Definition between (lo x hi : Z) : bool := (lo <=? x) && (x <=? hi).

Definition fp_extract (i : vinst) : bool :=
  (function i =? 0x10) && (form i =? 1) && unmasked i && (source1 i =? 0).
Definition fp_insert (i : vinst) : bool :=
  (function i =? 0x10) && (form i =? 5) && unmasked i && (source2 i =? 0).
Definition fp_broadcast (i : vinst) : bool :=
  (function i =? 0x17) && (form i =? 5) && unmasked i && (source2 i =? 0).
Definition fp_merge (i : vinst) : bool := (function i =? 0x17) && (form i =? 5) && negb (unmasked i).
Definition fp_slide (i : vinst) : bool := ((function i =? 0x0e) || (function i =? 0x0f)) && (form i =? 5).
Definition fp_arithmetic (i : vinst) : bool :=
  fp_form i
  && (one_of (function i) [0x00; 0x02; 0x04; 0x06] || between 0x08 (function i) 0x0a
      || one_of (function i) [0x20; 0x24] || between 0x28 (function i) 0x2f
      || ((form i =? 5) && one_of (function i) [0x21; 0x27])).
Definition fp_unary (i : vinst) : bool :=
  (function i =? 0x13) && (form i =? 1) && one_of (source1 i) [0; 16].
Definition fp_estimate (i : vinst) : bool :=
  (function i =? 0x13) && (form i =? 1) && one_of (source1 i) [4; 5].
Definition fp_convert (i : vinst) : bool :=
  (function i =? 0x12) && (form i =? 1) && ((source1 i <=? 3) || one_of (source1 i) [6; 7]).
Definition fp_compare (i : vinst) : bool :=
  fp_form i
  && (one_of (function i) [0x18; 0x19; 0x1b; 0x1c] || ((form i =? 5) && one_of (function i) [0x1d; 0x1f])).
(** The families that compute each active element from its operands. *)
Definition fp_compute (i : vinst) : bool :=
  fp_arithmetic i || fp_unary i || fp_estimate i || fp_convert i || fp_compare i.
Definition is_fp (i : vinst) : bool :=
  fp_extract i || fp_insert i || fp_broadcast i || fp_merge i || fp_slide i || fp_compute i.

(** The extensions, the context and a legal rounding mode. *)
Definition fp_ready (required : Z) (m : machine) : bool :=
  (CSR m CSR_MISA .& required =? required) && vector_fp_context_enabled m
  && ((CSR m CSR_FCSR >> 5) .& 7 <=? 4).
Definition fp_required (wide : bool) : Z := CSR_MISA_EXT_F .| (if wide then CSR_MISA_EXT_D else 0).
Definition frm (m : machine) : Z := (CSR m CSR_FCSR >> 5) .& 7.

Definition fp_groups_legal (i : vinst) : bool :=
  vector_group_valid (destination i) (if fp_compare i then 1 else group i)
  && negb ((fp_merge i || fp_slide i || fp_compute i) && negb (vector_group_valid (source2 i) (group i)))
  && negb ((fp_arithmetic i || fp_compare i) && (form i =? 1) && negb (vector_group_valid (source1 i) (group i)))
  && negb (negb (unmasked i) && negb (fp_compare i) && (destination i =? 0))
  && negb (fp_compare i && (source2 i <=? destination i) && (destination i <? source2 i + group i)
           && negb (destination i =? source2 i))
  && negb (fp_compare i && (form i =? 1) && (source1 i <=? destination i)
           && (destination i <? source1 i + group i) && negb (destination i =? source1 i))
  && negb (fp_slide i && (function i =? 0x0e) && overlap (destination i) (group i) (source2 i) (group i)).
Definition fp_legal (i : vinst) (m : machine) : bool :=
  ((bytes i =? 4) || (bytes i =? 8)) && fp_ready (fp_required (bytes i =? 8)) m
  && (fp_extract i || fp_insert i || fp_groups_legal i).

(** The function of the width. *)
Definition by_width {A} (i : vinst) (s d : A) : A := if bytes i =? 4 then s else d.

Definition fp_convert_result (i : vinst) (rm left : Z) : Z * Z :=
  let unsigned_integer := negb (nz (source1 i .& 1)) in
  if one_of (source1 i) [2; 3]
  then by_width i (riscv_int_to_fp_s left rm unsigned_integer false)
                  (riscv_int_to_fp_d left rm unsigned_integer true)
  else
    let rm := if 6 <=? source1 i then 1 else rm in
    by_width i (riscv_fp_to_int_s left rm unsigned_integer false)
               (riscv_fp_to_int_d left rm unsigned_integer true).

Definition fp_unary_result (i : vinst) (rm left : Z) : Z * Z :=
  if source1 i =? 16 then (by_width i (riscv_fp_class_s left) (riscv_fp_class_d left), 0)
  else by_width i (riscv_fp_sqrt_s left rm) (riscv_fp_sqrt_d left rm).

(** The signs of a fused multiply-add are in the low bits of its function. *)
Definition negates_product (i : vinst) : bool := nz (function i .& 1).
Definition negates_addend (i : vinst) : bool := nz ((function i .& 1) .^ ((function i >> 1) .& 1)).
Definition fp_fused_result (i : vinst) (rm left right old : Z) : Z * Z :=
  let factor := if nz (function i .& 4) then left else old in
  let addend := if nz (function i .& 4) then old else left in
  by_width i (riscv_fp_fma_s right factor addend rm (negates_product i) (negates_addend i))
             (riscv_fp_fma_d right factor addend rm (negates_product i) (negates_addend i)).

Definition fp_compare_result (i : vinst) (left right : Z) : Z * Z :=
  let '(result, flags) :=
    if one_of (function i) [0x18; 0x1c] then by_width i (riscv_fp_eq_s left right) (riscv_fp_eq_d left right)
    else if one_of (function i) [0x19; 0x1f] then by_width i (riscv_fp_le_s left right) (riscv_fp_le_d left right)
    else by_width i (riscv_fp_lt_s left right) (riscv_fp_lt_d left right) in
  (if function i =? 0x1c then b2z (result =? 0) else result, flags).

Definition fp_sign_result (i : vinst) (left right : Z) : Z :=
  let sign := by_width i (1 << 31) (1 << 63) in
  let source_sign :=
    if function i =? 0x08 then right .& sign
    else if function i =? 0x09 then wrap 64 (~~ right) .& sign
    else (left .^ right) .& sign in
  (left .& wrap 64 (~~ sign)) .| source_sign.

Definition fp_binary_result (i : vinst) (rm left right : Z) : Z * Z :=
  let f := function i in
  if f =? 0x00 then by_width i (riscv_fp_add_s left right rm) (riscv_fp_add_d left right rm)
  else if (f =? 0x02) || (f =? 0x27) then by_width i (riscv_fp_sub_s left right rm) (riscv_fp_sub_d left right rm)
  else if f =? 0x04 then by_width i (riscv_fp_min_s left right) (riscv_fp_min_d left right)
  else if f =? 0x06 then by_width i (riscv_fp_max_s left right) (riscv_fp_max_d left right)
  else if f =? 0x24 then by_width i (riscv_fp_mul_s left right rm) (riscv_fp_mul_d left right rm)
  else by_width i (riscv_fp_div_s left right rm) (riscv_fp_div_d left right rm).

(** The result and the flags of one element; [old] is the destination's. *)
Definition fp_element_result (i : vinst) (rm left right old : Z) : Z * Z :=
  let swap := one_of (function i) [0x21; 0x27; 0x1d; 0x1f] in
  let lhs := if swap then right else left in
  let rhs := if swap then left else right in
  if fp_estimate i then vector_fp_estimate lhs (bytes i) (source1 i =? 4) rm
  else if fp_convert i then fp_convert_result i rm lhs
  else if fp_unary i then fp_unary_result i rm lhs
  else if between 0x28 (function i) 0x2f then fp_fused_result i rm lhs rhs old
  else if fp_compare i then fp_compare_result i lhs rhs
  else if between 0x08 (function i) 0x0a then (fp_sign_result i lhs rhs, 0)
  else fp_binary_result i rm lhs rhs.

Definition fp_compute_element (i : vinst) (scalar index : Z) (m : machine) : machine * Z :=
  if negb (active i index m) then (m, 0)
  else
    let left := vector_element_read m (source2 i) index (bytes i) in
    let right := if form i =? 1 then vector_element_read m (source1 i) index (bytes i) else scalar in
    let old := vector_element_read m (destination i) index (bytes i) in
    let '(result, flags) := fp_element_result i (frm m) left right old in
    (if fp_compare i then vector_mask_write (destination i) index (nz result) m
     else vector_element_write (destination i) index (bytes i) result m, flags).

Definition fp_slide_element (i : vinst) (scalar index : Z) (m : machine) : machine :=
  if negb (active i index m) then m
  else
    let upward := function i =? 0x0e in
    vector_element_write (destination i) index (bytes i)
      (if (upward && (index =? 0)) || (negb upward && (index + 1 =? CSR m CSR_VL)) then scalar
       else if upward then vector_element_read m (source2 i) (index - 1) (bytes i)
       else if index + 1 <? maximum i then vector_element_read m (source2 i) (index + 1) (bytes i) else 0) m.

(** vfmv.v.f and vfmerge. *)
Definition fp_merge_element (i : vinst) (scalar index : Z) (m : machine) : machine :=
  vector_element_write (destination i) index (bytes i)
    (if fp_merge i && negb (active i index m) then vector_element_read m (source2 i) index (bytes i) else scalar) m.

Definition fp_scalar (i : vinst) (m : machine) : Z :=
  if form i =? 5
  then by_width i (riscv_fp_read_s (aget (fpr m) (source1 i))) (aget (fpr m) (source1 i)) else 0.

Definition set_fpr_raw (r v : Z) (m : machine) : machine := m <| Machine.fpr ::= fun a => aset a r v |>.

Definition fp_run (i : vinst) (m : machine) : machine * Z :=
  if fp_extract i then
    let value := vector_element_read m (source2 i) 0 (bytes i) in
    (set_fpr_raw (destination i) (by_width i (riscv_fp_box_s (wrap 32 value)) value) m, 0)
  else
    let scalar := fp_scalar i m in
    if fp_insert i then
      (if CSR m CSR_VSTART <? CSR m CSR_VL
       then vector_element_write (destination i) 0 (bytes i) scalar m else m, 0)
    else if fp_compute i then vloop_flags (fp_compute_element i scalar) m
    else if fp_slide i then (vloop (fp_slide_element i scalar) m, 0)
    else (vloop (fp_merge_element i scalar) m, 0).

(** [cpu.sr[CSR_FCSR] |= fp_flags]. *)
Definition accrue (run : machine * Z) : machine := orCSR CSR_FCSR run.2 run.1.
Definition fp_exec (i : vinst) (m : machine) : machine := accrue (fp_run i m).

(** ** Conversions between floating-point widths *)

Definition is_fp_resize (i : vinst) : bool :=
  (function i =? 0x12) && (form i =? 1) && one_of (source1 i) [12; 20; 21].

Definition resize_widen (i : vinst) : bool := source1 i =? 12.
Definition resize_legal (i : vinst) (m : machine) : bool :=
  let widen := resize_widen i in
  let source_exponent := lmul i + (if widen then 0 else 1) in
  let destination_exponent := lmul i + (if widen then 1 else 0) in
  let source_group := group_of source_exponent in
  let destination_group := group_of destination_exponent in
  ((bytes i =? 4)
   || ((bytes i =? 2) && riscv_zvfhmin_enabled (riscv_isa_extensions m) && negb (source1 i =? 21)))
  && negb (3 <? source_exponent) && negb (3 <? destination_exponent)
  && fp_ready (fp_required (bytes i =? 4)) m
  && vector_group_valid (destination i) destination_group
  && vector_group_valid (source2 i) source_group
  && negb (masked_v0 i)
  && negb (overlap (destination i) destination_group (source2 i) source_group
           && (if widen
               then (source_exponent <? 0)
                    || negb (destination i + destination_group =? source2 i + source_group)
               else negb (destination i =? source2 i))).

Definition resize_result (i : vinst) (rm operand : Z) : Z * Z :=
  let widen := resize_widen i in
  let '(result, flags) :=
    if bytes i =? 2 then
      if widen then riscv_fp_convert_h_to_s operand else riscv_fp_convert_s_to_h operand rm
    else
      if widen then riscv_fp_convert_s_to_d operand 0
      else riscv_fp_convert_d_to_s operand (if source1 i =? 21 then 1 else rm) in
  (if (source1 i =? 21) && nz (flags .& 1) then result .| 1 else result, flags).

Definition resize_element (i : vinst) (v : registers) (index : Z) (m : machine) : machine * Z :=
  if negb (active i index m) then (m, 0)
  else
    let operand := vector_snapshot_read v (source2 i) index (if resize_widen i then bytes i else bytes i * 2) in
    let '(result, flags) := resize_result i (frm m) operand in
    (vector_element_write (destination i) index (if resize_widen i then bytes i * 2 else bytes i) result m, flags).
Definition resize_exec (i : vinst) (m : machine) : machine :=
  accrue (vloop_flags (resize_element i (vreg m)) m).

(** ** Conversions between floats and integers of another width *)

Definition fp_integer_widen (i : vinst) : bool :=
  (function i =? 0x12) && (form i =? 1) && (between 8 (source1 i) 11 || one_of (source1 i) [14; 15]).
Definition fp_integer_narrow (i : vinst) : bool :=
  (function i =? 0x12) && (form i =? 1) && (between 16 (source1 i) 19 || one_of (source1 i) [22; 23]).
Definition is_fp_integer (i : vinst) : bool := fp_integer_widen i || fp_integer_narrow i.

Definition to_float (i : vinst) : bool := one_of (source1 i) [10; 11; 18; 19].
Definition source_bytes_of (i : vinst) : Z := bytes i * (if fp_integer_narrow i then 2 else 1).
Definition destination_bytes_of (i : vinst) : Z := bytes i * (if fp_integer_widen i then 2 else 1).
Definition fp_bytes_of (i : vinst) : Z := if to_float i then destination_bytes_of i else source_bytes_of i.
Definition integer_bytes_of (i : vinst) : Z := if to_float i then source_bytes_of i else destination_bytes_of i.

Definition fp_integer_legal (i : vinst) (m : machine) : bool :=
  let source_exponent := lmul i + b2z (fp_integer_narrow i) in
  let destination_exponent := lmul i + b2z (fp_integer_widen i) in
  let source_group := group_of source_exponent in
  let destination_group := group_of destination_exponent in
  one_of (fp_bytes_of i) [4; 8] && one_of (integer_bytes_of i) [2; 4; 8]
  && negb (8 <? source_bytes_of i) && negb (8 <? destination_bytes_of i)
  && negb (3 <? source_exponent) && negb (3 <? destination_exponent)
  && fp_ready (fp_required (fp_bytes_of i =? 8)) m
  && vector_group_valid (destination i) destination_group
  && vector_group_valid (source2 i) source_group
  && negb (masked_v0 i)
  && negb (overlap (destination i) destination_group (source2 i) source_group
           && (if fp_integer_widen i
               then (lmul i <? 0) || negb (destination i + destination_group =? source2 i + source_group)
               else negb (destination i =? source2 i))).

(** The clamping of a result to 16 bits. *)
Definition clamp_short (unsigned_integer : bool) (result flags : Z) : Z * Z :=
  let signed_result := signed 32 result in
  if unsigned_integer && (0xffff <? result) then (0xffff, 1 << 4)
  else if negb unsigned_integer && (0x7fff <? signed_result) then (0x7fff, 1 << 4)
  else if negb unsigned_integer && (signed_result <? -0x8000) then (0x8000, 1 << 4)
  else (result, flags).

Definition fp_integer_result (i : vinst) (rm operand : Z) : Z * Z :=
  let unsigned_integer := negb (nz (source1 i .& 1)) in
  let int64 := integer_bytes_of i =? 8 in
  if to_float i then
    let operand := if (integer_bytes_of i =? 2) && negb unsigned_integer
                   then wrap 64 (signed 16 operand) else operand in
    if fp_bytes_of i =? 4 then riscv_int_to_fp_s operand rm unsigned_integer int64
    else riscv_int_to_fp_d operand rm unsigned_integer int64
  else
    let '(result, flags) :=
      if fp_bytes_of i =? 4 then riscv_fp_to_int_s operand rm unsigned_integer int64
      else riscv_fp_to_int_d operand rm unsigned_integer int64 in
    if integer_bytes_of i =? 2 then clamp_short unsigned_integer result flags else (result, flags).

Definition fp_integer_element (i : vinst) (v : registers) (index : Z) (m : machine) : machine * Z :=
  if negb (active i index m) then (m, 0)
  else
    let operand := vector_snapshot_read v (source2 i) index (source_bytes_of i) in
    let '(result, flags) := fp_integer_result i (if nz (source1 i .& 4) then 1 else frm m) operand in
    (vector_element_write (destination i) index (destination_bytes_of i) result m, flags).
Definition fp_integer_exec (i : vinst) (m : machine) : machine :=
  accrue (vloop_flags (fp_integer_element i (vreg m)) m).

(** ** Widening floating-point arithmetic *)

Definition is_fp_widen (i : vinst) : bool :=
  fp_form i && (one_of (function i) [0x30; 0x32; 0x34; 0x36; 0x38] || between 0x3c (function i) 0x3f).

Definition fp_wide_source (i : vinst) : bool := one_of (function i) [0x34; 0x36].
Definition fp_widen_legal (i : vinst) (m : machine) : bool :=
  let wide_source := fp_wide_source i in
  let destination_exponent := lmul i + 1 in
  let source_exponent := lmul i + b2z wide_source in
  let destination_group := group_of destination_exponent in
  let source_group := group_of source_exponent in
  (bytes i =? 4) && negb (3 <? destination_exponent) && negb (3 <? source_exponent)
  && fp_ready (fp_required true) m
  && vector_group_valid (destination i) destination_group
  && vector_group_valid (source2 i) source_group
  && negb ((form i =? 1) && negb (vector_group_valid (source1 i) (group i)))
  && negb (wide_source && (form i =? 1) && overlap (source2 i) source_group (source1 i) (group i))
  && negb (masked_v0 i)
  && negb (negb wide_source && widen_conflict i destination_group (source2 i) source_group)
  && negb ((form i =? 1) && widen_conflict i destination_group (source1 i) (group i)).

Definition fp_widen_result (i : vinst) (rm left right old : Z) : Z * Z :=
  let f := function i in
  if 0x3c <=? f then riscv_fp_fma_d right left old rm (negates_product i) (negates_addend i)
  else if f =? 0x38 then riscv_fp_mul_d left right rm
  else if (f =? 0x30) || (f =? 0x34) then riscv_fp_add_d left right rm
  else riscv_fp_sub_d left right rm.

Definition fp_widen_element (i : vinst) (v : registers) (scalar index : Z) (m : machine) : machine * Z :=
  if negb (active i index m) then (m, 0)
  else
    let left := vector_snapshot_read v (source2 i) index (if fp_wide_source i then 8 else 4) in
    let right := if form i =? 1 then vector_snapshot_read v (source1 i) index 4 else scalar in
    let '(lhs, left_flags) := if fp_wide_source i then (left, 0) else riscv_fp_convert_s_to_d left 0 in
    let '(rhs, right_flags) := riscv_fp_convert_s_to_d right 0 in
    let old := vector_snapshot_read v (destination i) index 8 in
    let '(result, flags) := fp_widen_result i (frm m) lhs rhs old in
    (vector_element_write (destination i) index 8 result m, left_flags .| right_flags .| flags).
Definition fp_widen_exec (i : vinst) (m : machine) : machine :=
  let scalar := if form i =? 5 then riscv_fp_read_s (aget (fpr m) (source1 i)) else 0 in
  accrue (vloop_flags (fp_widen_element i (vreg m) scalar) m).

(** ** Floating-point reductions *)

Definition is_fp_reduce (i : vinst) : bool :=
  (form i =? 1) && one_of (function i) [0x01; 0x03; 0x05; 0x07; 0x31; 0x33].

Definition reduce_widen (i : vinst) : bool := one_of (function i) [0x31; 0x33].
Definition fp_reduce_bytes (i : vinst) : Z := if reduce_widen i then 8 else bytes i.
Definition fp_reduce_legal (i : vinst) (m : machine) : bool :=
  let widen := reduce_widen i in
  ((bytes i =? 4) || (bytes i =? 8)) && negb (widen && negb (bytes i =? 4))
  && fp_ready (fp_required (fp_reduce_bytes i =? 8)) m
  && vector_group_valid (source2 i) (group i)
  && negb (widen && (source2 i <=? source1 i) && (source1 i <? source2 i + group i))
  && (CSR m CSR_VSTART =? 0).

(** One step: the accumulated result and flags. *)
Definition fp_reduce_step (i : vinst) (m : machine) (index : Z) (acc : Z * Z) : Z * Z :=
  if negb (active i index m) then acc
  else
    let '(result, fp_flags) := acc in
    let element := vector_snapshot_read (vreg m) (source2 i) index (bytes i) in
    let '(element, convert_flags) :=
      if reduce_widen i then riscv_fp_convert_s_to_d element 0 else (element, 0) in
    let rm := frm m in
    let '(result, flags) :=
      if function i =? 0x05 then by_width i (riscv_fp_min_s result element) (riscv_fp_min_d result element)
      else if function i =? 0x07 then by_width i (riscv_fp_max_s result element) (riscv_fp_max_d result element)
      else if fp_reduce_bytes i =? 4 then riscv_fp_add_s result element rm
      else riscv_fp_add_d result element rm in
    (result, fp_flags .| convert_flags .| flags).

Definition fp_reduce_exec (i : vinst) (m : machine) : machine :=
  if CSR m CSR_VL =? 0 then m
  else
    let first := vector_snapshot_read (vreg m) (source1 i) 0 (fp_reduce_bytes i) in
    let '(result, fp_flags) := vfold (fp_reduce_step i m) (elements 0 (CSR m CSR_VL)) 0 (first, 0) in
    orCSR CSR_FCSR fp_flags (vector_element_write (destination i) 0 (fp_reduce_bytes i) result m).

(** ** Mask population count and first set bit *)

Definition is_mask_scan (i : vinst) : bool :=
  (function i =? 0x10) && (form i =? 2) && one_of (source1 i) [16; 17].

Definition scan_bit (i : vinst) (m : machine) (index : Z) : bool :=
  vector_mask_bit m (source2 i) index && active i index m.
(** The loop of vfirst, which stops at the first bit. *)
Fixpoint scan_first (i : vinst) (m : machine) (n : nat) (index : Z) : Z :=
  match n with
  | O => wnot 0
  | S n => if scan_bit i m index then index else scan_first i m n (index + 1)
  end.
Definition scan_count (i : vinst) (m : machine) : Z :=
  vfold (fun index result => if scan_bit i m index then word (result + 1) else result)
    (elements 0 (CSR m CSR_VL)) 0 0.
Definition mask_scan_exec (i : vinst) (m : machine) : machine :=
  let result := if source1 i =? 17 then scan_first i m (elements 0 (CSR m CSR_VL)) 0 else scan_count i m in
  if nz (destination i) then setR (destination i) result m else m.

(** ** Slides and gathers *)

Definition is_slide (i : vinst) : bool :=
  ((function i =? 0x0e) || (function i =? 0x0f)) && one_of (form i) [3; 4; 6].

Definition slide_legal (i : vinst) : bool :=
  vector_group_valid (destination i) (group i) && vector_group_valid (source2 i) (group i)
  && negb (masked_v0 i)
  && negb ((function i =? 0x0e) && overlap (destination i) (group i) (source2 i) (group i)).

Definition slide_element (i : vinst) (offset scalar index : Z) (m : machine) : machine :=
  if negb (active i index m) then m
  else
    let upward := function i =? 0x0e in
    let single := form i =? 6 in
    let write value := vector_element_write (destination i) index (bytes i) value m in
    if single && ((upward && (index =? 0)) || (negb upward && (index + 1 =? CSR m CSR_VL))) then write scalar
    else if upward then
      if offset <=? index then write (vector_element_read m (source2 i) (index - offset) (bytes i)) else m
    else write (if offset <? maximum i - index
                then vector_element_read m (source2 i) (index + offset) (bytes i) else 0).
Definition slide_exec (i : vinst) (m : machine) : machine :=
  let offset := if form i =? 6 then 1 else if form i =? 3 then source1 i else R m (source1 i) in
  vloop (slide_element i offset (xscalar i m)) m.

Definition gather16 (i : vinst) : bool := (function i =? 0x0e) && (form i =? 0).
Definition is_gather (i : vinst) : bool := ((function i =? 0x0c) && vector_scalar_form i) || gather16 i.

Definition gather_index_bytes (i : vinst) : Z := if gather16 i then 2 else bytes i.
(** The exponent of the index group of a 16-bit gather. *)
Definition gather_index_lmul (i : vinst) : Z := lmul i + 1 - Z.log2 (bytes i).
Definition gather_index_group (i : vinst) : Z :=
  if gather16 i then group_of (gather_index_lmul i) else group i.
Definition gather_legal (i : vinst) : bool :=
  let index_group := gather_index_group i in
  negb (gather16 i && ((gather_index_lmul i <? -3) || (3 <? gather_index_lmul i)))
  && vector_group_valid (destination i) (group i) && vector_group_valid (source2 i) (group i)
  && negb ((form i =? 0) && negb (vector_group_valid (source1 i) index_group))
  && negb (masked_v0 i)
  && negb (overlap (destination i) (group i) (source2 i) (group i))
  && negb (gather16 i && negb (bytes i =? 2) && overlap (source1 i) index_group (source2 i) (group i))
  && negb ((form i =? 0) && overlap (destination i) (group i) (source1 i) index_group).

Definition gather_element (i : vinst) (index : Z) (m : machine) : machine :=
  if negb (active i index m) then m
  else
    let selected :=
      if form i =? 0 then vector_element_read m (source1 i) index (gather_index_bytes i)
      else if form i =? 3 then source1 i else R m (source1 i) in
    vector_element_write (destination i) index (bytes i)
      (if selected <? maximum i then vector_element_read m (source2 i) selected (bytes i) else 0) m.
Definition gather_exec (i : vinst) (m : machine) : machine := vloop (gather_element i) m.

(** ** Mask prefixes, iota and element indices *)

Definition mask_prefix (i : vinst) : bool :=
  (function i =? 0x14) && (form i =? 2) && between 1 (source1 i) 3.
Definition iota (i : vinst) : bool := (function i =? 0x14) && (form i =? 2) && (source1 i =? 16).
Definition element_index (i : vinst) : bool :=
  (function i =? 0x14) && (form i =? 2) && (source1 i =? 17) && (source2 i =? 0).
Definition is_prefix (i : vinst) : bool := mask_prefix i || iota i || element_index i.

Definition prefix_legal (i : vinst) (m : machine) : bool :=
  let destination_group := if mask_prefix i then 1 else group i in
  vector_group_valid (destination i) destination_group
  && negb (negb (mask_prefix i) && masked_v0 i)
  && negb ((mask_prefix i || iota i) && nz (CSR m CSR_VSTART))
  && negb (mask_prefix i && ((destination i =? source2 i) || masked_v0 i))
  && negb (iota i && (destination i <=? source2 i) && (source2 i <? destination i + destination_group)).

(** The state of the loop: [count] and [seen]. *)
Definition prefix_element (i : vinst) (index : Z) (s : machine * Z * bool) : machine * Z * bool :=
  let '(m, count, seen) := s in
  if negb (active i index m) then s
  else if mask_prefix i then
    let source_bit := vector_mask_bit m (source2 i) index in
    let result := negb seen && ((source1 i =? 3) || (if source1 i =? 2 then source_bit else negb source_bit)) in
    (vector_mask_write (destination i) index result m, count, seen || source_bit)
  else
    let m := vector_element_write (destination i) index (bytes i) (if element_index i then index else count) m in
    (m, if iota i then count + b2z (vector_mask_bit m (source2 i) index) else count, seen).
Definition prefix_exec (i : vinst) (m : machine) : machine :=
  (vfold (prefix_element i) (elements (CSR m CSR_VSTART) (CSR m CSR_VL)) (CSR m CSR_VSTART) (m, 0, false)).1.1.

(** ** Compress *)

Definition is_compress (i : vinst) : bool := (function i =? 0x17) && (form i =? 2).
Definition compress_legal (i : vinst) (m : machine) : bool :=
  unmasked i && (CSR m CSR_VSTART =? 0)
  && vector_group_valid (destination i) (group i) && vector_group_valid (source2 i) (group i)
  && negb (overlap (destination i) (group i) (source2 i) (group i))
  && negb ((destination i <=? source1 i) && (source1 i <? destination i + group i))
  && negb ((source2 i <=? source1 i) && (source1 i <? source2 i + group i)).
Definition compress_element (i : vinst) (index : Z) (s : machine * Z) : machine * Z :=
  let '(m, output_index) := s in
  if negb (vector_mask_bit m (source1 i) index) then s
  else (vector_element_write (destination i) output_index (bytes i)
          (vector_element_read m (source2 i) index (bytes i)) m, output_index + 1).
Definition compress_exec (i : vinst) (m : machine) : machine :=
  (vfold (compress_element i) (elements 0 (CSR m CSR_VL)) 0 (m, 0)).1.

(** ** Integer reductions *)

Definition is_reduction (i : vinst) : bool :=
  ((form i =? 2) && (function i <=? 7)) || ((form i =? 0) && one_of (function i) [0x30; 0x31]).
Definition reduction_bytes (i : vinst) : Z := if form i =? 0 then bytes i * 2 else bytes i.
Definition reduction_legal (i : vinst) (m : machine) : bool :=
  (CSR m CSR_VSTART =? 0) && negb (8 <? reduction_bytes i)
  && vector_group_valid (source2 i) (group i)
  && negb ((form i =? 0) && (source2 i <=? source1 i) && (source1 i <? source2 i + group i)).
Definition reduction_operation (i : vinst) : Z :=
  if form i =? 0 then 0 else if function i =? 0 then 0
  else if function i <? 4 then function i + 8 else function i.
Definition reduction_step (i : vinst) (m : machine) (index accumulator : Z) : Z :=
  if negb (active i index m) then accumulator
  else
    let value := vector_element_read m (source2 i) index (bytes i) in
    let value :=
      if (form i =? 0) && nz (function i .& 1) then
        let shift := 64 - bytes i * 8 in
        wrap 64 (signed 64 (value << shift) >> shift)
      else value in
    vector_integer_result (reduction_operation i) accumulator value (reduction_bytes i * 8) false.
Definition reduction_exec (i : vinst) (m : machine) : machine :=
  if CSR m CSR_VL =? 0 then m
  else
    let first := vector_element_read m (source1 i) 0 (reduction_bytes i) in
    vector_element_write (destination i) 0 (reduction_bytes i)
      (vfold (reduction_step i m) (elements 0 (CSR m CSR_VL)) 0 first) m.

(** ** Integer extension *)

Definition is_extend (i : vinst) : bool :=
  (function i =? 0x12) && (form i =? 2) && between 2 (source1 i) 7.
Definition extend_shift (i : vinst) : Z := 4 - source1 i / 2.
Definition extend_bytes (i : vinst) : Z := bytes i / (1 << extend_shift i).
Definition extend_legal (i : vinst) : bool :=
  let source_exponent := lmul i - extend_shift i in
  let source_group := group_of source_exponent in
  negb (bytes i <? 1 << extend_shift i) && negb (source_exponent <? -3)
  && vector_group_valid (destination i) (group i) && vector_group_valid (source2 i) source_group
  && negb (masked_v0 i)
  && negb (overlap (destination i) (group i) (source2 i) source_group
           && ((source_exponent <? 0) || negb (destination i + group i =? source2 i + source_group))).
Definition extend_element (i : vinst) (v : registers) (index : Z) (m : machine) : machine :=
  if negb (active i index m) then m
  else
    let source := vector_snapshot_read v (source2 i) index (extend_bytes i) in
    vector_element_write (destination i) index (bytes i)
      (if nz (source1 i .& 1) then wrap 64 (vector_signed_value source (extend_bytes i * 8)) else source) m.
Definition extend_exec (i : vinst) (m : machine) : machine := vloop (extend_element i (vreg m)) m.

(** ** Narrowing shifts and clips *)

Definition is_narrow (i : vinst) : bool := between 0x2c (function i) 0x2f && vector_scalar_form i.
Definition narrow_legal (i : vinst) : bool :=
  let source_exponent := lmul i + 1 in
  let source_group := group_of source_exponent in
  negb (8 <? bytes i * 2) && negb (3 <? source_exponent)
  && vector_group_valid (destination i) (group i) && vector_group_valid (source2 i) source_group
  && negb ((form i =? 0) && negb (vector_group_valid (source1 i) (group i)))
  && negb ((form i =? 0) && overlap (source2 i) source_group (source1 i) (group i))
  && negb (masked_v0 i)
  && negb (overlap (destination i) (group i) (source2 i) source_group && negb (destination i =? source2 i)).

(** [VXSAT] and its mirror in [VCSR]. *)
Definition saturate (saturated : bool) (m : machine) : machine :=
  if saturated then setCSR CSR_VCSR (wshl (CSR m CSR_VXRM) 1 .| 1) (setCSR CSR_VXSAT 1 m) else m.
Definition vxrm (m : machine) : Z := CSR m CSR_VXRM .& 3.

Definition narrow_result (i : vinst) (mode source shift : Z) : Z * bool :=
  let source_bits := bytes i * 2 * 8 in
  if function i <? 0x2e then
    (if nz (function i .& 1) then wrap 64 (vector_signed_value source source_bits >> (shift .& (source_bits - 1)))
     else source >> (shift .& (source_bits - 1)), false)
  else vector_clip_result (nz (function i .& 1)) source shift (bytes i * 8) mode.
Definition narrow_element (i : vinst) (scalar index : Z) (m : machine) : machine :=
  if negb (active i index m) then m
  else
    let source := vector_element_read m (source2 i) index (bytes i * 2) in
    let shift := if form i =? 0 then vector_element_read m (source1 i) index (bytes i) else scalar in
    let '(result, saturated) := narrow_result i (vxrm m) source shift in
    saturate saturated (vector_element_write (destination i) index (bytes i) result m).
Definition narrow_exec (i : vinst) (m : machine) : machine :=
  vloop (narrow_element i (if form i =? 3 then source1 i else R m (source1 i))) m.

(** ** Widening arithmetic *)

Definition is_widen (i : vinst) : bool := between 0x30 (function i) 0x3f && one_of (form i) [2; 6].

Definition widen_multiply (i : vinst) : bool := 0x38 <=? function i.
Definition widen_wide_source (i : vinst) : bool := negb (widen_multiply i) && nz (function i .& 4).
Definition widen_left_signed (i : vinst) : bool :=
  if widen_multiply i then one_of (function i) [0x3a; 0x3b; 0x3d; 0x3e] else nz (function i .& 1).
Definition widen_right_signed (i : vinst) : bool :=
  if widen_multiply i then one_of (function i) [0x3b; 0x3d; 0x3f] else nz (function i .& 1).
Definition widen_source_bytes (i : vinst) : Z := if widen_wide_source i then bytes i * 2 else bytes i.

Definition widen_legal (i : vinst) : bool :=
  let wide_source := widen_wide_source i in
  let destination_exponent := lmul i + 1 in
  let source_exponent := lmul i + b2z wide_source in
  let destination_group := group_of destination_exponent in
  let source_group := group_of source_exponent in
  negb (function i =? 0x39) && negb ((function i =? 0x3e) && (form i =? 2))
  && negb (8 <? bytes i * 2) && negb (3 <? destination_exponent) && negb (3 <? source_exponent)
  && vector_group_valid (destination i) destination_group
  && vector_group_valid (source2 i) source_group
  && negb ((form i =? 2) && negb (vector_group_valid (source1 i) (group i)))
  && negb (wide_source && (form i =? 2) && overlap (source2 i) source_group (source1 i) (group i))
  && negb (masked_v0 i)
  && negb (negb wide_source && widen_conflict i destination_group (source2 i) source_group)
  && negb ((form i =? 2) && widen_conflict i destination_group (source1 i) (group i)).

Definition widen_result (i : vinst) (source operand old : Z) : Z :=
  let lhs := if widen_left_signed i then vector_signed_value source (widen_source_bytes i * 8) else source in
  let rhs := if widen_right_signed i then vector_signed_value operand (bytes i * 8)
             else operand .& Z.ones (bytes i * 8) in
  wrap 64 (if widen_multiply i then lhs * rhs + (if 0x3c <=? function i then old else 0)
           else if nz (function i .& 2) then lhs - rhs else lhs + rhs).
Definition widen_element (i : vinst) (v : registers) (scalar index : Z) (m : machine) : machine :=
  if negb (active i index m) then m
  else
    let source := vector_snapshot_read v (source2 i) index (widen_source_bytes i) in
    let operand := if form i =? 2 then vector_snapshot_read v (source1 i) index (bytes i) else scalar in
    let old := vector_snapshot_read v (destination i) index (bytes i * 2) in
    vector_element_write (destination i) index (bytes i * 2) (widen_result i source operand old) m.
Definition widen_exec (i : vinst) (m : machine) : machine :=
  vloop (widen_element i (vreg m) (xscalar i m)) m.

(** ** Multiply-add *)

Definition is_muladd (i : vinst) : bool := one_of (function i) [0x29; 0x2b; 0x2d; 0x2f] && one_of (form i) [2; 6].
Definition muladd_legal (i : vinst) : bool :=
  vector_group_valid (destination i) (group i) && vector_group_valid (source2 i) (group i)
  && negb ((form i =? 2) && negb (vector_group_valid (source1 i) (group i)))
  && negb (masked_v0 i).
Definition muladd_result (i : vinst) (old source operand : Z) : Z :=
  let product := wrap 64 ((if nz (function i .& 4) then source else old) * operand) in
  let addend := if nz (function i .& 4) then old else source in
  wrap 64 (if nz (function i .& 2) then addend - product else addend + product).
Definition muladd_element (i : vinst) (v : registers) (scalar index : Z) (m : machine) : machine :=
  if negb (active i index m) then m
  else
    let old := vector_snapshot_read v (destination i) index (bytes i) in
    let source := vector_snapshot_read v (source2 i) index (bytes i) in
    let operand := if form i =? 2 then vector_snapshot_read v (source1 i) index (bytes i) else scalar in
    vector_element_write (destination i) index (bytes i) (muladd_result i old source operand) m.
Definition muladd_exec (i : vinst) (m : machine) : machine :=
  vloop (muladd_element i (vreg m) (xscalar i m)) m.

(** ** Single-width integer arithmetic, comparisons and masks *)

Definition integer (i : vinst) : bool :=
  one_of (function i) [0; 0x02; 0x03; 0x04; 0x05; 0x06; 0x07; 0x09; 0x0a; 0x0b; 0x25; 0x28; 0x29]
  && vector_scalar_form i
  && negb (((function i =? 0x02) || between 0x04 (function i) 0x07) && (form i =? 3))
  && negb ((function i =? 0x03) && (form i =? 0)).
Definition compare (i : vinst) : bool :=
  between 0x18 (function i) 0x1f && vector_scalar_form i
  && negb (one_of (function i) [0x1a; 0x1b] && (form i =? 3))
  && negb (one_of (function i) [0x1e; 0x1f] && (form i =? 0)).
Definition carry (i : vinst) : bool :=
  between 0x10 (function i) 0x13 && vector_scalar_form i
  && (negb (nz (function i .& 2)) || negb (form i =? 3))
  && (nz (function i .& 1) || negb (unmasked i)).
Definition mask_logic (i : vinst) : bool := between 0x18 (function i) 0x1f && (form i =? 2) && unmasked i.
Definition muldiv (i : vinst) : bool := between 0x20 (function i) 0x27 && one_of (form i) [2; 6].
Definition saturating (i : vinst) : bool :=
  between 0x20 (function i) 0x23
  && (one_of (form i) [0; 4] || ((form i =? 3) && (function i <? 0x22))).
Definition averaging (i : vinst) : bool := between 0x08 (function i) 0x0b && one_of (form i) [2; 6].
Definition scaling_shift (i : vinst) : bool := one_of (function i) [0x2a; 0x2b] && vector_scalar_form i.
Definition fractional_multiply (i : vinst) : bool := (function i =? 0x27) && one_of (form i) [0; 4].
Definition vmove (i : vinst) : bool :=
  unmasked i && (function i =? 0x17) && (source2 i =? 0) && vector_scalar_form i.
Definition merge (i : vinst) : bool := negb (unmasked i) && (function i =? 0x17) && vector_scalar_form i.
Definition extract (i : vinst) : bool :=
  unmasked i && (function i =? 0x10) && (form i =? 2) && (source1 i =? 0).

(** The families with an element operand in [source2]. *)
Definition reads_source2 (i : vinst) : bool :=
  integer i || compare i || carry i || muldiv i || saturating i || averaging i || scaling_shift i
  || fractional_multiply i || merge i.
Definition reads_source1 (i : vinst) : bool := (form i =? 0) || ((form i =? 2) && (muldiv i || averaging i)).
Definition mask_result (i : vinst) : bool := compare i || mask_logic i || (carry i && nz (function i .& 1)).
Definition is_integer (i : vinst) : bool := reads_source2 i || mask_logic i || vmove i || extract i.

Definition integer_legal (i : vinst) : bool :=
  vector_group_valid (destination i) (if mask_result i then 1 else group i)
  && negb (negb (unmasked i) && negb (mask_result i) && (destination i =? 0))
  && negb (mask_result i && negb (mask_logic i) && (source2 i <? destination i)
           && (destination i <? source2 i + group i))
  && negb (mask_result i && (form i =? 0) && (source1 i <? destination i)
           && (destination i <? source1 i + group i))
  && negb (reads_source2 i && negb (vector_group_valid (source2 i) (group i)))
  && negb (mask_logic i && negb (vector_group_valid (source2 i) 1))
  && negb (reads_source1 i && negb (vector_group_valid (source1 i) (group i)))
  && negb (mask_logic i && negb (vector_group_valid (source1 i) 1)).

(** The result of an element, and whether it saturated. *)
Definition integer_result (i : vinst) (mode value operand : Z) (left_bit right_bit mask_bit : bool) : Z * bool :=
  let bits := bytes i * 8 in
  if muldiv i then (vector_muldiv_result (function i) value operand bits, false)
  else if mask_logic i then (b2z (vector_mask_logic_result (function i) left_bit right_bit), false)
  else if saturating i then vector_saturating_result (function i) value operand bits
  else if averaging i || scaling_shift i || fractional_multiply i
  then vector_rounded_fixed_result (function i) value operand bits mode
  else if integer i || compare i || carry i
  then (vector_integer_result (function i) value operand bits (carry i && negb (unmasked i) && mask_bit), false)
  else (if merge i && negb mask_bit then value else operand, false).

(** The immediate is unsigned for shifts. *)
Definition integer_scalar (i : vinst) (m : machine) : Z :=
  if form i =? 3 then
    if one_of (function i) [0x25; 0x28; 0x29] || scaling_shift i then source1 i else SEXT (source1 i) 5
  else xscalar i m.

Definition integer_element (i : vinst) (scalar index : Z) (m : machine) : machine :=
  let mask_bit := vector_mask_bit m 0 index in
  if negb (unmasked i) && negb (merge i) && negb (carry i) && negb mask_bit then m
  else
    let value := if reads_source2 i then vector_element_read m (source2 i) index (bytes i) else 0 in
    let operand := if reads_source1 i then vector_element_read m (source1 i) index (bytes i) else scalar in
    let '(result, saturated) :=
      integer_result i (vxrm m) value operand (vector_mask_bit m (source2 i) index)
        (vector_mask_bit m (source1 i) index) mask_bit in
    saturate saturated
      (if mask_result i then vector_mask_write (destination i) index (nz result) m
       else vector_element_write (destination i) index (bytes i) result m).

(** vmv.x.s. *)
Definition extract_exec (i : vinst) (m : machine) : machine :=
  let value := vector_element_read m (source2 i) 0 (bytes i) in
  let value :=
    if bytes i <? XLEN / 8 then
      let sign := 1 << (bytes i * 8 - 1) in wrap 64 ((value .^ sign) - sign)
    else value in
  if nz (destination i) then setR (destination i) (word value) m else m.

Definition integer_exec (i : vinst) (m : machine) : machine :=
  if extract i then extract_exec i m else vloop (integer_element i (integer_scalar i m)) m.

(** ** The sequence of blocks *)

(** A block that recognised the instruction: the [return]s of the function. *)
Definition block (legal : bool) (floating : bool) (exec : machine -> machine) (m : machine) : bool * machine :=
  if legal then (true, vector_finish floating (exec m)) else (false, m).

(** The blocks that need a legal type. *)
Definition execute_typed (i : vinst) (m : machine) : bool * machine :=
  if is_insert i then block (insert_legal i m) false (insert_exec i) m
  else if is_zvbb i then block (zvbb_legal i m) false (zvbb_exec i) m
  else if is_fp i then block (fp_legal i m) true (fp_exec i) m
  else if is_fp_resize i then block (resize_legal i m) true (resize_exec i) m
  else if is_fp_integer i then block (fp_integer_legal i m) true (fp_integer_exec i) m
  else if is_fp_widen i then block (fp_widen_legal i m) true (fp_widen_exec i) m
  else if is_fp_reduce i then block (fp_reduce_legal i m) true (fp_reduce_exec i) m
  else if is_mask_scan i then block (CSR m CSR_VSTART =? 0) false (mask_scan_exec i) m
  else if is_slide i then block (slide_legal i) false (slide_exec i) m
  else if is_gather i then block (gather_legal i) false (gather_exec i) m
  else if is_prefix i then block (prefix_legal i m) false (prefix_exec i) m
  else if is_compress i then block (compress_legal i m) false (compress_exec i) m
  else if is_reduction i then block (reduction_legal i m) false (reduction_exec i) m
  else if is_extend i then block (extend_legal i) false (extend_exec i) m
  else if is_narrow i then block (narrow_legal i) false (narrow_exec i) m
  else if is_widen i then block (widen_legal i) false (widen_exec i) m
  else if is_muladd i then block (muladd_legal i) false (muladd_exec i) m
  else if is_integer i then block (extract i || integer_legal i) false (integer_exec i) m
  else (false, m).

Definition riscv_vector_execute (instruction : Z) (m : machine) : bool * machine :=
  let i := decode_vinst instruction m in
  if negb (riscv_vector_context_enabled m) || (form i =? 7) then (false, m)
  else if is_move i then block (move_legal i m) false (move_exec i) m
  else if (maximum i =? 0) || (maximum i <? CSR m CSR_VL) then (false, m)
  else execute_typed i m.

End VecExec.
