(* ===== verification/VecBits.v ===== *)
(** * VecBits: the vector register file as an array of bits

    Bit [a] of the file is bit [a mod 8] of byte [a / 8]: register [r] starts at
    bit [128 * r]. Element and mask accesses are intervals of these bits. *)
From S2P Require Import Prelude Config Machine VecAlu.

#[local] Open Scope Z_scope.

Definition vbit (v : registers) (a : Z) : bool := Z.testbit (aget v (a / 8)) (a mod 8).

(** The file holds bytes. *)
Definition bytes_ok (v : registers) : Prop := forall a, fits 8 (aget v a).

(** ** Addresses *)

Lemma vector_element_at_linear reg index bytes : vector_element_at reg index bytes = 16 * reg + index * bytes.
Proof. unfold vector_element_at. pose proof (Z.div_mod (index * bytes) 16). lia. Qed.

Lemma div8_add q i : 0 <= i -> (8 * q + i) / 8 = q + i / 8 /\ (8 * q + i) mod 8 = i mod 8.
Proof. intros. split; Z.to_euclidean_division_equations; lia. Qed.

(** ** Reads *)

Lemma vbit_byte v a i : 0 <= i < 8 -> Z.testbit (aget v a) i = vbit v (8 * a + i).
Proof.
  intros Hi. unfold vbit. destruct (div8_add a i) as [-> ->]; [lia|].
  by rewrite Z.div_small, Z.mod_small, Z.add_0_r by lia.
Qed.

Lemma read_bytes_testbit v a n byte i :
  bytes_ok v -> 0 <= byte -> 0 <= i ->
  Z.testbit (read_bytes v a n byte) i =
    (8 * byte <=? i) && (i <? 8 * (byte + Z.of_nat n)) && vbit v (8 * a + i).
Proof.
  intros Hv. revert byte. induction n as [|n IH]; intros byte Hb Hi; cbn [read_bytes].
  - rewrite Z.testbit_0_l, Z.add_0_r. by destruct (Z.leb_spec (8 * byte) i), (Z.ltb_spec i (8 * byte)); try lia.
  - rewrite Z.lor_spec, Z.shiftl_spec, IH by lia.
    destruct (Z.lt_ge_cases i (8 * byte)).
    { rewrite (Z.testbit_neg_r _ (i - 8 * byte)) by lia.
      by destruct (Z.leb_spec (8 * byte) i), (Z.leb_spec (8 * (byte + 1)) i); try lia. }
    destruct (Z.lt_ge_cases i (8 * byte + 8)).
    + rewrite vbit_byte by lia. replace (8 * (a + byte) + (i - 8 * byte)) with (8 * a + i) by lia.
      replace (8 * (byte + 1) <=? i) with false by lia. replace (8 * byte <=? i) with true by lia. cbn [andb].
      rewrite orb_false_r. destruct (Z.ltb_spec i (8 * (byte + Z.of_nat (S n)))); [done|lia].
    + rewrite (testbit_high 8) by (apply Hv || lia). cbn [orb].
      replace (8 * (byte + 1) <=? i) with true by lia. replace (8 * byte <=? i) with true by lia.
      by replace (8 * (byte + 1 + Z.of_nat n)) with (8 * (byte + Z.of_nat (S n))) by lia.
Qed.

(** An element is the interval of bits it occupies. *)
Lemma snapshot_read_testbit v reg index bytes i :
  bytes_ok v -> 0 <= bytes -> 0 <= i ->
  Z.testbit (vector_snapshot_read v reg index bytes) i =
    (i <? 8 * bytes) && vbit v (128 * reg + 8 * bytes * index + i).
Proof.
  intros Hv Hb Hi. unfold vector_snapshot_read. rewrite vector_element_at_linear, read_bytes_testbit by (done || lia).
  replace (8 * 0 <=? i) with true by lia. cbn [andb].
  rewrite Z.add_0_l, Z2Nat.id by lia. f_equal. f_equal. lia.
Qed.

Lemma read_bytes_nonneg v a n byte : bytes_ok v -> 0 <= read_bytes v a n byte.
Proof.
  intros Hv. revert byte. induction n as [|n IH]; intros byte; cbn [read_bytes]; [lia|].
  apply Z.lor_nonneg. split; [apply Z.shiftl_nonneg, Hv | apply IH].
Qed.

Lemma snapshot_read_fits v reg index bytes :
  bytes_ok v -> 0 <= bytes -> fits (8 * bytes) (vector_snapshot_read v reg index bytes).
Proof.
  intros Hv Hb. apply fits_testbit; [lia | by apply read_bytes_nonneg|].
  intros i Hi. rewrite snapshot_read_testbit by (done || lia). by replace (i <? 8 * bytes) with false by lia.
Qed.

Lemma mask_bit_vbit v reg index : mask_bit_of v reg index = vbit v (128 * reg + index).
Proof.
  unfold mask_bit_of, vbit. rewrite nz_shift_testbit by (apply Z.mod_pos_bound; lia).
  f_equal; [f_equal|]; Z.to_euclidean_division_equations; lia.
Qed.

(** Two files that agree on an interval of bits hold the same element there. *)
Lemma snapshot_read_ext v v' reg index bytes :
  bytes_ok v -> bytes_ok v' -> 0 <= bytes ->
  (forall a, 128 * reg + 8 * bytes * index <= a < 128 * reg + 8 * bytes * (index + 1) -> vbit v a = vbit v' a) ->
  vector_snapshot_read v reg index bytes = vector_snapshot_read v' reg index bytes.
Proof.
  intros Hv Hv' Hb E. apply Z.bits_inj'. intros i Hi. rewrite !snapshot_read_testbit by done.
  destruct (Z.ltb_spec i (8 * bytes)); [|done]. cbn [andb]. apply E. lia.
Qed.

(** ** Writes *)

Lemma write_bytes_ok v a n byte value : bytes_ok v -> bytes_ok (write_bytes v a n byte value).
Proof.
  revert v byte. induction n as [|n IH]; intros v byte Hv; cbn [write_bytes]; [done|].
  apply IH. intros x. rewrite aget_aset. destruct (_ =? _); [by apply wrap_fits | apply Hv].
Qed.
Lemma element_write_ok reg index bytes value v : bytes_ok v -> bytes_ok (element_write reg index bytes value v).
Proof. apply write_bytes_ok. Qed.
Lemma mask_bit_set_ok reg index result v : bytes_ok v -> bytes_ok (mask_bit_set reg index result v).
Proof.
  intros Hv x. unfold mask_bit_set. rewrite aget_aset. destruct (_ =? _); [by apply wrap_fits | apply Hv].
Qed.

Lemma write_bytes_byte v a n byte value x :
  0 <= byte ->
  aget (write_bytes v a n byte value) x =
    if (a + byte <=? x) && (x <? a + byte + Z.of_nat n) then wrap 8 (value >> (8 * (x - a))) else aget v x.
Proof.
  revert v byte. induction n as [|n IH]; intros v byte Hb; cbn [write_bytes].
  - rewrite Z.add_0_r. by destruct (Z.leb_spec (a + byte) x), (Z.ltb_spec x (a + byte)); try lia.
  - rewrite IH, aget_aset, Nat2Z.inj_succ by lia.
    destruct (Z.eqb_spec (a + byte) x) as [E|E].
    + replace (a + (byte + 1) <=? x) with false by lia. replace (a + byte <=? x) with true by lia.
      rewrite (proj2 (Z.ltb_lt x (a + byte + Z.succ (Z.of_nat n)))) by lia. cbn [andb].
      by replace (x - a) with byte by lia.
    + replace (a + (byte + 1) <=? x) with (a + byte <=? x) by lia.
      by replace (a + (byte + 1) + Z.of_nat n) with (a + byte + Z.succ (Z.of_nat n)) by lia.
Qed.

Lemma element_write_vbit reg index bytes value v a :
  0 <= bytes ->
  vbit (element_write reg index bytes value v) a =
    let base := 128 * reg + 8 * bytes * index in
    if (base <=? a) && (a <? base + 8 * bytes) then Z.testbit value (a - base) else vbit v a.
Proof.
  intros Hb. unfold element_write, vbit. rewrite vector_element_at_linear, write_bytes_byte, Z2Nat.id by lia. cbv zeta.
  pose proof (Z.div_mod a 8 ltac:(lia)) as E. pose proof (Z.mod_pos_bound a 8 ltac:(lia)) as R.
  set (q := a / 8) in *. set (r := a mod 8) in *.
  replace (16 * reg + index * bytes + 0 <=? q) with (128 * reg + 8 * bytes * index <=? a) by nia.
  replace (q <? 16 * reg + index * bytes + 0 + bytes) with (a <? 128 * reg + 8 * bytes * index + 8 * bytes) by nia.
  destruct (Z.leb_spec (128 * reg + 8 * bytes * index) a); [|done].
  destruct (a <? _) eqn:El; [|done]. cbn [andb].
  rewrite testbit_wrap, Z.shiftr_spec by lia. replace (r <? 8) with true by lia. cbn [andb]. f_equal. nia.
Qed.

Lemma mask_bit_set_vbit reg index result v a :
  bytes_ok v -> 0 <= index ->
  vbit (mask_bit_set reg index result v) a = if a =? 128 * reg + index then result else vbit v a.
Proof.
  intros Hv Hi. unfold mask_bit_set, vbit. rewrite aget_aset.
  pose proof (Z.div_mod a 8 ltac:(lia)) as E. pose proof (Z.mod_pos_bound a 8 ltac:(lia)) as R.
  pose proof (Z.div_mod index 8 ltac:(lia)) as E'. pose proof (Z.mod_pos_bound index 8 ltac:(lia)) as R'.
  set (q := a / 8) in *. set (r := a mod 8) in *. set (q' := index / 8) in *. set (r' := index mod 8) in *.
  destruct (Z.eqb_spec (16 * reg + q') q) as [Eq|Eq];
    [|destruct (Z.eqb_spec a (128 * reg + index)); [lia | done]].
  rewrite Eq, testbit_wrap, Z.lor_spec, Z.land_spec, Z.lnot_spec, testbit_wrap, testbit_shl1 by lia.
  replace (r <? 8) with true by lia. cbn [andb].
  replace (a =? 128 * reg + index) with (r =? r') by lia.
  assert (Ez : Z.testbit (if result then wrap 8 (1 << r') else 0) r = result && (r =? r')).
  { destruct result; [|apply Z.testbit_0_l]. rewrite testbit_wrap, testbit_shl1 by lia.
    by replace (r <? 8) with true by lia. }
  rewrite Ez. destruct (Z.eqb_spec r r'); destruct result; cbn; rewrite ?andb_false_r, ?andb_true_r, ?orb_false_r; done.
Qed.

(** Round trip: an element reads back as the bits of what was written. *)
Lemma element_write_read reg index bytes value v :
  bytes_ok v -> 0 <= bytes ->
  vector_snapshot_read (element_write reg index bytes value v) reg index bytes = wrap (8 * bytes) value.
Proof.
  intros Hv Hb. apply Z.bits_inj'. intros i Hi.
  rewrite snapshot_read_testbit, testbit_wrap, element_write_vbit by (by apply element_write_ok || lia). cbv zeta.
  destruct (Z.ltb_spec i (8 * bytes)); [|done]. cbn [andb].
  set (base := 128 * reg + 8 * bytes * index).
  replace (base <=? base + i) with true by lia. replace (base + i <? base + 8 * bytes) with true by lia.
  cbn [andb]. f_equal. lia.
Qed.
