(* ===== verification/VecSpec.v ===== *)
(** * VecSpec: what an element instruction may change *)
From S2P Require Import Prelude Config Tlb Fp Machine Trap Vector VecAlu VecBits VecExec.

#[local] Open Scope Z_scope.

Section VecSpec.
Context {Cfg : Config} {SF : SoftFloat}.

(** ** The type an instruction runs under *)

(** The geometry of a supported type: VLMAX elements fill at most the group, and
    elements of twice the width the group of the next exponent. *)
Record typed (i : vinst) : Prop := {
  ty_destination : 0 <= destination i < 32;
  ty_source1 : 0 <= source1 i < 32;
  ty_source2 : 0 <= source2 i < 32;
  ty_bytes : one_of (bytes i) [1; 2; 4; 8] = true;
  ty_lmul : -3 <= lmul i <= 3;
  ty_group : group i = group_of (lmul i);
  ty_maximum : 0 < maximum i <= 128;
  ty_fit : maximum i * bytes i <= 16 * group i;
  ty_wide : maximum i * (bytes i * 2) <= 16 * group_of (lmul i + 1);
  ty_index : maximum i * 2 <= 16 * group_of (gather_index_lmul i);
}.

Definition type_check (sew l : Z) : bool :=
  let maximum := vlmax_fields sew l in
  let lmul := if l <? 4 then l else l - 8 in
  (maximum =? 0)
  || ((maximum * (1 << sew) <=? 16 * group_of lmul)
      && (maximum * ((1 << sew) * 2) <=? 16 * group_of (lmul + 1))
      && (maximum * 2 <=? 16 * group_of (lmul + 1 - Z.log2 (1 << sew)))
      && ((if l <? 4 then 1 << l else 1) =? group_of lmul)
      && one_of (1 << sew) [1; 2; 4; 8] && (-3 <=? lmul) && (lmul <=? 3)).
Lemma type_checked : all_below 8 (fun sew => all_below 8 (type_check sew)) = true.
Proof. vm_compute. reflexivity. Qed.

Lemma land_31_range x : 0 <= x .& 31 < 32.
Proof.
  assert (x .& 31 = x mod 32) as -> by (apply (Z.land_ones x 5); lia).
  apply Z.mod_pos_bound. lia.
Qed.

Lemma vector_vlmax_fields vtype :
  vector_vlmax vtype <> 0 -> vector_vlmax vtype = vlmax_fields ((vtype >> 3) .& 7) (vtype .& 7).
Proof. unfold vector_vlmax. by destruct (nz _). Qed.

Lemma decode_typed instruction m :
  maximum (decode_vinst instruction m) <> 0 -> typed (decode_vinst instruction m).
Proof.
  intros H. pose proof (vector_vlmax_spec (CSR m CSR_VTYPE)) as [Hr _].
  unfold decode_vinst in *. cbv zeta in *. cbn [maximum] in H.
  pose proof (vector_vlmax_fields _ H) as E. set (vtype := CSR m CSR_VTYPE) in *.
  pose proof (land_7_range (vtype >> 3)) as Hs. pose proof (land_7_range vtype) as Hl.
  pose proof (all_below_spec _ _ (all_below_spec _ _ type_checked _ Hs) _ Hl) as C. cbv beta in C.
  unfold type_check in C. rewrite <-E in C. rewrite (proj2 (Z.eqb_neq _ _) H) in C. cbn [orb] in C.
  cbv zeta in C. rewrite !andb_true_iff, !Z.leb_le, Z.eqb_eq in C.
  destruct C as ((((((C1 & C2) & C0) & C3) & C4) & C5) & C6).
  split; unfold gather_index_lmul; cbn [destination source1 source2 bytes group lmul maximum]; try apply land_31_range; try done; lia || by rewrite C3.
Qed.

(** ** Confinement *)

(** The state but for the registers and the CSRs. *)
Definition rest (m : machine) : machine :=
  ((((m <| sr := ∅ |>) <| gpr := ∅ |>) <| fpr := ∅ |>) <| vreg := ∅ |>) <| csr_dirty := false |>.

(** The CSRs an element instruction writes. *)
Definition vector_csr (csr : Z) : bool :=
  one_of (csr .& 0xfff) [CSR_VSTART; CSR_VXSAT; CSR_VCSR; CSR_FCSR; CSR_MSTATUS; CSR_VSSTATUS].

(** From [m] to [m'] only the [g] vector registers from [d] on, the integer or
    floating-point register [d] and those CSRs change; accrued floating-point
    flags stay. *)
Record touches (d g : Z) (m m' : machine) : Prop := {
  t_rest : rest m' = rest m;
  t_gpr : gpr m' = gpr m \/ d <> 0 /\ exists v, gpr m' = aset (gpr m) d v;
  t_fpr : forall r, r <> d -> aget (fpr m') r = aget (fpr m) r;
  t_csr : forall c, vector_csr c = false -> CSR m' c = CSR m c;
  t_flags : forall n, 0 <= n -> Z.testbit (CSR m CSR_FCSR) n = true -> Z.testbit (CSR m' CSR_FCSR) n = true;
  t_vreg : forall a, ~ (16 * d <= a < 16 * (d + g)) -> aget (vreg m') a = aget (vreg m) a;
  t_bytes : bytes_ok (vreg m) -> bytes_ok (vreg m');
  t_wf : vector_wf m -> vector_wf m';
}.

#[global] Instance touches_refl d g : Reflexive (touches d g).
Proof. intros m. split; auto. Qed.

#[global] Instance touches_trans d g : Transitive (touches d g).
Proof.
  intros x y z H1 H2. split.
  - by rewrite (t_rest _ _ _ _ H2), (t_rest _ _ _ _ H1).
  - destruct (t_gpr _ _ _ _ H2) as [->|(Hd & v & ->)]; [apply H1|]. right. split; [done|].
    destruct (t_gpr _ _ _ _ H1) as [->|(_ & w & ->)]; [by exists v|]. exists v. apply aset_aset_eq.
  - intros r Hr. by rewrite (t_fpr _ _ _ _ H2), (t_fpr _ _ _ _ H1).
  - intros c Hc. by rewrite (t_csr _ _ _ _ H2), (t_csr _ _ _ _ H1).
  - intros n Hn H. by apply (t_flags _ _ _ _ H2), (t_flags _ _ _ _ H1).
  - intros a Ha. by rewrite (t_vreg _ _ _ _ H2), (t_vreg _ _ _ _ H1).
  - intros H. by apply (t_bytes _ _ _ _ H2), (t_bytes _ _ _ _ H1).
  - intros H. by apply (t_wf _ _ _ _ H2), (t_wf _ _ _ _ H1).
Qed.

(** A change of the vector registers only. *)
Lemma touches_vreg d g m f :
  (forall a, ~ (16 * d <= a < 16 * (d + g)) -> aget (f (vreg m)) a = aget (vreg m) a) ->
  (bytes_ok (vreg m) -> bytes_ok (f (vreg m))) -> touches d g m (m <| vreg ::= f |>).
Proof.
  intros Ha Hb. split; try done; [by left|]. intros [H1 H2 H3 H4 H5]. by split.
Qed.

Lemma touches_element_write d g index bytes value m :
  0 <= index -> 0 <= bytes -> (index + 1) * bytes <= 16 * g -> touches d g m (vector_element_write d index bytes value m).
Proof.
  intros Hi Hb Hg. apply touches_vreg; [|apply element_write_ok].
  intros a Ha. unfold element_write. rewrite vector_element_at_linear, write_bytes_byte, Z2Nat.id by lia.
  destruct (Z.leb_spec (16 * d + index * bytes + 0) a); [|done].
  destruct (Z.ltb_spec a (16 * d + index * bytes + 0 + bytes)); [|done]. nia.
Qed.

Lemma touches_mask_write d g index result m :
  0 <= index < 128 -> 1 <= g -> touches d g m (vector_mask_write d index result m).
Proof.
  intros Hi Hg. apply touches_vreg; [|apply mask_bit_set_ok].
  intros a Ha. unfold mask_bit_set. apply aget_aset_ne.
  assert (0 <= index / 8 < 16) by (Z.to_euclidean_division_equations; lia). lia.
Qed.

Lemma touches_setR d g v m : d <> 0 -> touches d g m (setR d v m).
Proof. intros Hd. split; try done; [right; eauto|]. intros [H1 H2 H3 H4 H5]. by split. Qed.

Lemma touches_fpr d g v m : touches d g m (set_fpr_raw d v m).
Proof.
  split; try done; [by left| |intros [H1 H2 H3 H4 H5]; by split].
  intros r Hr. unfold set_fpr_raw. fields. by rewrite aget_aset_ne.
Qed.

(** A write of one of the CSRs. *)
Lemma touches_setCSR d g c v m :
  vector_csr c = true -> c .& 0xfff <> CSR_FCSR -> (vector_wf m -> vector_wf (setCSR c v m)) ->
  touches d g m (setCSR c v m).
Proof.
  intros Hc Hf Hw. split; try done; [by left| |].
  - intros c' Hc'. rewrite CSR_setCSR_ne; [done|]. intros E. unfold vector_csr in *. congruence.
  - intros n Hn H. by rewrite CSR_setCSR_ne.
Qed.

Lemma touches_fcsr d g flags m : touches d g m (orCSR CSR_FCSR flags m).
Proof.
  unfold orCSR. split; try done; [by left| | |].
  - intros c' Hc'. rewrite CSR_setCSR_ne; [done|]. intros E. unfold vector_csr in Hc'. by rewrite <-E in Hc'.
  - intros n Hn H. by rewrite CSR_setCSR_eq, Z.lor_spec, H.
  - intros [H1 H2 H3 H4 H5]. by split; mach.
Qed.

Lemma touches_saturate d g b m : touches d g m (saturate b m).
Proof.
  destruct b; cbn [saturate]; [|done]. set (m1 := setCSR CSR_VXSAT 1 m).
  assert (H : sr m1 = aset (sr m) (CSR_VXSAT .& 0xfff) 1) by done.
  split; try done; [by left| | |].
  - intros c Hc. unfold vector_csr in Hc. subst m1.
    rewrite !CSR_setCSR_ne; [done|..]; intros E; by rewrite <-E in Hc.
  - intros n Hn E. subst m1. by mach.
  - intros [H1 H2 H3 H4 H5]. subst m1. split; mach; try done; try lia.
    assert (E : CSR m CSR_VXRM = 0 \/ CSR m CSR_VXRM = 1 \/ CSR m CSR_VXRM = 2 \/ CSR m CSR_VXRM = 3) by lia.
    unfold wshl, word, XLEN. by destruct CONFIG_RV64, E as [-> |[-> |[-> | ->]]].
Qed.

Lemma touches_finish d g floating m :
  let m' := vector_finish floating m in touches d g m m' /\ CSR m' CSR_VSTART = 0.
Proof.
  unfold vector_finish, vector_mark_dirty, orCSR. cbv zeta.
  assert (H : forall m1 c v, (c = CSR_MSTATUS \/ c = CSR_VSSTATUS) -> touches d g m m1 -> touches d g m (setCSR c v m1)).
  { intros m1 c v Hc Ht. rewrite Ht. apply touches_setCSR; [by destruct Hc as [->| ->].. |].
    intros [H1 H2 H3 H4 H5]. split; destruct Hc as [->| ->]; by mach. }
  assert (H0 : touches d g m (setCSR CSR_VSTART 0 m)).
  { apply touches_setCSR; [done..|]. intros [H1 H2 H3 H4 H5]. split; mach; try done; lia. }
  assert (Hd : forall m1, touches d g m m1 -> touches d g m (m1 <| csr_dirty := true |>)).
  { intros m1 H1. rewrite H1. split; try done; [by left|]. intros [? ? ? ? ?]. by split. }
  destruct floating; (split; [apply Hd|]); destruct (virt _); repeat (apply H; [solve [auto]|]); try exact H0; by mach.
Qed.

(** ** Loops *)

Lemma touches_vfold {S} (p : S -> machine) d g f n first s :
  (forall index s, first <= index < first + Z.of_nat n -> touches d g (p s) (p (f index s))) ->
  touches d g (p s) (p (vfold f n first s)).
Proof.
  revert first s. induction n as [|n IH]; intros first s H; cbn [vfold]; [done|].
  transitivity (p (f first s)); [apply H; lia | apply IH; intros; apply H; lia].
Qed.

(** The elements of a loop up to [last]. *)
Lemma touches_elements {S} (p : S -> machine) d g f first last s :
  (forall index s, first <= index < last -> touches d g (p s) (p (f index s))) ->
  touches d g (p s) (p (vfold f (elements first last) first s)).
Proof. intros H. apply touches_vfold. intros index s' Hi. apply H. unfold elements in Hi. lia. Qed.

Lemma touches_vloop d g f m :
  (forall index m', CSR m CSR_VSTART <= index < CSR m CSR_VL -> touches d g m' (f index m')) ->
  touches d g m (vloop f m).
Proof. intros H. by apply (touches_elements id). Qed.

Lemma touches_vloop_flags d g f m :
  (forall index m', CSR m CSR_VSTART <= index < CSR m CSR_VL -> touches d g m' (f index m').1) ->
  touches d g m (vloop_flags f m).1.
Proof.
  intros H. refine (touches_elements fst d g _ _ _ (m, 0) _). intros index [m' flags] Hi. cbn [fst].
  specialize (H index m' Hi). by destruct (f index m').
Qed.

Lemma touches_accrue d g m run : touches d g m run.1 -> touches d g m (accrue run).
Proof. intros H. rewrite H. apply touches_fcsr. Qed.

End VecSpec.
