(* ===== verification/VecSafe.v ===== *)
(** * VecSafe: every element instruction stays within its destination *)
From S2P Require Import Prelude Config Tlb Fp Machine Trap Vector VecAlu VecBits VecExec VecSpec.

#[local] Open Scope Z_scope.

Section VecSafe.
Context {Cfg : Config} {SF : SoftFloat}.

(** The change is confined to a valid register group at the destination. *)
Definition confined (i : vinst) (m m' : machine) : Prop :=
  exists g, 1 <= g /\ vector_group_valid (destination i) g = true /\ touches (destination i) g m m'.

Definition in_type (i : vinst) (m : machine) : Prop :=
  typed i /\ 0 <= CSR m CSR_VSTART /\ CSR m CSR_VL <= maximum i.

Lemma bytes_cases i : typed i -> bytes i = 1 \/ bytes i = 2 \/ bytes i = 4 \/ bytes i = 8.
Proof.
  intros H. pose proof (ty_bytes i H) as E. unfold one_of in E. cbn [existsb] in E.
  rewrite !orb_true_iff, !Z.eqb_eq in E. lia.
Qed.

Lemma group_of_pos e : 1 <= group_of e.
Proof.
  unfold group_of. destruct (Z.ltb_spec 0 e); [|lia]. rewrite Z.shiftl_1_l.
  pose proof (Z.pow_pos_nonneg 2 e). lia.
Qed.
Lemma group_pos i : typed i -> 1 <= group i.
Proof. intros H. rewrite (ty_group i H). apply group_of_pos. Qed.

(** Element [index] of the type, and of the type of twice the width, are in their groups. *)
Lemma fits_group i index : typed i -> 0 <= index < maximum i -> (index + 1) * bytes i <= 16 * group i.
Proof. intros H Hi. pose proof (ty_fit i H). destruct (bytes_cases i H) as [E|[E|[E|E]]]; rewrite E in *; lia. Qed.
Lemma fits_wide i index :
  typed i -> 0 <= index < maximum i -> (index + 1) * (bytes i * 2) <= 16 * group_of (lmul i + 1).
Proof. intros H Hi. pose proof (ty_wide i H). destruct (bytes_cases i H) as [E|[E|[E|E]]]; rewrite E in *; lia. Qed.

Lemma confined_group i m m' g :
  1 <= g -> vector_group_valid (destination i) g = true -> touches (destination i) g m m' -> confined i m m'.
Proof. intros. by exists g. Qed.
Lemma valid_one i : typed i -> vector_group_valid (destination i) 1 = true.
Proof.
  intros H. pose proof (ty_destination i H). unfold vector_group_valid. rewrite Z.mod_1_r.
  replace (destination i + 1 <=? 32) with true by lia. done.
Qed.
Lemma confined_one i m m' : typed i -> touches (destination i) 1 m m' -> confined i m m'.
Proof. intros H. apply confined_group; [lia | by apply valid_one]. Qed.

(** A write of the scalar element 0. *)
Lemma confined_scalar i m b v :
  typed i -> 0 <= b <= 16 -> confined i m (vector_element_write (destination i) 0 b v m).
Proof. intros H Hb. apply confined_one; [done|]. apply touches_element_write; lia. Qed.

End VecSafe.

(** Takes a legality apart: every conjunct is a hypothesis. *)
Ltac split_legal H :=
  rewrite ?andb_true_iff in H; repeat match type of H with _ /\ _ => let H' := fresh H in destruct H as [H H'] end.

(** One iteration: the writes it may make. *)
Ltac touch1 :=
  lazymatch goal with
  | |- touches _ _ ?m ?m => reflexivity
  | |- touches _ _ ?m (saturate _ ?x) => transitivity x; [|apply touches_saturate]
  | |- touches _ _ _ (vector_element_write _ _ _ _ _) => apply touches_element_write
  | |- touches _ _ _ (vector_mask_write _ _ _ _) => apply touches_mask_write
  | |- touches _ _ _ (fst (_, _)) => cbn [fst]
  | |- touches _ _ _ (fst (match ?x with _ => _ end)) => destruct x
  | |- touches _ _ _ (match ?x with _ => _ end) => destruct x
  end.
Ltac touch := repeat touch1.

Section Blocks.
Context {Cfg : Config} {SF : SoftFloat}.
Implicit Types (i : vinst) (m : machine).

Lemma move_confined i m : in_type i m -> move_legal i m = true -> confined i m (move_exec i m).
Proof.
  intros (T & Hs & Hl) L. unfold move_legal in L. split_legal L.
  assert (Hg : 1 <= move_group i) by (pose proof (ty_source1 i T); unfold move_group; lia).
  apply (confined_group i m _ (move_group i)); [done..|].
  apply (touches_elements id). intros index m' Hi. unfold move_element, id.
  assert ((index + 1) * bytes i <= 16 * move_group i).
  { destruct (bytes_cases i T) as [E|[E|[E|E]]]; rewrite E in *; Z.to_euclidean_division_equations; lia. }
  touch; pose proof (bytes_cases i T); lia.
Qed.

Lemma insert_confined i m : in_type i m -> confined i m (insert_exec i m).
Proof.
  intros (T & _). pose proof (bytes_cases i T). unfold insert_exec.
  destruct (_ <? _); [apply confined_scalar; [done|lia] | by apply confined_one].
Qed.

(** The loops over the group, and over a group of elements twice as wide. *)
Lemma vloop_confined g i m f :
  in_type i m -> 1 <= g -> vector_group_valid (destination i) g = true ->
  (forall index m', 0 <= index < maximum i -> touches (destination i) g m' (f index m')) ->
  confined i m (vloop f m).
Proof.
  intros (T & Hs & Hl) Hg V H. apply (confined_group i m _ g); [done..|].
  apply touches_vloop. intros index m' Hi. apply H. lia.
Qed.
Lemma vloop_flags_confined g i m f :
  in_type i m -> 1 <= g -> vector_group_valid (destination i) g = true ->
  (forall index m', 0 <= index < maximum i -> touches (destination i) g m' (f index m').1) ->
  confined i m (accrue (vloop_flags f m)).
Proof.
  intros (T & Hs & Hl) Hg V H. apply (confined_group i m _ g); [done..|].
  apply touches_accrue, touches_vloop_flags. intros index m' Hi. apply H. lia.
Qed.

Lemma zvbb_confined i m : in_type i m -> zvbb_legal i m = true -> confined i m (zvbb_exec i m).
Proof.
  intros I L. pose proof I as [T _]. unfold zvbb_legal in L. cbv zeta in L. split_legal L.
  apply (vloop_confined (group_of (lmul i + b2z (zvbb_widening i)))); [done | apply group_of_pos | done|].
  intros index m' Hi. pose proof (fits_group i index T Hi). pose proof (fits_wide i index T Hi).
  pose proof (ty_group i T) as Eg. pose proof (bytes_cases i T). unfold zvbb_element. cbv zeta.
  destruct (zvbb_unary i) eqn:U; [|destruct (zvbb_widening i) eqn:W].
  - replace (zvbb_widening i) with false.
    + rewrite Z.add_0_r, <-Eg. touch; lia.
    + unfold zvbb_unary, zvbb_widening in *. split_legal U. apply Z.eqb_eq in U. by rewrite U.
  - touch; cbn [b2z]; lia.
  - cbn [b2z]. rewrite Z.add_0_r, <-Eg. touch; lia.
Qed.

(** Blocks whose destination is the group of the type. *)
Lemma group_confined i m f :
  in_type i m -> vector_group_valid (destination i) (group i) = true ->
  (forall index m', 0 <= index < maximum i -> (index + 1) * bytes i <= 16 * group i -> 0 <= bytes i ->
     touches (destination i) (group i) m' (f index m')) ->
  confined i m (vloop f m).
Proof.
  intros I V H. pose proof I as [T _]. pose proof (bytes_cases i T). apply (vloop_confined (group i)); [done | by apply group_pos | done|].
  intros index m' Hi. apply H; [done | by apply fits_group | lia].
Qed.

(** Blocks whose destination elements may be twice as wide as those of the type. *)
Definition wide_bytes i (widen : bool) : Z := if widen then bytes i * 2 else bytes i.
Lemma wide_flags_confined i m f widen :
  in_type i m -> vector_group_valid (destination i) (group_of (lmul i + b2z widen)) = true ->
  (forall index m', 0 <= index < maximum i ->
     (index + 1) * wide_bytes i widen <= 16 * group_of (lmul i + b2z widen) -> 0 <= wide_bytes i widen ->
     touches (destination i) (group_of (lmul i + b2z widen)) m' (f index m').1) ->
  confined i m (accrue (vloop_flags f m)).
Proof.
  intros I V H. pose proof I as [T _]. pose proof (bytes_cases i T).
  apply (vloop_flags_confined (group_of (lmul i + b2z widen))); [done | apply group_of_pos | done|].
  intros index m' Hi. apply H; [done | | destruct widen; cbn [wide_bytes]; lia].
  destruct widen; cbn [wide_bytes b2z]; [by apply fits_wide|]. rewrite Z.add_0_r, <-(ty_group i T). by apply fits_group.
Qed.

Lemma fp_confined i m : in_type i m -> fp_legal i m = true -> confined i m (fp_exec i m).
Proof.
  intros I L. pose proof I as [T _]. pose proof (bytes_cases i T) as Hb. unfold fp_legal in L. split_legal L.
  unfold fp_exec, fp_run. destruct (fp_extract i).
  { apply confined_one; [done|]. apply touches_accrue, touches_fpr. }
  cbn [orb] in L0. cbv zeta. destruct (fp_insert i).
  { apply confined_one; [done|]. apply touches_accrue. cbn [fst]. touch; lia. }
  cbn [orb] in L0. unfold fp_groups_legal in L0. split_legal L0.
  assert (Hl : forall f, vector_group_valid (destination i) (group i) = true ->
    (forall index m', 0 <= index < maximum i -> (index + 1) * bytes i <= 16 * group i -> 0 <= bytes i ->
       touches (destination i) (group i) m' (f index m')) -> confined i m (accrue (vloop f m, 0))).
  { intros f V Hf. destruct (group_confined i m f I V Hf) as (g & H1 & H2 & H3). exists g.
    split; [done|]. split; [done|]. by apply touches_accrue. }
  destruct (fp_compute i) eqn:C.
  { apply (vloop_flags_confined (if fp_compare i then 1 else group i)); [done| |done|].
    { pose proof (group_pos i T). destruct (fp_compare i); lia. }
    intros index m' Hi. pose proof (fits_group i index T Hi). pose proof (ty_maximum i T).
    unfold fp_compute_element. cbv zeta. destruct (fp_compare i); touch; lia. }
  replace (fp_compare i) with false in L0
    by (unfold fp_compute in C; by destruct (fp_compare i); rewrite ?orb_true_r in C).
  destruct (fp_slide i); apply Hl; try done; intros index m' Hi H1 H2;
    [unfold fp_slide_element | unfold fp_merge_element]; cbv zeta; touch; lia.
Qed.

Lemma resize_confined i m : in_type i m -> resize_legal i m = true -> confined i m (resize_exec i m).
Proof.
  intros I L. unfold resize_legal in L. cbv zeta in L. split_legal L.
  apply (wide_flags_confined i m _ (resize_widen i)); [done..|]. intros index m' Hi H1 H2.
  unfold resize_element. cbv zeta. unfold wide_bytes in *. touch; done || apply Hi.
Qed.

Lemma fp_integer_confined i m : in_type i m -> fp_integer_legal i m = true -> confined i m (fp_integer_exec i m).
Proof.
  intros I L. unfold fp_integer_legal in L. cbv zeta in L. split_legal L.
  apply (wide_flags_confined i m _ (fp_integer_widen i)); [done..|]. intros index m' Hi H1 H2.
  unfold fp_integer_element. cbv zeta.
  assert (E : destination_bytes_of i = wide_bytes i (fp_integer_widen i)).
  { unfold destination_bytes_of, wide_bytes. destruct (fp_integer_widen i); lia. }
  touch; rewrite ?E; lia.
Qed.

Lemma fp_widen_confined i m : in_type i m -> fp_widen_legal i m = true -> confined i m (fp_widen_exec i m).
Proof.
  intros I L. unfold fp_widen_legal in L. cbv zeta in L. split_legal L. apply Z.eqb_eq in L.
  apply (wide_flags_confined i m _ true); [done..|]. intros index m' Hi H1 H2.
  cbn [wide_bytes] in H1. rewrite L in H1. unfold fp_widen_element. cbv zeta. touch; lia.
Qed.

Lemma reduce_bytes_cases i : typed i -> reduction_bytes i <= 16 /\ 0 <= reduction_bytes i.
Proof. intros T. pose proof (bytes_cases i T). unfold reduction_bytes. destruct (form i =? 0); lia. Qed.

Lemma fp_reduce_confined i m : in_type i m -> confined i m (fp_reduce_exec i m).
Proof.
  intros [T _]. pose proof (bytes_cases i T). unfold fp_reduce_exec. cbv zeta.
  destruct (_ =? 0); [by apply confined_one|]. destruct (vfold _ _ _ _) as [result flags].
  apply confined_one; [done|]. etransitivity; [|apply touches_fcsr].
  unfold fp_reduce_bytes. touch; destruct (reduce_widen i); lia.
Qed.

Lemma mask_scan_confined i m : in_type i m -> confined i m (mask_scan_exec i m).
Proof.
  intros [T _]. unfold mask_scan_exec. cbv zeta. apply confined_one; [done|].
  destruct (nz (destination i)) eqn:E; [|done]. by apply touches_setR, nz_true.
Qed.

Lemma slide_confined i m : in_type i m -> slide_legal i = true -> confined i m (slide_exec i m).
Proof.
  intros I L. unfold slide_legal in L. split_legal L. apply group_confined; [done..|].
  intros index m' Hi H1 H2. unfold slide_element. cbv zeta. touch; lia.
Qed.

Lemma gather_confined i m : in_type i m -> gather_legal i = true -> confined i m (gather_exec i m).
Proof.
  intros I L. unfold gather_legal in L. cbv zeta in L. split_legal L. apply group_confined; [done..|].
  intros index m' Hi H1 H2. unfold gather_element. cbv zeta. touch; lia.
Qed.

Lemma prefix_confined i m : in_type i m -> prefix_legal i m = true -> confined i m (prefix_exec i m).
Proof.
  intros (T & Hs & Hl) L. unfold prefix_legal in L. cbv zeta in L. split_legal L.
  pose proof (group_pos i T). pose proof (ty_maximum i T). pose proof (bytes_cases i T).
  apply (confined_group i m _ (if mask_prefix i then 1 else group i)); [destruct (mask_prefix i); lia | done|].
  unfold prefix_exec. refine (touches_elements (fun s => s.1.1) _ _ _ _ _ (m, 0, false) _).
  intros index [[m' count] seen] Hi. cbn [fst]. pose proof (fits_group i index T ltac:(lia)).
  unfold prefix_element. destruct (mask_prefix i), (active i index m'); cbn [negb fst]; cbv iota zeta; cbn [fst]; touch; lia.
Qed.

Lemma compress_loop_confined i n first m out :
  typed i -> 0 <= out <= first -> first + Z.of_nat n <= maximum i ->
  touches (destination i) (group i) m (vfold (compress_element i) n first (m, out)).1.
Proof.
  intros T. revert first m out. induction n as [|n IH]; intros first m out Ho Hn; [done|].
  rewrite Nat2Z.inj_succ in Hn. cbn [vfold]. unfold compress_element at 2.
  destruct (negb _); [apply IH; lia|]. etransitivity; [|apply IH; lia].
  pose proof (bytes_cases i T). pose proof (fits_group i out T ltac:(lia)). touch; lia.
Qed.

Lemma compress_confined i m : in_type i m -> compress_legal i m = true -> confined i m (compress_exec i m).
Proof.
  intros (T & Hs & Hl) L. unfold compress_legal in L. split_legal L. pose proof (ty_maximum i T).
  apply (confined_group i m _ (group i)); [by apply group_pos | done|].
  apply compress_loop_confined; [done | lia|]. unfold elements. lia.
Qed.

Lemma reduction_confined i m : in_type i m -> confined i m (reduction_exec i m).
Proof.
  intros [T _]. unfold reduction_exec. cbv zeta. destruct (_ =? 0); [by apply confined_one|].
  apply confined_scalar; [done|]. pose proof (reduce_bytes_cases i T). lia.
Qed.

Lemma extend_confined i m : in_type i m -> extend_legal i = true -> confined i m (extend_exec i m).
Proof.
  intros I L. unfold extend_legal in L. cbv zeta in L. split_legal L. apply group_confined; [done..|].
  intros index m' Hi H1 H2. unfold extend_element. cbv zeta. touch; lia.
Qed.

Lemma narrow_confined i m : in_type i m -> narrow_legal i = true -> confined i m (narrow_exec i m).
Proof.
  intros I L. unfold narrow_legal in L. cbv zeta in L. split_legal L. apply group_confined; [done..|].
  intros index m' Hi H1 H2. unfold narrow_element. cbv zeta. touch; lia.
Qed.

Lemma widen_confined i m : in_type i m -> widen_legal i = true -> confined i m (widen_exec i m).
Proof.
  intros I L. pose proof I as [T _]. pose proof (bytes_cases i T). unfold widen_legal in L. cbv zeta in L. split_legal L.
  apply (vloop_confined (group_of (lmul i + 1))); [done | apply group_of_pos | done|].
  intros index m' Hi. pose proof (fits_wide i index T Hi). unfold widen_element. cbv zeta. touch; lia.
Qed.

Lemma muladd_confined i m : in_type i m -> muladd_legal i = true -> confined i m (muladd_exec i m).
Proof.
  intros I L. unfold muladd_legal in L. split_legal L. apply group_confined; [done..|].
  intros index m' Hi H1 H2. unfold muladd_element. cbv zeta. touch; lia.
Qed.

Lemma integer_confined i m :
  in_type i m -> extract i || integer_legal i = true -> confined i m (integer_exec i m).
Proof.
  intros I L. pose proof I as [T _]. unfold integer_exec. destruct (extract i).
  { apply confined_one; [done|]. unfold extract_exec. cbv zeta.
    destruct (nz (destination i)) eqn:E; [|done]. by apply touches_setR, nz_true. }
  cbn [orb] in L. unfold integer_legal in L. split_legal L.
  pose proof (group_pos i T). pose proof (ty_maximum i T). pose proof (bytes_cases i T).
  apply (vloop_confined (if mask_result i then 1 else group i)); [done | destruct (mask_result i); lia | done|].
  intros index m' Hi. pose proof (fits_group i index T ltac:(lia)). unfold integer_element. cbv zeta.
  destruct (mask_result i); touch; lia.
Qed.

(** ** The whole function *)

Lemma block_confined i legal floating f m :
  (legal = true -> confined i m (f m)) ->
  match block legal floating f m with
  | (false, m') => m' = m
  | (true, m') => CSR m' CSR_VSTART = 0 /\ confined i m m'
  end.
Proof.
  intros H. unfold block. destruct legal; [|done]. destruct (H eq_refl) as (g & H1 & H2 & H3).
  destruct (touches_finish (destination i) g floating (f m)) as [Ht E]. cbv zeta in *.
  split; [done|]. exists g. split; [done|]. split; [done|]. by transitivity (f m).
Qed.

Lemma execute_typed_confined i m :
  in_type i m ->
  match execute_typed i m with
  | (false, m') => m' = m
  | (true, m') => CSR m' CSR_VSTART = 0 /\ confined i m m'
  end.
Proof.
  intros I. unfold execute_typed.
  repeat (match goal with |- context [if ?b then block _ _ _ _ else _] => destruct b end;
          [apply block_confined; intros|]); [..|done].
  - by apply insert_confined.
  - by apply zvbb_confined.
  - by apply fp_confined.
  - by apply resize_confined.
  - by apply fp_integer_confined.
  - by apply fp_widen_confined.
  - by apply fp_reduce_confined.
  - by apply mask_scan_confined.
  - by apply slide_confined.
  - by apply gather_confined.
  - by apply prefix_confined.
  - by apply compress_confined.
  - by apply reduction_confined.
  - by apply extend_confined.
  - by apply narrow_confined.
  - by apply widen_confined.
  - by apply muladd_confined.
  - by apply integer_confined.
Qed.

(** C5: an element instruction stays within its destination. An illegal one
    changes nothing. A legal one clears VSTART and changes only a valid register
    group at its destination, which lies within the 32 registers, the scalar
    destination, and the vector and floating-point status CSRs; the flags accrued
    so far stay raised, the registers hold bytes and the configuration stays well
    formed. *)
Theorem riscv_vector_execute_confined instruction m :
  vector_wf m ->
  match riscv_vector_execute instruction m with
  | (false, m') => m' = m
  | (true, m') => CSR m' CSR_VSTART = 0 /\ confined (decode_vinst instruction m) m m'
  end.
Proof.
  intros W. unfold riscv_vector_execute. cbv zeta. set (i := decode_vinst instruction m).
  destruct (_ || _); [done|].
  assert (I : maximum i <> 0 -> CSR m CSR_VL <= maximum i -> in_type i m).
  { intros H Hl. split; [by apply decode_typed|]. split; [apply W | done]. }
  destruct (is_move i).
  { apply block_confined. intros L. apply move_confined; [|done].
    unfold move_legal in L. split_legal L. apply I; [lia|].
    destruct (wf_vtype m W) as [[_ ->]|[_ ?]]; [pose proof (vector_vlmax_spec (CSR m CSR_VTYPE)); cbn; lia | exact (proj2 H)]. }
  destruct (Z.eqb_spec (maximum i) 0); [done|]. destruct (Z.ltb_spec (maximum i) (CSR m CSR_VL)); [done|].
  cbn [orb]. by apply execute_typed_confined, I.
Qed.

End Blocks.

(** Four 32-bit elements: [v2 = 100, 101, 102, 103] and [v3 = 103, 102, 101, 100]. *)
Definition vector_running : machine :=
  let m := (riscv_vector_configure (Cfg := riscv64_ref) 0x0505f557 vector_machine).2 in
  m <| vreg := foldl (fun v k => element_write 2 k 4 (100 + k) (element_write 3 k 4 (103 - k) v)) ∅ [0; 1; 2; 3] |>.

Lemma vector_running_wf : vector_wf (Cfg := riscv64_ref) vector_running.
Proof. split; [right|..]; vm_compute; repeat split; congruence. Qed.
Lemma vector_running_bytes : bytes_ok (vreg vector_running).
Proof.
  unfold vector_running. cbv zeta. fields. cbn [foldl]. repeat apply element_write_ok.
  intros a. unfold aget, registers. rewrite lookup_empty. by split.
Qed.

#[local] Existing Instances riscv64_ref zero_float.

(** [vmsltu.vv v2, v2, v3], whose destination is a source. *)
Lemma riscv_vector_execute_confined_witness :
  exists m', riscv_vector_execute 0x6a218157 vector_running = (true, m') /\ CSR m' CSR_VSTART = 0 /\
    confined (decode_vinst 0x6a218157 vector_running) vector_running m'.
Proof.
  pose proof (riscv_vector_execute_confined 0x6a218157 vector_running vector_running_wf) as H.
  assert (E : (riscv_vector_execute 0x6a218157 vector_running).1 = true) by (vm_compute; reflexivity).
  destruct (riscv_vector_execute _ _) as [ok m']. cbn [fst] in E. subst ok. exists m'. split; [reflexivity | exact H].
Defined.
