(* ===== verification/VecLanes.v ===== *)
(** * VecLanes: the elements of an instruction do not interfere

    The loops of [VecExec] update the register file in place, some of them while
    still reading their sources from it. The legality conditions make this as
    good as computing every element from the initial state. *)
From S2P Require Import Prelude Config Tlb Fp Machine Trap Vector VecAlu VecBits VecExec VecSpec VecSafe.

#[local] Open Scope Z_scope.

(** Lane [k] of [w]-bit elements at register [d]. *)
Definition in_lane (d w k a : Z) : Prop := 128 * d + k * w <= a < 128 * d + (k + 1) * w.

Section VecLanes.
Context {Cfg : Config} {SF : SoftFloat}.

(** From [m], lanes [first .. last-1] of [m'] are what each iteration alone makes
    of them, and the rest of the file is unchanged. *)
Record lanes (d w first last : Z) (step : Z -> machine -> machine) (m m' : machine) : Prop := {
  l_lane : forall k a, first <= k < last -> in_lane d w k a -> vbit (vreg m') a = vbit (vreg (step k m)) a;
  l_rest : forall a, ~ (128 * d + first * w <= a < 128 * d + last * w) -> vbit (vreg m') a = vbit (vreg m) a;
}.

(** The state an iteration is in: below lane [k] the file may have changed. *)
Record agree (d w first k : Z) (m m' : machine) : Prop := {
  g_ok : bytes_ok (vreg m');
  g_bits : forall a, ~ (128 * d + first * w <= a < 128 * d + k * w) -> vbit (vreg m') a = vbit (vreg m) a;
  g_gpr : gpr m' = gpr m;
  g_csr : forall c, vector_csr c = false -> CSR m' c = CSR m c;
  g_fcsr : CSR m' CSR_FCSR = CSR m CSR_FCSR;
}.

(** An iteration only writes its lane. *)
Definition writes_lane (d w k : Z) (m m' : machine) : Prop := agree d w k (k + 1) m m'.
Definition lane_eq (d w k : Z) (x y : machine) : Prop :=
  forall a, in_lane d w k a -> vbit (vreg x) a = vbit (vreg y) a.

Lemma lanes_refl d w first k m : bytes_ok (vreg m) -> agree d w first k m m.
Proof. by split. Qed.

Lemma agree_step d w first k m x y :
  0 < w -> first <= k -> agree d w first k m x -> writes_lane d w k x y -> agree d w first (k + 1) m y.
Proof.
  intros Hw Hk [O1 B1 G1 C1 F1] [O2 B2 G2 C2 F2]. split; [done | | by rewrite G2 | |by rewrite F2].
  - intros a Ha. rewrite B2, B1; [done|..]; nia.
  - intros c Hc. by rewrite C2, C1.
Qed.

Lemma agree_lane d w first k m m' : 0 < w -> agree d w first k m m' -> lane_eq d w k m' m.
Proof. intros Hw H a Ha. apply (g_bits _ _ _ _ _ _ H). unfold in_lane in Ha. lia. Qed.

Lemma lanes_vfold d w first last f m n k m' :
  0 < w -> first <= k -> k + Z.of_nat n = last -> agree d w first k m m' ->
  (forall j a, first <= j < k -> in_lane d w j a -> vbit (vreg m') a = vbit (vreg (f j m)) a) ->
  (forall j x, first <= j < last -> bytes_ok (vreg x) -> writes_lane d w j x (f j x)) ->
  (forall j x, first <= j < last -> agree d w first j m x -> lane_eq d w j (f j x) (f j m)) ->
  lanes d w first last f m (vfold f n k m').
Proof.
  intros Hw Hk Hn A D Hl Hd. revert k m' Hk Hn A D. induction n as [|n IH]; intros k m' Hk Hn A D; cbn [vfold].
  - replace k with last in * by lia. split; [done | apply A].
  - rewrite Nat2Z.inj_succ in Hn. pose proof (Hl k m' ltac:(lia) (g_ok _ _ _ _ _ _ A)) as W.
    apply IH; [lia|lia|by eapply agree_step|]. intros j a Hj La.
    destruct (Z.eq_dec j k) as [->|]; [apply (Hd k m'); [lia | done | done]|].
    rewrite (g_bits _ _ _ _ _ _ W); [apply D; [lia | done]|]. unfold in_lane in La. nia.
Qed.

Lemma lanes_vloop d w f m :
  0 < w -> bytes_ok (vreg m) ->
  (forall j x, CSR m CSR_VSTART <= j < CSR m CSR_VL -> bytes_ok (vreg x) -> writes_lane d w j x (f j x)) ->
  (forall j x, CSR m CSR_VSTART <= j < CSR m CSR_VL -> agree d w (CSR m CSR_VSTART) j m x -> lane_eq d w j (f j x) (f j m)) ->
  lanes d w (CSR m CSR_VSTART) (CSR m CSR_VL) f m (vloop f m).
Proof.
  intros Hw Hb Hl Hd. unfold vloop, elements.
  destruct (Z.le_gt_cases (CSR m CSR_VSTART) (CSR m CSR_VL)).
  - apply lanes_vfold; [done | lia | lia | by apply lanes_refl | intros; lia | done | done].
  - replace (Z.to_nat _) with 0%nat by lia. split; [intros; lia | done].
Qed.

(** A loop that also accumulates flags updates the file as one that does not. *)
Lemma vfold_flags_state (f : Z -> machine -> machine * Z) n k m flags :
  (vfold (fun index '(m, fp_flags) => let '(m, flags) := f index m in (m, fp_flags .| flags)) n k (m, flags)).1
  = vfold (fun k m => (f k m).1) n k m.
Proof.
  revert k m flags. induction n as [|n IH]; intros k m flags; [done|]. cbn [vfold]. destruct (f k m) as [x fl]. apply IH.
Qed.
Lemma vloop_flags_state f m : (vloop_flags f m).1 = vloop (fun k m => (f k m).1) m.
Proof. apply vfold_flags_state. Qed.

(** ** Writes *)

Lemma writes_refl d w k m : bytes_ok (vreg m) -> writes_lane d w k m m.
Proof. apply lanes_refl. Qed.

Lemma writes_element d k b v m :
  0 <= b -> bytes_ok (vreg m) -> writes_lane d (8 * b) k m (vector_element_write d k b v m).
Proof.
  intros Hb Hm. split; try done; [by apply element_write_ok|]. intros a Ha. unfold vector_element_write. fields.
  rewrite element_write_vbit by done. cbv zeta.
  destruct (Z.leb_spec (128 * d + 8 * b * k) a); [|done]. destruct (Z.ltb_spec a (128 * d + 8 * b * k + 8 * b)); [|done]. nia.
Qed.
Lemma writes_mask d k r m : 0 <= k -> bytes_ok (vreg m) -> writes_lane d 1 k m (vector_mask_write d k r m).
Proof.
  intros Hk Hm. split; try done; [by apply mask_bit_set_ok|]. intros a Ha. unfold vector_mask_write. fields.
  rewrite mask_bit_set_vbit by done. destruct (Z.eqb_spec a (128 * d + k)); [lia|done].
Qed.
Lemma writes_saturate d w k b x m : writes_lane d w k x m -> writes_lane d w k x (saturate b m).
Proof.
  intros [O B G C F]. destruct b; cbn [saturate]; [|done]. split; [done | done | done | |].
  - intros c Hc. unfold vector_csr in Hc. rewrite !CSR_setCSR_ne; [by apply C|..]; intros E; by rewrite <-E in Hc.
  - by mach.
Qed.

Lemma lane_eq_element d k b v v' x y :
  0 <= b -> v = v' -> lane_eq d (8 * b) k (vector_element_write d k b v x) (vector_element_write d k b v' y).
Proof.
  intros Hb -> a Ha. unfold in_lane in Ha. unfold vector_element_write. fields. rewrite !element_write_vbit by done. cbv zeta.
  destruct (Z.leb_spec (128 * d + 8 * b * k) a); [|lia]. destruct (Z.ltb_spec a (128 * d + 8 * b * k + 8 * b)); [done|lia].
Qed.
Lemma lane_eq_mask d k r r' x y :
  0 <= k -> bytes_ok (vreg x) -> bytes_ok (vreg y) -> r = r' ->
  lane_eq d 1 k (vector_mask_write d k r x) (vector_mask_write d k r' y).
Proof.
  intros Hk Hx Hy -> a Ha. unfold in_lane in Ha. unfold vector_mask_write. fields.
  rewrite !mask_bit_set_vbit by done. by destruct (Z.eqb_spec a (128 * d + k)); [|lia].
Qed.
Lemma lane_eq_saturate d w k b b' x y : lane_eq d w k x y -> lane_eq d w k (saturate b x) (saturate b' y).
Proof. intros H. by destruct b, b'. Qed.

(** ** Reads of bits that the earlier iterations left alone *)

Section Reads.
Context (d w first k : Z) (m x : machine) (Hm : bytes_ok (vreg m)) (A : agree d w first k m x).

Definition unread (s sw index : Z) : Prop :=
  128 * s + sw * (index + 1) <= 128 * d + first * w \/ 128 * d + k * w <= 128 * s + sw * index.

Lemma agree_read s index b :
  0 <= b -> unread s (8 * b) index -> vector_element_read x s index b = vector_element_read m s index b.
Proof.
  intros Hb H. apply snapshot_read_ext; [apply A | done | done|]. intros a Ha. apply A. unfold unread in H. lia.
Qed.
Lemma agree_mask s index : unread s 1 index -> vector_mask_bit x s index = vector_mask_bit m s index.
Proof.
  intros H. unfold vector_mask_bit. rewrite !mask_bit_vbit. apply A. unfold unread in H. lia.
Qed.
Lemma agree_active i : (unmasked i = false -> unread 0 1 k) -> active i k x = active i k m.
Proof. intros H. unfold active. destruct (unmasked i); [done|]. by rewrite agree_mask by auto. Qed.
Lemma agree_R r : R x r = R m r.
Proof. unfold R. by rewrite (g_gpr _ _ _ _ _ _ A). Qed.
Lemma agree_vxrm : vxrm x = vxrm m.
Proof. unfold vxrm. by rewrite (g_csr _ _ _ _ _ _ A). Qed.
Lemma agree_VL : CSR x CSR_VL = CSR m CSR_VL.
Proof. by apply A. Qed.
Lemma agree_frm : frm x = frm m.
Proof. unfold frm. by rewrite (g_fcsr _ _ _ _ _ _ A). Qed.
End Reads.

End VecLanes.

(** Proves that an iteration only writes its lane, and that two runs of it agree there. *)
Ltac lane_writes1 :=
  lazymatch goal with
  | |- writes_lane _ _ _ ?m ?m => apply writes_refl; assumption
  | |- writes_lane _ _ _ _ (saturate _ _) => apply writes_saturate
  | |- writes_lane _ _ _ _ (vector_element_write _ _ _ _ _) => apply writes_element; [lia | assumption]
  | |- writes_lane _ _ _ _ (vector_mask_write _ _ _ _) => apply writes_mask; [lia | assumption]
  | |- writes_lane _ _ _ _ (fst (_, _)) => cbn [fst]
  | |- writes_lane _ _ _ _ (fst (match ?x with _ => _ end)) => destruct x
  | |- writes_lane _ _ _ _ (match ?x with _ => _ end) => destruct x
  end.
Ltac lane_writes := repeat lane_writes1.

Section Blocks.
Context {Cfg : Config} {SF : SoftFloat}.
Implicit Types (i : vinst) (m : machine).

(** ** Where the sources are *)

Lemma unread_same d w first k sw index : 0 <= k <= index -> 0 <= w <= sw -> unread d w first k d sw index.
Proof. intros. right. nia. Qed.

Lemma unread_disjoint d w first k s sw index dg sg :
  d + dg <= s \/ s + sg <= d -> 0 <= first -> 0 <= w -> 0 <= sw -> 0 <= index -> k * w <= 128 * dg -> (index + 1) * sw <= 128 * sg ->
  unread d w first k s sw index.
Proof. intros [H|H] Hf Hw Hs Hi Hd Hg; [right|left]; nia. Qed.

Lemma aligned_groups d s g :
  1 <= g -> vector_group_valid d g = true -> vector_group_valid s g = true -> d = s \/ (d + g <= s \/ s + g <= d).
Proof.
  unfold vector_group_valid. intros Hg H1 H2. apply andb_true_iff in H1 as [H1 _], H2 as [H2 _].
  apply Z.eqb_eq in H1, H2. pose proof (Z.div_mod d g ltac:(lia)). pose proof (Z.div_mod s g ltac:(lia)).
  destruct (Z.lt_trichotomy (d / g) (s / g)) as [L|[L|L]]; [right; left | left; congruence | right; right]; nia.
Qed.

Lemma overlap_false a ga b gb : overlap a ga b gb = false -> a + ga <= b \/ b + gb <= a.
Proof. unfold overlap. intros H. lia. Qed.

(** The mask of a masked instruction is out of the way of its destination. *)
Lemma unread_v0 i first k w g :
  typed i -> 0 <= first <= k -> k < 128 -> 0 <= w -> k * w <= 128 * g ->
  (destination i <> 0 \/ w <= 1) -> unread (destination i) w first k 0 1 k.
Proof.
  intros T Hf Hk Hw Hg H. pose proof (ty_destination i T).
  destruct (Z.eq_dec (destination i) 0) as [E|E]; [rewrite E in *; right; destruct H; [done|nia] | left].
  pose proof (Z.mul_nonneg_nonneg first w ltac:(lia) Hw). lia.
Qed.

(** A source group of elements as wide, aligned like the destination: element
    [index] is not among the lanes before [k]. *)
Lemma unread_group i s first k index w :
  typed i -> vector_group_valid (destination i) (group i) = true -> vector_group_valid s (group i) = true ->
  0 <= first <= k -> k <= index < maximum i -> 0 <= w <= 8 * bytes i ->
  unread (destination i) w first k s (8 * bytes i) index.
Proof.
  intros T V1 V2 Hf Hk Hw. pose proof (group_pos i T). pose proof (bytes_cases i T).
  pose proof (fits_group i index T ltac:(lia)). pose proof (fits_group i k T ltac:(lia)).
  destruct (aligned_groups _ _ _ ltac:(done) V1 V2) as [<-|D].
  - apply unread_same; lia.
  - apply (unread_disjoint _ _ _ _ _ _ _ (group i) (group i)); try done; try lia; nia.
Qed.

Lemma unread_active i m k w :
  in_type i m -> masked_v0 i = false \/ w <= 1 -> CSR m CSR_VSTART <= k < CSR m CSR_VL ->
  0 <= w <= 128 -> unmasked i = false -> unread (destination i) w (CSR m CSR_VSTART) k 0 1 k.
Proof.
  intros (T & Hs & Hl) Hv Hk Hw U. pose proof (ty_destination i T). pose proof (ty_maximum i T).
  unfold masked_v0 in Hv. rewrite U in Hv. cbn [negb andb] in Hv.
  destruct (Z.eqb_spec (destination i) 0) as [E|E].
  - rewrite E. destruct Hv as [Hv|Hv]; [done|]. apply unread_same; lia.
  - left. pose proof (Z.mul_nonneg_nonneg (CSR m CSR_VSTART) w ltac:(lia) ltac:(lia)). lia.
Qed.

Lemma masked_ok i : negb (masked_v0 i) = true -> forall w, masked_v0 i = false \/ w <= 1.
Proof. intros H w. left. by destruct (masked_v0 i). Qed.

End Blocks.

(** Rewrites the mask bit of the state at hand. *)
Ltac agree_mask_bit I Hj A :=
  lazymatch type of A with
  | agree _ ?w _ ?j _ _ =>
      lazymatch goal with
      | H : negb (masked_v0 ?i) = true |- _ =>
          rewrite (agree_active _ _ _ _ _ _ A _ (unread_active _ _ j w I (masked_ok i H w) Hj ltac:(lia)))
      end
  end.
Ltac lane_eq1 A :=
  lazymatch goal with
  | |- lane_eq _ _ _ (if ?b then _ else _) (if ?b then _ else _) => destruct b
  | |- lane_eq _ _ _ (match ?b with _ => _ end) (match ?b with _ => _ end) => destruct b
  | |- lane_eq _ _ _ (fst (if ?b then _ else _)) (fst (if ?b then _ else _)) => destruct b
  | |- lane_eq _ _ _ (fst (match ?b with _ => _ end)) (fst (match ?b with _ => _ end)) => destruct b
  | |- lane_eq _ _ _ (fst (_, _)) (fst (_, _)) => cbn [fst]
  | |- lane_eq _ _ _ (saturate _ _) (saturate _ _) => apply lane_eq_saturate
  | |- lane_eq _ _ _ (vector_element_write _ _ _ _ _) (vector_element_write _ _ _ _ _) => apply lane_eq_element; [lia | reflexivity]
  | |- lane_eq _ _ _ (vector_mask_write _ _ _ _) (vector_mask_write _ _ _ _) => apply lane_eq_mask; [lia | apply A | assumption | reflexivity]
  | |- lane_eq _ _ _ _ _ => refine (agree_lane _ _ _ _ _ _ _ A); lia
  end.
Tactic Notation "lane_eqs" hyp(A) := repeat (cbv iota; lane_eq1 A).

Section Lanes.
Context {Cfg : Config} {SF : SoftFloat}.
Implicit Types (i : vinst) (m : machine).

(** ** Blocks that read a snapshot of the file *)

Definition snapshot_lanes i m w (f : Z -> machine -> machine) : Prop :=
  lanes (destination i) w (CSR m CSR_VSTART) (CSR m CSR_VL) f m (vloop f m).

Lemma muladd_lanes i m s :
  in_type i m -> bytes_ok (vreg m) -> muladd_legal i = true ->
  snapshot_lanes i m (8 * bytes i) (muladd_element i (vreg m) s).
Proof.
  intros I Hm L. pose proof I as (T & Hs & Hl). pose proof (bytes_cases i T). unfold muladd_legal in L. split_legal L.
  apply lanes_vloop; [lia | done | |]; intros j x Hj A; unfold muladd_element; cbv zeta; [lane_writes|].
  agree_mask_bit I Hj A. lane_eqs A.
Qed.

Lemma widen_lanes i m s :
  in_type i m -> bytes_ok (vreg m) -> widen_legal i = true ->
  snapshot_lanes i m (8 * (bytes i * 2)) (widen_element i (vreg m) s).
Proof.
  intros I Hm L. pose proof I as (T & Hs & Hl). pose proof (bytes_cases i T). unfold widen_legal in L. cbv zeta in L. split_legal L.
  apply lanes_vloop; [lia | done | |]; intros j x Hj A; unfold widen_element; cbv zeta; [lane_writes|].
  agree_mask_bit I Hj A. lane_eqs A.
Qed.

Lemma extend_lanes i m :
  in_type i m -> bytes_ok (vreg m) -> extend_legal i = true ->
  snapshot_lanes i m (8 * bytes i) (extend_element i (vreg m)).
Proof.
  intros I Hm L. pose proof I as (T & Hs & Hl). pose proof (bytes_cases i T). unfold extend_legal in L. cbv zeta in L. split_legal L.
  apply lanes_vloop; [lia | done | |]; intros j x Hj A; unfold extend_element; cbv zeta; [lane_writes|].
  agree_mask_bit I Hj A. lane_eqs A.
Qed.

Lemma zvbb_lanes i m s :
  in_type i m -> bytes_ok (vreg m) -> zvbb_legal i m = true ->
  snapshot_lanes i m (8 * wide_bytes i (zvbb_widening i)) (zvbb_element i (vreg m) s).
Proof.
  intros I Hm L. pose proof I as (T & Hs & Hl). pose proof (bytes_cases i T). unfold zvbb_legal in L. cbv zeta in L. split_legal L.
  assert (U : zvbb_unary i = true -> zvbb_widening i = false).
  { intros U. unfold zvbb_unary, zvbb_widening in *. split_legal U. apply Z.eqb_eq in U. by rewrite U. }
  assert (0 <= wide_bytes i (zvbb_widening i) <= 16 /\ 0 < wide_bytes i (zvbb_widening i))
    by (destruct (zvbb_widening i); cbn [wide_bytes]; lia).
  apply lanes_vloop; [lia | done | |]; intros j x Hj A; unfold zvbb_element; cbv zeta.
  - destruct (zvbb_unary i), (zvbb_widening i); cbn [wide_bytes]; try (discriminate U; done); lane_writes.
  - agree_mask_bit I Hj A.
    destruct (zvbb_unary i), (zvbb_widening i); cbn [wide_bytes] in *; try (discriminate U; done); lane_eqs A.
Qed.

Lemma resize_lanes i m :
  in_type i m -> bytes_ok (vreg m) -> resize_legal i m = true ->
  snapshot_lanes i m (8 * wide_bytes i (resize_widen i)) (fun k m' => (resize_element i (vreg m) k m').1).
Proof.
  intros I Hm L. pose proof I as (T & Hs & Hl). pose proof (bytes_cases i T). unfold resize_legal in L. cbv zeta in L. split_legal L.
  assert (0 <= wide_bytes i (resize_widen i) <= 16 /\ 0 < wide_bytes i (resize_widen i))
    by (destruct (resize_widen i); cbn [wide_bytes]; lia).
  apply lanes_vloop; [lia | done | |]; intros j x Hj A; unfold resize_element; cbv zeta; fold (wide_bytes i (resize_widen i)); [lane_writes|].
  agree_mask_bit I Hj A.
  rewrite (agree_frm _ _ _ _ _ _ A). lane_eqs A.
Qed.

Lemma fp_integer_lanes i m :
  in_type i m -> bytes_ok (vreg m) -> fp_integer_legal i m = true ->
  snapshot_lanes i m (8 * destination_bytes_of i) (fun k m' => (fp_integer_element i (vreg m) k m').1).
Proof.
  intros I Hm L. pose proof I as (T & Hs & Hl). pose proof (bytes_cases i T). unfold fp_integer_legal in L. cbv zeta in L. split_legal L.
  assert (0 <= destination_bytes_of i <= 16 /\ 0 < destination_bytes_of i)
    by (unfold destination_bytes_of; destruct (fp_integer_widen i); lia).
  apply lanes_vloop; [lia | done | |]; intros j x Hj A; unfold fp_integer_element; cbv zeta; [lane_writes|].
  agree_mask_bit I Hj A.
  rewrite (agree_frm _ _ _ _ _ _ A). lane_eqs A.
Qed.

Lemma fp_widen_lanes i m s :
  in_type i m -> bytes_ok (vreg m) -> fp_widen_legal i m = true ->
  snapshot_lanes i m (8 * 8) (fun k m' => (fp_widen_element i (vreg m) s k m').1).
Proof.
  intros I Hm L. pose proof I as (T & Hs & Hl). pose proof (bytes_cases i T). unfold fp_widen_legal in L. cbv zeta in L. split_legal L.
  apply lanes_vloop; [lia | done | |]; intros j x Hj A; unfold fp_widen_element; cbv zeta; [lane_writes|].
  agree_mask_bit I Hj A.
  rewrite (agree_frm _ _ _ _ _ _ A). lane_eqs A.
Qed.

(** ** Blocks that read the file they update *)

Lemma narrow_lanes i m s :
  in_type i m -> bytes_ok (vreg m) -> narrow_legal i = true ->
  snapshot_lanes i m (8 * bytes i) (narrow_element i s).
Proof.
  intros I Hm L. pose proof I as (T & Hs & Hl). pose proof (bytes_cases i T). unfold narrow_legal in L. cbv zeta in L. split_legal L.
  apply lanes_vloop; [lia | done | |]; intros j x Hj A; unfold narrow_element; cbv zeta; [lane_writes|].
  agree_mask_bit I Hj A.
  pose proof (fits_wide i j T ltac:(lia)). pose proof (fits_group i j T ltac:(lia)).
  rewrite (agree_read _ _ _ _ m x Hm A (source2 i) j (bytes i * 2)); [|lia|].
  2:{ destruct (overlap (destination i) (group i) (source2 i) (group_of (lmul i + 1))) eqn:O.
      - cbn [andb negb] in L0. rewrite negb_involutive, Z.eqb_eq in L0. rewrite <-L0. apply unread_same; lia.
      - apply overlap_false in O. apply (unread_disjoint _ _ _ _ _ _ _ _ _ O); lia. }
  rewrite (agree_vxrm _ _ _ _ _ _ A).
  destruct (form i =? 0).
  - cbn [andb] in L3. rewrite negb_involutive in L3.
    rewrite (agree_read _ _ _ _ m x Hm A (source1 i) j (bytes i)); [lane_eqs A|lia|].
    apply unread_group; try done; lia.
  - lane_eqs A.
Qed.

Lemma gather_lanes i m :
  in_type i m -> bytes_ok (vreg m) -> (forall r, 0 <= R m r) -> gather_legal i = true ->
  snapshot_lanes i m (8 * bytes i) (gather_element i).
Proof.
  intros I Hm HR L. pose proof I as (T & Hs & Hl). pose proof (bytes_cases i T). unfold gather_legal in L. cbv zeta in L. split_legal L.
  apply lanes_vloop; [lia | done | |]; intros j x Hj A; unfold gather_element; cbv zeta; [lane_writes|].
  agree_mask_bit I Hj A. rewrite (agree_R _ _ _ _ _ _ A).
  pose proof (fits_group i j T ltac:(lia)).
  assert (Hx : (form i =? 0) = true -> vector_element_read x (source1 i) j (gather_index_bytes i)
    = vector_element_read m (source1 i) j (gather_index_bytes i) /\ 0 <= vector_element_read m (source1 i) j (gather_index_bytes i)).
  { intros F. rewrite F in *. cbn [andb] in L0. rewrite negb_true_iff in L0. apply overlap_false in L0.
    assert (Hi : 0 <= gather_index_bytes i /\ (j + 1) * gather_index_bytes i <= 16 * gather_index_group i).
    { unfold gather_index_bytes, gather_index_group. pose proof (ty_index i T). destruct (gather16 i); lia. }
    split; [|apply snapshot_read_fits; [done|lia]].
    apply (agree_read _ _ _ _ _ _ Hm A); [lia|]. apply (unread_disjoint _ _ _ _ _ _ _ _ _ L0); nia. }
  assert (Hy : forall k, 0 <= k < maximum i -> vector_element_read x (source2 i) k (bytes i) = vector_element_read m (source2 i) k (bytes i)).
  { intros k Hk. apply (agree_read _ _ _ _ _ _ Hm A); [lia|]. rewrite negb_true_iff in L2. apply overlap_false in L2.
    pose proof (fits_group i k T Hk). apply (unread_disjoint _ _ _ _ _ _ _ _ _ L2); lia. }
  pose proof (ty_source1 i T). pose proof (HR (source1 i)).
  assert (Hz : forall k, 0 <= k -> (if k <? maximum i then vector_element_read x (source2 i) k (bytes i) else 0)
    = if k <? maximum i then vector_element_read m (source2 i) k (bytes i) else 0).
  { intros k Hk. destruct (Z.ltb_spec k (maximum i)); [by apply Hy|done]. }
  destruct (form i =? 0); [destruct (Hx eq_refl) as [-> ?]|destruct (form i =? 3)]; rewrite Hz by lia; lane_eqs A.
Qed.

Lemma slide_read i m s j x k :
  in_type i m -> bytes_ok (vreg m) -> vector_group_valid (destination i) (group i) = true ->
  vector_group_valid s (group i) = true -> CSR m CSR_VSTART <= j < CSR m CSR_VL ->
  (j <= k \/ overlap (destination i) (group i) s (group i) = false) -> 0 <= k < maximum i ->
  agree (destination i) (8 * bytes i) (CSR m CSR_VSTART) j m x ->
  vector_element_read x s k (bytes i) = vector_element_read m s k (bytes i).
Proof.
  intros I Hm V1 V2 Hj Hk Hr A. pose proof I as (T & Hs & Hl). pose proof (bytes_cases i T).
  apply (agree_read _ _ _ _ _ _ Hm A); [lia|]. destruct Hk as [Hk|Hk].
  - apply unread_group; try done; lia.
  - apply overlap_false in Hk. pose proof (fits_group i k T Hr). pose proof (fits_group i j T ltac:(lia)).
    apply (unread_disjoint _ _ _ _ _ _ _ _ _ Hk); lia.
Qed.

Lemma slide_lanes i m offset s :
  in_type i m -> bytes_ok (vreg m) -> 0 <= offset -> slide_legal i = true ->
  snapshot_lanes i m (8 * bytes i) (slide_element i offset s).
Proof.
  intros I Hm Ho L. pose proof I as (T & Hs & Hl). pose proof (bytes_cases i T). unfold slide_legal in L. split_legal L.
  apply lanes_vloop; [lia | done | |]; intros j x Hj A; unfold slide_element; cbv zeta; [lane_writes|].
  agree_mask_bit I Hj A. rewrite (agree_VL _ _ _ _ _ _ A).
  assert (Hu : (function i =? 0x0e) = true -> offset <= j ->
    vector_element_read x (source2 i) (j - offset) (bytes i) = vector_element_read m (source2 i) (j - offset) (bytes i)).
  { intros F Hoj. rewrite F in L0. cbn [andb] in L0. rewrite negb_true_iff in L0.
    apply (slide_read i m _ j); try done; [by right | lia]. }
  assert (Hd : offset < maximum i - j ->
    vector_element_read x (source2 i) (j + offset) (bytes i) = vector_element_read m (source2 i) (j + offset) (bytes i)).
  { intros Hoj. apply (slide_read i m _ j); try done; [left; lia | lia]. }
  destruct (function i =? 0x0e).
  - destruct (Z.leb_spec offset j); [rewrite Hu by done|]; lane_eqs A.
  - destruct (Z.ltb_spec offset (maximum i - j)); [rewrite Hd by done|]; lane_eqs A.
Qed.

(** ** The integer block *)

Lemma mask_unread i s first j :
  in_type i first -> CSR first CSR_VSTART <= j < CSR first CSR_VL -> vector_group_valid s (group i) = true ->
  (s <? destination i) && (destination i <? s + group i) = false ->
  unread (destination i) 1 (CSR first CSR_VSTART) j s (8 * bytes i) j.
Proof.
  intros (T & Hs & Hl) Hj V N. pose proof (bytes_cases i T). pose proof (fits_group i j T ltac:(lia)).
  pose proof (ty_maximum i T). pose proof (group_pos i T).
  assert (D : destination i = s \/ (destination i + 1 <= s \/ s + group i <= destination i)) by lia.
  destruct D as [<-|D]; [apply unread_same; lia|]. apply (unread_disjoint _ _ _ _ _ _ _ _ _ D); lia.
Qed.

Definition lane_bits i : Z := if mask_result i then 1 else 8 * bytes i.

(** The bits a legal element reads of its sources. *)
Lemma integer_unread i m s j :
  in_type i m -> CSR m CSR_VSTART <= j < CSR m CSR_VL -> vector_group_valid s (group i) = true ->
  vector_group_valid (destination i) (if mask_result i then 1 else group i) = true ->
  (mask_result i = true -> (s <? destination i) && (destination i <? s + group i) = false) ->
  unread (destination i) (lane_bits i) (CSR m CSR_VSTART) j s (8 * bytes i) j.
Proof.
  intros I Hj V V' N. pose proof I as (T & Hs & Hl). pose proof (bytes_cases i T). unfold lane_bits in *. destruct (mask_result i).
  - apply mask_unread; auto.
  - apply unread_group; try done; lia.
Qed.

(** The families of the integer block exclude each other where it matters. *)
Ltac families :=
  unfold mask_result, reads_source2, reads_source1, mask_logic, integer, compare, carry, muldiv, saturating, averaging,
    scaling_shift, fractional_multiply, merge, vector_scalar_form, between, one_of in *; cbn [existsb] in *; lia.
Lemma mask_logic_source2 i : mask_logic i = true -> reads_source2 i = false.
Proof. intros H. families. Qed.
Lemma mask_logic_source1 i : mask_logic i = true -> reads_source1 i = false.
Proof. intros H. families. Qed.
Lemma mask_result_form i : reads_source1 i = true -> mask_result i = true -> (form i =? 0) = true.
Proof. intros H1 H2. families. Qed.

(** The operands an element does not read do not matter. *)
Lemma integer_result_mask_bit i mode v o l r b b' :
  unmasked i = true -> integer_result i mode v o l r b = integer_result i mode v o l r b'.
Proof. intros U. unfold integer_result, merge. rewrite U. cbn [negb andb]. by rewrite !andb_false_r. Qed.
Lemma integer_result_bits i mode v o l l' r r' b :
  mask_logic i = false -> integer_result i mode v o l r b = integer_result i mode v o l' r' b.
Proof. intros U. unfold integer_result. by rewrite U. Qed.

Lemma unread_mask i s first j :
  in_type i first -> CSR first CSR_VSTART <= j < CSR first CSR_VL -> unread (destination i) 1 (CSR first CSR_VSTART) j s 1 j.
Proof.
  intros (T & Hs & Hl) Hj. pose proof (ty_maximum i T).
  assert (D : destination i = s \/ (destination i + 1 <= s \/ s + 1 <= destination i)) by lia.
  destruct D as [<-|D]; [apply unread_same; lia|]. apply (unread_disjoint _ _ _ _ _ _ _ _ _ D); lia.
Qed.

Lemma integer_legal_facts i :
  integer_legal i = true ->
  vector_group_valid (destination i) (if mask_result i then 1 else group i) = true /\
  (reads_source2 i = true -> vector_group_valid (source2 i) (group i) = true) /\
  (reads_source1 i = true -> vector_group_valid (source1 i) (group i) = true) /\
  (reads_source2 i = true -> mask_result i = true -> (source2 i <? destination i) && (destination i <? source2 i + group i) = false) /\
  (reads_source1 i = true -> mask_result i = true -> (source1 i <? destination i) && (destination i <? source1 i + group i) = false).
Proof.
  intros L. pose proof (mask_logic_source2 i) as X2. pose proof (mask_result_form i) as X1.
  unfold integer_legal in L. rewrite !andb_true_iff, !negb_true_iff in L.
  destruct L as (((((((L1 & L2) & L3) & L4) & L5) & L6) & L7) & L8).
  split; [done|]. split; [intros R; rewrite R in L5; by destruct (vector_group_valid (source2 i) (group i))|].
  split; [intros R; rewrite R in L7; by destruct (vector_group_valid (source1 i) (group i))|].
  split; intros R M; rewrite M in *.
  - destruct (mask_logic i); [by rewrite X2 in R|]. exact L3.
  - rewrite X1 in L4 by done. exact L4.
Qed.

(** A masked element whose destination is a group is away from the mask. *)
Lemma integer_masked i : integer_legal i = true -> unmasked i = false -> destination i <> 0 \/ lane_bits i <= 1.
Proof.
  intros L U. unfold integer_legal in L. rewrite !andb_true_iff, U in L. unfold lane_bits.
  destruct (mask_result i); [by right|]. left. cbn [negb andb] in L. destruct (Z.eqb_spec (destination i) 0); [|done].
  cbn [negb] in L. intuition discriminate.
Qed.

Lemma integer_mask_bit i m j x :
  in_type i m -> bytes_ok (vreg m) -> CSR m CSR_VSTART <= j < CSR m CSR_VL ->
  (unmasked i = false -> destination i <> 0 \/ lane_bits i <= 1) ->
  agree (destination i) (lane_bits i) (CSR m CSR_VSTART) j m x -> unmasked i = false ->
  vector_mask_bit x 0 j = vector_mask_bit m 0 j.
Proof.
  intros I Hm Hj V A U. pose proof I as (T & Hs & Hl). pose proof (bytes_cases i T).
  apply (agree_mask _ _ _ _ _ _ A). apply (unread_active i m j); try done.
  - destruct (V U) as [H'|H']; [left|by right]. unfold masked_v0. rewrite U. by destruct (Z.eqb_spec (destination i) 0).
  - unfold lane_bits. destruct (mask_result i); lia.
Qed.

Lemma integer_element_bits i m j x r v o :
  in_type i m -> bytes_ok (vreg m) -> CSR m CSR_VSTART <= j < CSR m CSR_VL ->
  (unmasked i = false -> destination i <> 0 \/ lane_bits i <= 1) ->
  agree (destination i) (lane_bits i) (CSR m CSR_VSTART) j m x ->
  integer_result i r v o (vector_mask_bit x (source2 i) j) (vector_mask_bit x (source1 i) j) (vector_mask_bit x 0 j)
    = integer_result i r v o (vector_mask_bit m (source2 i) j) (vector_mask_bit m (source1 i) j) (vector_mask_bit m 0 j).
Proof.
  intros I Hm Hj V A. destruct (mask_logic i) eqn:ML.
  - assert (Ew : lane_bits i = 1) by (unfold lane_bits, mask_result; by rewrite ML, orb_true_r).
    rewrite Ew in A. rewrite !(agree_mask _ _ _ _ _ _ A) by (by apply unread_mask). done.
  - rewrite (integer_result_bits i r v o _ (vector_mask_bit m (source2 i) j) _ (vector_mask_bit m (source1 i) j)) by done.
    pose proof (integer_mask_bit i m j x I Hm Hj V A) as E.
    destruct (unmasked i) eqn:U; [by apply integer_result_mask_bit | by rewrite E].
Qed.

Lemma integer_lanes i m s :
  in_type i m -> bytes_ok (vreg m) -> integer_legal i = true ->
  snapshot_lanes i m (lane_bits i) (integer_element i s).
Proof.
  intros I Hm L. pose proof I as (T & Hs & Hl). pose proof (bytes_cases i T).
  destruct (integer_legal_facts i L) as (V & V2 & V1 & N2 & N1).
  assert (Hw : 0 < lane_bits i <= 128) by (unfold lane_bits; destruct (mask_result i); lia).
  apply lanes_vloop; [lia | done | |]; intros j x Hj A.
  { unfold integer_element, lane_bits. cbv zeta. destruct (mask_result i); lane_writes. }
  assert (Ev : (if reads_source2 i then vector_element_read x (source2 i) j (bytes i) else 0)
             = if reads_source2 i then vector_element_read m (source2 i) j (bytes i) else 0).
  { destruct (reads_source2 i) eqn:R; [|done].
    apply (agree_read _ _ _ _ _ _ Hm A); [lia|]. apply integer_unread; auto. }
  assert (Eo : (if reads_source1 i then vector_element_read x (source1 i) j (bytes i) else s)
             = if reads_source1 i then vector_element_read m (source1 i) j (bytes i) else s).
  { destruct (reads_source1 i) eqn:R; [|done].
    apply (agree_read _ _ _ _ _ _ Hm A); [lia|]. apply integer_unread; auto. }
  unfold integer_element. cbv zeta. rewrite Ev, Eo, (agree_vxrm _ _ _ _ _ _ A).
  set (v := if reads_source2 i then _ else _). set (o := if reads_source1 i then _ else _).
  rewrite (integer_element_bits i m j x (vxrm m) v o I Hm Hj (integer_masked i L) A).
  assert (Em : negb (unmasked i) && negb (merge i) && negb (carry i) && negb (vector_mask_bit x 0 j)
    = negb (unmasked i) && negb (merge i) && negb (carry i) && negb (vector_mask_bit m 0 j)).
  { pose proof (integer_mask_bit i m j x I Hm Hj (integer_masked i L) A) as E. destruct (unmasked i); [done|]. by rewrite E. }
  rewrite Em. unfold lane_bits in *. destruct (mask_result i); lane_eqs A.
Qed.

(** ** Floating point *)

Lemma fp_legal_facts i :
  fp_groups_legal i = true ->
  vector_group_valid (destination i) (if fp_compare i then 1 else group i) = true /\
  (fp_merge i || fp_slide i || fp_compute i = true -> vector_group_valid (source2 i) (group i) = true) /\
  ((fp_arithmetic i || fp_compare i) && (form i =? 1) = true -> vector_group_valid (source1 i) (group i) = true) /\
  (unmasked i = false -> destination i <> 0 \/ fp_compare i = true) /\
  (fp_compare i = true -> (source2 i <? destination i) && (destination i <? source2 i + group i) = false) /\
  (fp_compare i && (form i =? 1) = true -> (source1 i <? destination i) && (destination i <? source1 i + group i) = false) /\
  (fp_slide i = true -> (function i =? 0x0e) = true -> overlap (destination i) (group i) (source2 i) (group i) = false).
Proof.
  intros L. unfold fp_groups_legal in L. rewrite !andb_true_iff, !negb_true_iff in L.
  destruct L as ((((((L1 & L2) & L3) & L4) & L5) & L6) & L7).
  split; [done|]. split; [intros R; rewrite R in L2; by destruct (vector_group_valid (source2 i) (group i))|].
  split; [intros R; rewrite R in L3; by destruct (vector_group_valid (source1 i) (group i))|].
  split; [intros U; rewrite U in L4; destruct (fp_compare i); [by right | left; by destruct (Z.eqb_spec (destination i) 0)]|].
  split; [intros R; rewrite R in L5; lia|]. split; [intros R; rewrite R in L6; lia|].
  intros R F. by rewrite R, F in L7.
Qed.

Definition fp_lane_bits i : Z := if fp_compare i then 1 else 8 * bytes i.

Ltac fp_families :=
  unfold fp_compute, fp_arithmetic, fp_unary, fp_estimate, fp_convert, fp_compare, fp_form, between, one_of in *; cbn [existsb] in *; lia.
Lemma fused_not_compare i : between 0x28 (function i) 0x2f = true -> fp_compare i = false.
Proof. intros H. destruct (fp_compare i) eqn:C; [fp_families|done]. Qed.

(** The operands an element does not read do not matter. *)
Lemma fp_result_right i rm l r r' o :
  fp_compute i = true -> fp_arithmetic i || fp_compare i = false -> fp_element_result i rm l r o = fp_element_result i rm l r' o.
Proof.
  intros C N. assert (S : one_of (function i) [0x21; 0x27; 0x1d; 0x1f] = false) by fp_families.
  assert (K : fp_estimate i || fp_convert i || fp_unary i = true) by (unfold fp_compute in C; destruct (fp_arithmetic i), (fp_compare i), (fp_unary i), (fp_estimate i), (fp_convert i); done).
  unfold fp_element_result. rewrite S. cbv zeta. by destruct (fp_estimate i), (fp_convert i), (fp_unary i).
Qed.
Lemma fp_result_old i rm l r o o' :
  between 0x28 (function i) 0x2f = false -> fp_element_result i rm l r o = fp_element_result i rm l r o'.
Proof. intros N. unfold fp_element_result. by rewrite N. Qed.

Lemma fp_unread i m s j :
  in_type i m -> CSR m CSR_VSTART <= j < CSR m CSR_VL -> vector_group_valid s (group i) = true ->
  vector_group_valid (destination i) (if fp_compare i then 1 else group i) = true ->
  (fp_compare i = true -> (s <? destination i) && (destination i <? s + group i) = false) ->
  unread (destination i) (fp_lane_bits i) (CSR m CSR_VSTART) j s (8 * bytes i) j.
Proof.
  intros I Hj V V' N. pose proof I as (T & Hs & Hl). pose proof (bytes_cases i T). unfold fp_lane_bits in *. destruct (fp_compare i).
  - apply mask_unread; auto.
  - apply unread_group; try done; lia.
Qed.

Lemma fp_active i m j x :
  in_type i m -> bytes_ok (vreg m) -> fp_groups_legal i = true -> CSR m CSR_VSTART <= j < CSR m CSR_VL ->
  agree (destination i) (fp_lane_bits i) (CSR m CSR_VSTART) j m x -> active i j x = active i j m.
Proof.
  intros I Hm L Hj A. pose proof I as (T & Hs & Hl). pose proof (bytes_cases i T).
  destruct (fp_legal_facts i L) as (_ & _ & _ & Hv & _).
  apply (agree_active _ _ _ _ _ _ A). intros U. apply (unread_active i m j); try done.
  - destruct (Hv U) as [H'|H']; [left | right; unfold fp_lane_bits; by rewrite H'].
    unfold masked_v0. rewrite U. by destruct (Z.eqb_spec (destination i) 0).
  - unfold fp_lane_bits. destruct (fp_compare i); lia.
Qed.

Lemma fp_compute_lanes i m s :
  in_type i m -> bytes_ok (vreg m) -> fp_groups_legal i = true -> fp_compute i = true ->
  snapshot_lanes i m (fp_lane_bits i) (fun k m' => (fp_compute_element i s k m').1).
Proof.
  intros I Hm L C. pose proof I as (T & Hs & Hl). pose proof (bytes_cases i T).
  destruct (fp_legal_facts i L) as (V & V2 & V1 & _ & N2 & N1 & _). rewrite C, orb_true_r in V2.
  assert (Hw : 0 < fp_lane_bits i <= 128) by (unfold fp_lane_bits; destruct (fp_compare i); lia).
  apply lanes_vloop; [lia | done | |]; intros j x Hj A.
  { unfold fp_compute_element, fp_lane_bits. cbv zeta. destruct (fp_compare i); lane_writes. }
  unfold fp_compute_element. cbv zeta. rewrite (fp_active i m j x I Hm L Hj A), (agree_frm _ _ _ _ _ _ A).
  rewrite (agree_read _ _ _ _ _ _ Hm A (source2 i) j (bytes i)) by (lia || by apply fp_unread; auto).
  set (left := vector_element_read m (source2 i) j (bytes i)).
  assert (E : forall y, fp_element_result i (frm m) left
      (if form i =? 1 then vector_element_read x (source1 i) j (bytes i) else s) y
    = fp_element_result i (frm m) left (if form i =? 1 then vector_element_read m (source1 i) j (bytes i) else s) y).
  { intros y. destruct (form i =? 1) eqn:F; [|done].
    destruct (fp_arithmetic i || fp_compare i) eqn:AC; [|by apply fp_result_right].
    rewrite andb_true_r in *. by rewrite (agree_read _ _ _ _ _ _ Hm A (source1 i) j (bytes i)) by (lia || apply fp_unread; auto). }
  rewrite E. clear E. set (right := if form i =? 1 then _ else _).
  assert (E : fp_element_result i (frm m) left right (vector_element_read x (destination i) j (bytes i))
    = fp_element_result i (frm m) left right (vector_element_read m (destination i) j (bytes i))).
  { destruct (between 0x28 (function i) 0x2f) eqn:B; [|by apply fp_result_old].
    rewrite (agree_read _ _ _ _ _ _ Hm A (destination i) j (bytes i)); [done|lia|].
    unfold fp_lane_bits. rewrite fused_not_compare by done. apply unread_same; lia. }
  rewrite E. unfold fp_lane_bits in *. destruct (fp_compare i); lane_eqs A.
Qed.

Lemma fp_slide_lanes i m s :
  in_type i m -> bytes_ok (vreg m) -> fp_groups_legal i = true -> fp_compute i = false -> fp_slide i = true ->
  snapshot_lanes i m (8 * bytes i) (fp_slide_element i s).
Proof.
  intros I Hm L C S. pose proof I as (T & Hs & Hl). pose proof (bytes_cases i T).
  destruct (fp_legal_facts i L) as (V & V2 & _ & _ & _ & _ & N). rewrite S, C, orb_true_r in V2.
  assert (F : fp_compare i = false) by (unfold fp_compute in C; destruct (fp_compare i); [by rewrite orb_true_r in C|done]).
  assert (W : fp_lane_bits i = 8 * bytes i) by (unfold fp_lane_bits; by rewrite F). rewrite F in V.
  apply lanes_vloop; [lia | done | |]; intros j x Hj A; unfold fp_slide_element; cbv zeta; [lane_writes|].
  rewrite (fp_active i m j x I Hm L Hj) by (by rewrite W). rewrite (agree_VL _ _ _ _ _ _ A).
  assert (Hu : (function i =? 0x0e) = true -> j <> 0 ->
    vector_element_read x (source2 i) (j - 1) (bytes i) = vector_element_read m (source2 i) (j - 1) (bytes i)).
  { intros G Hz. apply (slide_read i m _ j _ _ I Hm V (V2 eq_refl) Hj); [right; by apply N | lia | done]. }
  assert (Hd : j + 1 < maximum i ->
    vector_element_read x (source2 i) (j + 1) (bytes i) = vector_element_read m (source2 i) (j + 1) (bytes i)).
  { intros G. apply (slide_read i m _ j _ _ I Hm V (V2 eq_refl) Hj); [left; lia | lia | done]. }
  destruct (function i =? 0x0e).
  - destruct (Z.eqb_spec j 0); cbn [andb orb negb]; [|rewrite Hu by done]; lane_eqs A.
  - destruct (Z.ltb_spec (j + 1) (maximum i)); [rewrite Hd by done|]; lane_eqs A.
Qed.

Lemma fp_merge_lanes i m s :
  in_type i m -> bytes_ok (vreg m) -> fp_groups_legal i = true -> fp_compute i = false ->
  snapshot_lanes i m (8 * bytes i) (fp_merge_element i s).
Proof.
  intros I Hm L C. pose proof I as (T & Hs & Hl). pose proof (bytes_cases i T).
  destruct (fp_legal_facts i L) as (V & V2 & _).
  assert (F : fp_compare i = false) by (unfold fp_compute in C; destruct (fp_compare i); [by rewrite orb_true_r in C|done]).
  assert (W : fp_lane_bits i = 8 * bytes i) by (unfold fp_lane_bits; by rewrite F). rewrite F in V.
  apply lanes_vloop; [lia | done | |]; intros j x Hj A; unfold fp_merge_element; cbv zeta; [lane_writes|].
  rewrite (fp_active i m j x I Hm L Hj) by (by rewrite W).
  destruct (fp_merge i); cbn [andb]; [|lane_eqs A].
  rewrite (agree_read _ _ _ _ _ _ Hm A (source2 i) j (bytes i)); [lane_eqs A|lia|].
  apply unread_group; auto; lia.
Qed.

(** ** The element-wise instructions *)

(** The width of a lane and the iteration of the loop, for the instructions that
    compute their destination element by element; the others move registers,
    write a scalar, or carry a result from an element to the next. *)
Definition iteration i m : option (Z * (Z -> machine -> machine)) :=
  if is_insert i then None
  else if is_zvbb i then Some (8 * wide_bytes i (zvbb_widening i), zvbb_element i (vreg m) (xscalar i m))
  else if is_fp i then
    if fp_extract i || fp_insert i then None
    else if fp_compute i then Some (fp_lane_bits i, fun k m' => (fp_compute_element i (fp_scalar i m) k m').1)
    else if fp_slide i then Some (8 * bytes i, fp_slide_element i (fp_scalar i m))
    else Some (8 * bytes i, fp_merge_element i (fp_scalar i m))
  else if is_fp_resize i then Some (8 * wide_bytes i (resize_widen i), fun k m' => (resize_element i (vreg m) k m').1)
  else if is_fp_integer i then Some (8 * destination_bytes_of i, fun k m' => (fp_integer_element i (vreg m) k m').1)
  else if is_fp_widen i then
    Some (8 * 8, fun k m' => (fp_widen_element i (vreg m)
      (if form i =? 5 then riscv_fp_read_s (aget (fpr m) (source1 i)) else 0) k m').1)
  else if is_fp_reduce i || is_mask_scan i then None
  else if is_slide i then
    Some (8 * bytes i, slide_element i (if form i =? 6 then 1 else if form i =? 3 then source1 i else R m (source1 i)) (xscalar i m))
  else if is_gather i then Some (8 * bytes i, gather_element i)
  else if is_prefix i || is_compress i || is_reduction i then None
  else if is_extend i then Some (8 * bytes i, extend_element i (vreg m))
  else if is_narrow i then Some (8 * bytes i, narrow_element i (if form i =? 3 then source1 i else R m (source1 i)))
  else if is_widen i then Some (8 * (bytes i * 2), widen_element i (vreg m) (xscalar i m))
  else if is_muladd i then Some (8 * bytes i, muladd_element i (vreg m) (xscalar i m))
  else if is_integer i then
    if extract i then None else Some (lane_bits i, integer_element i (integer_scalar i m))
  else None.

Lemma lanes_ext d w first last f m x y : vreg y = vreg x -> lanes d w first last f m x -> lanes d w first last f m y.
Proof. intros E [H1 H2]. split; by rewrite E. Qed.
Lemma vreg_finish floating m : vreg (vector_finish floating m) = vreg m.
Proof. unfold vector_finish, vector_mark_dirty, orCSR. cbv zeta. destruct floating; destruct (virt _); by mach. Qed.
Lemma vreg_accrue run : vreg (accrue run) = vreg run.1.
Proof. done. Qed.

(** The state a recognised block left. *)
Lemma block_true legal floating f m m' :
  block legal floating f m = (true, m') -> legal = true /\ vreg m' = vreg (f m).
Proof. unfold block. destruct legal; [|done]. intros [= <-]. split; [done | apply vreg_finish]. Qed.

Lemma flags_lanes i m w f :
  snapshot_lanes i m w (fun k m' => (f k m').1) ->
  lanes (destination i) w (CSR m CSR_VSTART) (CSR m CSR_VL) (fun k m' => (f k m').1) m (accrue (vloop_flags f m)).
Proof. intros H. apply (lanes_ext _ _ _ _ _ _ _ _ (vreg_accrue _)). by rewrite vloop_flags_state. Qed.

Lemma fp_lanes i m w f :
  in_type i m -> bytes_ok (vreg m) -> fp_legal i m = true ->
  (if fp_extract i || fp_insert i then None
   else if fp_compute i then Some (fp_lane_bits i, fun k m' => (fp_compute_element i (fp_scalar i m) k m').1)
   else if fp_slide i then Some (8 * bytes i, fp_slide_element i (fp_scalar i m))
   else Some (8 * bytes i, fp_merge_element i (fp_scalar i m))) = Some (w, f) ->
  lanes (destination i) w (CSR m CSR_VSTART) (CSR m CSR_VL) f m (fp_exec i m).
Proof.
  intros I Hm L E. unfold fp_legal in L. apply andb_true_iff in L as [_ L]. unfold fp_exec, fp_run.
  destruct (fp_extract i); [done|]. destruct (fp_insert i); [done|]. cbn [orb] in L, E. cbv zeta.
  destruct (fp_compute i) eqn:C.
  - injection E as <- <-. apply flags_lanes. by apply fp_compute_lanes.
  - destruct (fp_slide i) eqn:S; injection E as <- <-; apply (lanes_ext _ _ _ _ _ _ _ _ (vreg_accrue _)); cbn [fst].
    + by apply fp_slide_lanes.
    + by apply fp_merge_lanes.
Qed.

Ltac legal_block E := apply block_true in E as [?L ?V]; eapply lanes_ext; [eassumption|].

Lemma typed_lanes i m m' w f :
  in_type i m -> bytes_ok (vreg m) -> (forall r, 0 <= R m r) -> execute_typed i m = (true, m') -> iteration i m = Some (w, f) ->
  lanes (destination i) w (CSR m CSR_VSTART) (CSR m CSR_VL) f m m'.
Proof.
  intros I Hm HR E F. unfold execute_typed in E. unfold iteration in F.
  destruct (is_insert i); [done|].
  destruct (is_zvbb i); [injection F as <- <-; legal_block E; by apply zvbb_lanes|].
  destruct (is_fp i); [legal_block E; by apply fp_lanes|].
  destruct (is_fp_resize i); [injection F as <- <-; legal_block E; apply flags_lanes; by apply resize_lanes|].
  destruct (is_fp_integer i); [injection F as <- <-; legal_block E; apply flags_lanes; by apply fp_integer_lanes|].
  destruct (is_fp_widen i); [injection F as <- <-; legal_block E; apply flags_lanes; by apply fp_widen_lanes|].
  destruct (is_fp_reduce i); [done|]. destruct (is_mask_scan i); [done|]. cbn [orb] in F.
  destruct (is_slide i).
  { injection F as <- <-. legal_block E. apply slide_lanes; try done. pose proof (ty_source1 i (proj1 I)). pose proof (HR (source1 i)). repeat case_match; lia. }
  destruct (is_gather i); [injection F as <- <-; legal_block E; by apply gather_lanes|].
  destruct (is_prefix i); [done|]. destruct (is_compress i); [done|]. destruct (is_reduction i); [done|]. cbn [orb] in F.
  destruct (is_extend i); [injection F as <- <-; legal_block E; by apply extend_lanes|].
  destruct (is_narrow i); [injection F as <- <-; legal_block E; by apply narrow_lanes|].
  destruct (is_widen i); [injection F as <- <-; legal_block E; by apply widen_lanes|].
  destruct (is_muladd i); [injection F as <- <-; legal_block E; by apply muladd_lanes|].
  destruct (is_integer i); [|done]. unfold integer_exec in E. destruct (extract i); [done|].
  injection F as <- <-. legal_block E. by apply integer_lanes.
Qed.

(** C4: the elements of a vector instruction do not interfere. The loops update
    the register file in place, often while reading their sources from it; still,
    for every legal element-wise instruction, each lane between VSTART and VL ends
    with the bits its iteration alone would compute from the initial state, and
    every other bit of the register file is unchanged. *)
Theorem vector_lanes_independent instruction m m' w f :
  vector_wf m -> bytes_ok (vreg m) -> (forall r, 0 <= R m r) ->
  let i := decode_vinst instruction m in
  is_move i = false -> iteration i m = Some (w, f) ->
  riscv_vector_execute instruction m = (true, m') ->
  lanes (destination i) w (CSR m CSR_VSTART) (CSR m CSR_VL) f m m'.
Proof.
  intros W Hm HR i Hv F E. unfold riscv_vector_execute in E. fold i in E. cbv zeta in E. rewrite Hv in E.
  destruct (_ || _) in E; [done|]. destruct (Z.eqb_spec (maximum i) 0); [done|].
  destruct (Z.ltb_spec (maximum i) (CSR m CSR_VL)); [done|]. cbn [orb] in E.
  apply typed_lanes; try done. split; [by apply decode_typed|]. split; [apply W | done].
Qed.

End Lanes.

#[local] Existing Instances riscv64_ref zero_float.

(** [vmsltu.vv v2, v2, v3] writes its mask over the source it reads. *)
Lemma vector_lanes_independent_witness :
  let i := decode_vinst 0x6a218157 vector_running in
  exists m', riscv_vector_execute 0x6a218157 vector_running = (true, m') /\
    lanes (destination i) 1 0 4 (integer_element i 0) vector_running m'.
Proof.
  pose proof (fun m' => vector_lanes_independent 0x6a218157 vector_running m' 1
    (integer_element (decode_vinst 0x6a218157 vector_running) 0) vector_running_wf vector_running_bytes) as H.
  assert (E : (riscv_vector_execute 0x6a218157 vector_running).1 = true) by (vm_compute; reflexivity).
  destruct (riscv_vector_execute 0x6a218157 vector_running) as [ok m']. cbn [fst] in E. subst ok.
  exists m'. split; [reflexivity|]. apply H; [|vm_compute; reflexivity|reflexivity|reflexivity].
  intros r. unfold R. change (gpr vector_running) with (aset (aset ∅ 11 100) 10 4). rewrite !aget_aset.
  destruct (10 =? r); [discriminate|]. destruct (11 =? r); discriminate.
Defined.
