(* ===== verification/Csr.v ===== *)
(** * Csr: the CSR file: existence and access control, reads, WARL writes, and
    the views re-derived at the end of an instruction ([reg.h], [inst.c]) *)
From S2P Require Import Prelude Config Tlb Machine Pmp Trap Clint Vector.

Section Csr.
Context {Cfg : Config}.

(** ** Classes of CSRs *)

Definition between (lo csr hi : Z) : bool := (lo <=? csr) && (csr <=? hi).

Definition is_pmp_csr (csr : Z) : bool :=
  let csr := csr .& 0xfff in between 0x3a0 csr 0x3a3 || between 0x3b0 csr 0x3bf.

Definition is_fp_csr (csr : Z) : bool :=
  one_of (csr .& 0xfff) [CSR_FFLAGS; CSR_FRM; CSR_FCSR].

Definition is_vector_csr (csr : Z) : bool :=
  one_of (csr .& 0xfff) [CSR_VSTART; CSR_VXSAT; CSR_VXRM; CSR_VCSR; CSR_VL; CSR_VTYPE; CSR_VLENB].

Definition is_stateen_csr (m : machine) (csr : Z) : bool :=
  between CSR_SSTATEEN0 csr CSR_SSTATEEN3 || between CSR_MSTATEEN0 csr CSR_MSTATEEN3
  || (if CONFIG_RV64 then between CSR_HSTATEEN0 csr CSR_HSTATEEN3 && h_enabled m
      else between CSR_MSTATEEN0H csr CSR_MSTATEEN3H).

Definition is_hpm_zero_csr (m : machine) (csr : Z) : bool :=
  let csr := csr .& 0xfff in
  between 0xb03 csr 0xb1f || between 0x323 csr 0x33f || between 0xc03 csr 0xc1f
  || (if CONFIG_RV64 then false
      else between 0xb83 csr 0xb9f || between 0xc83 csr 0xc9f
           || (riscv_sscofpmf_enabled (riscv_isa_extensions m) && between 0x723 csr 0x73f)).

Definition counteren_bit (csr : Z) : Z :=
  let csr := csr .& 0xfff in
  if one_of csr [CSR_CYCLE_; CSR_CYCLEH] then 1 << 0
  else if one_of csr [CSR_TIME; CSR_TIMEH] then 1 << 1
  else if one_of csr [CSR_INSTRET; CSR_INSTRETH] then 1 << 2
  else 0.

Definition is_rv32_counter_high_csr (csr : Z) : bool :=
  if CONFIG_RV64 then false
  else one_of (csr .& 0xfff) [CSR_MCYCLEH; CSR_MINSTRETH; CSR_CYCLEH; CSR_TIMEH; CSR_INSTRETH].

Inductive CSR_status := CSR_EXIST | CSR_EXIST_DIFF_SKIP | CSR_NOT_EXIST.

#[global] Instance CSR_status_eq_dec : EqDecision CSR_status.
Proof. solve_decision. Defined.

(** The CSRs that exist in every configuration, and those of the hypervisor. *)
Definition base_csrs : list Z :=
  [CSR_SSTATUS; CSR_FFLAGS; CSR_FRM; CSR_FCSR; CSR_SIE; CSR_STVEC; CSR_SCOUNTEREN; CSR_SENVCFG;
   CSR_SSCRATCH; CSR_SEPC; CSR_SCAUSE; CSR_STVAL; CSR_SIP; CSR_SATP;
   CSR_MSTATUS; CSR_MISA; CSR_MEDELEG; CSR_MIDELEG; CSR_MIE; CSR_MTVEC; CSR_MSTATUSH; CSR_MENVCFGH;
   CSR_MSCRATCH; CSR_MEPC; CSR_MCAUSE; CSR_MTVAL; CSR_MIP;
   CSR_MCYCLE; CSR_MINSTRET; CSR_CYCLE_; CSR_TIME; CSR_INSTRET;
   CSR_MVENDORID; CSR_MARCHID; CSR_IMPID; CSR_MHARTID; 0x14d; 0x15d; CSR_MCOUNTEREN; 0x30a].
Definition hypervisor_csrs : list Z :=
  [CSR_VSSTATUS; CSR_VSIE; CSR_VSTVEC; CSR_VSSCRATCH; CSR_VSEPC; CSR_VSCAUSE; CSR_VSTVAL; CSR_VSIP;
   CSR_VSTIMECMP; CSR_VSATP; CSR_HSTATUS; CSR_HEDELEG; CSR_HIDELEG; CSR_HIE; CSR_HIP; CSR_HVIP;
   CSR_HTIMEDELTA; CSR_HCOUNTEREN; CSR_HGEIE; CSR_HGEIP; CSR_HENVCFG; CSR_HGATP; CSR_HTVAL;
   CSR_HTINST; CSR_MTVAL2; CSR_MTINST].
(** The CSRs whose value differs from the design under test. *)
Definition diff_skip_csrs : list Z :=
  [CSR_MISA; CSR_MCYCLE; CSR_MINSTRET; CSR_CYCLE_; CSR_TIME; CSR_INSTRET;
   CSR_MVENDORID; CSR_MARCHID; CSR_IMPID; CSR_MHARTID].

Definition check_csr_exist (m : machine) (csr : Z) : CSR_status :=
  let csr := csr .& 0xfff in
  let ext := riscv_isa_extensions m in
  if CONFIG_RV_MCOUNTINHIBIT && (csr =? CSR_MCOUNTINHIBIT) then CSR_EXIST
  else if CONFIG_RAPTOR_MEMORY_MAP && ((csr =? CSR_MBERR_STATUS) || (csr =? CSR_MBERR_ADDR))
  then CSR_EXIST
  else if CONFIG_RV64 && one_of csr [CSR_MSTATUSH; CSR_MENVCFGH; 0x15d; 0x3a1; 0x3a3]
  then CSR_NOT_EXIST
  else if one_of csr base_csrs
          || (riscv_v128_preview_enabled ext && is_vector_csr csr)
          || (riscv_smstateen_preview_enabled ext && is_stateen_csr m csr)
          || ((csr =? CSR_SCOUNTOVF) && riscv_sscofpmf_enabled ext)
          || (h_enabled m && one_of csr hypervisor_csrs)
          || is_rv32_counter_high_csr csr
          || is_hpm_zero_csr m csr
          || between 0x3a0 csr 0x3a3 || between 0x3b0 csr 0x3bf
  then if one_of csr diff_skip_csrs || is_rv32_counter_high_csr csr
       then CSR_EXIST_DIFF_SKIP else CSR_EXIST
  else CSR_NOT_EXIST.

(** ** Reads *)

(** In V-mode the supervisor CSR numbers name the VS registers. *)
Definition guest_aliases : list (Z * Z) :=
  [(CSR_SSTATUS, CSR_VSSTATUS); (CSR_SIE, CSR_VSIE); (CSR_STVEC, CSR_VSTVEC);
   (CSR_SSCRATCH, CSR_VSSCRATCH); (CSR_SEPC, CSR_VSEPC); (CSR_SCAUSE, CSR_VSCAUSE);
   (CSR_STVAL, CSR_VSTVAL); (CSR_SIP, CSR_VSIP); (0x14d, CSR_VSTIMECMP); (CSR_SATP, CSR_VSATP)].
Definition guest_csr_alias (m : machine) (csr : Z) : Z :=
  if CONFIG_RV64 && virt m then
    match List.find (fun p => p.1 =? csr) guest_aliases with Some p => p.2 | None => csr end
  else csr.

Definition guest_shared_supervisor_csr (csr : Z) : bool :=
  (csr =? CSR_SCOUNTEREN) || (csr =? CSR_SENVCFG) || between CSR_SSTATEEN0 csr CSR_SSTATEEN3.

(** The reads of the hypervisor extension that RV64 adds. *)
Definition csr_read_h64 (m : machine) (csr : Z) : option Z :=
  if negb (CONFIG_RV64 && h_enabled m) then None
  else if csr =? CSR_VSSTATUS then
    let value := (CSR m CSR_VSSTATUS .& wnot (1 << 63)) .| (2 << 32) in
    Some (if (((value >> 13) .& 3) =? 3) || (((value >> 9) .& 3) =? 3)
          then value .| (1 << 63) else value)
  else if csr =? CSR_HSTATUS then Some (CSR m CSR_HSTATUS .| (2 << 32))
  else if (csr =? CSR_HGEIE) || (csr =? CSR_HGEIP) then Some 0
  else if csr =? CSR_HENVCFG then
    Some (CSR m CSR_HENVCFG .& (CSR m CSR_MENVCFG .| wnot (3 << 62)))
  else None.

(** The hypervisor's interrupt views. *)
Definition csr_read_hirq (m : machine) (csr : Z) : option Z :=
  if negb (h_enabled m) then None
  else
    let virtual_mask := word (riscv_virtual_irq_mask (riscv_isa_extensions m)) in
    if csr =? CSR_HIP then Some (riscv_mip_value m .& virtual_mask)
    else if csr =? CSR_HIE then Some (CSR m CSR_MIE .& virtual_mask)
    else if csr =? CSR_VSIP then Some ((riscv_mip_value m .& CSR m CSR_HIDELEG .& virtual_mask) >> 1)
    else if csr =? CSR_VSIE then Some ((CSR m CSR_MIE .& CSR m CSR_HIDELEG .& virtual_mask) >> 1)
    else None.

Definition csr_read_value (m : machine) (csr : Z) : Z :=
  let csr := guest_csr_alias m (csr .& 0xfff) in
  let ext := riscv_isa_extensions m in
  if is_pmp_csr csr then pmp_csr_read m csr
  else
    match csr_read_h64 m csr with
    | Some v => v
    | None =>
      if (csr =? CSR_TIME) && virt m && h_enabled m
      then word (CSR m CSR_TIME + CSR m CSR_HTIMEDELTA)
      else if csr =? CSR_MIP then riscv_mip_value m
      else if csr =? CSR_SIP
      then riscv_mip_value m .& CSR m CSR_MIDELEG .& word (riscv_supervisor_irq_mask ext)
      else if csr =? CSR_SIE
      then CSR m CSR_MIE .& CSR m CSR_MIDELEG .& word (riscv_supervisor_irq_mask ext)
      else
        match csr_read_hirq m csr with
        | Some v => v
        | None =>
          if csr =? CSR_SCOUNTOVF then 0
          else if between CSR_HSTATEEN0 csr CSR_HSTATEEN3 && h_enabled m
                  && riscv_smstateen_preview_enabled ext
          then CSR m csr .& CSR m (CSR_MSTATEEN0 + csr - CSR_HSTATEEN0)
          else if is_hpm_zero_csr m csr then 0
          else if csr =? CSR_FFLAGS then CSR m CSR_FCSR .& 0x1f
          else if csr =? CSR_FRM then (CSR m CSR_FCSR >> 5) .& 0x7
          else if csr =? CSR_FCSR then CSR m CSR_FCSR .& 0xff
          else if csr =? CSR_CYCLE_ then CSR m CSR_MCYCLE
          else if csr =? CSR_INSTRET then CSR m CSR_MINSTRET
          else if negb CONFIG_RV64 && (csr =? CSR_CYCLEH) then CSR m CSR_MCYCLEH
          else if negb CONFIG_RV64 && (csr =? CSR_INSTRETH) then CSR m CSR_MINSTRETH
          else CSR m csr
        end
    end.

(** The old value of a read-modify-write: the external SEIP is left out of MIP. *)
Definition csr_rmw_value (m : machine) (csr : Z) : Z :=
  if csr =? CSR_MIP then (riscv_mip_value m .& wnot 0x200) .| (CSR m CSR_MIP .& 0x200)
  else csr_read_value m csr.

(** ** State enables *)

Definition stateen_machine_mask (csr : Z) : Z :=
  if CONFIG_RV64 then (1 << 63) .| (if csr =? CSR_MSTATEEN0 then 1 << 62 else 0)
  else (1 << 31) .| (if csr =? CSR_MSTATEEN0H then 1 << 30 else 0).

Definition stateen_write (csr value : Z) (m : machine) : machine :=
  if between CSR_SSTATEEN0 csr CSR_SSTATEEN3 then m
  else if CONFIG_RV64 then
    if between CSR_HSTATEEN0 csr CSR_HSTATEEN3 && h_enabled m
       && riscv_smstateen_preview_enabled (riscv_isa_extensions m)
    then
      let index := csr - CSR_HSTATEEN0 in
      setCSR csr (value .& stateen_machine_mask (CSR_MSTATEEN0 + index)
                    .& CSR m (CSR_MSTATEEN0 + index)) m
    else if between CSR_MSTATEEN0 csr CSR_MSTATEEN3 then
      let m := setCSR csr (value .& stateen_machine_mask csr) m in
      if h_enabled m then
        let h := CSR_HSTATEEN0 + csr - CSR_MSTATEEN0 in setCSR h (CSR m h .& CSR m csr) m
      else m
    else m
  else if between CSR_MSTATEEN0H csr CSR_MSTATEEN3H
  then setCSR csr (value .& stateen_machine_mask csr) m
  else m.

(** The machine-level state enable of a CSR: its register index and bit. *)
Definition stateen_slot (m : machine) (csr : Z) : option (Z * Z) :=
  if between CSR_SSTATEEN0 csr CSR_SSTATEEN3 then Some (csr - CSR_SSTATEEN0, 63)
  else if between CSR_HSTATEEN0 csr CSR_HSTATEEN3 && h_enabled m
  then Some (csr - CSR_HSTATEEN0, 63)
  else if (csr =? CSR_HENVCFG) && h_enabled m then Some (0, 62)
  else if csr =? CSR_SENVCFG then Some (0, 62)
  else None.

Definition stateen_machine_allows_supervisor (m : machine) (csr : Z) : bool :=
  if negb (riscv_smstateen_preview_enabled (riscv_isa_extensions m)) then true
  else
    match stateen_slot m csr with
    | None => true
    | Some (index, bit) =>
        if CONFIG_RV64 then nz ((CSR m (CSR_MSTATEEN0 + index) >> bit) .& 1)
        else nz ((CSR m (CSR_MSTATEEN0H + index) >> (bit - 32)) .& 1)
    end.

Definition stateen_guest_access (m : machine) (csr : Z) : bool :=
  if CONFIG_RV64 then
    if negb (virt m) || negb (priv m =? PRV_S) || negb (h_enabled m)
       || negb (riscv_smstateen_preview_enabled (riscv_isa_extensions m)) then true
    else if csr =? CSR_SENVCFG then nz ((CSR m CSR_HSTATEEN0 >> 62) .& 1)
    else if between CSR_SSTATEEN0 csr CSR_SSTATEEN3
    then nz ((CSR m (CSR_HSTATEEN0 + csr - CSR_SSTATEEN0) >> 63) .& 1)
    else true
  else true.

(** ** Writes *)

Definition csrw_satp_accept (v : Z) : bool :=
  if CONFIG_RV64 then let mode := (v >> 60) .& 0xf in (mode =? 0) || (mode =? 8) else true.

(** CBIE in an [envcfg] register: the reserved value 2 reads as 3. *)
Definition envcfg_cbie (result : Z) : Z :=
  if (result .& 0x30) =? 0x20 then result .| 0x10 else result.

Definition tvec_warl (v : Z) : Z := (v .& wnot 0x3) .| (if nz (v .& 0x2) then 0 else v .& 0x3).

Definition hstatus_warl (ext v : Z) : Z :=
  let hupmm := (v >> 48) .& 3 in
  let hupmm := if negb (nz (ext .& NEMU_ISA_EXT_SSNPM)) || (hupmm =? 1) then 0 else hupmm in
  (v .& ((15 << 6) .| CSR_HSTATUS_VTVM .| CSR_HSTATUS_VTW .| CSR_HSTATUS_VTSR))
    .| (2 << 32) .| (hupmm << 48).

Definition hgatp_warl (v : Z) : Z :=
  let mode := v >> 60 in if mode =? 8 then (8 << 60) .| (v .& ((1 << 44) - 4)) else 0.

Definition henvcfg_warl (m : machine) (v : Z) : Z :=
  envcfg_cbie ((v .& 0xf0) .| word (riscv_envcfg_pmm (riscv_isa_extensions m) v NEMU_ISA_EXT_SSNPM)
                 .| (v .& CSR m CSR_MENVCFG .& (3 << 62))).

Definition vsstatus_warl (ext v : Z) : Z :=
  (v .& ((3 << 18) .| (3 << 13) .| (1 << 8) .| (1 << 5) .| (1 << 1)
           .| (if riscv_v128_preview_enabled ext then CSR_MSTATUS_VS_MASK else 0)))
    .| (2 << 32).

Definition senvcfg_warl (ext v : Z) : Z :=
  envcfg_cbie ((v .& 0xf0) .| word (riscv_envcfg_pmm ext v NEMU_ISA_EXT_SSNPM)).

Definition menvcfg_warl (ext v : Z) : Z :=
  if CONFIG_RV64
  then envcfg_cbie ((v .& (0xc000000000000000 .| 0xf0))
                      .| word (riscv_envcfg_pmm ext v NEMU_ISA_EXT_SMNPM))
  else envcfg_cbie (v .& 0xf0).

(** The RV64 hypervisor registers. *)
Definition csrw_warl_h (m : machine) (c v : Z) : option Z :=
  let ext := riscv_isa_extensions m in
  if negb CONFIG_RV64 then None
  else if c =? CSR_HEDELEG then Some (v .& 0xcb1fe)
  else if c =? CSR_HCOUNTEREN then Some (v .& 0x7)
  else if c =? CSR_HGEIE then Some 0
  else if (c =? CSR_HIDELEG) || (c =? CSR_HVIP) then Some (v .& word (riscv_virtual_irq_mask ext))
  else if c =? CSR_HSTATUS then Some (hstatus_warl ext v)
  else if c =? CSR_HENVCFG then Some (henvcfg_warl m v)
  else if c =? CSR_VSSTATUS then Some (vsstatus_warl ext v)
  else if c =? CSR_HGATP then Some (hgatp_warl v)
  else None.

Definition mie_mask (m : machine) : Z :=
  (if CONFIG_RAPTOR_MEMORY_MAP then 0x10aaa else 0xaaa)
    .| (if riscv_sscofpmf_enabled (riscv_isa_extensions m) then 0x2000 else 0)
    .| word (riscv_virtual_irq_mask (riscv_isa_extensions m)).

(** The value stored for a write of [v]. *)
Definition csrw_warl (m : machine) (c v : Z) : Z :=
  let c := c .& 0xfff in
  let ext := riscv_isa_extensions m in
  if CONFIG_RV_MCOUNTINHIBIT && (c =? CSR_MCOUNTINHIBIT) then 0
  else if one_of c [CSR_MTVEC; CSR_STVEC; CSR_VSTVEC]
  then tvec_warl v
  else if one_of c [CSR_MEPC; CSR_SEPC; CSR_VSEPC] then v .& wnot 0x1
  else if one_of c [CSR_SATP; CSR_VSATP] then
    if CONFIG_RV64 then
      v .& (wnot (0xffff << 44) .| (((1 << CONFIG_RV_ASID_BITS) - 1) << 44))
    else v
  else
    match csrw_warl_h m c v with
    | Some r => r
    | None =>
      if one_of c [CSR_MCOUNTEREN; CSR_SCOUNTEREN] then v .& 0x7
      else if c =? CSR_MIE then v .& mie_mask m
      else if CONFIG_RAPTOR_MEMORY_MAP && (c =? CSR_MBERR_STATUS)
      then CSR m CSR_MBERR_STATUS .& wnot (v .& 3)
      else if c =? CSR_MENVCFGH then v .& 0x80000000
      else if c =? CSR_MSTATUSH then 0
      else if c =? CSR_SENVCFG then senvcfg_warl ext v
      else if c =? CSR_MENVCFG then menvcfg_warl ext v
      else v
    end.

(** [cpu.sr[csr] = (cpu.sr[csr] & ~mask) | (v & mask)]. *)
Definition mergeCSR (csr mask v : Z) (m : machine) : machine :=
  setCSR csr ((CSR m csr .& wnot mask) .| (v .& mask)) m.

(** The floating-point CSRs are fields of FCSR, and a write dirties the unit. *)
Definition csrw_fp (c v : Z) (m : machine) : machine :=
  let m := if c =? CSR_FFLAGS
           then setCSR CSR_FCSR ((CSR m CSR_FCSR .& wnot 0x1f) .| (v .& 0x1f)) m
           else if c =? CSR_FRM
           then setCSR CSR_FCSR ((CSR m CSR_FCSR .& wnot 0xe0) .| ((v .& 0x7) << 5)) m
           else setCSR CSR_FCSR (v .& 0xff) m in
  let m := setCSR CSR_MSTATUS ((CSR m CSR_MSTATUS .& wnot CSR_MSTATUS_FS_MASK) .| (3 << 13)) m in
  if virt m then orCSR CSR_VSSTATUS CSR_MSTATUS_FS_MASK m else m.

(** The CSRs that are neither floating-point, vector, state enables nor PMP. *)
Definition csrw_plain (c v : Z) (m : machine) : machine :=
  let ext := riscv_isa_extensions m in
  let vmask := word (riscv_virtual_irq_mask ext) in
  if c =? CSR_MIP then
    let mask := word (riscv_supervisor_irq_mask ext) .& wnot (if sstc_enabled m then 0x20 else 0) in
    let m := mergeCSR CSR_MIP mask v m in
    if h_enabled m then mergeCSR CSR_HVIP 0x4 v m else m
  else if (c =? CSR_HIE) || (c =? CSR_VSIE) then
    let mask := if c =? CSR_VSIE then vmask .& CSR m CSR_HIDELEG else vmask in
    mergeCSR CSR_MIE mask (if c =? CSR_VSIE then wshl v 1 else v) m
  else if (c =? CSR_HIP) || (c =? CSR_VSIP) then
    let mask := if c =? CSR_VSIP then 0x4 .& CSR m CSR_HIDELEG else 0x4 in
    mergeCSR CSR_HVIP mask (if c =? CSR_VSIP then wshl v 1 else v) m
  else setCSR c v m.

Definition csrw_store (c v : Z) (m : machine) : machine :=
  if is_fp_csr c then csrw_fp c v m
  else if is_vector_csr c then riscv_vector_csr_write c v m
  else if is_stateen_csr m c then stateen_write c v m
  else if is_hpm_zero_csr m c then m
  else let '(is_pmp, m) := pmp_csr_write c v m in if is_pmp then m else csrw_plain c v m.

(** The CSRs whose writes invalidate cached translations. *)
Definition csrw_flushes (c : Z) : bool :=
  one_of c [CSR_SATP; CSR_VSATP; CSR_HGATP; CSR_HSTATUS; CSR_VSSTATUS; CSR_MSTATUS; CSR_SSTATUS;
            CSR_MSTATUSH].

(** The macro [CSRW]. *)
Definition CSRW (i v : Z) (m : machine) : machine :=
  let c := guest_csr_alias m (i .& 0xfff) in
  let v := csrw_warl m c v in
  let pmm_changed := one_of c [CSR_SENVCFG; CSR_MENVCFG; CSR_HENVCFG]
                     && nz ((CSR m c .^ v) .& word RISCV_ENVCFG_PMM) in
  if one_of c [CSR_SATP; CSR_VSATP] && negb (csrw_satp_accept v)
  then m <| last_csr_wr := c |>
  else
    let m := csrw_store c v m in
    let m := if (c =? CSR_MENVCFG) && h_enabled m
             then setCSR CSR_HENVCFG (CSR m CSR_HENVCFG .& (v .| wnot (word (3 << 62)))) m else m in
    let m := m <| last_csr_wr := c |> in
    if csrw_flushes c || pmm_changed then machine_soft_tlb_flush m else m.

(** ** Access control *)

(** The exception of an access, with whether the reference is told to skip the
    instruction; [None] when the access is permitted. *)
Definition denied : Type := option (Z * bool).
Definition illegal_skip : denied := Some (MCA_ILLEGAL_INS, true).
Definition illegal : denied := Some (MCA_ILLEGAL_INS, false).
Definition virtual_ins : denied := Some (MCA_VIRT_INS, false).

Definition orelse (d : denied) (k : denied) : denied := match d with Some e => Some e | None => k end.
Definition deny_if (b : bool) (d : denied) : denied := if b then d else None.

Definition csr_privilege (csr : Z) : Z := (csr >> 8) .& 0x3.
Definition csr_readonly (csr : Z) : bool := ((csr >> 10) .& 0x3) =? 0x3.

(** A guest's access to a CSR of the hypervisor or of HS-mode. *)
Definition guest_hs_csr (m : machine) (csr : Z) : bool :=
  virt m
  && ((csr_privilege csr =? 2)
      || ((priv m =? PRV_S) && (csr_privilege csr =? 1) && (guest_csr_alias m csr =? csr)
          && negb (guest_shared_supervisor_csr csr))
      || ((priv m =? PRV_U) && (csr_privilege csr =? 1)
          && negb (bool_decide (check_csr_exist m csr = CSR_NOT_EXIST)))).

Definition deny_guest (m : machine) (csr : Z) (is_write : bool) : denied :=
  deny_if (guest_hs_csr m csr)
    (if negb (bool_decide (check_csr_exist m csr = CSR_NOT_EXIST))
        && negb (is_write && csr_readonly csr)
        && stateen_machine_allows_supervisor m csr
     then virtual_ins else illegal).

Definition deny_privilege (m : machine) (csr : Z) (is_write : bool) : denied :=
  orelse (deny_if ((priv m <? csr_privilege csr)
                   && negb ((csr_privilege csr =? 2) && (priv m =? PRV_S) && h_enabled m))
            illegal_skip)
  (orelse (deny_if (is_write && csr_readonly csr) illegal_skip)
  (orelse (deny_if ((priv m =? PRV_S) && negb (stateen_machine_allows_supervisor m csr)) illegal)
          (deny_if (negb (stateen_guest_access m csr)) virtual_ins))).

(** [satp] and [hgatp] under TVM and VTVM. *)
Definition deny_tvm (m : machine) (csr : Z) : denied :=
  orelse (deny_if (((csr =? CSR_SATP) || (csr =? CSR_HGATP)) && (priv m =? PRV_S) && negb (virt m)
                   && nz (get_tvm (CSR m CSR_MSTATUS))) illegal_skip)
         (deny_if ((csr =? CSR_SATP) && virt m && (priv m =? PRV_S) && h_enabled m
                   && nz (CSR m CSR_HSTATUS .& CSR_HSTATUS_VTVM)) virtual_ins).

(** The floating-point and vector units, when off. *)
Definition deny_unit (m : machine) (csr : Z) : denied :=
  orelse (deny_if (is_fp_csr csr
                   && (negb (nz (CSR m CSR_MISA .& CSR_MISA_EXT_F))
                       || (((CSR m CSR_MSTATUS .& CSR_MSTATUS_FS_MASK) >> 13) =? 0)
                       || (virt m && negb (nz (CSR m CSR_VSSTATUS .& CSR_MSTATUS_FS_MASK)))))
            illegal_skip)
         (deny_if (is_vector_csr csr && negb (riscv_vector_context_enabled m)) illegal).

(** [stimecmp]. *)
Definition deny_stimecmp (m : machine) (csr : Z) : denied :=
  orelse (deny_if (((csr =? 0x14d) || (csr =? 0x15d)) && negb (priv m =? PRV_M)
                   && (negb (sstc_enabled m) || negb (nz (CSR m CSR_MCOUNTEREN .& 2)))) illegal)
         (deny_if ((csr =? 0x14d) && virt m && h_enabled m
                   && (negb (nz (CSR m CSR_HENVCFG .& word (1 << 63)))
                       || negb (nz (CSR m CSR_HCOUNTEREN .& 2)))) virtual_ins).

(** The counters below M-mode. *)
Definition deny_counter (m : machine) (csr : Z) : denied :=
  let counter_bit := counteren_bit csr in
  orelse
    (deny_if (nz counter_bit && negb (priv m =? PRV_M))
      (orelse (deny_if (negb (nz (CSR m CSR_MCOUNTEREN .& counter_bit))) illegal_skip)
      (orelse (deny_if (virt m && h_enabled m && negb (nz (CSR m CSR_HCOUNTEREN .& counter_bit)))
                 virtual_ins)
              (deny_if ((priv m =? PRV_U) && negb (nz (CSR m CSR_SCOUNTEREN .& counter_bit)))
                 (if virt m && h_enabled m then virtual_ins else illegal_skip)))))
    (deny_if ((between 0xc03 csr 0xc1f || (negb CONFIG_RV64 && between 0xc83 csr 0xc9f))
              && negb (priv m =? PRV_M)) illegal_skip).

(** Every check of [csr_valid] before the existence of the CSR, in its order. *)
Definition csr_denied (m : machine) (csr : Z) (is_write : bool) : denied :=
  orelse (deny_guest m csr is_write)
  (orelse (deny_privilege m csr is_write)
  (orelse (deny_tvm m csr)
  (orelse (deny_unit m csr)
  (orelse (deny_stimecmp m csr) (deny_counter m csr))))).

(** Returns [None] when the access may proceed, or the address of the trap
    handler. *)
Definition csr_valid (spc csr : Z) (is_write : bool) (m : machine) : option Z * machine :=
  let csr := csr .& 0xfff in
  let status :=
    match csr_denied m csr is_write with
    | Some e => Some e
    | None => if decide (check_csr_exist m csr = CSR_NOT_EXIST) then illegal_skip else None
    end in
  match status with
  | Some (NO, skip) =>
      let '(dnpc, m) := isa_raise_intr NO spc m in
      (Some dnpc, if skip : bool then difftest_skip_ref m else m)
  | None =>
      (None, if decide (check_csr_exist m csr = CSR_EXIST_DIFF_SKIP)
             then difftest_skip_ref m else m)
  end.

(** ** Cache-block operations *)

Inductive cbo_kind := CBO_INVAL | CBO_CLEAN_FLUSH | CBO_ZERO.

(** The exception of a cache-block instruction, 0 if permitted. *)
Definition cbo_access_exception (m : machine) (kind : cbo_kind) : Z :=
  if priv m =? PRV_M then 0
  else
    let mask := match kind with CBO_INVAL => 0x30 | CBO_CLEAN_FLUSH => 0x40 | CBO_ZERO => 0x80 end in
    let off r := negb (nz (CSR m r .& mask)) in
    if off CSR_MENVCFG || ((priv m =? PRV_U) && negb (virt m) && off CSR_SENVCFG)
    then MCA_ILLEGAL_INS
    else if virt m && (off CSR_HENVCFG || ((priv m =? PRV_U) && off CSR_SENVCFG))
    then MCA_VIRT_INS
    else 0.

(** [None] when the operation may proceed, or the address of the trap handler. *)
Definition cbo_prepare (spc : Z) (kind : cbo_kind) (m : machine) : option Z * machine :=
  let exception := cbo_access_exception m kind in
  if exception =? 0 then (None, m)
  else
    let '(dnpc, m) := isa_raise_intr exception spc m in
    (Some dnpc, if exception =? MCA_ILLEGAL_INS then difftest_skip_ref m else m).

(** ** The end of an instruction *)

Definition MSTATUS_WMASK (m : machine) : Z :=
  0x007E79AA
    .| (if riscv_v128_preview_enabled (riscv_isa_extensions m) then CSR_MSTATUS_VS_MASK else 0)
    .| (if CONFIG_RV64 && h_enabled m then 3 << 38 else 0).

Definition SSTATUS_RMASK (m : machine) : Z :=
  (if CONFIG_RV64 then 0x80000003000C6122 else 0x800c6122)
    .| (if riscv_v128_preview_enabled (riscv_isa_extensions m) then CSR_MSTATUS_VS_MASK else 0).

Definition SIE_RMASK (m : machine) : Z := word (riscv_supervisor_irq_mask (riscv_isa_extensions m)).
Definition SIP_WMASK (m : machine) : Z :=
  0x2 .| (if riscv_sscofpmf_enabled (riscv_isa_extensions m) then 0x2000 else 0).

Definition CSR_MISA_VALUE (m : machine) : Z :=
  let ext := riscv_isa_extensions m in
  let v := if CONFIG_RV_F && CONFIG_RV_D && negb CONFIG_RVE
           then (if riscv_v128_preview_enabled ext then 0x200000 else 0) else 0 in
  let f := if CONFIG_RV_F then 0x20 else 0 in
  let d := if CONFIG_RV_D then 0x08 else 0 in
  if CONFIG_RV64 then
    0x8000000000141107 .| f .| d .| v .| (if h_enabled m then 0x80 else 0)
  else 0x40141107 .| f .| d .| v.

(** The WARL fields of MSTATUS, MISA, MEDELEG and MIDELEG. *)
Definition commit_warl (m : machine) : machine :=
  let m := setCSR CSR_MSTATUS (CSR m CSR_MSTATUS .& MSTATUS_WMASK m) m in
  let m := setCSR CSR_MISA (CSR_MISA_VALUE m) m in
  let m := setCSR CSR_MEDELEG
             (CSR m CSR_MEDELEG .& (0x8b3fe .| (if h_enabled m then 0xf00400 else 0))) m in
  setCSR CSR_MIDELEG
    ((CSR m CSR_MIDELEG .& SIE_RMASK m) .| word (riscv_virtual_irq_mask (riscv_isa_extensions m))) m.

(** A write to a supervisor view reaches the register it is a view of. *)
Definition commit_views_in (last_csr_wr : Z) (m : machine) : machine :=
  let m := if last_csr_wr =? CSR_SSTATUS then
             let ms_bits := CSR m CSR_SSTATUS .& SSTATUS_RMASK m in
             let m := setCSR CSR_MSTATUS
                        ((CSR m CSR_MSTATUS .& wnot (SSTATUS_RMASK m)) .| ms_bits) m in
             setCSR CSR_MSTATUS (CSR m CSR_MSTATUS .& MSTATUS_WMASK m) m
           else m in
  let m := if last_csr_wr =? CSR_SIE
           then mergeCSR CSR_MIE (CSR m CSR_MIDELEG .& SIE_RMASK m)
                  (CSR m CSR_SIE .& (CSR m CSR_MIDELEG .& SIE_RMASK m)) m else m in
  if last_csr_wr =? CSR_SIP
  then mergeCSR CSR_MIP (CSR m CSR_MIDELEG .& SIP_WMASK m)
         (CSR m CSR_SIP .& (CSR m CSR_MIDELEG .& SIP_WMASK m)) m else m.

(** A write to a timer compare, or to its enable, is seen by the CLINT at once. *)
Definition commit_timer (last_csr_wr : Z) (m : machine) : machine :=
  if one_of last_csr_wr [0x14d; 0x15d; CSR_MENVCFG; CSR_MENVCFGH] then clint_update_mip m else m.

(** Dirty in any of FS, VS and XS. *)
Definition status_dirty (status : Z) : bool :=
  (((status >> 13) .& 3) =? 3) || (((status >> 9) .& 3) =? 3) || (((status >> 15) .& 3) =? 3).

(** MPP, SXL, UXL and SD. *)
Definition commit_status (m : machine) : machine :=
  let m := if ((CSR m CSR_MSTATUS >> 11) .& 3) =? 2
           then setCSR CSR_MSTATUS (CSR m CSR_MSTATUS .& wnot (3 << 11)) m else m in
  let m := if CONFIG_RV64
           then setCSR CSR_MSTATUS ((CSR m CSR_MSTATUS .& wnot 0xF00000000) .| 0xA00000000) m
           else m in
  if status_dirty (CSR m CSR_MSTATUS)
  then setCSR CSR_MSTATUS (CSR m CSR_MSTATUS .| (if CONFIG_RV64 then 1 << 63 else 0x80000000)) m
  else m.

(** The supervisor views of MSTATUS, MIE and MIP. *)
Definition commit_views_out (m : machine) : machine :=
  let m := setCSR CSR_SSTATUS (CSR m CSR_MSTATUS .& SSTATUS_RMASK m) m in
  let m := setCSR CSR_SIE (CSR m CSR_MIE .& CSR m CSR_MIDELEG .& SIE_RMASK m) m in
  setCSR CSR_SIP (riscv_mip_value m .& CSR m CSR_MIDELEG .& SIE_RMASK m) m.

Definition csr_commit (m : machine) : machine :=
  let commit := if CONFIG_TARGET_SHARE then true
                else negb (last_csr_wr m =? 0) || csr_dirty m in
  let last := last_csr_wr m in
  let m := m <| last_csr_wr := 0 |> in
  let m := m <| csr_dirty := false |> in
  if commit then commit_views_out (commit_status (commit_timer last (commit_views_in last (commit_warl m)))) else m.
(** ** Reset: hart [hartid] starts at [reset_pc], the address the boot options select *)

(** The registers common to every configuration. *)
Definition restart_base (reset_pc hartid : Z) (m : machine) : machine :=
  let m := m <| pc := reset_pc |> in
  let m := setR 0 0 m in
  let m := setCSR CSR_MVENDORID 0 m in
  let m := setCSR CSR_MARCHID 50 m in
  let m := setCSR CSR_MISA (CSR_MISA_VALUE m) m in
  let m := setCSR CSR_MIDELEG (word (riscv_virtual_irq_mask (riscv_isa_extensions m))) m in
  let m := setCSR CSR_MHARTID hartid m in
  let m := m <| priv := PRV_M |> in
  let m := m <| virt := false |> in
  let m := m <| raise_intr := INTR_EMPTY |> in
  let m := m <| last_inst_priv := PRV_M |> in
  let m := m <| last_csr_wr := 0 |> in
  let m := m <| csr_dirty := false |> in
  let m := m <| instruction_trapped := false |> in
  let m := m <| reservation := 0 |> in
  let m := m <| reservation_bytes := 0 |> in
  let m := m <| mtimecmp := wrap 64 (-1) |> in
  let m := setCSR 0x14d (wnot 0) m in
  setCSR 0x15d (wnot 0) m.

(** The XL fields, and the guest's registers. *)
Definition restart_status (m : machine) : machine :=
  if CONFIG_RV64 then
    let m := setCSR CSR_MSTATUS (setf 32 2 2 (setf 34 2 2 (CSR m CSR_MSTATUS))) m in
    let m := setCSR CSR_SSTATUS (2 << 32) m in
    if h_enabled m
    then setCSR CSR_VSTIMECMP (wnot 0) (setCSR CSR_VSSTATUS (2 << 32) m) else m
  else m.

Definition restart (reset_pc hartid : Z) (m : machine) : machine :=
  (restart_status (riscv_vector_reset (restart_base reset_pc hartid m))) <| intr := false |>.

End Csr.
