(* ===== verification/CsrSpec.v ===== *)
(** * CsrSpec: what the CSR file promises: access control, WARL legality, and
    the coherence of the supervisor views at the end of every instruction. *)
From S2P Require Import Prelude Config Tlb Machine Pmp Trap TrapSpec Clint ClintSpec Vector Csr.

Section CsrSpec.
Context {Cfg : Config}.

(** ** Access control *)

Lemma orelse_None d k : orelse d k = None <-> d = None /\ k = None.
Proof. destruct d; cbn; naive_solver. Qed.

Lemma deny_if_None b d : deny_if b d = None <-> (b = true -> d = None).
Proof. destruct b; cbn; naive_solver. Qed.

Lemma deny_if_illegal b : deny_if b illegal = None <-> b = false.
Proof. by destruct b. Qed.
Lemma deny_if_illegal_skip b : deny_if b illegal_skip = None <-> b = false.
Proof. by destruct b. Qed.
Lemma deny_if_virtual b : deny_if b virtual_ins = None <-> b = false.
Proof. by destruct b. Qed.

(** The exceptions of an access check. *)
Definition denial_ok (virtual : bool) (d : denied) : Prop :=
  forall NO skip, d = Some (NO, skip) -> NO = MCA_ILLEGAL_INS \/ NO = MCA_VIRT_INS /\ virtual = true.

Lemma denial_orelse v d k : denial_ok v d -> denial_ok v k -> denial_ok v (orelse d k).
Proof. destruct d; cbn; auto. Qed.
Lemma denial_if v b d : (b = true -> denial_ok v d) -> denial_ok v (deny_if b d).
Proof. destruct b; cbn; [auto|]. by intros _ NO skip. Qed.
Lemma denial_illegal v : denial_ok v illegal.
Proof. intros NO skip [= <- <-]. by left. Qed.
Lemma denial_illegal_skip v : denial_ok v illegal_skip.
Proof. intros NO skip [= <- <-]. by left. Qed.
Lemma denial_virtual v : v = true -> denial_ok v virtual_ins.
Proof. intros -> NO skip [= <- <-]. by right. Qed.

#[local] Hint Resolve denial_orelse denial_if denial_illegal denial_illegal_skip denial_virtual : core.

Lemma csr_denied_cause m csr is_write : denial_ok (virt m) (csr_denied m csr is_write).
Proof.
  unfold csr_denied, deny_guest, deny_privilege, deny_tvm, deny_unit, deny_stimecmp, deny_counter.
  repeat apply denial_orelse; apply denial_if; intros H; auto.
  - destruct (_ && _); auto. apply denial_virtual. unfold guest_hs_csr in H. by destruct (virt m).
  - apply denial_virtual. unfold stateen_guest_access in H.
    destruct CONFIG_RV64; [|done]. by destruct (virt m).
  - apply denial_virtual. by destruct (virt m), (csr =? CSR_SATP).
  - apply denial_virtual. by destruct (virt m), (csr =? 0x14d).
  - repeat apply denial_orelse; apply denial_if; intros H'; auto.
    + apply denial_virtual. by destruct (virt m).
    + destruct (virt m); cbn; [destruct (h_enabled m)|]; auto.
Qed.

Lemma is_interrupt_sync NO : NO = MCA_ILLEGAL_INS \/ NO = MCA_VIRT_INS -> is_interrupt NO = false.
Proof. intros [->| ->]; unfold is_interrupt, MCA_INTR_BIT, XLEN; by destruct CONFIG_RV64. Qed.

Lemma isa_raise_intr_gpr NO epc m : gpr (isa_raise_intr NO epc m).2 = gpr m.
Proof.
  rewrite isa_raise_intr_cases. destruct (trap_start_frame NO m) as (_ & _ & _ & <- & _).
  destruct (trap_delegated m NO); [destruct (trap_to_guest m NO)|].
  - steps raise_to_vs. cbn [snd]. by mach.
  - steps raise_to_s. cbn [snd]. mach.
    rewrite (proj1 (proj2 (proj2 (hs_trap_info_frame NO m0)))). by mach.
  - steps raise_to_m. cbn [snd]. mach.
    rewrite (proj1 (proj2 (proj2 (m_trap_info_frame NO m0)))). by mach.
Qed.


(** ** WARL fields *)

Lemma testbit_3 i : 0 <= i -> Z.testbit 3 i = (i =? 0) || (i =? 1).
Proof. intros. change 3 with (Z.ones 2). rewrite testbit_ones by lia. lia. Qed.

Lemma cbie_reserved x : ((x .& 0x30) =? 0x20) = Z.testbit x 5 && negb (Z.testbit x 4).
Proof.
  assert (E : forall i, 0 <= i -> Z.testbit 0x30 i = (i =? 4) || (i =? 5))
    by (intros; apply (testbit_shl3 4); done).
  apply eq_true_iff_eq. rewrite Z.eqb_eq, andb_true_iff, negb_true_iff. split.
  - intros H. split.
    + assert (G := f_equal (fun z => Z.testbit z 5) H). cbv beta in G.
      rewrite Z.land_spec, E in G by lia. by destruct (Z.testbit x 5).
    + assert (G := f_equal (fun z => Z.testbit z 4) H). cbv beta in G.
      rewrite Z.land_spec, E in G by lia. by destruct (Z.testbit x 4).
  - intros [H5 H4]. apply Z.bits_inj'. intros i Hi. rewrite Z.land_spec, E by done.
    change 0x20 with (1 << 5). rewrite testbit_shl1 by done.
    destruct (Z.eqb_spec i 4) as [->|]; [by rewrite H4|].
    destruct (Z.eqb_spec i 5) as [->|]; [by rewrite H5|]. by rewrite andb_false_r.
Qed.

(** The value of PMM stored for a write of [v]. *)
Definition pmm_kept (ext extension v : Z) : bool :=
  nz (ext .& extension) && negb (Z.testbit v 32 && negb (Z.testbit v 33)).

Lemma testbit_pmm ext extension v i :
  0 <= i -> Z.testbit (riscv_envcfg_pmm ext v extension) i =
    pmm_kept ext extension v && ((i =? 32) || (i =? 33)) && Z.testbit v i.
Proof.
  intros Hi. unfold riscv_envcfg_pmm, pmm_kept. rewrite (field2 v 32) by lia.
  assert (E : forall a b, (b2z a + 2 * b2z b =? 1) = a && negb b) by (by intros [] []).
  rewrite E. change (32 + 1) with 33.
  destruct (nz _); [|by rewrite Z.bits_0]. cbn [negb orb andb].
  destruct (Z.testbit v 32 && negb (Z.testbit v 33)); [by rewrite Z.bits_0|]. cbn [negb andb].
  unfold RISCV_ENVCFG_PMM. rewrite Z.land_spec, testbit_shl3 by done. apply andb_comm.
Qed.

(** An [envcfg] register with implemented bits [K] beside PMM. *)
Definition envcfg_warl (ext K extension v : Z) : Z :=
  envcfg_cbie ((v .& K) .| word (riscv_envcfg_pmm ext v extension)).

Lemma testbit_envcfg ext K extension v i :
  0 <= i -> Z.testbit K 4 = true -> Z.testbit K 5 = true ->
  Z.testbit K 32 = false -> Z.testbit K 33 = false ->
  Z.testbit (envcfg_warl ext K extension v) i =
    if i =? 4 then Z.testbit v 4 || Z.testbit v 5
    else if (i =? 32) || (i =? 33)
    then (i <? XLEN) && pmm_kept ext extension v && Z.testbit v i
    else Z.testbit K i && Z.testbit v i.
Proof.
  intros Hi K4 K5 K32 K33. pose proof XLEN_pos. unfold envcfg_warl, envcfg_cbie.
  set (r := (v .& K) .| word (riscv_envcfg_pmm ext v extension)).
  assert (E : forall j, 0 <= j -> Z.testbit r j =
    if (j =? 32) || (j =? 33) then (j <? XLEN) && pmm_kept ext extension v && Z.testbit v j
    else Z.testbit K j && Z.testbit v j).
  { intros j Hj. unfold r. rewrite Z.lor_spec, Z.land_spec, testbit_word, testbit_pmm by done.
    destruct (Z.eqb_spec j 32) as [->|]; [by rewrite K32, andb_false_r, andb_true_r, andb_assoc|].
    destruct (Z.eqb_spec j 33) as [->|]; [by rewrite K33, andb_false_r, andb_true_r, andb_assoc|].
    cbn [orb]. by rewrite andb_false_r, andb_false_r, orb_false_r, andb_comm. }
  clearbody r. rewrite cbie_reserved, !E by lia. cbn [Z.eqb Pos.eqb orb]. rewrite K4, K5.
  destruct (Z.testbit v 5) eqn:E5, (Z.testbit v 4) eqn:E4; cbn [andb negb orb];
    rewrite ?Z.lor_spec, E by done;
    destruct (Z.eqb_spec i 4) as [->|]; cbn [Z.eqb Pos.eqb orb]; rewrite ?K4, ?E4; try done.
  change 0x10 with (1 << 4). rewrite testbit_shl1 by done.
  replace (i =? 4) with false by lia. by rewrite orb_false_r.
Qed.

Lemma envcfg_warl_idem ext K extension v :
  Z.testbit K 4 = true -> Z.testbit K 5 = true -> Z.testbit K 32 = false -> Z.testbit K 33 = false ->
  envcfg_warl ext K extension (envcfg_warl ext K extension v) = envcfg_warl ext K extension v.
Proof.
  intros K4 K5 K32 K33. apply Z.bits_inj'. intros i Hi. rewrite !testbit_envcfg by lia || done.
  cbn [Z.eqb Pos.eqb orb]. rewrite K5.
  destruct (Z.eqb_spec i 4); [by destruct (Z.testbit v 4), (Z.testbit v 5)|].
  unfold pmm_kept. rewrite !testbit_envcfg by lia || done. cbn [Z.eqb Pos.eqb orb].
  unfold pmm_kept. replace (i =? 4) with false by lia.
  assert (X : (33 <? XLEN) = (32 <? XLEN)) by (unfold XLEN; by destruct CONFIG_RV64).
  destruct (Z.eqb_spec i 32) as [->|]; [|destruct (Z.eqb_spec i 33) as [->|]];
    cbn [orb]; rewrite ?X; [| |by destruct (Z.testbit K i)].
  all: destruct (nz _), (Z.testbit v 32), (Z.testbit v 33), (32 <? XLEN); done.
Qed.

Lemma land_idem v K : (v .& K) .& K = v .& K.
Proof. by rewrite <-Z.land_assoc, Z.land_diag. Qed.

Lemma tvec_warl_idem v :
  tvec_warl (tvec_warl v) = tvec_warl v /\ Z.testbit (tvec_warl v) 1 = false.
Proof.
  pose proof XLEN_pos. set (f := tvec_warl).
  assert (E : forall x i, 0 <= i -> Z.testbit (f x) i =
    if i =? 0 then Z.testbit x 0 && negb (Z.testbit x 1) else
    if i =? 1 then false else (i <? XLEN) && Z.testbit x i).
  { intros x i Hi. unfold f, tvec_warl. change 0x2 with (1 << 1). rewrite nz_bit by lia.
    destruct (Z.testbit x 1) eqn:E1; rewrite Z.lor_spec, Z.land_spec, testbit_wnot, testbit_3,
      ?Z.bits_0, ?Z.land_spec, ?testbit_3 by done;
      destruct (Z.eqb_spec i 0) as [->|]; [| |replace (0 <? XLEN) with true by lia|];
      try (destruct (Z.eqb_spec i 1) as [->|]; rewrite ?E1); cbn;
      rewrite ?andb_false_r, ?andb_true_r, ?orb_false_r; try done; apply andb_comm. }
  split; [|by rewrite E].
  apply Z.bits_inj'. intros i Hi. rewrite !E by lia. cbn [Z.eqb Pos.eqb].
  destruct (Z.eqb_spec i 0) as [->|]; [by rewrite andb_true_r|].
  destruct (Z.eqb_spec i 1); [done|]. by destruct (i <? XLEN).
Qed.

Lemma hstatus_warl_idem ext v : hstatus_warl ext (hstatus_warl ext v) = hstatus_warl ext v.
Proof.
  set (on := negb (nz (ext .& NEMU_ISA_EXT_SSNPM))).
  set (K := (15 << 6) .| CSR_HSTATUS_VTVM .| CSR_HSTATUS_VTW .| CSR_HSTATUS_VTSR).
  set (h v := let hupmm := (v >> 48) .& 3 in if on || (hupmm =? 1) then 0 else hupmm).
  set (f := hstatus_warl ext).
  assert (F : forall x, f x = (x .& K) .| (2 << 32) .| (h x << 48)) by done.
  assert (K33 : Z.testbit K 33 = false) by done. assert (K48 : Z.testbit K 48 = false) by done.
  assert (K49 : Z.testbit K 49 = false) by done. clearbody f K.
  assert (Eh : forall x, h x = if on || (Z.testbit x 48 && negb (Z.testbit x 49)) then 0 else (x >> 48) .& 3).
  { intros x. unfold h. rewrite (field2 x 48) at 1 by lia.
    by replace (b2z (Z.testbit x 48) + 2 * b2z (Z.testbit x (48 + 1)) =? 1)
      with (Z.testbit x 48 && negb (Z.testbit x 49))
      by (change (48 + 1) with 49; by destruct (Z.testbit x 48), (Z.testbit x 49)). }
  assert (E : forall x i, 0 <= i -> Z.testbit (f x) i =
    if (i =? 48) || (i =? 49)
    then negb (on || (Z.testbit x 48 && negb (Z.testbit x 49))) && Z.testbit x i
    else if i =? 33 then true else Z.testbit x i && Z.testbit K i).
  { intros x i Hi. rewrite F, Eh. change (2 << 32) with (1 << 33).
    rewrite !Z.lor_spec, Z.land_spec, testbit_shl1, Z.shiftl_spec by done.
    destruct (Z.lt_ge_cases (i - 48) 0).
    - rewrite (Z.testbit_neg_r _ (i - 48)) by done.
      replace ((i =? 48) || (i =? 49)) with false by lia.
      destruct (Z.eqb_spec i 33) as [->|]; rewrite ?orb_true_r, ?orb_false_r; done.
    - assert (Ei : Z.testbit (if on || (Z.testbit x 48 && negb (Z.testbit x 49)) then 0
                     else (x >> 48) .& 3) (i - 48)
                   = negb (on || (Z.testbit x 48 && negb (Z.testbit x 49)))
                     && ((i =? 48) || (i =? 49)) && Z.testbit x i).
      { destruct (on || _); [by rewrite Z.bits_0|]. cbn [negb andb].
        rewrite Z.land_spec, Z.shiftr_spec, testbit_3 by lia.
        replace (i - 48 + 48) with i by lia. rewrite andb_comm. f_equal. lia. }
      rewrite Ei. replace (i =? 33) with false by lia.
      destruct (Z.eqb_spec i 48) as [->|]; [rewrite K48|destruct (Z.eqb_spec i 49) as [->|]; [rewrite K49|]];
        cbn [orb]; rewrite ?andb_false_r, ?andb_true_r, ?orb_false_r; done. }
  apply Z.bits_inj'. intros i Hi. rewrite !E by lia. cbn [Z.eqb Pos.eqb orb].
  destruct ((i =? 48) || (i =? 49)); [|destruct (i =? 33); [done|by destruct (Z.testbit v i), (Z.testbit K i)] ].
  destruct on, (Z.testbit v 48), (Z.testbit v 49), (Z.testbit v i); done.
Qed.

Lemma or_const_idem v K k : k .& K = 0 -> (((v .& K) .| k) .& K) .| k = (v .& K) .| k.
Proof. intros E. by rewrite Z.land_lor_distr_l, land_idem, E, Z.lor_0_r. Qed.

Lemma hgatp_warl_idem v : hgatp_warl (hgatp_warl v) = hgatp_warl v.
Proof.
  unfold hgatp_warl at 2 3. destruct (Z.eqb_spec (v >> 60) 8) as [E|]; [|done].
  unfold hgatp_warl.
  assert (E' : ((8 << 60) .| (v .& ((1 << 44) - 4))) >> 60 = 8).
  { rewrite Z.shiftr_lor, Z.shiftr_land. change (((1 << 44) - 4) >> 60) with 0.
    by rewrite Z.land_0_r. }
  rewrite E'. cbn [Z.eqb Pos.eqb]. rewrite Z.land_lor_distr_l, land_idem.
  change ((8 << 60) .& ((1 << 44) - 4)) with 0. by rewrite Z.lor_0_l.
Qed.

Lemma henvcfg_warl_envcfg m v :
  henvcfg_warl m v = envcfg_warl (riscv_isa_extensions m) (0xf0 .| (CSR m CSR_MENVCFG .& (3 << 62)))
                       NEMU_ISA_EXT_SSNPM v.
Proof.
  unfold henvcfg_warl, envcfg_warl. f_equal. rewrite Z.land_lor_distr_r, Z.land_assoc.
  rewrite <-!Z.lor_assoc. f_equal. apply Z.lor_comm.
Qed.

Lemma henvcfg_warl_idem m v : henvcfg_warl m (henvcfg_warl m v) = henvcfg_warl m v.
Proof.
  rewrite !henvcfg_warl_envcfg. apply envcfg_warl_idem;
    rewrite Z.lor_spec, Z.land_spec; by rewrite ?andb_false_r.
Qed.

Lemma vsstatus_warl_idem ext v : vsstatus_warl ext (vsstatus_warl ext v) = vsstatus_warl ext v.
Proof. apply or_const_idem. by destruct (riscv_v128_preview_enabled _). Qed.

Lemma menvcfg_warl_envcfg ext v :
  menvcfg_warl ext v =
    envcfg_warl (if CONFIG_RV64 then ext else 0)
      (if CONFIG_RV64 then 0xc000000000000000 .| 0xf0 else 0xf0) NEMU_ISA_EXT_SMNPM v.
Proof.
  unfold menvcfg_warl, envcfg_warl. destruct CONFIG_RV64 eqn:E; [done|].
  unfold word, XLEN. rewrite E. cbn [riscv_envcfg_pmm]. unfold riscv_envcfg_pmm.
  by rewrite Z.land_0_l, Z.lor_0_r.
Qed.

Lemma csrw_warl_h_idem m c v r :
  csrw_warl_h m c v = Some r -> csrw_warl_h m c r = Some r.
Proof.
  unfold csrw_warl_h. destruct CONFIG_RV64; [|done]. cbn [negb].
  destruct (c =? CSR_HEDELEG); [intros [= <-]; f_equal; apply land_idem|].
  destruct (c =? CSR_HCOUNTEREN); [intros [= <-]; f_equal; apply land_idem|].
  destruct (c =? CSR_HGEIE); [done|].
  destruct ((c =? CSR_HIDELEG) || (c =? CSR_HVIP)); [intros [= <-]; f_equal; apply land_idem|].
  destruct (c =? CSR_HSTATUS); [intros [= <-]; f_equal; apply hstatus_warl_idem|].
  destruct (c =? CSR_HENVCFG); [intros [= <-]; f_equal; apply henvcfg_warl_idem|].
  destruct (c =? CSR_VSSTATUS); [intros [= <-]; f_equal; apply vsstatus_warl_idem|].
  destruct (c =? CSR_HGATP); [|done]. intros [= <-]. f_equal. apply hgatp_warl_idem.
Qed.

(** ** Coherence of the architectural views *)

(** The CSRs [riscv_mip_value] reads. *)
Definition mip_inputs : list Z :=
  [CSR_MIP; CSR_HVIP; CSR_MBERR_STATUS; CSR_MENVCFG; CSR_MENVCFGH; CSR_HENVCFG; CSR_VSTIMECMP;
   CSR_TIME; CSR_HTIMEDELTA].

Lemma riscv_mip_value_ext m m' :
  (forall c, c ∈ mip_inputs -> CSR m' c = CSR m c) ->
  riscv_isa_extensions m' = riscv_isa_extensions m -> seip m' = seip m -> stip m' = stip m ->
  riscv_mip_value m' = riscv_mip_value m.
Proof.
  intros E Ee Es Et. unfold riscv_mip_value, riscv_virtual_timer_pending, sstc_enabled, h_enabled.
  rewrite Ee, Es, Et, !E by (unfold mip_inputs; set_solver). done.
Qed.

(** MSTATUS as [commit_status] leaves it. *)
Definition status_norm (s : Z) : Z :=
  let s := if ((s >> 11) .& 3) =? 2 then s .& wnot (3 << 11) else s in
  let s := if CONFIG_RV64 then (s .& wnot 0xF00000000) .| 0xA00000000 else s in
  if status_dirty s then s .| (if CONFIG_RV64 then 1 << 63 else 0x80000000) else s.

Lemma commit_status_spec m c :
  CSR (commit_status m) c =
    if (c .& 0xfff) =? CSR_MSTATUS then status_norm (CSR m CSR_MSTATUS) else CSR m c.
Proof.
  unfold commit_status, status_norm. destruct (Z.eqb_spec (c .& 0xfff) CSR_MSTATUS) as [E|E].
  - assert (Ec : forall x, CSR x c = CSR x CSR_MSTATUS) by (intros; unfold CSR; by rewrite E).
    rewrite Ec. cbv zeta.
    destruct (_ =? 2), CONFIG_RV64; mach; destruct (status_dirty _); by mach.
  - cbv zeta. destruct (_ =? 2), CONFIG_RV64; destruct (status_dirty _); by mach.
Qed.

(** Legal MSTATUS contents. *)
Record status_legal (m : machine) (s : Z) : Prop := {
  sl_mpp : (s >> 11) .& 3 <> 2;
  sl_xl : CONFIG_RV64 = true -> (s >> 32) .& 15 = 10;
  sl_sd : Z.testbit s (XLEN - 1) = status_dirty s;
  sl_fits : fits XLEN s;
  sl_mask : forall i, 0 <= i -> Z.testbit s i = true ->
    Z.testbit (MSTATUS_WMASK m) i = true \/ i = XLEN - 1 \/ CONFIG_RV64 = true /\ (i = 33 \/ i = 35);
}.

Record csr_coherent (m : machine) : Prop := {
  co_status : status_legal m (CSR m CSR_MSTATUS);
  co_misa : CSR m CSR_MISA = CSR_MISA_VALUE m;
  co_medeleg : CSR m CSR_MEDELEG .& (0x8b3fe .| (if h_enabled m then 0xf00400 else 0)) = CSR m CSR_MEDELEG;
  co_mideleg : (CSR m CSR_MIDELEG .& SIE_RMASK m) .| word (riscv_virtual_irq_mask (riscv_isa_extensions m))
               = CSR m CSR_MIDELEG;
  co_sstatus : CSR m CSR_SSTATUS = CSR m CSR_MSTATUS .& SSTATUS_RMASK m;
  co_sie : CSR m CSR_SIE = CSR m CSR_MIE .& CSR m CSR_MIDELEG .& SIE_RMASK m;
  co_sip : CSR m CSR_SIP = riscv_mip_value m .& CSR m CSR_MIDELEG .& SIE_RMASK m;
}.

Lemma status_dirty_bits s :
  status_dirty s = Z.testbit s 13 && Z.testbit s 14 || Z.testbit s 9 && Z.testbit s 10
                   || Z.testbit s 15 && Z.testbit s 16.
Proof.
  unfold status_dirty. rewrite !field2 by lia.
  assert (E : forall a b, (b2z a + 2 * b2z b =? 3) = a && b) by (by intros [] []). by rewrite !E.
Qed.

Lemma MSTATUS_WMASK_bits m i :
  XLEN - 1 <= i -> Z.testbit (MSTATUS_WMASK m) i = false.
Proof.
  intros Hi. unfold MSTATUS_WMASK, h_enabled, XLEN in *.
  apply (testbit_high (if CONFIG_RV64 then 63 else 31)).
  - destruct CONFIG_RV64, (riscv_v128_preview_enabled _), (riscv_h_gstage_preview_enabled _); by split.
  - destruct CONFIG_RV64; lia.
Qed.

Lemma masked_fits m s : s .& MSTATUS_WMASK m = s -> 0 <= s -> fits XLEN s.
Proof.
  intros E Hs. pose proof XLEN_pos. apply fits_testbit; [lia|done|]. intros i Hi.
  rewrite <-E, Z.land_spec, MSTATUS_WMASK_bits by lia. apply andb_false_r.
Qed.

Lemma testbit_clear_mpp s i :
  fits XLEN s -> 0 <= i ->
  Z.testbit (if ((s >> 11) .& 3) =? 2 then s .& wnot (3 << 11) else s) i =
    if i =? 12 then Z.testbit s 12 && Z.testbit s 11 else Z.testbit s i.
Proof.
  intros Hf Hi. rewrite field2 by lia. change (11 + 1) with 12.
  assert (E : forall a b, (b2z a + 2 * b2z b =? 2) = negb a && b) by (by intros [] []). rewrite E.
  destruct (Z.testbit s 11) eqn:E11, (Z.testbit s 12) eqn:E12; cbn [negb andb].
  all: try (destruct (Z.eqb_spec i 12) as [->|]; [by rewrite ?E12|done]).
  rewrite Z.land_spec, testbit_wnot, testbit_shl3 by done. change (11 + 1) with 12.
  destruct (Z.eqb_spec i 12) as [->|]; [by rewrite !andb_false_r|].
  destruct (Z.eqb_spec i 11) as [->|]; [by rewrite E11|]. cbn [orb negb].
  destruct (Z.ltb_spec i XLEN) as [|G]; [by rewrite andb_true_r|].
  by rewrite (testbit_high _ _ _ Hf G).
Qed.

Lemma testbit_pin_xl s i :
  fits XLEN s -> 0 <= i ->
  Z.testbit (if CONFIG_RV64 then (s .& wnot 0xF00000000) .| 0xA00000000 else s) i =
    if CONFIG_RV64 && ((32 <=? i) && (i <=? 35)) then (i =? 33) || (i =? 35) else Z.testbit s i.
Proof.
  intros Hf Hi. destruct CONFIG_RV64 eqn:E64; [|done]. cbn [andb].
  change 0xF00000000 with (Z.ones 4 << 32). change 0xA00000000 with ((1 << 33) .| (1 << 35)).
  rewrite !Z.lor_spec, Z.land_spec, testbit_wnot, !testbit_shl1 by done.
  rewrite Z.shiftl_spec by done.
  destruct (Z.lt_ge_cases (i - 32) 0).
  - rewrite (Z.testbit_neg_r _ (i - 32)) by done. replace ((32 <=? i) && (i <=? 35)) with false by lia.
    replace (i =? 33) with false by lia. replace (i =? 35) with false by lia.
    replace (i <? XLEN) with true by (unfold XLEN; rewrite E64; lia).
    by rewrite andb_true_r, !orb_false_r.
  - rewrite testbit_ones by lia. destruct (Z.leb_spec i 35).
    + replace (i - 32 <? 4) with true by lia. replace (32 <=? i) with true by lia.
      by rewrite !andb_false_r.
    + replace (i - 32 <? 4) with false by lia. rewrite andb_false_r.
      replace (i =? 33) with false by lia. replace (i =? 35) with false by lia.
      rewrite !orb_false_r, andb_true_r.
      destruct (Z.ltb_spec i XLEN) as [|G]; [by rewrite andb_true_r|].
      by rewrite (testbit_high _ _ _ Hf G).
Qed.

Lemma testbit_status_norm m s i :
  s .& MSTATUS_WMASK m = s -> 0 <= s -> 0 <= i ->
  Z.testbit (status_norm s) i =
    if i =? 12 then Z.testbit s 12 && Z.testbit s 11
    else if CONFIG_RV64 && ((32 <=? i) && (i <=? 35)) then (i =? 33) || (i =? 35)
    else if i =? XLEN - 1 then status_dirty s else Z.testbit s i.
Proof.
  intros Hs Hp Hi. pose proof (masked_fits m s Hs Hp) as Hf. pose proof XLEN_pos as HX.
  unfold status_norm.
  pose proof (fun j Hj => testbit_clear_mpp s j Hf Hj) as E1.
  set (s1 := if ((s >> 11) .& 3) =? 2 then _ else s) in *.
  assert (Hf1 : fits XLEN s1) by (unfold s1; destruct (_ =? 2); auto with fits lia).
  pose proof (fun j Hj => testbit_pin_xl s1 j Hf1 Hj) as E2.
  set (s2 := if CONFIG_RV64 then (s1 .& _) .| _ else s1) in *. clearbody s1 s2.
  assert (Ed : status_dirty s2 = status_dirty s).
  { rewrite !status_dirty_bits, !E2 by lia. cbn [Z.leb Z.compare Pos.compare Pos.compare_cont andb].
    rewrite !andb_false_r, !E1 by lia. done. }
  assert (Eb : Z.testbit (if CONFIG_RV64 then 1 << 63 else 0x80000000) i = (i =? XLEN - 1)).
  { change 0x80000000 with (1 << 31). unfold XLEN. destruct CONFIG_RV64; by rewrite testbit_shl1. }
  assert (H0 : i = XLEN - 1 -> Z.testbit s i = false).
  { intros ->. by rewrite <-Hs, Z.land_spec, MSTATUS_WMASK_bits, andb_false_r by lia. }
  rewrite Ed. destruct (status_dirty s); [rewrite Z.lor_spec, Eb|]; rewrite E2, E1 by done.
  - destruct (Z.eqb_spec i 12) as [->|].
    { replace (12 =? XLEN - 1) with false by lia. by rewrite !andb_false_r, orb_false_r. }
    destruct (Z.eqb_spec i (XLEN - 1)) as [E|]; [|by rewrite orb_false_r].
    rewrite orb_true_r. replace ((32 <=? i) && (i <=? 35)) with false; [by rewrite andb_false_r|].
    subst i. unfold XLEN. by destruct CONFIG_RV64.
  - destruct (Z.eqb_spec i 12) as [->|]; [by rewrite andb_false_r|].
    destruct (CONFIG_RV64 && _); [done|]. destruct (Z.eqb_spec i (XLEN - 1)); auto.
Qed.
Lemma masked_idem m x : (x .& MSTATUS_WMASK m) .& MSTATUS_WMASK m = x .& MSTATUS_WMASK m.
Proof. apply land_idem. Qed.

(** The normalised status is legal. *)
Lemma status_norm_legal m s : s .& MSTATUS_WMASK m = s -> 0 <= s -> status_legal m (status_norm s).
Proof.
  intros Hs Hp. pose proof (fun i Hi => testbit_status_norm m s i Hs Hp Hi) as E.
  pose proof XLEN_pos as HX. pose proof (masked_fits m s Hs Hp) as Hf.
  assert (X : XLEN = if CONFIG_RV64 then 64 else 32) by done.
  set (r := status_norm s) in *.
  assert (Hr : 0 <= r).
  { unfold r, status_norm. apply Z.bits_iff_nonneg_ex. exists (XLEN + 64). intros i Hi.
    fold r. rewrite E by lia. replace (i =? 12) with false by lia. replace (i =? XLEN - 1) with false by lia.
    replace ((32 <=? i) && (i <=? 35)) with false by lia. rewrite andb_false_r.
    apply (testbit_high _ _ _ Hf). lia. }
  assert (El : forall i, 0 <= i < 31 -> i <> 12 -> Z.testbit r i = Z.testbit s i).
  { intros i Hi Hn. rewrite E by lia. replace (i =? 12) with false by lia.
    replace (i =? XLEN - 1) with false by lia.
    replace ((32 <=? i) && (i <=? 35)) with false by lia. by rewrite andb_false_r. }
  assert (Ed : status_dirty r = status_dirty s) by (by rewrite !status_dirty_bits, !El by lia).
  clearbody r. split.
  - rewrite field2 by lia. change (11 + 1) with 12. rewrite (El 11), (E 12) by lia.
    rewrite Z.eqb_refl. by destruct (Z.testbit s 11), (Z.testbit s 12).
  - intros E64. rewrite E64 in *. apply Z.bits_inj'. intros i Hi.
    rewrite Z.land_spec, Z.shiftr_spec, E by lia. change 15 with (Z.ones 4). rewrite testbit_ones by lia.
    replace (i + 32 =? 12) with false by lia. replace (32 <=? i + 32) with true by lia. cbn [andb].
    destruct (Z.ltb_spec i 4).
    + replace (i + 32 <=? 35) with true by lia. rewrite andb_true_r. change 10 with ((1 << 1) .| (1 << 3)).
      rewrite Z.lor_spec, !testbit_shl1 by done. f_equal; lia.
    + rewrite andb_false_r. symmetry. by apply (testbit_high 4); [|lia].
  - rewrite E, Ed by lia. rewrite Z.eqb_refl. replace (XLEN - 1 =? 12) with false by lia.
    replace (CONFIG_RV64 && ((32 <=? XLEN - 1) && (XLEN - 1 <=? 35))) with false; [done|].
    rewrite X. by destruct CONFIG_RV64.
  - apply fits_testbit; [lia|done|]. intros i Hi. rewrite E by lia.
    replace (i =? 12) with false by lia. replace (i =? XLEN - 1) with false by lia.
    replace (CONFIG_RV64 && ((32 <=? i) && (i <=? 35))) with false.
    + by apply (testbit_high _ _ _ Hf).
    + destruct CONFIG_RV64; [|done]. lia.
  - intros i Hi. rewrite E by done. destruct (Z.eqb_spec i 12) as [->|].
    { rewrite andb_true_iff. intros [H _]. left. by rewrite <-Hs, Z.land_spec in H; destruct (Z.testbit s 12). }
    destruct (CONFIG_RV64 && _) eqn:Ec.
    { intros H. right. right. destruct CONFIG_RV64; [|done]. split; [done|]. lia. }
    destruct (Z.eqb_spec i (XLEN - 1)); [auto|]. intros H. left.
    rewrite <-Hs, Z.land_spec in H. by destruct (Z.testbit s i).
Qed.
(** What the commit steps leave alone beside the CSRs they write. *)
Record commit_frame (written : list Z) (m m' : machine) : Prop := {
  cf_csr : forall c, (c .& 0xfff) ∉ written -> CSR m' c = CSR m c;
  cf_ext : riscv_isa_extensions m' = riscv_isa_extensions m;
  cf_lines : seip m' = seip m /\ ((CSR_MIP ∉ written) -> stip m' = stip m) /\ last_csr_wr m' = last_csr_wr m;
}.

Lemma commit_frame_masks l m m' :
  commit_frame l m m' ->
  MSTATUS_WMASK m' = MSTATUS_WMASK m /\ SSTATUS_RMASK m' = SSTATUS_RMASK m /\
  SIE_RMASK m' = SIE_RMASK m /\ CSR_MISA_VALUE m' = CSR_MISA_VALUE m /\ h_enabled m' = h_enabled m.
Proof.
  intros [_ E _]. unfold MSTATUS_WMASK, SSTATUS_RMASK, SIE_RMASK, CSR_MISA_VALUE, h_enabled.
  by rewrite E.
Qed.

Lemma status_legal_ext m m' s :
  MSTATUS_WMASK m' = MSTATUS_WMASK m -> status_legal m s -> status_legal m' s.
Proof. intros E [? ? ? ? H]. split; try done. by rewrite E. Qed.

Lemma not_in_cons (x a : Z) l : x ∉ a :: l <-> x <> a /\ x ∉ l.
Proof. apply not_elem_of_cons. Qed.

Lemma commit_warl_spec m :
  let m' := commit_warl m in
  commit_frame [CSR_MSTATUS; CSR_MISA; CSR_MEDELEG; CSR_MIDELEG] m m' /\
  CSR m' CSR_MSTATUS = CSR m CSR_MSTATUS .& MSTATUS_WMASK m /\
  CSR m' CSR_MISA = CSR_MISA_VALUE m /\
  CSR m' CSR_MEDELEG = CSR m CSR_MEDELEG .& (0x8b3fe .| (if h_enabled m then 0xf00400 else 0)) /\
  CSR m' CSR_MIDELEG = (CSR m CSR_MIDELEG .& SIE_RMASK m)
                       .| word (riscv_virtual_irq_mask (riscv_isa_extensions m)).
Proof.
  cbv zeta. split.
  - split; [|by steps commit_warl; mach|by split_and!; steps commit_warl; mach].
    intros c. rewrite !not_in_cons. intros (H1 & H2 & H3 & H4 & _). steps commit_warl. by mach.
  - split_and!; steps commit_warl; mach; unfold CSR_MISA_VALUE, SIE_RMASK, h_enabled; by mach.
Qed.

Lemma mergeCSR_frame c mask v m : commit_frame [c .& 0xfff] m (mergeCSR c mask v m).
Proof.
  unfold mergeCSR. split; [|by mach|by split_and!; mach].
  intros c' Hc. rewrite not_in_cons in Hc. apply CSR_setCSR_low. naive_solver.
Qed.

Lemma commit_frame_trans l1 l2 l m m1 m2 :
  commit_frame l1 m m1 -> commit_frame l2 m1 m2 ->
  (forall c, (c ∉ l) -> (c ∉ l1) /\ (c ∉ l2)) -> commit_frame l m m2.
Proof.
  intros [H1 H2 H3] [G1 G2 G3] Hl. split.
  - intros c Hc. destruct (Hl _ Hc). by rewrite G1, H1.
  - congruence.
  - destruct H3 as (? & S3 & ?), G3 as (? & T3 & ?). split_and!; [congruence| |congruence].
    intros Hc. destruct (Hl _ Hc). by rewrite T3, S3.
Qed.

Lemma commit_frame_app l1 l2 m m1 m2 :
  commit_frame l1 m m1 -> commit_frame l2 m1 m2 -> commit_frame (l1 ++ l2) m m2.
Proof. intros F1 F2. apply (commit_frame_trans _ _ _ _ _ _ F1 F2). intros c. by rewrite not_elem_of_app. Qed.

Lemma commit_frame_weaken l l' m m' :
  commit_frame l m m' -> (forall c, (c ∉ l') -> (c ∉ l)) -> commit_frame l' m m'.
Proof.
  intros [H1 H2 (S1 & S2 & S3)] Hl. split; [|done|].
  - intros c Hc. apply H1. by apply Hl.
  - split_and!; [done| |done]. intros Hc. apply S2. by apply Hl.
Qed.

Lemma commit_frame_refl l m : commit_frame l m m.
Proof. by split. Qed.

Lemma commit_views_in_spec last m :
  let m' := commit_views_in last m in
  commit_frame [CSR_MSTATUS; CSR_MIE; CSR_MIP] m m' /\
  (last <> CSR_SIE -> CSR m' CSR_MIE = CSR m CSR_MIE) /\
  (last <> CSR_SIP -> CSR m' CSR_MIP = CSR m CSR_MIP) /\
  CSR m' CSR_MSTATUS =
    (if last =? CSR_SSTATUS
     then ((CSR m CSR_MSTATUS .& wnot (SSTATUS_RMASK m)) .| (CSR m CSR_SSTATUS .& SSTATUS_RMASK m))
            .& MSTATUS_WMASK m
     else CSR m CSR_MSTATUS) /\
  stip m' = stip m.
Proof.
  intros m'.
  set (m1 := if last =? CSR_SSTATUS then
     let ms_bits := CSR m CSR_SSTATUS .& SSTATUS_RMASK m in
     let m := setCSR CSR_MSTATUS ((CSR m CSR_MSTATUS .& wnot (SSTATUS_RMASK m)) .| ms_bits) m in
     setCSR CSR_MSTATUS (CSR m CSR_MSTATUS .& MSTATUS_WMASK m) m else m).
  assert (E1 : CSR m1 CSR_MSTATUS = if last =? CSR_SSTATUS
     then ((CSR m CSR_MSTATUS .& wnot (SSTATUS_RMASK m)) .| (CSR m CSR_SSTATUS .& SSTATUS_RMASK m))
            .& MSTATUS_WMASK m else CSR m CSR_MSTATUS).
  { unfold m1. destruct (last =? CSR_SSTATUS); [|done]. cbv zeta. mach.
    unfold MSTATUS_WMASK, h_enabled. by mach. }
  assert (F1 : commit_frame [CSR_MSTATUS] m m1).
  { unfold m1. destruct (last =? CSR_SSTATUS); [|apply commit_frame_refl]. cbv zeta.
    split; [|by mach|by split_and!; mach]. intros c. rewrite not_in_cons. intros [H _]. by mach. }
  set (m2 := if last =? CSR_SIE then mergeCSR CSR_MIE (CSR m1 CSR_MIDELEG .& SIE_RMASK m1)
                  (CSR m1 CSR_SIE .& (CSR m1 CSR_MIDELEG .& SIE_RMASK m1)) m1 else m1).
  assert (F2 : commit_frame [CSR_MIE] m1 m2).
  { unfold m2. destruct (last =? CSR_SIE); [apply (mergeCSR_frame CSR_MIE)|apply commit_frame_refl]. }
  assert (F3 : commit_frame [CSR_MIP] m2 m').
  { unfold m', commit_views_in. fold m1. fold m2.
    destruct (last =? CSR_SIP); [apply (mergeCSR_frame CSR_MIP)|apply commit_frame_refl]. }
  assert (E2 : last <> CSR_SIE -> m2 = m1)
    by (intros E; unfold m2; by replace (last =? CSR_SIE) with false by lia).
  assert (E3 : last <> CSR_SIP -> m' = m2).
  { intros E. unfold m', commit_views_in. fold m1. fold m2.
    by replace (last =? CSR_SIP) with false by lia. }
  assert (S3 : stip m' = stip m2).
  { unfold m', commit_views_in. fold m1. fold m2. destruct (last =? CSR_SIP); [unfold mergeCSR; by mach|done]. }
  clearbody m'. clearbody m2. clearbody m1.
  split; [|split_and!].
  2: { intros E. by rewrite (cf_csr _ _ _ F3), (E2 E), (cf_csr _ _ _ F1) by notin. }
  2: { intros E. by rewrite (E3 E), (cf_csr _ _ _ F2), (cf_csr _ _ _ F1) by notin. }
  2: { by rewrite (cf_csr _ _ _ F3), (cf_csr _ _ _ F2) by notin. }
  2: { by rewrite S3, (proj1 (proj2 (cf_lines _ _ _ F2))), (proj1 (proj2 (cf_lines _ _ _ F1))) by notin. }
  eapply commit_frame_trans; [exact F1| |].
  - eapply commit_frame_trans; [exact F2|exact F3|]. instantiate (1 := [CSR_MIE; CSR_MIP]).
    intros c. rewrite !not_in_cons. tauto.
  - intros c. rewrite !not_in_cons. tauto.
Qed.

(** A write that reaches the CLINT. *)
Definition timer_write (last : Z) : bool := one_of last [0x14d; 0x15d; CSR_MENVCFG; CSR_MENVCFGH].

Lemma commit_timer_spec last m :
  commit_frame [CSR_MIP; CSR_SIP; CSR_TIME; CSR_TIMEH] m (commit_timer last m).
Proof.
  unfold commit_timer. destruct (one_of _ _); [|apply commit_frame_refl].
  destruct (clint_update_mip_frame m) as (_ & _ & E & S & L & C). split; [exact C|exact E|].
  split_and!; [exact S| |exact L]. rewrite not_in_cons. tauto.
Qed.

Lemma commit_timer_off last m : timer_write last = false -> commit_timer last m = m.
Proof. unfold timer_write, commit_timer. by intros ->. Qed.

Lemma commit_views_out_spec m :
  let m' := commit_views_out m in
  commit_frame [CSR_SSTATUS; CSR_SIE; CSR_SIP] m m' /\
  CSR m' CSR_SSTATUS = CSR m CSR_MSTATUS .& SSTATUS_RMASK m /\
  CSR m' CSR_SIE = CSR m CSR_MIE .& CSR m CSR_MIDELEG .& SIE_RMASK m /\
  CSR m' CSR_SIP = riscv_mip_value m .& CSR m CSR_MIDELEG .& SIE_RMASK m.
Proof.
  cbv zeta. split; [|split_and!].
  - split; [|by steps commit_views_out; mach|by split_and!; steps commit_views_out; mach].
    intros c. rewrite !not_in_cons. intros (H1 & H2 & H3 & _). steps commit_views_out. by mach.
  - steps commit_views_out. by mach.
  - steps commit_views_out. mach. unfold SIE_RMASK. by mach.
  - steps commit_views_out. mach. unfold SIE_RMASK. mach. f_equal. f_equal. subst m1 m0.
    apply riscv_mip_value_ext; [|by mach..]. unfold mip_inputs. intros c Hc.
    rewrite !CSR_setCSR_ne; [done|..]; intros E; rewrite !elem_of_cons, elem_of_nil in Hc;
      repeat (destruct Hc as [->|Hc]; [vm_compute in E; discriminate|]); done.
Qed.
(** The commit block of [csr_commit]. *)
Definition commit_block (last : Z) (m : machine) : machine :=
  commit_views_out (commit_status (commit_timer last (commit_views_in last (commit_warl m)))).

Lemma commit_status_frame m : commit_frame [CSR_MSTATUS] m (commit_status m).
Proof.
  split.
  - intros c. rewrite not_in_cons. intros [H _]. rewrite commit_status_spec.
    by replace (c .& 4095 =? CSR_MSTATUS) with false by lia.
  - unfold commit_status. cbv zeta. destruct (_ =? 2), CONFIG_RV64; destruct (status_dirty _); by mach.
  - unfold commit_status. cbv zeta. destruct (_ =? 2), CONFIG_RV64; destruct (status_dirty _);
      split_and!; by mach.
Qed.

Lemma MSTATUS_WMASK_nonneg m : 0 <= MSTATUS_WMASK m.
Proof.
  unfold MSTATUS_WMASK, h_enabled.
  by destruct CONFIG_RV64, (riscv_v128_preview_enabled _), (riscv_h_gstage_preview_enabled _).
Qed.

(** MSTATUS before normalisation: the masked register, with a direct write of
    [sstatus] merged in. *)
Definition commit_mstatus (last : Z) (m : machine) : Z :=
  let s := CSR m CSR_MSTATUS .& MSTATUS_WMASK m in
  if last =? CSR_SSTATUS
  then ((s .& wnot (SSTATUS_RMASK m)) .| (CSR m CSR_SSTATUS .& SSTATUS_RMASK m)) .& MSTATUS_WMASK m
  else s.

Lemma commit_mstatus_masked last m :
  commit_mstatus last m .& MSTATUS_WMASK m = commit_mstatus last m /\ 0 <= commit_mstatus last m.
Proof.
  assert (E : commit_mstatus last m .& MSTATUS_WMASK m = commit_mstatus last m)
    by (unfold commit_mstatus; cbv zeta; destruct (last =? CSR_SSTATUS); apply land_idem).
  split; [done|]. rewrite <-E. apply Z.land_nonneg. right. apply MSTATUS_WMASK_nonneg.
Qed.

(** The steps of the block and their frames. *)
Ltac commit_setup last m :=
  destruct (commit_warl_spec m) as (F1 & E1 & Ea & Eb & Ec);
  set (m1 := commit_warl m) in *;
  destruct (commit_frame_masks _ _ _ F1) as (W1 & R1 & I1 & V1 & H1);
  destruct (commit_views_in_spec last m1) as (F2 & Em2 & Ei2 & G2 & _);
  set (m2' := commit_views_in last m1) in *;
  pose proof (commit_frame_app _ _ _ _ _ F2 (commit_timer_spec last m2')) as F2';
  pose proof (commit_timer_off last m2') as T2;
  assert (G2' : CSR (commit_timer last m2') CSR_MSTATUS = CSR m2' CSR_MSTATUS)
    by (apply (cf_csr _ _ _ (commit_timer_spec last m2')); notin);
  assert (Em2' : CSR (commit_timer last m2') CSR_MIE = CSR m2' CSR_MIE)
    by (apply (cf_csr _ _ _ (commit_timer_spec last m2')); notin);
  set (m2 := commit_timer last m2') in *;
  rewrite <-G2' in G2; rewrite <-Em2' in Em2; clear F2; rename F2' into F2; cbn [app] in F2;
  destruct (commit_frame_masks _ _ _ F2) as (W2 & R2 & I2 & V2 & H2);
  pose proof (commit_status_frame m2) as F3;
  pose proof (commit_status_spec m2 CSR_MSTATUS) as E3;
  change (CSR_MSTATUS .& 4095 =? CSR_MSTATUS) with true in E3; cbv iota in E3;
  set (m3 := commit_status m2) in *;
  destruct (commit_frame_masks _ _ _ F3) as (W3 & R3 & I3 & V3 & H3);
  destruct (commit_views_out_spec m3) as (F4 & G4 & J4 & K4);
  set (m' := commit_views_out m3) in *;
  destruct (commit_frame_masks _ _ _ F4) as (W4 & R4 & I4 & V4 & H4).

Lemma commit_block_frame last m :
  commit_frame [CSR_MSTATUS; CSR_MISA; CSR_MEDELEG; CSR_MIDELEG; CSR_MIE; CSR_MIP;
                CSR_SSTATUS; CSR_SIE; CSR_SIP; CSR_TIME; CSR_TIMEH] m (commit_block last m).
Proof.
  unfold commit_block. commit_setup last m.
  pose proof (commit_frame_app _ _ _ _ _ F1 (commit_frame_app _ _ _ _ _ F2
    (commit_frame_app _ _ _ _ _ F3 F4))) as F.
  apply (commit_frame_weaken _ _ _ _ F). intros c. cbn [app]. rewrite !not_in_cons. tauto.
Qed.

Lemma commit_block_values last m :
  let m' := commit_block last m in
  CSR m' CSR_MSTATUS = status_norm (commit_mstatus last m) /\
  CSR m' CSR_MEDELEG = CSR m CSR_MEDELEG .& (0x8b3fe .| (if h_enabled m then 0xf00400 else 0)) /\
  CSR m' CSR_MIDELEG = (CSR m CSR_MIDELEG .& SIE_RMASK m)
                       .| word (riscv_virtual_irq_mask (riscv_isa_extensions m)) /\
  CSR m' CSR_MISA = CSR_MISA_VALUE m /\
  (last <> CSR_SIE -> CSR m' CSR_MIE = CSR m CSR_MIE) /\
  (last <> CSR_SIP -> timer_write last = false ->
    CSR m' CSR_MIP = CSR m CSR_MIP /\ CSR m' CSR_TIME = CSR m CSR_TIME /\
    CSR m' CSR_TIMEH = CSR m CSR_TIMEH /\ stip m' = stip m).
Proof.
  cbv zeta. unfold commit_block. commit_setup last m.
  split_and!.
  - rewrite (cf_csr _ _ _ F4), E3, G2, R1, W1, E1, (cf_csr _ _ _ F1 CSR_SSTATUS) by notin. done.
  - by rewrite (cf_csr _ _ _ F4), (cf_csr _ _ _ F3), (cf_csr _ _ _ F2) by notin.
  - by rewrite (cf_csr _ _ _ F4), (cf_csr _ _ _ F3), (cf_csr _ _ _ F2) by notin.
  - by rewrite (cf_csr _ _ _ F4), (cf_csr _ _ _ F3), (cf_csr _ _ _ F2) by notin.
  - intros E. by rewrite (cf_csr _ _ _ F4), (cf_csr _ _ _ F3), (Em2 E), (cf_csr _ _ _ F1) by notin.
  - intros E Et. specialize (Ei2 E). specialize (T2 Et).
    destruct (commit_views_in_spec last m1) as (F2' & _ & _ & _ & S2). fold m2' in F2', S2.
    rewrite !(cf_csr _ _ _ F4), !(cf_csr _ _ _ F3), T2, Ei2, !(cf_csr _ _ _ F2'), !(cf_csr _ _ _ F1) by notin.
    rewrite (proj1 (proj2 (cf_lines _ _ _ F4))), (proj1 (proj2 (cf_lines _ _ _ F3))), T2, S2,
      (proj1 (proj2 (cf_lines _ _ _ F1))) by notin. done.
Qed.

Lemma mideleg_idem a b c : (((a .& b) .| c) .& b) .| c = (a .& b) .| c.
Proof.
  rewrite Z.land_lor_distr_l, land_idem, <-Z.lor_assoc. f_equal.
  apply Z.bits_inj'. intros i Hi. rewrite Z.lor_spec, Z.land_spec. by repeat bits_case.
Qed.

Lemma commit_block_coherent last m : csr_coherent (commit_block last m).
Proof.
  destruct (commit_block_values last m) as (Vs & Ve & Vi & Va & _).
  destruct (commit_frame_masks _ _ _ (commit_block_frame last m)) as (W & R & I & V & H).
  pose proof (cf_ext _ _ _ (commit_block_frame last m)) as X.
  split.
  - rewrite Vs. destruct (commit_mstatus_masked last m).
    apply (status_legal_ext m); [done|]. by apply status_norm_legal.
  - by rewrite V, Va.
  - rewrite H, Ve. apply land_idem.
  - rewrite I, X, Vi. apply mideleg_idem.
  - unfold commit_block in *. clear -Cfg R. commit_setup last m.
    by rewrite R4, G4, (cf_csr _ _ _ F4 CSR_MSTATUS) by notin.
  - unfold commit_block in *. clear -Cfg. commit_setup last m.
    by rewrite I4, J4, (cf_csr _ _ _ F4 CSR_MIE), (cf_csr _ _ _ F4 CSR_MIDELEG) by notin.
  - unfold commit_block in *. clear -Cfg. commit_setup last m.
    rewrite I4, K4, (cf_csr _ _ _ F4 CSR_MIDELEG) by notin. f_equal. f_equal. symmetry.
    apply riscv_mip_value_ext; [|apply F4|apply F4|apply F4; notin].
    intros c Hc. apply (cf_csr _ _ _ F4).
    unfold mip_inputs in Hc. rewrite !elem_of_cons, elem_of_nil in Hc.
    repeat (destruct Hc as [->|Hc]; [notin|]). done.
Qed.

Lemma csr_coherent_ext m m' :
  (forall c, CSR m' c = CSR m c) -> riscv_isa_extensions m' = riscv_isa_extensions m ->
  seip m' = seip m -> stip m' = stip m -> csr_coherent m -> csr_coherent m'.
Proof.
  intros E X Es Et H. pose proof (riscv_mip_value_ext m m' (fun c _ => E c) X Es Et) as Em.
  assert (W : MSTATUS_WMASK m' = MSTATUS_WMASK m /\ SSTATUS_RMASK m' = SSTATUS_RMASK m /\
    SIE_RMASK m' = SIE_RMASK m /\ CSR_MISA_VALUE m' = CSR_MISA_VALUE m /\ h_enabled m' = h_enabled m)
    by (unfold MSTATUS_WMASK, SSTATUS_RMASK, SIE_RMASK, CSR_MISA_VALUE, h_enabled; by rewrite X).
  destruct W as (W & R & I & V & Hh), H as [H1 H2 H3 H4 H5 H6 H7].
  split; rewrite ?E, ?R, ?I, ?V, ?Hh, ?X, ?Em; try done. by apply (status_legal_ext m).
Qed.

(** The end of an instruction restores the coherence of the CSR file: MSTATUS
    legal, with MPP a supported mode, SXL/UXL pinned and SD the dirty summary;
    and [sstatus], [sie] and [sip] the views of MSTATUS, MIE and MIP. *)
Theorem csr_commit_coherent m :
  CONFIG_TARGET_SHARE = true \/ last_csr_wr m <> 0 \/ csr_dirty m = true \/ csr_coherent m ->
  csr_coherent (csr_commit m) /\ last_csr_wr (csr_commit m) = 0.
Proof.
  intros H. unfold csr_commit. cbv zeta.
  set (m0 := m <| last_csr_wr := 0 |> <| csr_dirty := false |>).
  destruct (if CONFIG_TARGET_SHARE then true else _) eqn:Eb.
  - fold (commit_block (last_csr_wr m) m0). split; [apply commit_block_coherent|].
    by apply (commit_block_frame (last_csr_wr m) m0).
  - split; [|done]. apply (csr_coherent_ext m); try done.
    destruct CONFIG_TARGET_SHARE; [done|]. rewrite orb_false_iff, negb_false_iff, Z.eqb_eq in Eb.
    destruct Eb, H as [?|[?|[?|?]]]; done || congruence.
Qed.

(** Legal contents are masked, apart from SD and the XL fields. *)
Lemma status_legal_masked m s i :
  status_legal m s -> 0 <= i -> i <> XLEN - 1 ->
  CONFIG_RV64 && ((32 <=? i) && (i <=? 35)) = false ->
  Z.testbit s i && Z.testbit (MSTATUS_WMASK m) i = Z.testbit s i.
Proof.
  intros H Hi H1 H2. destruct (Z.testbit s i) eqn:Es; [|done].
  destruct (sl_mask _ _ H i Hi Es) as [->|[?|[E64 ?]]]; [done|done|]. rewrite E64 in H2. lia.
Qed.

Lemma status_legal_xl m s i :
  status_legal m s -> CONFIG_RV64 && ((32 <=? i) && (i <=? 35)) = true ->
  Z.testbit s i = (i =? 33) || (i =? 35).
Proof.
  intros H Ex. destruct CONFIG_RV64 eqn:E64; [|done]. cbn [andb] in Ex. apply andb_true_iff in Ex.
  transitivity (Z.testbit 10 (i - 32)).
  - rewrite <-(sl_xl _ _ H E64), Z.land_spec, Z.shiftr_spec by lia.
    change 15 with (Z.ones 4). rewrite testbit_ones by lia. replace (i - 32 <? 4) with true by lia.
    rewrite andb_true_r. f_equal. lia.
  - change 10 with ((1 << 1) .| (1 << 3)). rewrite Z.lor_spec, !testbit_shl1 by lia. f_equal; lia.
Qed.

Lemma status_legal_mpp m s : status_legal m s -> Z.testbit s 12 && Z.testbit s 11 = Z.testbit s 12.
Proof.
  intros H. pose proof (sl_mpp _ _ H) as Hm. rewrite field2 in Hm by lia.
  change (11 + 1) with 12 in Hm. by destruct (Z.testbit s 11), (Z.testbit s 12).
Qed.

Lemma status_norm_fixed m s :
  status_legal m s -> status_norm (s .& MSTATUS_WMASK m) = s.
Proof.
  intros H. pose proof XLEN_pos as HX. set (t := s .& MSTATUS_WMASK m).
  assert (Ht : t .& MSTATUS_WMASK m = t) by apply land_idem.
  assert (Hp : 0 <= t) by (apply Z.land_nonneg; right; apply MSTATUS_WMASK_nonneg).
  assert (El : forall i, 0 <= i < 31 -> Z.testbit t i = Z.testbit s i).
  { intros i Hi. unfold t. rewrite Z.land_spec. apply status_legal_masked; [done|lia|lia|].
    replace (32 <=? i) with false by lia. apply andb_false_r. }
  assert (Ed : status_dirty t = status_dirty s) by (by rewrite !status_dirty_bits, !El by lia).
  apply Z.bits_inj'. intros i Hi. rewrite (testbit_status_norm m t i Ht Hp Hi).
  destruct (Z.eqb_spec i 12) as [->|].
  { rewrite !El by lia. by apply (status_legal_mpp m). }
  destruct (CONFIG_RV64 && _) eqn:Ex; [by rewrite (status_legal_xl m)|].
  destruct (Z.eqb_spec i (XLEN - 1)) as [->|]; [by rewrite Ed, (sl_sd _ _ H)|].
  unfold t. rewrite Z.land_spec. by apply status_legal_masked.
Qed.

Lemma CSR_low m c : CSR m (c .& 0xfff) = CSR m c.
Proof. unfold CSR. by rewrite land_idem. Qed.

(** The commit block reproduces a CSR that is coherent already, MSTATUS and SSTATUS
    apart, which a write of [sstatus] changes. *)
Lemma commit_block_same last m m0 :
  csr_coherent m -> commit_frame [CSR_SSTATUS] m m0 ->
  last <> CSR_SIE -> last <> CSR_SIP -> timer_write last = false ->
  forall c, (c .& 0xfff) ∉ [CSR_MSTATUS; CSR_SSTATUS] -> CSR (commit_block last m0) c = CSR m c.
Proof.
  intros H F0 H1 H2 H3. destruct (commit_block_values last m0) as (_ & Ve & Vi & Va & Vm & Vp).
  destruct (commit_frame_masks _ _ _ F0) as (_ & R0 & I0 & V0 & h0).
  destruct (commit_frame_masks _ _ _ (commit_block_frame last m0)) as (_ & R & I & _ & _).
  pose proof (commit_block_coherent last m0) as H'. pose proof (commit_block_frame last m0) as F.
  set (m' := commit_block last m0) in *. clearbody m'.
  rewrite h0, (cf_csr _ _ _ F0), (co_medeleg _ H) in Ve by notin.
  rewrite I0, (cf_ext _ _ _ F0), (cf_csr _ _ _ F0), (co_mideleg _ H) in Vi by notin.
  rewrite V0, <-(co_misa _ H) in Va. specialize (Vm H1).
  destruct (Vp H2 H3) as (Vp' & Vt & Vh & Vs). clear Vp. rename Vp' into Vp.
  rewrite (cf_csr _ _ _ F0) in Vm, Vp, Vt, Vh by notin.
  rewrite (proj1 (proj2 (cf_lines _ _ _ F0))) in Vs by notin.
  assert (Em : riscv_mip_value m' = riscv_mip_value m).
  { pose proof (commit_frame_app _ _ _ _ _ F0 F) as G.
    apply riscv_mip_value_ext; [|apply G|apply G|exact Vs]. intros c Hc.
    unfold mip_inputs in Hc. rewrite !elem_of_cons, elem_of_nil in Hc.
    repeat (destruct Hc as [->|Hc]; [done || (apply (cf_csr _ _ _ G); notin)|]). done. }
  intros c Hn. rewrite <-(CSR_low m c), <-(CSR_low m' c). revert Hn. set (r := c .& 0xfff). intros Hn.
  destruct (decide (r ∈ [CSR_MISA; CSR_MEDELEG; CSR_MIDELEG; CSR_MIE; CSR_MIP; CSR_SIE; CSR_SIP; CSR_TIME;
                     CSR_TIMEH])) as [Hr|Hr].
  - rewrite !elem_of_cons, elem_of_nil in Hr.
    destruct Hr as [->|[->|[->|[->|[->|[->|[->|[->|[->|[]]]]]]]]]]; try done.
    + by rewrite (co_sie _ H'), (co_sie _ H), I, I0, Vm, Vi.
    + by rewrite (co_sip _ H'), (co_sip _ H), I, I0, Em, Vi.
  - rewrite !not_in_cons in Hn. rewrite !not_in_cons in Hr. rewrite (cf_csr _ _ _ F), (cf_csr _ _ _ F0); [done|..];
      unfold r in *; rewrite land_idem, !not_in_cons; tauto.
Qed.

(** The fast path is exact: on a coherent CSR file, running the commit block
    would change no CSR. *)
Theorem csr_commit_fast_path m :
  csr_coherent m ->
  forall c, CSR (commit_views_out (commit_status (commit_timer 0 (commit_views_in 0 (commit_warl m))))) c = CSR m c.
Proof.
  intros H. fold (commit_block 0 m). destruct (commit_block_values 0 m) as (Vs & _).
  destruct (commit_frame_masks _ _ _ (commit_block_frame 0 m)) as (_ & R & _).
  assert (Es : CSR (commit_block 0 m) CSR_MSTATUS = CSR m CSR_MSTATUS)
    by (rewrite Vs; apply status_norm_fixed, H).
  intros c. destruct (decide ((c .& 0xfff) ∈ [CSR_MSTATUS; CSR_SSTATUS])) as [Hr|Hr].
  - rewrite <-(CSR_low m c), <-(CSR_low _ c). rewrite !elem_of_cons, elem_of_nil in Hr.
    destruct Hr as [->|[->|[]]]; [done|].
    by rewrite (co_sstatus _ (commit_block_coherent 0 m)), (co_sstatus _ H), R, Es.
  - by apply commit_block_same; [|apply commit_frame_refl|..].
Qed.

(** ** Supervisor writes *)

Lemma csrw_warl_sstatus m v : csrw_warl m CSR_SSTATUS v = v.
Proof.
  unfold csrw_warl, csrw_warl_h. change (CSR_SSTATUS .& 0xfff) with CSR_SSTATUS. cbv zeta.
  change (CSR_SSTATUS =? CSR_MCOUNTINHIBIT) with false.
  change (CSR_SSTATUS =? CSR_MBERR_STATUS) with false.
  rewrite !andb_false_r. by destruct CONFIG_RV64.
Qed.

Lemma csrw_store_sstatus m v : csrw_store CSR_SSTATUS v m = setCSR CSR_SSTATUS v m.
Proof.
  unfold csrw_store.
  assert (E : is_stateen_csr m CSR_SSTATUS = false) by (unfold is_stateen_csr; by destruct CONFIG_RV64).
  assert (F : is_hpm_zero_csr m CSR_SSTATUS = false)
    by (unfold is_hpm_zero_csr; destruct CONFIG_RV64; [done|]; by rewrite andb_false_r).
  by rewrite E, F.
Qed.

Lemma CSRW_sstatus m v :
  virt m = false ->
  CSRW CSR_SSTATUS v m =
    machine_soft_tlb_flush (setCSR CSR_SSTATUS v m <| last_csr_wr := CSR_SSTATUS |>).
Proof.
  intros Hv. unfold CSRW, guest_csr_alias. rewrite Hv, andb_false_r.
  change (CSR_SSTATUS .& 0xfff) with CSR_SSTATUS. cbv zeta.
  by rewrite csrw_warl_sstatus, csrw_store_sstatus.
Qed.

(** The bits of MSTATUS a supervisor can write. *)
Definition sstatus_writable (m : machine) : Z := SSTATUS_RMASK m .& MSTATUS_WMASK m.

Lemma status_masks_mpp m :
  Z.testbit (SSTATUS_RMASK m) 12 = false /\ Z.testbit (SSTATUS_RMASK m) 11 = false /\
  Z.testbit (MSTATUS_WMASK m) 12 = true /\ Z.testbit (MSTATUS_WMASK m) 11 = true.
Proof.
  unfold SSTATUS_RMASK, MSTATUS_WMASK, h_enabled.
  by destruct CONFIG_RV64, (riscv_v128_preview_enabled _), (riscv_h_gstage_preview_enabled _).
Qed.

Lemma status_masks_xl m i :
  CONFIG_RV64 && ((32 <=? i) && (i <=? 35)) = true -> Z.testbit (MSTATUS_WMASK m) i = false.
Proof.
  intros H. unfold MSTATUS_WMASK, h_enabled. destruct CONFIG_RV64; [|done].
  assert (Hi : i = 32 \/ i = 33 \/ i = 34 \/ i = 35) by lia.
  by destruct Hi as [->|[->|[->| ->]]], (riscv_v128_preview_enabled _),
    (riscv_h_gstage_preview_enabled _).
Qed.

(** A write of [sstatus] changes the supervisor's fields of MSTATUS to the
    written value and no other: MIE, MPIE, MPP, MPRV, TVM, TW, TSR and the rest of
    the machine-level state are out of its reach, SD is recomputed, and no CSR
    but the two views changes. *)
Theorem sstatus_write_confined m v :
  csr_coherent m -> virt m = false ->
  let m' := csr_commit (CSRW CSR_SSTATUS v m) in
  (forall i, 0 <= i -> i <> XLEN - 1 ->
    Z.testbit (CSR m' CSR_MSTATUS) i =
      if Z.testbit (sstatus_writable m) i then Z.testbit v i else Z.testbit (CSR m CSR_MSTATUS) i) /\
  CSR m' CSR_SSTATUS = CSR m' CSR_MSTATUS .& SSTATUS_RMASK m /\
  (forall c, (c .& 0xfff) ∉ [CSR_MSTATUS; CSR_SSTATUS] -> CSR m' c = CSR m c).
Proof.
  intros H Hv. rewrite CSRW_sstatus by done. cbv zeta. unfold csr_commit. cbv zeta.
  set (m1 := machine_soft_tlb_flush _).
  assert (E1 : last_csr_wr m1 = CSR_SSTATUS) by done. rewrite E1.
  replace (if CONFIG_TARGET_SHARE then true else negb (CSR_SSTATUS =? 0) || csr_dirty m1) with true
    by (by destruct CONFIG_TARGET_SHARE).
  fold (commit_block CSR_SSTATUS (m1 <| last_csr_wr := 0 |> <| csr_dirty := false |>)).
  set (m0 := m1 <| last_csr_wr := 0 |> <| csr_dirty := false |>).
  assert (Ev : CSR m0 CSR_SSTATUS = v) by (unfold m0, m1; by mach).
  set (mz := m <| last_csr_wr := 0 |>).
  assert (Hz : csr_coherent mz) by by apply (csr_coherent_ext m).
  assert (F : commit_frame [CSR_SSTATUS] mz m0).
  { unfold mz, m0, m1. split; [|by mach|by split_and!; mach].
    intros c. rewrite not_in_cons. intros [Hc _]. by mach. }
  clearbody m0. clear m1 E1.
  destruct (commit_frame_masks _ _ _ F) as (W & R & _).
  destruct (commit_block_values CSR_SSTATUS m0) as (Vs & _).
  pose proof (commit_mstatus_masked CSR_SSTATUS m0) as [Ht Hp].
  pose proof (commit_block_coherent CSR_SSTATUS m0) as H'.
  destruct (commit_frame_masks _ _ _ (commit_block_frame CSR_SSTATUS m0)) as (_ & R' & _).
  split_and!.
  - intros i Hi Hn. rewrite Vs, (testbit_status_norm m0) by done.
    rewrite (proj2 (Z.eqb_neq i (XLEN - 1)) Hn).
    assert (Et : forall j, 0 <= j -> Z.testbit (commit_mstatus CSR_SSTATUS m0) j =
      Z.testbit (MSTATUS_WMASK m) j && (if Z.testbit (SSTATUS_RMASK m) j then Z.testbit v j
                                        else Z.testbit (CSR m CSR_MSTATUS) j)).
    { intros j Hj. unfold commit_mstatus. change (CSR_SSTATUS =? CSR_SSTATUS) with true. cbv iota zeta.
      rewrite W, R, Ev, (cf_csr _ _ _ F) by notin. change (CSR mz CSR_MSTATUS) with (CSR m CSR_MSTATUS).
      change (MSTATUS_WMASK mz) with (MSTATUS_WMASK m). change (SSTATUS_RMASK mz) with (SSTATUS_RMASK m).
      rewrite Z.land_spec, Z.lor_spec, !Z.land_spec, testbit_wnot by done.
      destruct (Z.testbit (MSTATUS_WMASK m) j) eqn:EW; [|by rewrite andb_false_r].
      destruct (Z.ltb_spec j XLEN) as [|G]; [by repeat bits_case|].
      rewrite MSTATUS_WMASK_bits in EW by lia. done. }
    pose proof (co_status _ H) as Hs. unfold sstatus_writable. rewrite Z.land_spec.
    destruct (Z.eqb_spec i 12) as [->|].
    { destruct (status_masks_mpp m) as (A & B & D & G). rewrite !Et, A, B, D, G by lia. cbn [andb].
      by apply (status_legal_mpp m). }
    destruct (CONFIG_RV64 && _) eqn:Ex.
    { rewrite (status_masks_xl m i Ex), andb_false_r. symmetry. by apply (status_legal_xl m). }
    rewrite Et by done. pose proof (status_legal_masked m _ i Hs Hi Hn Ex) as Em.
    revert Em. repeat bits_case; cbn; congruence.
  - by rewrite (co_sstatus _ H'), R', R.
  - intros c Hc. change (CSR m c) with (CSR mz c). by apply commit_block_same.
Qed.

(** ** Reset *)

Definition vector_csrs : list Z :=
  [CSR_VTYPE; CSR_VL; CSR_VLENB; CSR_VSTART; CSR_VXRM; CSR_VXSAT; CSR_VCSR].

Lemma riscv_vector_reset_frame m :
  let m' := riscv_vector_reset m in
  (forall c, (c .& 0xfff) ∉ vector_csrs -> CSR m' c = CSR m c) /\
  riscv_isa_extensions m' = riscv_isa_extensions m /\ seip m' = seip m /\ stip m' = stip m /\
  priv m' = priv m /\ virt m' = virt m /\ gpr m' = gpr m /\ pc m' = pc m.
Proof.
  cbv zeta. unfold riscv_vector_reset. destruct (negb _); [done|]. cbv zeta.
  split_and!; [|by mach..]. intros c. unfold vector_csrs. rewrite !not_in_cons.
  intros (? & ? & ? & ? & ? & ? & ? & _). by mach.
Qed.

Lemma riscv_vector_reset_wf m :
  riscv_v128_preview_enabled (riscv_isa_extensions m) = true -> vector_wf (riscv_vector_reset m).
Proof.
  intros E. unfold riscv_vector_reset. rewrite E. cbn [negb]. cbv zeta.
  split; [left|..]; mach; try done; lia.
Qed.

Lemma restart_status_spec m :
  let m' := restart_status m in
  commit_frame [CSR_MSTATUS; CSR_SSTATUS; CSR_VSSTATUS; CSR_VSTIMECMP] m m' /\
  priv m' = priv m /\ virt m' = virt m /\ gpr m' = gpr m /\ pc m' = pc m /\
  CSR m' CSR_MSTATUS = (if CONFIG_RV64 then setf 32 2 2 (setf 34 2 2 (CSR m CSR_MSTATUS))
                        else CSR m CSR_MSTATUS) /\
  CSR m' CSR_SSTATUS = (if CONFIG_RV64 then 2 << 32 else CSR m CSR_SSTATUS).
Proof.
  cbv zeta. unfold restart_status. destruct CONFIG_RV64; [|by split; [apply commit_frame_refl|]].
  cbv zeta. split; [split; [|by mach|by split_and!; mach]|by split_and!; mach].
  intros c. rewrite !not_in_cons. intros (? & ? & ? & ? & _). by mach.
Qed.

Lemma restart_base_csr reset_pc hartid m c :
  (c .& 0xfff) ∉ [CSR_MVENDORID; CSR_MARCHID; CSR_MISA; CSR_MIDELEG; CSR_MHARTID; 0x14d; 0x15d] ->
  CSR (restart_base reset_pc hartid m) c = CSR m c.
Proof.
  rewrite !not_in_cons. intros (? & ? & ? & ? & ? & ? & ? & _). steps restart_base. by mach.
Qed.

Lemma restart_base_csrs reset_pc hartid m :
  let m' := restart_base reset_pc hartid m in
  CSR m' CSR_MISA = CSR_MISA_VALUE m /\
  CSR m' CSR_MIDELEG = word (riscv_virtual_irq_mask (riscv_isa_extensions m)).
Proof.
  cbv zeta. split.
  - steps restart_base. mach. unfold CSR_MISA_VALUE, h_enabled. by mach.
  - steps restart_base. by mach.
Qed.

Lemma restart_base_frame reset_pc hartid m :
  let m' := restart_base reset_pc hartid m in
  gpr m' = aset (gpr m) 0 0 /\
  riscv_isa_extensions m' = riscv_isa_extensions m /\ seip m' = seip m /\ stip m' = stip m.
Proof. cbv zeta. split_and!; steps restart_base; by mach. Qed.

Lemma restart_base_mode reset_pc hartid m :
  let m' := restart_base reset_pc hartid m in
  priv m' = PRV_M /\ virt m' = false /\ pc m' = reset_pc.
Proof. cbv zeta. split_and!; steps restart_base; by mach. Qed.

(** The CSRs of reset and what they do not touch. *)
Lemma restart_csrs reset_pc hartid m :
  let m' := restart reset_pc hartid m in
  CSR m' CSR_MISA = CSR_MISA_VALUE m' /\
  CSR m' CSR_MIDELEG = word (riscv_virtual_irq_mask (riscv_isa_extensions m')) /\
  CSR m' CSR_MSTATUS = (if CONFIG_RV64 then setf 32 2 2 (setf 34 2 2 (CSR m CSR_MSTATUS))
                        else CSR m CSR_MSTATUS) /\
  CSR m' CSR_SSTATUS = (if CONFIG_RV64 then 2 << 32 else CSR m CSR_SSTATUS) /\
  (forall c, (c .& 0xfff) ∉ [CSR_MVENDORID; CSR_MARCHID; CSR_MISA; CSR_MIDELEG; CSR_MHARTID; 0x14d; 0x15d;
     CSR_MSTATUS; CSR_SSTATUS; CSR_VSSTATUS; CSR_VSTIMECMP] -> (c .& 0xfff) ∉ vector_csrs ->
     CSR m' c = CSR m c) /\
  seip m' = seip m /\ stip m' = stip m.
Proof.
  intros m'. subst m'. unfold restart. mach.
  destruct (restart_base_frame reset_pc hartid m) as (_ & Be & Bs & Bt).
  destruct (restart_base_csrs reset_pc hartid m) as (Bm & Bd).
  pose proof (restart_base_csr reset_pc hartid m) as Bc.
  set (m1 := restart_base reset_pc hartid m) in *. clearbody m1.
  destruct (riscv_vector_reset_frame m1) as (Vc & Ve & Vs & Vt & _).
  set (m2 := riscv_vector_reset m1) in *. clearbody m2.
  destruct (restart_status_spec m2) as (F & _ & _ & _ & _ & Sm & Ss).
  set (m3 := restart_status m2) in *. clearbody m3.
  assert (Ee : riscv_isa_extensions m3 = riscv_isa_extensions m)
    by by rewrite (cf_ext _ _ _ F), Ve, Be.
  assert (Ei : CSR_MISA_VALUE (m3 <| intr := false |>) = CSR_MISA_VALUE m)
    by (unfold CSR_MISA_VALUE, h_enabled; mach; by rewrite Ee).
  split_and!.
  - by rewrite Ei, (cf_csr _ _ _ F), Vc by notin.
  - by rewrite Ee, (cf_csr _ _ _ F), Vc by notin.
  - by rewrite Sm, Vc, Bc by notin.
  - by rewrite Ss, Vc, Bc by notin.
  - intros c. rewrite !not_in_cons. intros Hc Hv. mach.
    rewrite (cf_csr _ _ _ F), Vc, Bc; [done|rewrite ?not_in_cons; tauto..|done|rewrite !not_in_cons; tauto].
  - by rewrite (proj1 (cf_lines _ _ _ F)), Vs.
  - by rewrite (proj1 (proj2 (cf_lines _ _ _ F))), Vt by notin.
Qed.

Lemma restart_mode reset_pc hartid m :
  let m' := restart reset_pc hartid m in
  priv m' = PRV_M /\ virt m' = false /\ R m' 0 = 0 /\ pc m' = reset_pc /\
  riscv_isa_extensions m' = riscv_isa_extensions m.
Proof.
  intros m'. subst m'. unfold restart, R. mach.
  destruct (restart_base_frame reset_pc hartid m) as (Bg & Be & _).
  destruct (restart_base_mode reset_pc hartid m) as (Bp & Bv & Bpc).
  set (m1 := restart_base reset_pc hartid m) in *. clearbody m1.
  destruct (riscv_vector_reset_frame m1) as (_ & Ve & _ & _ & Vp & Vv & Vg & Vpc).
  set (m2 := riscv_vector_reset m1) in *. clearbody m2.
  destruct (restart_status_spec m2) as (F & Sp & Sv & Sg & Spc & _).
  rewrite Sp, Sv, Sg, Spc, Vp, Vv, Vg, Vpc, Bp, Bv, Bg, Bpc, (cf_ext _ _ _ F), Ve, Be.
  split_and!; try done. apply aget_aset_eq.
Qed.

Lemma restart_vector reset_pc hartid m :
  riscv_v128_preview_enabled (riscv_isa_extensions m) = true ->
  vector_wf (restart reset_pc hartid m).
Proof.
  intros E. destruct (restart_base_frame reset_pc hartid m) as (_ & Be & _).
  unfold restart. rewrite <-Be in E. apply riscv_vector_reset_wf in E.
  destruct (restart_status_spec (riscv_vector_reset (restart_base reset_pc hartid m))) as (F & _).
  destruct E as [H1 H2 H3 H4 H5].
  split; rewrite ?CSR_upd_sr; mach; rewrite !(cf_csr _ _ _ F) by notin; done.
Qed.

(** A CSR file whose interrupt sources are all clear has no pending interrupt. *)
Lemma riscv_mip_value_zero m :
  (forall c, c ∈ [CSR_MIP; CSR_HVIP; CSR_MBERR_STATUS; CSR_MENVCFG; CSR_MENVCFGH] -> CSR m c = 0) ->
  seip m = false -> stip m = false -> riscv_mip_value m = 0.
Proof.
  intros Z0 Hs Ht. unfold riscv_mip_value, riscv_virtual_timer_pending, sstc_enabled.
  rewrite Hs, Ht, (Z0 CSR_MIP), (Z0 CSR_HVIP), (Z0 CSR_MBERR_STATUS), (Z0 CSR_MENVCFG), (Z0 CSR_MENVCFGH)
    by (rewrite !elem_of_cons; tauto).
  rewrite !Z.land_0_l. destruct CONFIG_RAPTOR_MEMORY_MAP, CONFIG_RV64, (h_enabled m); done.
Qed.

Lemma status_legal_reset m : status_legal m (if CONFIG_RV64 then 0xA00000000 else 0).
Proof.
  split.
  - by destruct CONFIG_RV64.
  - by intros ->.
  - unfold XLEN. by destruct CONFIG_RV64.
  - unfold XLEN. by destruct CONFIG_RV64.
  - intros i Hi. destruct CONFIG_RV64; [|by rewrite Z.testbit_0_l].
    change 0xA00000000 with ((1 << 33) .| (1 << 35)). rewrite Z.lor_spec, !testbit_shl1 by lia.
    intros E. right. right. split; [done|]. lia.
Qed.

(** Reset starts from a coherent CSR file, in M-mode with V = 0. *)
Theorem restart_coherent reset_pc hartid m :
  (forall c, CSR m c = 0) -> seip m = false -> stip m = false ->
  let m' := restart reset_pc hartid m in
  csr_coherent m' /\ mode_ok m' /\ priv m' = PRV_M /\ R m' 0 = 0 /\ pc m' = reset_pc /\
  (riscv_v128_preview_enabled (riscv_isa_extensions m') = true -> vector_wf m').
Proof.
  intros H0 Hs Ht m'. destruct (restart_csrs reset_pc hartid m) as (Em & Ed & Es & Ess & Ec & Ep & Et).
  destruct (restart_mode reset_pc hartid m) as (Hp & Hv & Hr & Hpc & Hx).
  pose proof (restart_vector reset_pc hartid m) as Hw. rewrite <-Hx in Hw.
  fold m' in Em, Ed, Es, Ess, Ec, Ep, Et, Hp, Hv, Hr, Hpc, Hw. clearbody m'. rewrite H0 in Es, Ess.
  split_and!; try done; [|split; [auto|congruence]].
  assert (Es' : CSR m' CSR_MSTATUS = if CONFIG_RV64 then 0xA00000000 else 0)
    by (rewrite Es; by destruct CONFIG_RV64).
  assert (Ei : riscv_mip_value m' = 0).
  { apply riscv_mip_value_zero; [|congruence..]. intros c Hc. rewrite !elem_of_cons, elem_of_nil in Hc.
    repeat (destruct Hc as [->|Hc]; [by rewrite Ec, H0 by notin|]). done. }
  split.
  - rewrite Es'. apply status_legal_reset.
  - done.
  - by rewrite Ec, H0 by notin.
  - rewrite Ed. apply Z.bits_inj'. intros i Hi. rewrite Z.lor_spec, Z.land_spec. by repeat bits_case.
  - rewrite Ess, Es'. unfold SSTATUS_RMASK. destruct CONFIG_RV64; [|done].
    by destruct (riscv_v128_preview_enabled _).
  - by rewrite !Ec, !H0 by notin.
  - rewrite Ei. by rewrite !Ec, !H0 by notin.
Qed.

End CsrSpec.

(** ** Witnesses: the RV64 reference build after reset *)

Definition reset_machine : machine :=
  restart (Cfg := riscv64_ref) 0x80000000 0
    (machine_init <| riscv_isa_extensions := NEMU_ISA_EXT_V128_PREVIEW |>).

Lemma reset_machine_mode : mode_ok reset_machine.
Proof. split; [right; right; vm_compute; reflexivity | vm_compute; discriminate]. Qed.

Lemma CSR_power_on e c : CSR (machine_init <| riscv_isa_extensions := e |>) c = 0.
Proof. unfold CSR. change (sr _) with (∅ : gmap Z Z). unfold aget. by rewrite lookup_empty. Qed.

(** The machine after reset and one instruction. *)
Definition running_machine : machine := commit_block (Cfg := riscv64_ref) 0 reset_machine.

Lemma running_machine_coherent : csr_coherent (Cfg := riscv64_ref) running_machine.
Proof. apply commit_block_coherent. Qed.



Lemma csr_commit_coherent_witness :
  csr_coherent (Cfg := riscv64_ref)
    (csr_commit (Cfg := riscv64_ref) (setCSR CSR_MSTATUS 0x1888 reset_machine)).
Proof. apply csr_commit_coherent. left. reflexivity. Defined.

Lemma csr_commit_fast_path_witness :
  CSR (commit_views_out (Cfg := riscv64_ref) (commit_status (Cfg := riscv64_ref)
    (commit_views_in (Cfg := riscv64_ref) 0 (commit_warl (Cfg := riscv64_ref) running_machine))))
    CSR_MISA = CSR running_machine CSR_MISA.
Proof. apply (csr_commit_fast_path (Cfg := riscv64_ref)). exact running_machine_coherent. Defined.

Lemma sstatus_write_confined_witness :
  let m' := csr_commit (Cfg := riscv64_ref) (CSRW (Cfg := riscv64_ref) CSR_SSTATUS 0xa running_machine) in
  Z.testbit (CSR m' CSR_MSTATUS) 1 = true /\ Z.testbit (CSR m' CSR_MSTATUS) 3 = false.
Proof.
  destruct (sstatus_write_confined (Cfg := riscv64_ref) running_machine 0xa running_machine_coherent
    ltac:(vm_compute; reflexivity)) as (H & _ & _).
  split; (rewrite H; [vm_compute; reflexivity | lia | discriminate]).
Defined.

Lemma restart_coherent_witness :
  csr_coherent (Cfg := riscv64_ref) reset_machine /\ priv reset_machine = PRV_M.
Proof.
  pose proof (restart_coherent (Cfg := riscv64_ref) 0x80000000 0
    (machine_init <| riscv_isa_extensions := NEMU_ISA_EXT_V128_PREVIEW |>)
    (CSR_power_on _) eq_refl eq_refl) as (H1 & _ & H2 & _).
  split; [exact H1 | exact H2].
Defined.
