(* ===== verification/Hoare.v ===== *)
(** * Hoare: total correctness triples for the effect monad *)
From S2P Require Import Prelude.

(** From every state in [P] the computation returns a value and a state in [Q],
    or jumps with a code and a state in [X]; it never aborts the host. *)
Definition triple {S A} (P : S -> Prop) (m : M S A) (Q : A -> S -> Prop) (X : Z -> S -> Prop) : Prop :=
  forall s, P s ->
    match m s with
    | (Ret a, s') => Q a s'
    | (LongJmp c, s') => X c s'
    | (Panic, _) => False
    end.

Section Rules.
Context {S : Type}.
Implicit Types (P : S -> Prop) (X : Z -> S -> Prop).

Lemma triple_ret {A} P (a : A) (Q : A -> S -> Prop) X :
  (forall s, P s -> Q a s) -> triple P (mret a) Q X.
Proof. intros H s Hs. by apply H. Qed.

Lemma triple_bind {A B} P (m : M S A) (k : A -> M S B) (R : A -> S -> Prop) Q X :
  triple P m R X -> (forall a, triple (R a) (k a) Q X) -> triple P (mbind k m) Q X.
Proof.
  intros Hm Hk s Hs. specialize (Hm s Hs). unfold mbind, M_bind.
  destruct (m s) as [[a|c|] s']; [by apply Hk | done | done].
Qed.

Lemma triple_get P (Q : S -> S -> Prop) X : (forall s, P s -> Q s s) -> triple P get Q X.
Proof. intros H s Hs. by apply H. Qed.

Lemma triple_gets {A} P (f : S -> A) (Q : A -> S -> Prop) X :
  (forall s, P s -> Q (f s) s) -> triple P (gets f) Q X.
Proof. intros H s Hs. by apply H. Qed.

Lemma triple_modify P f (Q : unit -> S -> Prop) X :
  (forall s, P s -> Q tt (f s)) -> triple P (modify f) Q X.
Proof. intros H s Hs. by apply H. Qed.

Lemma triple_longjmp {A} P code (Q : A -> S -> Prop) X :
  (forall s, P s -> X code s) -> triple P (longjmp code) Q X.
Proof. intros H s Hs. by apply H. Qed.

Lemma triple_conseq {A} P P' (m : M S A) (Q Q' : A -> S -> Prop) X X' :
  triple P m Q X -> (forall s, P' s -> P s) -> (forall a s, Q a s -> Q' a s) ->
  (forall c s, X c s -> X' c s) -> triple P' m Q' X'.
Proof.
  intros H HP HQ HX s Hs. specialize (H s (HP s Hs)).
  destruct (m s) as [[a|c|] s']; auto.
Qed.

Lemma triple_post {A} P (m : M S A) (Q Q' : A -> S -> Prop) X :
  triple P m Q X -> (forall a s, Q a s -> Q' a s) -> triple P m Q' X.
Proof. intros H HQ. by eapply triple_conseq. Qed.

Lemma triple_pre {A} P P' (m : M S A) (Q : A -> S -> Prop) X :
  triple P m Q X -> (forall s, P' s -> P s) -> triple P' m Q X.
Proof. intros H HP. by eapply triple_conseq. Qed.

(** A pure fact of the precondition may be assumed. *)
Lemma triple_pure {A} P (F : Prop) (m : M S A) (Q : A -> S -> Prop) X :
  (F -> triple P m Q X) -> triple (fun s => P s /\ F) m Q X.
Proof. intros H s [Hs HF]. by apply H. Qed.

(** The precondition at hand names the state. *)
Lemma triple_at {A} P (m : M S A) (Q : A -> S -> Prop) X :
  (forall s0, P s0 -> triple (fun s => s = s0) m Q X) -> triple P m Q X.
Proof. intros H s Hs. by apply (H s Hs). Qed.

Lemma triple_get_bind {B} P (k : S -> M S B) Q X :
  (forall s0, P s0 -> triple (fun s => s = s0) (k s0) Q X) -> triple P (mbind k get) Q X.
Proof. intros H s Hs. by apply (H s Hs). Qed.

Lemma triple_when P (b : bool) (m : M S unit) (Q : unit -> S -> Prop) X :
  (b = true -> triple P m Q X) -> (b = false -> forall s, P s -> Q tt s) -> triple P (when b m) Q X.
Proof. intros H1 H2. destruct b; [by apply H1|]. apply triple_ret. by apply H2. Qed.

(** Dropping the exit states. *)
Lemma triple_run {A} P (m : M S A) Q X s :
  triple P m Q X -> P s ->
  (exists a s', m s = (Ret a, s') /\ Q a s') \/ (exists c s', m s = (LongJmp c, s') /\ X c s').
Proof.
  intros H Hs. specialize (H s Hs). destruct (m s) as [[a|c|] s']; [left|right|done]; eauto.
Qed.

End Rules.

(** ** Partial triples: [X] also holds when the host aborts *)

Definition ptriple {S A} (P : S -> Prop) (m : M S A) (Q : A -> S -> Prop) (X : S -> Prop) : Prop :=
  forall s, P s -> match m s with (Ret a, s') => Q a s' | (_, s') => X s' end.

Section PartialRules.
Context {S : Type}.
Implicit Types (P X : S -> Prop).

Lemma ptriple_of {A} P (m : M S A) (Q : A -> S -> Prop) X :
  triple P m Q (fun _ => X) -> ptriple P m Q X.
Proof. intros H s Hs. specialize (H s Hs). by destruct (m s) as [[a|c|] s']. Qed.

Lemma ptriple_ret {A} P (a : A) (Q : A -> S -> Prop) X :
  (forall s, P s -> Q a s) -> ptriple P (mret a) Q X.
Proof. intros H s Hs. by apply H. Qed.

Lemma ptriple_bind {A B} P (m : M S A) (k : A -> M S B) (R : A -> S -> Prop) Q X :
  ptriple P m R X -> (forall a, ptriple (R a) (k a) Q X) -> ptriple P (mbind k m) Q X.
Proof.
  intros Hm Hk s Hs. specialize (Hm s Hs). unfold mbind, M_bind.
  destruct (m s) as [[a|c|] s']; [by apply Hk | done | done].
Qed.

Lemma ptriple_gets {A} P (f : S -> A) (Q : A -> S -> Prop) X :
  (forall s, P s -> Q (f s) s) -> ptriple P (gets f) Q X.
Proof. intros H s Hs. by apply H. Qed.

Lemma ptriple_modify P f (Q : unit -> S -> Prop) X :
  (forall s, P s -> Q tt (f s)) -> ptriple P (modify f) Q X.
Proof. intros H s Hs. by apply H. Qed.

Lemma ptriple_conseq {A} P P' (m : M S A) (Q Q' : A -> S -> Prop) X X' :
  ptriple P m Q X -> (forall s, P' s -> P s) -> (forall a s, Q a s -> Q' a s) ->
  (forall s, X s -> X' s) -> ptriple P' m Q' X'.
Proof.
  intros H HP HQ HX s Hs. specialize (H s (HP s Hs)).
  destruct (m s) as [[a|c|] s']; auto.
Qed.

Lemma ptriple_pre {A} P P' (m : M S A) (Q : A -> S -> Prop) X :
  ptriple P m Q X -> (forall s, P' s -> P s) -> ptriple P' m Q X.
Proof. intros H HP. by eapply ptriple_conseq. Qed.

Lemma ptriple_post {A} P (m : M S A) (Q Q' : A -> S -> Prop) X :
  ptriple P m Q X -> (forall a s, Q a s -> Q' a s) -> ptriple P m Q' X.
Proof. intros H HQ. by eapply ptriple_conseq. Qed.

Lemma ptriple_pure {A} P (F : Prop) (m : M S A) (Q : A -> S -> Prop) X :
  (F -> ptriple P m Q X) -> ptriple (fun s => P s /\ F) m Q X.
Proof. intros H s [Hs HF]. by apply H. Qed.

Lemma ptriple_get_bind {B} P (k : S -> M S B) Q X :
  (forall s0, P s0 -> ptriple (fun s => s = s0) (k s0) Q X) -> ptriple P (mbind k get) Q X.
Proof. intros H s Hs. by apply (H s Hs). Qed.

Lemma ptriple_when P (b : bool) (m : M S unit) (Q : unit -> S -> Prop) X :
  (b = true -> ptriple P m Q X) -> (b = false -> forall s, P s -> Q tt s) -> ptriple P (when b m) Q X.
Proof. intros H1 H2. destruct b; [by apply H1|]. apply ptriple_ret. by apply H2. Qed.

End PartialRules.
