(* ===== verification/Paddr.v ===== *)
(** * Paddr: physical memory ([memory/paddr.c], [memory/paddr.h], [memory/host.h])

    The builds without device models ([CONFIG_DEVICE] unset, as in every
    reference configuration). The backing arrays cover disjoint address ranges
    and are kept in the one byte map [mem], indexed by physical address. *)
From S2P Require Import Prelude Config Tlb Machine.

Section Paddr.
Context {Cfg : Config}.

(** ** Memory map *)

(** [paddr_t] arithmetic. *)
Definition paddr_add (a n : Z) : Z := wrap 64 (a + n).

Definition PMEM_LEFT : Z := CONFIG_MBASE.
Definition PMEM_RIGHT : Z := paddr_add CONFIG_MBASE (CONFIG_MSIZE - 1).
Definition CONFIG_ROM_BASE : Z := 0x1000.
Definition CONFIG_ROM_SIZE : Z := 0xf000.
Definition CONFIG_SDRAM_BASE : Z := 0xa0000000.
Definition CONFIG_SDRAM_SIZE : Z :=
  if CONFIG_RAPTOR_PMEM_2G then 0
  else if CONFIG_RAPTOR_MEMORY_MAP then 0x2000000 else 0x20000000.
Definition CONFIG_SRAM_BASE : Z := 0xf000000.
Definition CONFIG_SRAM_SIZE : Z := 0x2000.
Definition CONFIG_MROM_BASE : Z := 0x20000000.
Definition CONFIG_MROM_SIZE : Z := 0x10000.
Definition CONFIG_FLASH_BASE : Z := 0x30000000.
Definition CONFIG_FLASH_SIZE : Z := if CONFIG_RAPTOR_MEMORY_MAP then 0x10000000 else 0x40000000.

Definition in_region (base size a : Z) : bool := (base <=? a) && (a <? base + size).
Definition in_rom (a : Z) : bool :=
  if CONFIG_RAPTOR_MEMORY_MAP then false else in_region CONFIG_ROM_BASE CONFIG_ROM_SIZE a.
Definition in_pmem (a : Z) : bool := (PMEM_LEFT <=? a) && (a <=? PMEM_RIGHT).
Definition in_sdram (a : Z) : bool :=
  if CONFIG_RAPTOR_PMEM_2G then false else in_region CONFIG_SDRAM_BASE CONFIG_SDRAM_SIZE a.
Definition in_sram (a : Z) : bool := in_region CONFIG_SRAM_BASE CONFIG_SRAM_SIZE a.
Definition in_mrom (a : Z) : bool := in_region CONFIG_MROM_BASE CONFIG_MROM_SIZE a.
Definition in_flash (a : Z) : bool := in_region CONFIG_FLASH_BASE CONFIG_FLASH_SIZE a.

Definition span_in (region : Z -> bool) (a size : Z) : bool :=
  region a && region (paddr_add a (size - 1)).

Definition paddr_is_ram_span (a len : Z) : bool :=
  if len <=? 0 then false
  else if paddr_add a (len - 1) <? a then false
  else span_in in_pmem a len || span_in in_sram a len || span_in in_sdram a len.

Definition paddr_is_memory_span (a size : Z) : bool :=
  if size =? 0 then false
  else if paddr_add a (size - 1) <? a then false
  else span_in in_pmem a size || span_in in_rom a size || span_in in_sram a size
       || span_in in_mrom a size || span_in in_flash a size || span_in in_sdram a size.

Definition ref_paddr_is_io (a : Z) : bool :=
  ((0x2000000 <=? a) && (a <? 0x20c0000)) || ((0xc000000 <=? a) && (a <? 0xd000000))
  || ((0x10000000 <=? a) && (a <? 0x10000100)) || ((0x11001800 <=? a) && (a <? 0x11001900))
  || ((0x11008000 <=? a) && (a <? 0x11008100)).

Definition paddr_is_mapped (a : Z) : bool :=
  paddr_is_memory_span a 1 || (CONFIG_TARGET_SHARE && ref_paddr_is_io a).

Definition paddr_is_readonly (a : Z) : bool := in_rom a || in_mrom a || in_flash a.

Definition paddr_supports_atomic (a len : Z) : bool :=
  ((len =? 4) || (len =? 8)) && negb (nz (a .& (len - 1))) && paddr_is_ram_span a len.

Definition paddr_supports_zero (a : Z) : bool := paddr_is_ram_span (a .& ~~ 63) 64.

(** ** Host accesses: little-endian, at the widths the host code handles *)

Fixpoint load_bytes (bytes : gmap Z Z) (a : Z) (n : nat) : Z :=
  match n with
  | O => 0
  | S n => aget bytes a .| (load_bytes bytes (a + 1) n << 8)
  end.

Fixpoint store_bytes (bytes : gmap Z Z) (a : Z) (n : nat) (data : Z) : gmap Z Z :=
  match n with
  | O => bytes
  | S n => store_bytes (aset bytes a (wrap 8 data)) (a + 1) n (data >> 8)
  end.

Definition host_len (len : Z) : bool :=
  (len =? 1) || (len =? 2) || (len =? 4) || (CONFIG_RV64 && (len =? 8)).

(** Other widths fail the [assert] of the run-time checks. *)
Definition host_read (a len : Z) : M machine Z :=
  if host_len len then gets (fun m => load_bytes (mem m) a (Z.to_nat len)) else panic.
Definition host_write (a len data : Z) : M machine unit :=
  if host_len len
  then modify (fun m => m <| mem ::= fun bytes => store_bytes bytes a (Z.to_nat len) data |>)
  else panic.

(** Every backing array but the main memory is unknown to the reference. *)
Definition guest_to_host (a : Z) : M machine Z :=
  if in_pmem a then mret a
  else
    modify difftest_skip_ref;;
    if in_rom a || in_sdram a || in_sram a || in_mrom a || in_flash a then mret a else panic.

Definition pmem_read (a len : Z) : M machine Z := h ← guest_to_host a; host_read h len.
Definition pmem_write (a len data : Z) : M machine unit := h ← guest_to_host a; host_write h len data.

(** [cause = c; nemu_memory_longjmp(code)]. *)
Definition fault {A} (c code : Z) : M machine A :=
  modify (fun m => m <| cause := c |>);; longjmp code.

Definition out_of_bound {A} : M machine A :=
  m ← get;
  if negb (CSR m CSR_MTVEC =? 0) && (priv m =? PRV_M) then fault MCA_LOA_ACC_FAU 10 else panic.

Definition ref_paddr_io (a : Z) : M machine bool :=
  if negb (ref_paddr_is_io a) then mret false
  else modify (fun m => m <| iomm_addr := word a |> <| skip := 1 |>);; mret true.

Definition ram_access (a len : Z) : bool :=
  paddr_is_memory_span a len && (in_pmem a || in_sdram a || in_sram a).
Definition rom_access (a len : Z) : bool :=
  paddr_is_memory_span a len && (in_rom a || in_mrom a || in_flash a).

Definition paddr_read (a len : Z) : M machine Z :=
  if ram_access a len then pmem_read a len
  else if rom_access a len then pmem_read a len
  else
    io ← (if CONFIG_TARGET_SHARE then ref_paddr_io a else mret false);
    if io : bool then mret 0 else out_of_bound.

Definition paddr_write (a len data : Z) : M machine unit :=
  if ram_access a len then pmem_write a len data
  else
    io ← (if CONFIG_TARGET_SHARE then ref_paddr_io a else mret false);
    if io : bool then mret tt else out_of_bound.

(** ** DMA: the copied bytes, or [None] when the transfer is refused *)

Definition INT32_MAX : Z := 2 ^ 31 - 1.

Fixpoint copy_out (bytes : gmap Z Z) (a : Z) (n : nat) : list Z :=
  match n with O => [] | S n => aget bytes a :: copy_out bytes (a + 1) n end.
Fixpoint copy_in (bytes : gmap Z Z) (a : Z) (buffer : list Z) : gmap Z Z :=
  match buffer with [] => bytes | b :: buffer => copy_in (aset bytes a b) (a + 1) buffer end.

Definition paddr_dma_read (a len : Z) : M machine (option (list Z)) :=
  if len =? 0 then mret (Some [])
  else if (len <=? INT32_MAX) && paddr_is_memory_span a (wrap 32 len) then
    h ← guest_to_host a; gets (fun m => Some (copy_out (mem m) h (Z.to_nat len)))
  else mret None.

Definition paddr_dma_write (a : Z) (buffer : list Z) : M machine bool :=
  let len := Z.of_nat (length buffer) in
  if len =? 0 then mret true
  else if (len <=? INT32_MAX) && paddr_is_ram_span a len then
    h ← guest_to_host a; modify (fun m => m <| mem ::= fun bytes => copy_in bytes h buffer |>);; mret true
  else mret false.

(** ** Bytes *)

(** Memory holds bytes. *)
Definition mem_wf (m : machine) : Prop := forall a, fits 8 (aget (mem m) a).

Lemma store_bytes_other bytes a n data b :
  ~ (a <= b < a + Z.of_nat n) -> aget (store_bytes bytes a n data) b = aget bytes b.
Proof.
  revert bytes a data. induction n as [|n IH]; intros bytes a data Hb; [done|].
  cbn [store_bytes]. rewrite IH by lia. rewrite aget_aset_ne by lia. done.
Qed.

Lemma load_bytes_ext bytes bytes' a n :
  (forall b, a <= b < a + Z.of_nat n -> aget bytes b = aget bytes' b) ->
  load_bytes bytes a n = load_bytes bytes' a n.
Proof.
  revert a. induction n as [|n IH]; intros a H; [done|]. cbn [load_bytes].
  rewrite (H a), (IH (a + 1)) by (lia || (intros; apply H; lia)). done.
Qed.

Lemma load_store_bytes bytes a n data :
  load_bytes (store_bytes bytes a n data) a n = wrap (8 * Z.of_nat n) data.
Proof.
  revert bytes a data. induction n as [|n IH]; intros bytes a data.
  { unfold wrap. by rewrite Z.land_0_r. }
  cbn [load_bytes store_bytes]. rewrite IH, store_bytes_other, aget_aset_eq by lia.
  replace (8 * Z.of_nat (S n)) with (8 * Z.of_nat n + 8) by lia. bits.
Qed.

Lemma load_bytes_fits bytes a n :
  (forall b, fits 8 (aget bytes b)) -> fits (8 * Z.of_nat n) (load_bytes bytes a n).
Proof.
  intros H. revert a. induction n as [|n IH]; intros a; [by split|].
  cbn [load_bytes]. specialize (IH (a + 1)). specialize (H a).
  replace (8 * Z.of_nat (S n)) with (8 * Z.of_nat n + 8) by lia.
  apply fits_testbit; [lia| |].
  - apply Z.lor_nonneg. split; [apply H|]. apply Z.shiftl_nonneg, IH.
  - intros i Hi. rewrite Z.lor_spec, Z.shiftl_spec by lia.
    rewrite (testbit_high 8 _ i H), (testbit_high _ _ (i - 8) IH) by lia. done.
Qed.

Lemma store_bytes_fits bytes a n data :
  (forall b, fits 8 (aget bytes b)) -> forall b, fits 8 (aget (store_bytes bytes a n data) b).
Proof.
  revert bytes a data. induction n as [|n IH]; intros bytes a data H b; [done|].
  cbn [store_bytes]. apply IH. intros c. rewrite aget_aset. destruct (a =? c); [|done].
  by apply wrap_fits.
Qed.

(** ** The two memory paths *)

Lemma ram_access_region a len :
  ram_access a len = true -> in_rom a || in_sdram a || in_sram a || in_mrom a || in_flash a || in_pmem a = true.
Proof.
  unfold ram_access. rewrite andb_true_iff. intros [_ H].
  by destruct (in_rom a), (in_sdram a), (in_sram a), (in_mrom a), (in_flash a), (in_pmem a).
Qed.

Definition touch_host (a : Z) (m : machine) : machine := if in_pmem a then m else difftest_skip_ref m.

Lemma guest_to_host_region a m :
  in_rom a || in_sdram a || in_sram a || in_mrom a || in_flash a || in_pmem a = true ->
  guest_to_host a m = (Ret a, touch_host a m).
Proof.
  intros H. unfold guest_to_host, touch_host. destruct (in_pmem a); [done|].
  rewrite orb_false_r in H. unfold mbind, M_bind, modify. by rewrite H.
Qed.

(** A physical memory span is readable as such. *)
Lemma memory_span_access a len :
  paddr_is_memory_span a len = true -> ram_access a len || rom_access a len = true.
Proof.
  intros H. unfold ram_access, rom_access. rewrite H. cbn [andb].
  unfold paddr_is_memory_span, span_in in H.
  destruct (len =? 0); [done|]. destruct (paddr_add a (len - 1) <? a); [done|]. revert H.
  by destruct (in_rom a), (in_sdram a), (in_sram a), (in_mrom a), (in_flash a), (in_pmem a).
Qed.

Lemma paddr_read_span a len m :
  paddr_is_memory_span a len = true -> host_len len = true ->
  paddr_read a len m = (Ret (load_bytes (mem m) a (Z.to_nat len)), touch_host a m).
Proof.
  intros Hs Hl. pose proof (memory_span_access a len Hs) as Ha. unfold paddr_read.
  assert (E : in_rom a || in_sdram a || in_sram a || in_mrom a || in_flash a || in_pmem a = true).
  { unfold ram_access, rom_access in Ha. rewrite Hs in Ha. revert Ha.
    by destruct (in_rom a), (in_sdram a), (in_sram a), (in_mrom a), (in_flash a), (in_pmem a). }
  assert (P : pmem_read a len m = (Ret (load_bytes (mem m) a (Z.to_nat len)), touch_host a m)).
  { unfold pmem_read. rewrite (bind_ret _ _ _ _ _ (guest_to_host_region a m E)).
    unfold host_read. rewrite Hl. unfold gets, touch_host. by destruct (in_pmem a). }
  destruct (ram_access a len); [done|]. cbn [orb] in Ha. by rewrite Ha.
Qed.

Lemma paddr_write_ram a len data m :
  ram_access a len = true -> host_len len = true ->
  paddr_write a len data m =
    (Ret tt, (touch_host a m) <| mem := store_bytes (mem m) a (Z.to_nat len) data |>).
Proof.
  intros Ha Hl. unfold paddr_write. rewrite Ha. unfold pmem_write.
  rewrite (bind_ret _ _ _ _ _ (guest_to_host_region a m (ram_access_region _ _ Ha))).
  unfold host_write. rewrite Hl. unfold modify, touch_host. by destruct (in_pmem a).
Qed.

Lemma host_len_cases len : host_len len = true -> len = 1 \/ len = 2 \/ len = 4 \/ len = 8.
Proof. unfold host_len. lia. Qed.

(** Loads return what the last store put there: after a store to memory, a
    load of the same width returns the data truncated to that width, and every
    byte outside the store is what it was; memory keeps holding bytes. *)
Theorem paddr_store_load a len data m :
  ram_access a len = true -> host_len len = true ->
  let '(o, m') := paddr_write a len data m in
  o = Ret tt /\
  fst (paddr_read a len m') = Ret (wrap (8 * len) data) /\
  (forall b, ~ (a <= b < a + len) -> aget (mem m') b = aget (mem m) b) /\
  (mem_wf m -> mem_wf m') /\ sr m' = sr m /\ gpr m' = gpr m.
Proof.
  intros Ha Hl. rewrite paddr_write_ram by done.
  pose proof (host_len_cases len Hl) as Hc.
  assert (Hs : paddr_is_memory_span a len = true)
    by (unfold ram_access in Ha; by destruct (paddr_is_memory_span a len)).
  split_and!.
  - done.
  - rewrite paddr_read_span by done. cbn [fst]. fields. rewrite load_store_bytes.
    rewrite Z2Nat.id by lia. done.
  - intros b Hb. fields. apply store_bytes_other. rewrite Z2Nat.id by lia. done.
  - intros Hm b. fields. by apply store_bytes_fits.
  - fields. unfold touch_host. by destruct (in_pmem a).
  - fields. unfold touch_host. by destruct (in_pmem a).
Qed.

End Paddr.

Lemma paddr_store_load_witness :
  let '(o, m') := paddr_write (Cfg := riscv64_ref) 0x80000010 4 0x1234567890 machine_init in
  fst (paddr_read (Cfg := riscv64_ref) 0x80000010 4 m') = Ret 0x34567890.
Proof.
  pose proof (paddr_store_load (Cfg := riscv64_ref) 0x80000010 4 0x1234567890 machine_init
    ltac:(vm_compute; reflexivity) ltac:(vm_compute; reflexivity)) as H.
  destruct (paddr_write _ _ _ _) as [o m']. destruct H as (_ & H & _). exact H.
Defined.
