(* ===== verification/Mmu.v ===== *)
(** * Mmu: address translation ([system/mmu.c]): Sv32, Sv39 and the two stages
    of the hypervisor extension *)
From S2P Require Import Prelude Config Tlb Machine Pmp Paddr.

Section Mmu.
Context {Cfg : Config}.

Inductive mem_type := MEM_TYPE_IFETCH | MEM_TYPE_READ | MEM_TYPE_WRITE | MEM_TYPE_CMO.
#[export] Instance mem_type_eq : EqDecision mem_type.
Proof. solve_decision. Defined.

Inductive mmu_mode := MMU_DIRECT | MMU_TRANSLATE | MMU_FAIL.
#[export] Instance mmu_mode_eq : EqDecision mmu_mode.
Proof. solve_decision. Defined.

Definition SV32_MODE : Z := 1.
Definition SV39_MODE : Z := 8.

Definition is_type (a b : mem_type) : bool := bool_decide (a = b).

(** [pmp_check] as a step of the machine. *)
Definition pmp_checkM (a size privilege : Z) (op_r op_w op_x : bool) : M machine bool :=
  fun m => let '(denied, m) := pmp_check a size privilege op_r op_w op_x m in (Ret denied, m).

Definition ptw_memory_readable (a size : Z) : bool :=
  negb (nz (a .& (size - 1))) && paddr_is_memory_span a size.

(** [!ptw_memory_readable(a, size) || pmp_check(a, size, PRV_S, true, false, false)]. *)
Definition ptw_denied (a size : Z) : M machine bool :=
  if negb (ptw_memory_readable a size) then mret true
  else pmp_checkM a size PRV_S true false false.

(** ** Fields of [csr_t.satp], of a PTE and of an Sv32 address *)

Definition satp_mode (satp : Z) : Z := if CONFIG_RV64 then getf 60 4 satp else getf 31 1 satp.
Definition satp_ppn (satp : Z) : Z := if CONFIG_RV64 then getf 0 44 satp else getf 0 22 satp.

Definition pte_v := getf 0 1.
Definition pte_r := getf 1 1.
Definition pte_w := getf 2 1.
Definition pte_x := getf 3 1.
Definition pte_u := getf 4 1.
Definition pte_a := getf 6 1.
Definition pte_d := getf 7 1.

Definition get_sum (status : Z) : Z := getf 18 1 status.
Definition get_mxr (status : Z) : Z := getf 19 1 status.

(** The virtual page numbers, by level. *)
Definition sv39_vpn (va : Z) (level : nat) : Z :=
  match level with
  | 0%nat => (va >> 12) .& 0x1ff
  | 1%nat => (va >> 21) .& 0x1ff
  | _ => (va >> 30) .& 0x1ff
  end.
Definition gstage_vpn (va : Z) (level : nat) : Z :=
  match level with
  | 0%nat => (va >> 12) .& 0x1ff
  | 1%nat => (va >> 21) .& 0x1ff
  | _ => (va >> 30) .& 0x7ff
  end.
Definition sv32_vpn (va : Z) (level : nat) : Z :=
  match level with 0%nat => getf 12 10 va | _ => getf 22 10 va end.

Definition level_mask (level : nat) : Z := (1 << (9 * Z.of_nat level)) - 1.
Definition pte_ppn (pte : Z) : Z := (pte >> 10) .& ((1 << 44) - 1).

(** A Svnapot leaf takes its low four PPN bits from the address. *)
Definition napot_ppn (pte vpn0 : Z) : Z :=
  if nz (pte >> 63) then (pte_ppn pte .& ~~ 15) .| (vpn0 .& 15) else pte_ppn pte.

(** ** Whether an access is translated *)

(** The privilege an access is made with. *)
Definition eff_priv (m : machine) (type : mem_type) : Z :=
  if is_type type MEM_TYPE_IFETCH then priv m else pmp_effective_priv_ls m.

Definition guest_access (m : machine) (type : mem_type) : bool :=
  CONFIG_RV64 && (if is_type type MEM_TYPE_IFETCH then virt m else riscv_data_virtual_mode m).

Definition isa_mmu_check (m : machine) (type : mem_type) : mmu_mode :=
  if guest_access m type then MMU_TRANSLATE
  else
    let mode := satp_mode (CSR m CSR_SATP) in
    if mode =? 0 then MMU_DIRECT
    else if eff_priv m type =? PRV_M then MMU_DIRECT
    else if CONFIG_RV64 && (mode =? SV39_MODE) then MMU_TRANSLATE
    else if mode =? SV32_MODE then MMU_TRANSLATE else MMU_DIRECT.

(** ** The exceptions of a translation *)

Definition pf_cause (type : mem_type) : Z :=
  match type with
  | MEM_TYPE_IFETCH => MCA_INS_PAG_FAU
  | MEM_TYPE_READ => MCA_LOA_PAG_FAU
  | _ => MCA_STO_PAG_FAU
  end.
Definition af_cause (type : mem_type) : Z :=
  match type with
  | MEM_TYPE_IFETCH => MCA_INS_ACC_FAU
  | MEM_TYPE_READ => MCA_LOA_ACC_FAU
  | _ => MCA_STO_ACC_FAU
  end.
Definition guest_cause (type : mem_type) : Z :=
  match type with
  | MEM_TYPE_IFETCH => MCA_INS_GUEST_PAG_FAU
  | MEM_TYPE_READ => MCA_LOA_GUEST_PAG_FAU
  | _ => MCA_STO_GUEST_PAG_FAU
  end.

(** ** The G stage *)

Inductive gstage_result :=
  | RISCV_GSTAGE_OK (physical_address pbmt : Z)
  | RISCV_GSTAGE_PAGE_FAULT
  | RISCV_GSTAGE_ACCESS_FAULT.

(** The encodings both stages of RV64 reject before anything else. *)
Definition pte_malformed (m : machine) (pbmte : bool) (level : nat) (pte : Z) : bool :=
  let read := nz (pte .& 2) in
  let write := nz (pte .& 4) in
  let execute := nz (pte .& 8) in
  let pbmt := (pte >> 61) .& 3 in
  let napot := nz (pte >> 63) in
  negb (nz (pte .& 1)) || (write && negb read) || nz (pte .& (0x7f << 54))
  || (pbmt =? 3) || (nz pbmt && negb pbmte)
  || (napot && (negb (nz (riscv_isa_extensions m .& NEMU_ISA_EXT_SVNAPOT)) || negb (Nat.eqb level 0)
                || negb (read || execute) || negb ((pte_ppn pte .& 15) =? 8))).

(** A pointer to the next table at the last level, or with a leaf-only field set. *)
Definition pointer_malformed (level : nat) (pte : Z) : bool :=
  Nat.eqb level 0 || nz (pte .& (3 << 61)) || nz (pte >> 63) || nz (pte .& 0xd0).

(** The access wants an A or D bit that is clear. *)
Definition ad_missing (store : bool) (pte : Z) : bool :=
  negb (nz (pte .& 64)) || (store && negb (nz (pte .& 128))).

Definition leaf_address (ppn low_mask va : Z) : Z :=
  (((ppn .& ~~ low_mask) .| ((va >> 12) .& low_mask)) << 12) .| (va .& 0xfff).

Definition gstage_permitted (m : machine) (store execute_access cmo implicit : bool) (pte : Z) : bool :=
  let read := nz (pte .& 2) in
  let write := nz (pte .& 4) in
  let execute := nz (pte .& 8) in
  let mxr := nz (CSR m CSR_MSTATUS .& (1 << 19)) in
  if cmo then write || read || (execute && mxr)
  else if store then write
  else if execute_access then execute
  else read || (execute && negb implicit && mxr).

(** The end of the walk at a leaf. *)
Definition gstage_leaf (guest_address pte_address pte : Z) (level : nat)
    (store execute_access cmo implicit : bool) : M machine gstage_result :=
  m ← get;
  if negb (nz (pte .& 16)) || negb (gstage_permitted m store execute_access cmo implicit pte)
  then mret RISCV_GSTAGE_PAGE_FAULT
  else
    let ppn := napot_ppn pte (gstage_vpn guest_address 0) in
    let low_mask := level_mask level in
    let pbmt := (pte >> 61) .& 3 in
    let result := RISCV_GSTAGE_OK (leaf_address ppn low_mask guest_address) pbmt in
    if nz (ppn .& low_mask) then mret RISCV_GSTAGE_PAGE_FAULT
    else if negb (ad_missing store pte) then mret result
    else if CONFIG_RV_SVADE then mret RISCV_GSTAGE_PAGE_FAULT
    else
      denied ← pmp_checkM pte_address 8 PRV_S false true false;
      if denied : bool then mret RISCV_GSTAGE_ACCESS_FAULT
      else paddr_write pte_address 8 (pte .| 64 .| (if store then 128 else 0));; mret result.

(** The loop over the levels. *)
Fixpoint gstage_walk (guest_address : Z) (store execute_access cmo implicit : bool)
    (level : nat) (table : Z) : M machine gstage_result :=
  let pte_address := paddr_add table (gstage_vpn guest_address level * 8) in
  denied ← ptw_denied pte_address 8;
  if denied : bool then mret RISCV_GSTAGE_ACCESS_FAULT
  else
    pte ← paddr_read pte_address 8;
    m ← get;
    if pte_malformed m (nz ((CSR m CSR_MENVCFG >> 62) .& 1)) level pte
    then mret RISCV_GSTAGE_PAGE_FAULT
    else if negb (nz (pte .& 2)) && negb (nz (pte .& 8)) then
      if pointer_malformed level pte then mret RISCV_GSTAGE_PAGE_FAULT
      else
        match level with
        | O => mret RISCV_GSTAGE_PAGE_FAULT
        | S level => gstage_walk guest_address store execute_access cmo implicit level (pte_ppn pte << 12)
        end
    else gstage_leaf guest_address pte_address pte level store execute_access cmo implicit.

Definition riscv_gstage_translate (guest_address : Z) (store execute_access cmo implicit : bool)
    : M machine gstage_result :=
  m ← get;
  let hgatp := CSR m CSR_HGATP in
  let mode := hgatp >> 60 in
  if mode =? 0 then mret (RISCV_GSTAGE_OK guest_address 0)
  else if negb (mode =? SV39_MODE) || nz (guest_address >> 41) then mret RISCV_GSTAGE_PAGE_FAULT
  else gstage_walk guest_address store execute_access cmo implicit 2 ((hgatp .& ((1 << 44) - 1)) << 12).

(** ** The VS stage. Both callers pass [&riscv_h_fault_gpa] and
    [&riscv_h_fault_write] for the fault address and the page-table write. *)

Inductive vstage_result :=
  | RISCV_VSTAGE_OK (guest_physical_address pbmt : Z)
  | RISCV_VSTAGE_PAGE_FAULT
  | RISCV_VSTAGE_GUEST_PAGE_FAULT
  | RISCV_VSTAGE_ACCESS_FAULT.

(** A failed G-stage translation of a PTE access. *)
Definition vstage_pte_fault (guest_pte_address : Z) (write : bool) (status : gstage_result)
    : M machine vstage_result :=
  modify (fun m => m <| riscv_h_fault_gpa := guest_pte_address |> <| riscv_h_fault_write := write |>);;
  mret (match status with
        | RISCV_GSTAGE_PAGE_FAULT => RISCV_VSTAGE_GUEST_PAGE_FAULT
        | _ => RISCV_VSTAGE_ACCESS_FAULT
        end).

Definition vstage_permitted (m : machine) (store execute_access cmo : bool) (pte : Z) : bool :=
  let read := nz (pte .& 2) in
  let write := nz (pte .& 4) in
  let execute := nz (pte .& 8) in
  let mxr := nz (((CSR m CSR_VSSTATUS .| CSR m CSR_MSTATUS) >> 19) .& 1) in
  if cmo then write || read || (execute && mxr)
  else if store then write
  else if execute_access then execute
  else read || (execute && mxr).

Definition vstage_privileged (m : machine) (execute_access virtual_supervisor : bool) (pte : Z) : bool :=
  let user := nz (pte .& 16) in
  let sum := nz ((CSR m CSR_VSSTATUS >> 18) .& 1) in
  if virtual_supervisor then negb (user && (negb sum || execute_access)) else user.

Definition vstage_leaf (guest_address guest_pte_address pte : Z) (level : nat)
    (store execute_access virtual_supervisor cmo : bool) : M machine vstage_result :=
  m ← get;
  if negb (vstage_permitted m store execute_access cmo pte)
     || negb (vstage_privileged m execute_access virtual_supervisor pte)
  then mret RISCV_VSTAGE_PAGE_FAULT
  else
    let ppn := napot_ppn pte (sv39_vpn guest_address 0) in
    let low_mask := level_mask level in
    let pbmt := (pte >> 61) .& 3 in
    let result := RISCV_VSTAGE_OK (leaf_address ppn low_mask guest_address) pbmt in
    if nz (ppn .& low_mask) then mret RISCV_VSTAGE_PAGE_FAULT
    else if negb (ad_missing store pte) then mret result
    else if CONFIG_RV_SVADE then mret RISCV_VSTAGE_PAGE_FAULT
    else
      status ← riscv_gstage_translate guest_pte_address true false false true;
      match status with
      | RISCV_GSTAGE_OK pte_write_address _ =>
          if negb (ptw_memory_readable pte_write_address 8) then mret RISCV_VSTAGE_ACCESS_FAULT
          else
            denied ← pmp_checkM pte_write_address 8 PRV_S false true false;
            if denied : bool then mret RISCV_VSTAGE_ACCESS_FAULT
            else
              paddr_write pte_write_address 8 (pte .| 64 .| (if store then 128 else 0));;
              mret result
      | _ => vstage_pte_fault guest_pte_address true status
      end.

Fixpoint vstage_walk (guest_address : Z) (store execute_access virtual_supervisor cmo : bool)
    (level : nat) (table : Z) : M machine vstage_result :=
  let guest_pte_address := paddr_add table (sv39_vpn guest_address level * 8) in
  status ← riscv_gstage_translate guest_pte_address false false false true;
  match status with
  | RISCV_GSTAGE_OK pte_address _ =>
      denied ← ptw_denied pte_address 8;
      if denied : bool then mret RISCV_VSTAGE_ACCESS_FAULT
      else
        pte ← paddr_read pte_address 8;
        m ← get;
        let pbmte := nz (((CSR m CSR_HENVCFG >> 62) .& (CSR m CSR_MENVCFG >> 62)) .& 1) in
        if pte_malformed m pbmte level pte then mret RISCV_VSTAGE_PAGE_FAULT
        else if negb (nz (pte .& 2)) && negb (nz (pte .& 8)) then
          if pointer_malformed level pte then mret RISCV_VSTAGE_PAGE_FAULT
          else
            match level with
            | O => mret RISCV_VSTAGE_PAGE_FAULT
            | S level =>
                vstage_walk guest_address store execute_access virtual_supervisor cmo level
                  (pte_ppn pte << 12)
            end
        else vstage_leaf guest_address guest_pte_address pte level store execute_access
               virtual_supervisor cmo
  | _ => vstage_pte_fault guest_pte_address false status
  end.

(** The upper bits of an Sv39 address are copies of bit 38. *)
Definition sv39_canonical (va : Z) : bool := (va >> 38 =? 0) || (va >> 38 =? Z.ones 26).

Definition riscv_vstage_translate (guest_address : Z)
    (store execute_access virtual_supervisor cmo : bool) : M machine vstage_result :=
  m ← get;
  let vsatp := CSR m CSR_VSATP in
  let mode := vsatp >> 60 in
  if mode =? 0 then mret (RISCV_VSTAGE_OK guest_address 0)
  else if negb (mode =? SV39_MODE) || negb (sv39_canonical guest_address)
  then mret RISCV_VSTAGE_PAGE_FAULT
  else vstage_walk guest_address store execute_access virtual_supervisor cmo 2
         ((vsatp .& ((1 << 44) - 1)) << 12).

(** ** The checks on a leaf that Sv32 and Sv39 share: the code of the [longjmp]
    of the first one that fails *)

Definition leaf_denied (m : machine) (type : mem_type) (pte : Z) : option Z :=
  let status := CSR m CSR_MSTATUS in
  let privilege := eff_priv m type in
  let user := nz (pte_u pte) in
  let readable := nz (pte_r pte) || (nz (get_mxr status) && nz (pte_x pte)) in
  let is_fetch := is_type type MEM_TYPE_IFETCH in
  if (privilege =? PRV_S) && user && is_fetch then Some 5
  else if (privilege =? PRV_S) && user && (get_sum status =? 0) then Some 6
  else if (privilege =? PRV_U) && negb user then Some 7
  else if is_fetch && negb (nz (pte_x pte)) then Some 8
  else if is_type type MEM_TYPE_READ && negb readable then Some 9
  else if is_type type MEM_TYPE_CMO && negb readable && negb (nz (pte_w pte)) then Some 9
  else if is_type type MEM_TYPE_WRITE && negb (nz (pte_w pte)) then Some 10
  else None.

(** The A and D bits the access sets. *)
Definition ad_update (type : mem_type) (pte : Z) : Z :=
  let pte' := if pte_a pte =? 0 then pte .| (1 << 6) else pte in
  if is_type type MEM_TYPE_WRITE && (pte_d pte =? 0) then pte' .| (1 << 7) else pte'.

Definition ad_needed (type : mem_type) (pte : Z) : bool :=
  (pte_a pte =? 0) || (is_type type MEM_TYPE_WRITE && (pte_d pte =? 0)).

(** ** Sv39 *)

Definition sv39_reserved (m : machine) (level : nat) (pte : Z) : bool :=
  let r := nz (pte_r pte) in
  let x := nz (pte_x pte) in
  let pbmt := (pte >> 61) .& 3 in
  let napot := nz (pte >> 63) in
  let pbmte := nz ((CSR m CSR_MENVCFG >> 62) .& 1) in
  nz (pte .& (0x7f << 54))
  || (napot && (negb (nz (riscv_isa_extensions m .& NEMU_ISA_EXT_SVNAPOT)) || negb (Nat.eqb level 0)
                || negb (r || x) || negb (((pte >> 10) .& 15) =? 8)))
  || (pbmt =? 3) || (nz pbmt && (negb pbmte || negb (r || x))).

(** The walk: the level, the address and the value of the leaf PTE. *)
Fixpoint sv39_walk (va : Z) (type : mem_type) (level : nat) (a : Z) : M machine (nat * Z * Z) :=
  let pte_addr := word (a + sv39_vpn va level * 8) in
  denied ← ptw_denied pte_addr 8;
  if denied : bool then fault (af_cause type) 25
  else
    pte ← paddr_read pte_addr 8;
    m ← get;
    if negb (nz (pte_v pte)) || (nz (pte_w pte) && negb (nz (pte_r pte)))
       || sv39_reserved m level pte
    then fault (pf_cause type) 2
    else if nz (pte_r pte) || nz (pte_x pte) then mret (level, pte_addr, pte)
    else if nz (pte .& 0xd0) then fault (pf_cause type) 2
    else
      match level with
      | O => fault (pf_cause type) 4
      | S level => sv39_walk va type level (pte_ppn pte << 12)
      end.

(** The physical address, by the level of the leaf. *)
Definition sv39_address (va ppn : Z) (level : nat) : Z :=
  let offset := va .& 0xfff in
  match level with
  | 0%nat => (ppn << 12) .| offset
  | 1%nat => ((ppn .& ~~ 0x1ff) << 12) .| (sv39_vpn va 0 << 12) .| offset
  | _ => ((ppn .& ~~ 0x3ffff) << 12) .| (sv39_vpn va 1 << 21) .| (sv39_vpn va 0 << 12) .| offset
  end.

(** Returns the physical address and the memory type. *)
Definition sv39_translate (va : Z) (type : mem_type) : M machine (Z * Z) :=
  if negb (sv39_canonical va) then fault (pf_cause type) 12
  else
    m ← get;
    '(level, pte_addr, pte) ← sv39_walk va type 2 (satp_ppn (CSR m CSR_SATP) << 12);
    let ppn := napot_ppn pte (sv39_vpn va 0) in
    if negb (Nat.eqb level 0) && nz (ppn .& level_mask level) then fault (pf_cause type) 3
    else
      match leaf_denied m type pte with
      | Some code => fault (pf_cause type) code
      | None =>
          (if CONFIG_RV_SVADE then
             if ad_needed type pte then fault (pf_cause type) 11 else mret tt
           else when (ad_needed type pte) (paddr_write pte_addr 8 (ad_update type pte)));;
          mret (sv39_address va ppn level, (pte >> 61) .& 3)
      end.

(** ** Sv32 *)

(** The walk: the address of the leaf PTE, and its value with the PPN of a
    superpage completed from the address. *)
Fixpoint sv32_walk (va : Z) (type : mem_type) (level : nat) (a : Z) : M machine (Z * Z) :=
  let pte_addr := paddr_add a (sv32_vpn va level * 4) in
  denied ← ptw_denied pte_addr 4;
  if denied : bool then fault (af_cause type) 25
  else
    pte ← paddr_read pte_addr 4;
    if (pte_v pte =? 0) || ((pte_w pte =? 1) && (pte_r pte =? 0)) then fault (pf_cause type) 2
    else if (pte_r pte =? 1) || (pte_x pte =? 1) then
      if negb (Nat.eqb level 0) && nz (getf 10 10 pte .& 0x3ff) then fault (pf_cause type) 3
      else mret (pte_addr, if negb (Nat.eqb level 0) then setf 10 10 (sv32_vpn va 0) pte else pte)
    else if (pte_u pte =? 1) || (pte_a pte =? 1) || (pte_d pte =? 1) then fault (pf_cause type) 2
    else
      match level with
      | O => fault (pf_cause type) 4
      | S level => sv32_walk va type level (getf 10 22 pte << 12)
      end.

Definition sv32_translate (va : Z) (type : mem_type) : M machine Z :=
  m ← get;
  '(pte_addr, pte) ← sv32_walk va type 1 (satp_ppn (CSR m CSR_SATP) << 12);
  match leaf_denied m type pte with
  | Some code => fault (pf_cause type) code
  | None =>
      (if CONFIG_RV_SVADE then
         if ad_needed type pte then fault (pf_cause type) 11 else mret tt
       else when (ad_needed type pte && negb (pte_addr =? 0))
              (paddr_write pte_addr 4 (ad_update type pte)));;
      mret ((getf 10 22 pte << 12) .| getf 0 12 va)
  end.

(** ** The translation of an access *)

(** Two-stage translation for a guest. *)
Definition guest_translate (va : Z) (type : mem_type) : M machine (Z * Z) :=
  let store := is_type type MEM_TYPE_WRITE in
  let execute_access := is_type type MEM_TYPE_IFETCH in
  let cmo := is_type type MEM_TYPE_CMO in
  modify (fun m => m <| riscv_h_fault_gpa := 0 |> <| riscv_h_fault_ptw := false |>
                     <| riscv_h_fault_write := false |>);;
  m ← get;
  status ← riscv_vstage_translate va store execute_access (pmp_effective_priv_ls m =? PRV_S) cmo;
  match status with
  | RISCV_VSTAGE_OK guest_address vs_pbmt =>
      modify (fun m => m <| riscv_h_fault_gpa := guest_address |>);;
      status ← riscv_gstage_translate guest_address store execute_access cmo false;
      match status with
      | RISCV_GSTAGE_OK physical_address g_pbmt =>
          mret (physical_address, if nz vs_pbmt then vs_pbmt else g_pbmt)
      | RISCV_GSTAGE_PAGE_FAULT => fault (guest_cause type) 12
      | RISCV_GSTAGE_ACCESS_FAULT => fault (af_cause type) 12
      end
  | RISCV_VSTAGE_PAGE_FAULT =>
      modify (fun m => m <| riscv_h_fault_ptw := false |>);; fault (pf_cause type) 12
  | RISCV_VSTAGE_GUEST_PAGE_FAULT =>
      modify (fun m => m <| riscv_h_fault_ptw := true |>);; fault (guest_cause type) 12
  | RISCV_VSTAGE_ACCESS_FAULT =>
      modify (fun m => m <| riscv_h_fault_ptw := false |>);; fault (af_cause type) 12
  end.

(** The physical address and the memory type. The bus lock around it has no
    effect in a build with one hart. *)
Definition isa_mmu_translate_attrs (va : Z) (type : mem_type) : M machine (Z * Z) :=
  m ← get;
  if guest_access m type then guest_translate va type
  else
    let mode := satp_mode (CSR m CSR_SATP) in
    if CONFIG_RV64 && (mode =? SV39_MODE) then sv39_translate va type
    else if (mode =? 0) || negb (mode =? SV32_MODE) then mret (va, 0)
    else pa ← sv32_translate va type; mret (pa, 0).

Definition isa_mmu_translate (va : Z) (type : mem_type) : M machine Z :=
  '(pa, _) ← isa_mmu_translate_attrs va type; mret pa.

End Mmu.
