(* ===== verification/MmuSpec.v ===== *)
(** * MmuSpec: what address translation promises: it terminates without
    aborting the host, faults only with the exceptions of its access class,
    leaves the architectural state alone, and implements the page-table walk
    of the privileged specification *)
From S2P Require Import Prelude Config Hoare Tlb Machine Pmp PmpSpec Paddr Mmu.

Section MmuSpec.
Context {Cfg : Config} {CfgOk : ConfigOk Cfg}.

(** ** States that differ in caches and fault reports only *)

(** The state without the PMP match cache, the difftest mark and the registers a
    failed access reports itself in. *)
Definition calm_view (m : machine) : machine :=
  m <| pmp_wcache := ∅ |> <| pmp_last_fault_addr := 0 |> <| skip_ref := false |>
    <| cause := 0 |> <| riscv_h_fault_gpa := 0 |> <| riscv_h_fault_ptw := false |>
    <| riscv_h_fault_write := false |>.

Record calm (m0 m : machine) : Prop := {
  calm_eq : calm_view m = calm_view m0;
  calm_pmp : pmp_wf m0 -> pmp_wf m;
}.

Lemma calm_refl m : calm m m.
Proof. by split. Qed.

Lemma calm_trans m1 m2 m3 : calm m1 m2 -> calm m2 m3 -> calm m1 m3.
Proof. intros [E1 W1] [E2 W2]. split; [by rewrite E2|auto]. Qed.

(** What calm states agree on. *)
Lemma calm_fields m0 m :
  calm m0 m ->
  mem m = mem m0 /\ sr m = sr m0 /\ gpr m = gpr m0 /\ priv m = priv m0 /\ virt m = virt m0 /\
  pc m = pc m0 /\ tlb m = tlb m0 /\ g_vaddr m = g_vaddr m0 /\
  riscv_isa_extensions m = riscv_isa_extensions m0 /\ reservation m = reservation m0.
Proof.
  intros [E _].
  assert (H : forall {T} (p : machine -> T), p (calm_view m) = p (calm_view m0)) by (by rewrite E).
  split_and!; [apply (H _ mem)|apply (H _ sr)|apply (H _ gpr)|apply (H _ priv)|apply (H _ virt)
    |apply (H _ pc)|apply (H _ tlb)|apply (H _ g_vaddr)|apply (H _ riscv_isa_extensions)
    |apply (H _ reservation)].
Qed.

Lemma calm_csr m0 m c : calm m0 m -> CSR m c = CSR m0 c.
Proof. intros H. unfold CSR. by rewrite (proj1 (proj2 (calm_fields _ _ H))). Qed.

(** A computation that stays calm. *)
Definition calmly {A} (m0 : machine) (c : M machine A) (Q : A -> Prop) : Prop :=
  triple (calm m0) c (fun a m => calm m0 m /\ Q a) (fun _ _ => False).

Lemma pmp_wf_ext m m' :
  sr m' = sr m -> pmp_dec m' = pmp_dec m -> pmp_any_active m' = pmp_any_active m ->
  pmp_wcache m' = pmp_wcache m -> pmp_gen m' = pmp_gen m -> pmp_wf m -> pmp_wf m'.
Proof.
  intros E1 E2 E3 E4 E5 [[A B C] D E F G].
  assert (Ec : forall c, CSR m' c = CSR m c) by (intros c; unfold CSR; by rewrite E1).
  assert (Ef : forall i, pmp_cfg m' i = pmp_cfg m i) by (intros i; unfold pmp_cfg; by rewrite Ec).
  assert (Ea : forall i, pmp_addr m' i = pmp_addr m i) by (intros i; unfold pmp_addr; by rewrite Ec).
  split; [split|..].
  - intros i Hi. rewrite Ea. by apply A.
  - intros i Hi. rewrite Ec. by apply B.
  - intros i Hi. rewrite Ef. by apply C.
  - intros i Hi. destruct (D i Hi) as [d Hd]. exists d. rewrite E2, Hd. by apply pmp_decode_entry_sr.
  - rewrite E3, E. generalize pmp_entries as l. induction l as [|i l IH]; [done|].
    cbn [existsb]. by rewrite IH, Ef.
  - intros slot. cbv zeta. rewrite E4, E5, E2. apply F.
  - by rewrite E5.
Qed.

(** Updates of the fields [calm_view] forgets. *)
Lemma calm_report m0 m m' :
  calm m0 m -> calm_view m' = calm_view m -> pmp_wcache m' = pmp_wcache m -> calm m0 m'.
Proof.
  intros [E W] E' Ew. split; [by rewrite E'|]. intros H. specialize (W H). revert W.
  assert (P : forall {T} (p : machine -> T), p (calm_view m') = p (calm_view m)) by (by rewrite E').
  apply pmp_wf_ext; [apply (P _ sr)|apply (P _ pmp_dec)|apply (P _ pmp_any_active)|done|apply (P _ pmp_gen)].
Qed.

(** [fault] reports the cause and jumps. *)
Lemma triple_fault {A} m0 c code (Q : A -> machine -> Prop) X :
  (forall m, calm m0 m -> cause m = c -> X code m) -> triple (calm m0) (fault c code) Q X.
Proof.
  intros H. unfold fault. eapply triple_bind; [apply (triple_modify _ _ (fun _ m => calm m0 m /\ cause m = c))|].
  - intros m Hm. split; [by apply (calm_report m0 m)|by fields].
  - intros ?. apply triple_longjmp. intros m [Hm Hc]. by apply H.
Qed.

(** ** The PMP *)

(** What lookups and fault reports preserve, a check preserves. *)
Lemma pmp_check_preserves (I : machine -> Prop) a size privilege r w x m :
  (forall a m, I m -> I (snd (pmp_byte_lookup a m))) ->
  (forall a m, I m -> I (snd (pmp_fault a m))) ->
  I m -> I (snd (pmp_check a size privilege r w x m)).
Proof.
  intros Hl Hf.
  assert (Hc : forall n a hi size e off m, I m -> I (snd (pmp_covered n a hi size e off m))).
  { intros n a' hi size' e. induction n as [|n IH]; intros off m' Hm; [done|].
    cbn [pmp_covered]. cbv zeta. destruct (off <? size'); [|done]. destruct (_ =? _); [by apply IH|].
    pose proof (Hl (wrap 64 (a' + off)) m' Hm) as E. destruct (pmp_byte_lookup _ m') as [part m1].
    cbn [snd] in E. destruct (negb _); [done|]. by apply IH. }
  intros Hm. unfold pmp_check. destruct (negb _); [destruct (privilege =? PRV_M); auto|]. cbv zeta.
  destruct (_ =? _).
  - pose proof (Hl a m Hm) as E. destruct (pmp_byte_lookup a m) as [one m1]. cbn [snd] in E.
    destruct (negb _); [destruct (privilege =? PRV_M); auto|].
    destruct (_ && _); [done|]. destruct (pmp_perm_ok _ _ _ _); auto.
  - pose proof (Hl a m Hm) as E1. destruct (pmp_byte_lookup a m) as [lo m1]. cbn [snd] in E1.
    match goal with |- context [pmp_byte_lookup ?h m1] => pose proof (Hl h m1 E1) as E2;
      destruct (pmp_byte_lookup h m1) as [hi m2] end. cbn [snd] in E2.
    match goal with |- context [let '(_, _) := ?c in _] => assert (E3 : I (snd c)) end.
    { destruct x; [done|]. destruct (negb _); [done|]. by apply Hc. }
    match goal with |- context [let '(_, _) := ?c in _] => destruct c as [covered m3] end.
    cbn [snd] in E3. destruct (negb covered); [auto|].
    destruct (pmp_pass lo _ _ _ _ _); [auto|]. destruct (pmp_pass hi _ _ _ _ _); auto.
Qed.

Lemma pmp_check_stays_calm m0 a size privilege r w x m :
  calm m0 m -> calm m0 (snd (pmp_check a size privilege r w x m)).
Proof.
  apply pmp_check_preserves.
  - intros a' m' [E W]. split.
    + rewrite <-E. unfold pmp_byte_lookup. destruct (_ && _); [done|].
      by destruct (pmp_search (pmp_dec m') (a' >> 2) pmp_entries).
    + intros H. destruct (pmp_byte_lookup_spec a' m' (W H)) as (m'' & -> & H' & _). exact H'.
  - intros a' m' Hm. by apply (calm_report m0 m').
Qed.

Lemma pmp_spec_sr m m' a size privilege r w x :
  sr m' = sr m -> pmp_spec m' a size privilege r w x = pmp_spec m a size privilege r w x.
Proof.
  intros E. assert (Ec : forall c, CSR m' c = CSR m c) by (intros c; unfold CSR; by rewrite E).
  assert (Ef : forall i, pmp_cfg m' i = pmp_cfg m i) by (intros i; unfold pmp_cfg; by rewrite Ec).
  assert (Er : forall i w, region_match m' i w = region_match m i w).
  { intros i w'. unfold region_match, pmp_addr. rewrite Ef. by rewrite !Ec. }
  unfold pmp_spec, pmp_cfg_locked. cbv zeta beta.
  assert (Eb : forall b, existsb (fun b0 => region_match m' b (b0 >> 2)) (bytes_of a size) =
                    existsb (fun b0 => region_match m b (b0 >> 2)) (bytes_of a size)).
  { intros b. generalize (bytes_of a size) as l. induction l as [|x0 l IH]; [done|]. cbn. by rewrite Er, IH. }
  assert (Ea : forall b, forallb (fun b0 => region_match m' b (b0 >> 2)) (bytes_of a size) =
                    forallb (fun b0 => region_match m b (b0 >> 2)) (bytes_of a size)).
  { intros b. generalize (bytes_of a size) as l. induction l as [|x0 l IH]; [done|]. cbn. by rewrite Er, IH. }
  assert (Efind : List.find (fun i => existsb (fun b => region_match m' i (b >> 2)) (bytes_of a size)) pmp_entries =
    List.find (fun i => existsb (fun b => region_match m i (b >> 2)) (bytes_of a size)) pmp_entries).
  { generalize pmp_entries as l. induction l as [|x0 l IH]; [done|]. cbn. by rewrite Eb, IH. }
  rewrite Efind. case_match; [by rewrite Ea, Ef | reflexivity].
Qed.

(** A check stays calm; on a well-formed PMP its verdict is the specification's. *)
Lemma pmp_checkM_calm m0 a size privilege r w x X :
  triple (calm m0) (pmp_checkM a size privilege r w x)
    (fun d m => calm m0 m /\ (pmp_wf m0 -> access_ok a size -> x = false ->
                             d = pmp_spec m0 a size privilege r w x)) X.
Proof.
  intros m Hm. unfold pmp_checkM.
  pose proof (pmp_check_stays_calm m0 a size privilege r w x m Hm) as Hm'.
  pose proof (pmp_check_spec a size privilege r w x m) as Hs.
  destruct (calm_fields _ _ Hm) as (_ & Esr & _).
  destruct (pmp_check a size privilege r w x m) as [d m'] eqn:Ec. cbn [snd] in Hm'.
  split; [done|]. intros W A Hx.
  destruct (Hs (calm_pmp _ _ Hm W) A (or_introl Hx)) as (m'' & [= -> ->] & _).
  by apply pmp_spec_sr.
Qed.

(** ** Page-table reads *)

Lemma span_access_ok a size :
  CONFIG_RV64 = true -> fits 64 a -> 0 < size < 2 ^ 63 -> paddr_is_memory_span a size = true ->
  access_ok a size.
Proof.
  intros E64 [H0 H1] Hs H. unfold access_ok, paddr_bits. rewrite E64. split; [done|]. split; [lia|].
  unfold paddr_is_memory_span, paddr_add in H. destruct (Z.eqb_spec size 0); [done|].
  destruct (Z.ltb_spec (wrap 64 (a + (size - 1))) a) as [|L]; [done|].
  destruct (Z.le_gt_cases (a + size) (2 ^ 64)); [done|]. exfalso.
  rewrite wrap_mod in L by lia. rewrite <-(Z.mod_add _ (-1)) in L by lia.
  rewrite Z.mod_small in L; lia.
Qed.

(** The architectural condition for an implicit read of a page-table entry. *)
Definition ptw_ok (m : machine) (a size : Z) : bool :=
  ptw_memory_readable a size && negb (pmp_spec m a size PRV_S true false false).

Lemma ptw_denied_calm m0 a size X :
  triple (calm m0) (ptw_denied a size)
    (fun d m => calm m0 m /\ (d = false -> ptw_memory_readable a size = true) /\
      (CONFIG_RV64 = true -> pmp_wf m0 -> fits 64 a -> 0 < size < 2 ^ 63 -> d = negb (ptw_ok m0 a size))) X.
Proof.
  unfold ptw_denied, ptw_ok. destruct (ptw_memory_readable a size) eqn:Er; cbn [negb andb].
  - eapply triple_post; [apply pmp_checkM_calm|]. intros d m [Hm Hd]. split; [done|]. split; [done|].
    intros E64 W F Hs. rewrite negb_involutive. apply Hd; [done| |done].
    apply span_access_ok; try done. unfold ptw_memory_readable in Er. by apply andb_true_iff in Er as [_ ->].
  - apply triple_ret. intros m Hm. by split.
Qed.

Lemma pte_read_calm m0 a size X :
  ptw_memory_readable a size = true -> host_len size = true ->
  triple (calm m0) (paddr_read a size)
    (fun v m => calm m0 m /\ v = load_bytes (mem m0) a (Z.to_nat size)) X.
Proof.
  intros Hr Hl m Hm. unfold ptw_memory_readable in Hr. apply andb_true_iff in Hr as [_ Hr].
  rewrite paddr_read_span by done. split.
  - apply (calm_report m0 m); [done|..]; unfold touch_host; by destruct (in_pmem a).
  - f_equal. by apply calm_fields.
Qed.

(** ** Totality *)

Section Total.
Context (Svade : CONFIG_RV_SVADE = true).

Definition quiet_exit (ok : Z -> Prop) (m0 : machine) (_ : Z) (m : machine) : Prop :=
  calm m0 m /\ ok (cause m).

Lemma fault_calm {A} m0 c code (ok : Z -> Prop) (Q : A -> machine -> Prop) :
  ok c -> triple (calm m0) (fault c code) Q (quiet_exit ok m0).
Proof. intros H. apply triple_fault. intros m Hm <-. by split. Qed.

Lemma napot_ppn_nonneg pte vpn0 : 0 <= napot_ppn pte vpn0.
Proof.
  assert (H : 0 <= pte_ppn pte) by (apply Z.land_nonneg; by right).
  unfold napot_ppn. destruct (nz _); [|done].
  apply Z.lor_nonneg. split; apply Z.land_nonneg; [by left|by right].
Qed.

(** The address keeps its page offset. *)
Definition offset_kept (va pa : Z) : Prop := pa .& 0xfff = va .& 0xfff /\ (0 <= va -> 0 <= pa).

Lemma offset_kept_refl va : offset_kept va va.
Proof. by split. Qed.

Lemma offset_kept_trans a b c : offset_kept a b -> offset_kept b c -> offset_kept a c.
Proof. intros [H1 H2] [H3 H4]. split; [by rewrite H3|auto]. Qed.

Lemma leaf_address_offset pte vpn0 level va :
  let pa := leaf_address (napot_ppn pte vpn0) (level_mask level) va in
  offset_kept va pa.
Proof.
  cbv zeta. unfold leaf_address. split; [change 0xfff with (Z.ones 12); bits|].
  intros _. pose proof (napot_ppn_nonneg pte vpn0).
  assert (0 <= level_mask level).
  { unfold level_mask. rewrite Z.shiftl_mul_pow2 by lia. pose proof (Z.pow_pos_nonneg 2 (9 * Z.of_nat level)). lia. }
  apply Z.lor_nonneg. split; [apply Z.shiftl_nonneg, Z.lor_nonneg; split|]; apply Z.land_nonneg; auto.
  right. done.
Qed.

Definition gstage_post (ga : Z) (m0 : machine) (r : gstage_result) (m : machine) : Prop :=
  calm m0 m /\
  match r with
  | RISCV_GSTAGE_OK pa _ => offset_kept ga pa
  | _ => True
  end.

Lemma gstage_leaf_total m0 ga pa pte level st ex cmo imp X :
  triple (calm m0) (gstage_leaf ga pa pte level st ex cmo imp) (gstage_post ga m0) X.
Proof.
  unfold gstage_leaf. apply triple_get_bind. intros m Hm.
  assert (Hr : forall r, gstage_post ga m0 r m ->
    triple (fun s => s = m) (mret r : Prelude.M machine gstage_result) (gstage_post ga m0) X)
    by (intros r H; apply triple_ret; by intros s ->).
  destruct (_ || _); [by apply Hr|]. cbv zeta. destruct (nz _); [by apply Hr|].
  destruct (negb (ad_missing st pte)); [apply Hr; split; [done|apply leaf_address_offset]|].
  rewrite Svade. by apply Hr.
Qed.

Lemma host_len_8 : CONFIG_RV64 = true -> host_len 8 = true.
Proof. unfold host_len. by intros ->. Qed.
Lemma host_len_4 : host_len 4 = true.
Proof. done. Qed.

Lemma gstage_walk_total m0 ga st ex cmo imp level table X :
  CONFIG_RV64 = true ->
  triple (calm m0) (gstage_walk ga st ex cmo imp level table) (gstage_post ga m0) X.
Proof.
  intros E64. revert table. induction level as [|level IH]; intros table; cbn [gstage_walk].
  all: eapply triple_bind; [apply ptw_denied_calm|]; intros d; cbn beta.
  all: destruct d; [apply triple_ret; intros m [Hm _]; by split|].
  all: eapply triple_bind; [|intros pte; cbn beta].
  all: try (intros m (Hm & Hr & _); apply (pte_read_calm m0 _ _ X (Hr eq_refl) (host_len_8 E64) m Hm)).
  all: apply triple_get_bind; intros m [Hm _].
  all: destruct (pte_malformed _ _ _ _); [apply triple_ret; intros s ->; by split|].
  all: destruct (_ && _); [destruct (pointer_malformed _ _); [apply triple_ret; intros s ->; by split|]|].
  - apply triple_ret. intros s ->. by split.
  - eapply triple_pre; [apply gstage_leaf_total|]. by intros s ->.
  - eapply triple_pre; [apply IH|]. by intros s ->.
  - eapply triple_pre; [apply gstage_leaf_total|]. by intros s ->.
Qed.

Lemma gstage_translate_total m0 ga st ex cmo imp X :
  CONFIG_RV64 = true ->
  triple (calm m0) (riscv_gstage_translate ga st ex cmo imp) (gstage_post ga m0) X.
Proof.
  intros E64. unfold riscv_gstage_translate. apply triple_get_bind. intros m Hm. cbv zeta.
  destruct (_ =? 0); [apply triple_ret; intros s ->; by split|].
  destruct (_ || _); [apply triple_ret; intros s ->; by split|].
  eapply triple_pre; [by apply gstage_walk_total|]. by intros s ->.
Qed.

Definition vstage_post (va : Z) (m0 : machine) (r : vstage_result) (m : machine) : Prop :=
  calm m0 m /\
  match r with
  | RISCV_VSTAGE_OK ga _ => offset_kept va ga
  | _ => True
  end.

Lemma vstage_pte_fault_total m0 va ga w status X :
  triple (calm m0) (vstage_pte_fault ga w status) (vstage_post va m0) X.
Proof.
  unfold vstage_pte_fault. eapply triple_bind; [apply (triple_modify _ _ (fun _ => calm m0))|].
  - intros m Hm. by apply (calm_report m0 m).
  - intros []. apply triple_ret. intros m Hm. split; [done|]. by destruct status.
Qed.

Lemma vstage_leaf_total m0 va ga pte level st ex vs cmo X :
  triple (calm m0) (vstage_leaf va ga pte level st ex vs cmo) (vstage_post va m0) X.
Proof.
  unfold vstage_leaf. apply triple_get_bind. intros m Hm.
  assert (Hr : forall r, vstage_post va m0 r m ->
    triple (fun s => s = m) (mret r : Prelude.M machine vstage_result) (vstage_post va m0) X)
    by (intros r H; apply triple_ret; by intros s ->).
  destruct (_ || _); [by apply Hr|]. cbv zeta. destruct (nz _); [by apply Hr|].
  destruct (negb (ad_missing st pte)); [apply Hr; split; [done|apply leaf_address_offset]|].
  rewrite Svade. by apply Hr.
Qed.

Lemma vstage_walk_total m0 va st ex vs cmo level table X :
  CONFIG_RV64 = true ->
  triple (calm m0) (vstage_walk va st ex vs cmo level table) (vstage_post va m0) X.
Proof.
  intros E64. revert table. induction level as [|level IH]; intros table; cbn [vstage_walk].
  all: eapply triple_bind; [by apply gstage_translate_total|]; intros [pa pb| |]; cbn beta.
  all: try (eapply triple_pre; [apply vstage_pte_fault_total|by intros s [? _]]).
  all: eapply triple_pre with (P := calm m0); [|by intros s [? _]].
  all: eapply triple_bind; [apply ptw_denied_calm|]; intros d; cbn beta.
  all: destruct d; [apply triple_ret; intros m [Hm _]; by split|].
  all: eapply triple_bind; [|intros pte; cbn beta].
  all: try (intros m (Hm & Hr & _); apply (pte_read_calm m0 _ _ X (Hr eq_refl) (host_len_8 E64) m Hm)).
  all: apply triple_get_bind; intros m [Hm _]; cbv zeta.
  all: destruct (pte_malformed _ _ _ _); [apply triple_ret; intros s ->; by split|].
  all: destruct (_ && _); [destruct (pointer_malformed _ _); [apply triple_ret; intros s ->; by split|]|].
  - apply triple_ret. intros s ->. by split.
  - eapply triple_pre; [apply vstage_leaf_total|]. by intros s ->.
  - eapply triple_pre; [apply IH|]. by intros s ->.
  - eapply triple_pre; [apply vstage_leaf_total|]. by intros s ->.
Qed.


Lemma vstage_translate_total m0 va st ex vs cmo X :
  CONFIG_RV64 = true ->
  triple (calm m0) (riscv_vstage_translate va st ex vs cmo) (vstage_post va m0) X.
Proof.
  intros E64. unfold riscv_vstage_translate. apply triple_get_bind. intros m Hm. cbv zeta.
  destruct (_ =? 0); [apply triple_ret; intros s ->; by split|].
  destruct (_ || _); [apply triple_ret; intros s ->; by split|].
  eapply triple_pre; [by apply vstage_walk_total|]. by intros s ->.
Qed.

(** ** Sv32 *)

Lemma sv32_walk_total m0 va ty level a (ok : Z -> Prop) :
  ok (af_cause ty) -> ok (pf_cause ty) ->
  triple (calm m0) (sv32_walk va ty level a) (fun _ m => calm m0 m) (quiet_exit ok m0).
Proof.
  intros Oa Op. revert a. induction level as [|level IH]; intros a; cbn [sv32_walk].
  all: eapply triple_bind; [apply ptw_denied_calm|]; intros d; cbn beta.
  all: destruct d; [eapply triple_pre; [by apply fault_calm|by intros m [? _]]|].
  all: eapply triple_bind; [|intros pte; cbn beta].
  all: try (intros m (Hm & Hr & _); apply (pte_read_calm m0 _ _ _ (Hr eq_refl) host_len_4 m Hm)).
  all: eapply triple_pre with (P := calm m0); [|by intros m [? _]].
  all: destruct (_ || _); [by apply fault_calm|].
  all: destruct (_ || _); [destruct (_ && _); [by apply fault_calm|by apply triple_ret]|].
  all: destruct (_ || _); [by apply fault_calm|].
  - by apply fault_calm.
  - apply IH.
Qed.

Lemma ad_check_total {A} m0 ty pte b (u : M machine unit) (k : M machine A) (Q : A -> machine -> Prop) ok :
  ok (pf_cause ty) -> triple (calm m0) k Q (quiet_exit ok m0) ->
  triple (calm m0)
    ((if CONFIG_RV_SVADE then if ad_needed ty pte then fault (pf_cause ty) 11 else mret tt
      else when b u);; k) Q (quiet_exit ok m0).
Proof.
  intros Op Hk. rewrite Svade. eapply triple_bind with (R := fun _ => calm m0); [|intros ?; apply Hk].
  destruct (ad_needed ty pte); [by apply fault_calm|by apply triple_ret].
Qed.

Lemma sv32_translate_total m0 va ty (ok : Z -> Prop) :
  ok (af_cause ty) -> ok (pf_cause ty) ->
  triple (calm m0) (sv32_translate va ty)
    (fun pa m => calm m0 m /\ offset_kept va pa) (quiet_exit ok m0).
Proof.
  intros Oa Op. unfold sv32_translate. apply triple_get_bind. intros m Hm.
  eapply triple_bind with (R := fun _ => calm m0).
  { eapply triple_pre; [by apply sv32_walk_total|by intros s ->]. }
  intros [pte_addr pte]. destruct (leaf_denied m ty pte); [by apply fault_calm|].
  apply ad_check_total; [done|]. apply triple_ret. intros s Hs. split; [done|].
  unfold getf. split; [change 0xfff with (Z.ones 12); bits|].
  intros _. apply Z.lor_nonneg. split; [apply Z.shiftl_nonneg|]; apply Z.land_nonneg; by right.
Qed.

End Total.

(** ** Sv39 and the page-table walk of the privileged specification *)

Definition pte_leaf (pte : Z) : bool := Z.testbit pte 1 || Z.testbit pte 3.

(** The encodings a page-table entry may have at a level. *)
Record sv39_valid (m : machine) (level : nat) (pte : Z) : Prop := {
  sv_valid : Z.testbit pte 0 = true;
  sv_writable_readable : Z.testbit pte 2 = true -> Z.testbit pte 1 = true;
  sv_reserved : forall i, 54 <= i <= 60 -> Z.testbit pte i = false;
  sv_napot : Z.testbit pte 63 = true ->
    nz (riscv_isa_extensions m .& NEMU_ISA_EXT_SVNAPOT) = true /\ level = 0%nat /\
    pte_leaf pte = true /\ getf 10 4 pte = 8;
  sv_pbmt : Z.testbit pte 61 || Z.testbit pte 62 = true ->
    Z.testbit pte 61 && Z.testbit pte 62 = false /\
    Z.testbit (CSR m CSR_MENVCFG) 62 = true /\ pte_leaf pte = true;
}.

(** The walk from a table at a level: the level, the address and the value of
    the leaf it ends in. *)
Inductive sv39_leaf (m : machine) (va : Z) : nat -> Z -> nat * Z * Z -> Prop :=
  | sv39_here level table pte_addr pte :
      pte_addr = word (table + sv39_vpn va level * 8) -> ptw_ok m pte_addr 8 = true ->
      pte = load_bytes (mem m) pte_addr 8 -> sv39_valid m level pte -> pte_leaf pte = true ->
      sv39_leaf m va level table (level, pte_addr, pte)
  | sv39_next level table pte_addr pte r :
      pte_addr = word (table + sv39_vpn va (S level) * 8) -> ptw_ok m pte_addr 8 = true ->
      pte = load_bytes (mem m) pte_addr 8 -> sv39_valid m (S level) pte -> pte_leaf pte = false ->
      Z.testbit pte 4 || Z.testbit pte 6 || Z.testbit pte 7 = false ->
      sv39_leaf m va level (pte_ppn pte << 12) r ->
      sv39_leaf m va (S level) table r.

(** The permissions a leaf gives an access, A and D bits included. *)
Definition sv39_permits (m : machine) (ty : mem_type) (pte : Z) : bool :=
  let status := CSR m CSR_MSTATUS in
  let user := Z.testbit pte 4 in
  let readable := Z.testbit pte 1 || (Z.testbit status 19 && Z.testbit pte 3) in
  (if eff_priv m ty =? PRV_S
   then negb user || (negb (is_type ty MEM_TYPE_IFETCH) && Z.testbit status 18)
   else if eff_priv m ty =? PRV_U then user else true)
  && match ty with
     | MEM_TYPE_IFETCH => Z.testbit pte 3
     | MEM_TYPE_READ => readable
     | MEM_TYPE_WRITE => Z.testbit pte 2 && Z.testbit pte 7
     | MEM_TYPE_CMO => readable || Z.testbit pte 2
     end
  && Z.testbit pte 6.

(** The number of low PPN bits a leaf takes from the address. *)
Definition sv39_span (level : nat) (pte : Z) : Z :=
  if Z.testbit pte 63 then 4 else 9 * Z.of_nat level.

(** [va] is mapped to [pa] for an access of type [ty]. *)
Definition sv39_maps (m : machine) (va : Z) (ty : mem_type) (pa pbmt : Z) : Prop :=
  (forall i, 39 <= i < 64 -> Z.testbit va i = Z.testbit va 38) /\
  exists level pte_addr pte,
    sv39_leaf m va 2 (satp_ppn (CSR m CSR_SATP) << 12) (level, pte_addr, pte) /\
    sv39_permits m ty pte = true /\
    (Z.testbit pte 63 = false -> forall i, 0 <= i < 9 * Z.of_nat level -> Z.testbit pte (10 + i) = false) /\
    pbmt = getf 61 2 pte /\ fits 56 pa /\
    forall i, 0 <= i < 56 ->
      Z.testbit pa i = if i <? 12 + sv39_span level pte then Z.testbit va i else Z.testbit pte (i - 2).

(** ** The encodings, as the walk tests them *)

Lemma nz_getf1 i x : 0 <= i -> nz (getf i 1 x) = Z.testbit x i.
Proof. intros. unfold getf. change (Z.ones 1) with 1. by apply nz_shift_testbit. Qed.

Lemma getf1_b2z i x : 0 <= i -> getf i 1 x = b2z (Z.testbit x i).
Proof. intros. unfold getf. change (Z.ones 1) with 1. by apply land_bit. Qed.

Lemma nz_mask x lo w :
  0 <= lo -> 0 <= w ->
  nz (x .& (Z.ones w << lo)) = false <-> (forall i, lo <= i < lo + w -> Z.testbit x i = false).
Proof.
  intros Hlo Hw. rewrite nz_false. split.
  - intros E i Hi. apply (f_equal (fun z => Z.testbit z i)) in E.
    rewrite Z.land_spec, Z.shiftl_spec, testbit_ones, Z.bits_0 in E by lia.
    replace (i - lo <? w) with true in E by lia. by rewrite andb_true_r in E.
  - intros H. apply Z.bits_inj'. intros i Hi. rewrite Z.land_spec, Z.shiftl_spec, Z.bits_0 by done.
    destruct (Z.lt_ge_cases i lo); [by rewrite (Z.testbit_neg_r _ (i - lo)), andb_false_r by lia|].
    rewrite testbit_ones by lia. destruct (Z.ltb_spec (i - lo) w); [|by rewrite andb_false_r].
    by rewrite H by lia.
Qed.

Lemma nz_top64 x : fits 64 x -> nz (x >> 63) = Z.testbit x 63.
Proof.
  intros F. replace (x >> 63) with ((x >> 63) .& 1); [by apply nz_shift_testbit|].
  apply Z.bits_inj'. intros i Hi. rewrite Z.land_spec, Z.shiftr_spec, testbit_1 by done.
  destruct (Z.eqb_spec i 0); [by rewrite andb_true_r|]. by rewrite (testbit_high 64) by (done || lia).
Qed.

Lemma pbmt_eqb x : ((x >> 61) .& 3 =? 3) = Z.testbit x 61 && Z.testbit x 62.
Proof. rewrite field2 by lia. change (61 + 1) with 62. by destruct (Z.testbit x 61), (Z.testbit x 62). Qed.
Lemma pbmt_nz x : nz ((x >> 61) .& 3) = Z.testbit x 61 || Z.testbit x 62.
Proof. rewrite field2 by lia. change (61 + 1) with 62. by destruct (Z.testbit x 61), (Z.testbit x 62). Qed.

Lemma sv39_valid_iff m level pte :
  fits 64 pte ->
  negb (nz (pte_v pte)) || (nz (pte_w pte) && negb (nz (pte_r pte))) || sv39_reserved m level pte = false
  <-> sv39_valid m level pte.
Proof.
  intros F. unfold sv39_reserved, pte_v, pte_w, pte_r, pte_x. cbv zeta.
  rewrite !nz_getf1, nz_top64, pbmt_eqb, pbmt_nz, nz_shift_testbit by (done || lia).
  assert (Em := nz_mask pte 54 7 ltac:(lia) ltac:(lia)). change (Z.ones 7) with 0x7f in Em.
  rewrite !orb_false_iff, !andb_false_iff, !negb_false_iff, !orb_false_iff, !negb_false_iff.
  rewrite Em. change (54 + 7) with 61. change ((pte >> 10) .& 15) with (getf 10 4 pte).
  fold (pte_leaf pte). split.
  - intros ((Hv & Hw) & ((Hr & Hn) & Hb3) & Hb). split.
    + done.
    + intros E. destruct Hw as [Hw|Hw]; congruence.
    + intros i Hi. apply Hr. lia.
    + intros E. destruct Hn as [Hn|(((? & Hl) & ?) & ?)]; [congruence|].
      split_and!; [done|by apply Nat.eqb_eq|done|by apply Z.eqb_eq].
    + intros E. destruct Hb as [[Ha Hb]|[? ?]]; [rewrite Ha, Hb in E; done|].
      split_and!; [|done|done]. by apply andb_false_iff.
  - intros [Hv Hw Hr Hn Hb]. split_and!.
    + done.
    + destruct (Z.testbit pte 2) eqn:E; [right; by apply Hw|by left].
    + intros i Hi. apply Hr. lia.
    + destruct (Z.testbit pte 63) eqn:E; [right|by left]. destruct (Hn eq_refl) as (? & -> & ? & ->). done.
    + destruct (Z.testbit pte 61 || Z.testbit pte 62) eqn:E.
      * destruct (Hb eq_refl) as (Hx & _). by apply andb_false_iff.
      * apply orb_false_iff in E as [E1 _]. by left.
    + destruct (Z.testbit pte 61 || Z.testbit pte 62) eqn:E; [|left; by apply orb_false_iff].
      right. by destruct (Hb eq_refl) as (_ & ? & ?).
Qed.

Lemma pointer_bits pte : nz (pte .& 0xd0) = Z.testbit pte 4 || Z.testbit pte 6 || Z.testbit pte 7.
Proof.
  apply eq_true_iff_eq. rewrite nz_true, !orb_true_iff.
  assert (B : forall i, 0 <= i -> Z.testbit 0xd0 i = (i =? 4) || (i =? 6) || (i =? 7)).
  { intros i Hi. change 0xd0 with ((1 << 4) .| (1 << 6) .| (1 << 7)).
    by rewrite !Z.lor_spec, !testbit_shl1 by done. }
  split.
  - intros H. destruct (Z.testbit pte 4) eqn:E4, (Z.testbit pte 6) eqn:E6, (Z.testbit pte 7) eqn:E7; auto.
    exfalso. apply H. apply Z.bits_inj'. intros i Hi. rewrite Z.land_spec, B, Z.bits_0 by done.
    destruct (Z.eqb_spec i 4) as [->|]; [by rewrite E4|].
    destruct (Z.eqb_spec i 6) as [->|]; [by rewrite E6|].
    destruct (Z.eqb_spec i 7) as [->|]; [by rewrite E7|]. by rewrite andb_false_r.
  - intros H E. assert (N : forall i, 0 <= i -> Z.testbit (pte .& 0xd0) i = false)
      by (intros i Hi; by rewrite E, Z.bits_0).
    destruct H as [[H|H]|H]; [specialize (N 4)|specialize (N 6)|specialize (N 7)];
      rewrite Z.land_spec, B, H in N by lia; by specialize (N ltac:(lia)).
Qed.

Lemma sv39_permits_iff m ty pte :
  (leaf_denied m ty pte = None /\ ad_needed ty pte = false) <-> sv39_permits m ty pte = true.
Proof.
  unfold leaf_denied, ad_needed, sv39_permits, pte_u, pte_r, pte_w, pte_x, pte_a, pte_d, get_mxr, get_sum.
  cbv zeta. rewrite !nz_getf1, !getf1_b2z by lia.
  assert (B : forall b, (b2z b =? 0) = negb b) by (by intros []). rewrite !B.
  generalize (eff_priv m ty) as p. intros p.
  assert (Hp : (p =? PRV_S) = true /\ (p =? PRV_U) = false \/ (p =? PRV_S) = false)
    by (unfold PRV_S, PRV_U; lia).
  generalize (Z.testbit (CSR m CSR_MSTATUS) 18), (Z.testbit (CSR m CSR_MSTATUS) 19),
    (Z.testbit pte 1), (Z.testbit pte 2), (Z.testbit pte 3), (Z.testbit pte 4), (Z.testbit pte 6),
    (Z.testbit pte 7). intros sum mxr r w x u a d.
  destruct Hp as [[-> ->]| ->].
  - destruct ty, sum, mxr, r, w, x, u, a, d; vm_compute; intuition congruence.
  - destruct (p =? PRV_U), ty, sum, mxr, r, w, x, u, a, d; vm_compute; intuition congruence.
Qed.

(** ** The walk *)

Lemma sv39_valid_calm m0 m level pte :
  calm m0 m -> sv39_reserved m level pte = sv39_reserved m0 level pte.
Proof.
  intros H. unfold sv39_reserved. rewrite (calm_csr _ _ _ H).
  by destruct (calm_fields _ _ H) as (_ & _ & _ & _ & _ & _ & _ & _ & -> & _).
Qed.

Definition sv39_ready (m : machine) : Prop := pmp_wf m /\ mem_wf m.

(** One level of the specification, as the walk tests it. *)
Definition sv39_level (m : machine) (va : Z) (level : nat) (table : Z)
    (next : Z -> nat * Z * Z -> Prop) (r : nat * Z * Z) : Prop :=
  let pte_addr := word (table + sv39_vpn va level * 8) in
  let pte := load_bytes (mem m) pte_addr 8 in
  ptw_ok m pte_addr 8 = true /\ sv39_valid m level pte /\
  if pte_leaf pte then r = (level, pte_addr, pte)
  else Z.testbit pte 4 || Z.testbit pte 6 || Z.testbit pte 7 = false /\ next pte r.

Lemma sv39_leaf_level m va level table r :
  sv39_leaf m va level table r <->
  sv39_level m va level table
    (fun pte r => match level with
                  | O => False
                  | S level => sv39_leaf m va level (pte_ppn pte << 12) r
                  end) r.
Proof.
  unfold sv39_level. cbv zeta. split.
  - intros H. inversion H as [l t pa pte -> H2 -> H4 H5|l t pa pte r' -> H2 -> H4 H5 H6 H7]; subst; rewrite H5.
    + by split_and!.
    + by split_and!.
  - intros (H1 & H2 & H3). destruct (pte_leaf _) eqn:El.
    + subst r. by apply sv39_here.
    + destruct H3 as [H3 H4]. destruct level as [|level]; [done|]. by eapply sv39_next.
Qed.

Definition leaf_exit (ok : Z -> Prop) (m0 : machine) (leaf : nat * Z * Z -> Prop) (c : Z) (m : machine) : Prop :=
  quiet_exit ok m0 c m /\ (sv39_ready m0 -> forall r, ~ leaf r).

Lemma fault_leaf {A} m0 c code (ok : Z -> Prop) leaf (Q : A -> machine -> Prop) :
  ok c -> (sv39_ready m0 -> forall r, ~ leaf r) ->
  triple (calm m0) (fault c code) Q (leaf_exit ok m0 leaf).
Proof. intros H Hn. apply triple_fault. intros m Hm <-. by split. Qed.

(** One level of the walk. *)
Lemma sv39_level_spec m0 va ty level a (ok : Z -> Prop) (k : Z -> M machine (nat * Z * Z)) next :
  CONFIG_RV64 = true -> ok (af_cause ty) -> ok (pf_cause ty) ->
  (forall pte, triple (calm m0) (k pte) (fun r m => calm m0 m /\ (sv39_ready m0 -> next pte r))
                 (leaf_exit ok m0 (next pte))) ->
  let pte_addr := word (a + sv39_vpn va level * 8) in
  triple (calm m0)
    (denied ← ptw_denied pte_addr 8;
     if denied : bool then fault (af_cause ty) 25
     else
       pte ← paddr_read pte_addr 8;
       m ← get;
       if negb (nz (pte_v pte)) || (nz (pte_w pte) && negb (nz (pte_r pte)))
          || sv39_reserved m level pte
       then fault (pf_cause ty) 2
       else if nz (pte_r pte) || nz (pte_x pte) then mret (level, pte_addr, pte)
       else if nz (pte .& 0xd0) then fault (pf_cause ty) 2 else k pte)
    (fun r m => calm m0 m /\ (sv39_ready m0 -> sv39_level m0 va level a next r))
    (leaf_exit ok m0 (sv39_level m0 va level a next)).
Proof.
  intros E64 Oa Op Hk. cbv zeta. unfold sv39_level. cbv zeta.
  set (pa := word (a + sv39_vpn va level * 8)).
  assert (Fp : fits 64 pa).
  { unfold pa. pose proof (word_fits (a + sv39_vpn va level * 8)) as F. unfold XLEN in F.
    by rewrite E64 in F. }
  eapply triple_bind; [apply ptw_denied_calm|]. intros d. cbn beta.
  assert (Hd : forall m, calm m0 m /\ (d = false -> ptw_memory_readable pa 8 = true) /\
     (CONFIG_RV64 = true -> pmp_wf m0 -> fits 64 pa -> 0 < 8 < 2 ^ 63 -> d = negb (ptw_ok m0 pa 8)) ->
     calm m0 m /\ ((d = false -> ptw_memory_readable pa 8 = true) /\
       (sv39_ready m0 -> ptw_ok m0 pa 8 = negb d))).
  { intros m (Hm & H1 & H2). split; [done|]. split; [done|]. intros [W _].
    rewrite (H2 E64 W Fp) by lia. by rewrite negb_involutive. }
  eapply triple_pre; [|exact Hd]. clear Hd. apply triple_pure. intros [Hr Hd].
  destruct d; [apply fault_leaf; [done|]; intros R r (H & _); by rewrite Hd in H|].
  eapply triple_bind; [by apply pte_read_calm; [apply Hr|apply host_len_8]|].
  intros pte. cbn beta. change (Z.to_nat 8) with 8%nat. apply triple_pure. intros Ep.
  apply triple_get_bind. intros m Hm. rewrite (sv39_valid_calm m0 m) by done.
  eapply triple_pre with (P := calm m0); [|by intros s ->].
  assert (Hv : sv39_ready m0 -> negb (nz (pte_v pte)) || (nz (pte_w pte) && negb (nz (pte_r pte)))
            || sv39_reserved m0 level pte = false <-> sv39_valid m0 level (load_bytes (mem m0) pa 8)).
  { intros [_ W]. rewrite <-Ep. apply sv39_valid_iff. rewrite Ep. by apply (load_bytes_fits _ _ 8). }
  rewrite pointer_bits.
  assert (El : nz (pte_r pte) || nz (pte_x pte) = pte_leaf (load_bytes (mem m0) pa 8))
    by (unfold pte_r, pte_x; rewrite !nz_getf1 by lia; by rewrite Ep).
  rewrite El. destruct (_ || sv39_reserved m0 level pte).
  { apply fault_leaf; [done|]. intros R r (_ & H & _). by apply Hv in H. }
  destruct (pte_leaf _).
  { apply triple_ret. intros s Hs. split; [done|]. intros R. split; [by apply Hd|].
    split; [by apply Hv|]. by rewrite Ep. }
  rewrite <-Ep. destruct (_ || Z.testbit pte 7).
  { apply fault_leaf; [done|]. intros R r (_ & _ & H & _). done. }
  eapply triple_conseq; [apply Hk|done|..].
  - intros r s [Hs Hn]. split; [done|]. intros R. split; [by apply Hd|].
    split; [rewrite Ep; by apply Hv|]. split; [done|]. by apply Hn.
  - intros c s [Hs Hn]. split; [done|]. intros R r (_ & _ & _ & H). by apply (Hn R r).
Qed.

(** The walk ends in the leaf the specification gives, or faults when there is
    none; the outcome is exact on a well-formed PMP and memory. *)
Lemma sv39_walk_spec m0 va ty level a (ok : Z -> Prop) :
  CONFIG_RV64 = true -> ok (af_cause ty) -> ok (pf_cause ty) ->
  triple (calm m0) (sv39_walk va ty level a)
    (fun r m => calm m0 m /\ (sv39_ready m0 -> sv39_leaf m0 va level a r))
    (leaf_exit ok m0 (sv39_leaf m0 va level a)).
Proof.
  intros E64 Oa Op. revert a. induction level as [|level IH]; intros a; cbn [sv39_walk].
  all: eapply triple_conseq; [apply sv39_level_spec; [done|done|done|]|done|..].
  - intros pte. apply (fault_leaf _ _ _ _ (fun _ => False)); [done|]. by intros _ r [].
  - intros r s [Hs H]. split; [done|]. intros R. apply sv39_leaf_level. by apply H.
  - intros c s [Hs H]. split; [done|]. intros R r Hl. apply sv39_leaf_level in Hl. by apply (H R r).
  - intros pte. apply (IH (pte_ppn pte << 12)).
  - intros r s [Hs H]. split; [done|]. intros R. apply sv39_leaf_level. by apply H.
  - intros c s [Hs H]. split; [done|]. intros R r Hl. apply sv39_leaf_level in Hl. by apply (H R r).
Qed.

Lemma sv39_leaf_det m va level table r r' :
  sv39_leaf m va level table r -> sv39_leaf m va level table r' -> r' = r.
Proof.
  intros H. revert r'. induction H as [level table pa pte -> H1 -> H2 H3|level table pa pte r -> H1 -> H2 H3 H4 H5 IH];
    intros r' H'; apply sv39_leaf_level in H' as (_ & _ & H'); rewrite H3 in H'.
  - done.
  - apply IH. by destruct H'.
Qed.

Lemma sv39_leaf_valid m va level table l pa pte :
  sv39_leaf m va level table (l, pa, pte) ->
  sv39_valid m l pte /\ pte = load_bytes (mem m) pa 8 /\ (l <= level)%nat.
Proof.
  intros H. remember (l, pa, pte) as r eqn:E. revert l pa pte E.
  induction H as [level table pa pte -> H1 -> H2 H3|level table pa pte r -> H1 -> H2 H3 H4 H5 IH];
    intros l pa' pte' E.
  - apply pair_eq in E as [E <-]. apply pair_eq in E as [<- <-]. by split_and!.
  - destruct (IH _ _ _ E) as (? & ? & ?). split_and!; [done..|lia].
Qed.

(** ** Addresses *)

Lemma level_mask_ones level : level_mask level = Z.ones (9 * Z.of_nat level).
Proof. unfold level_mask. rewrite Z.ones_equiv, Z.shiftl_mul_pow2 by lia. lia. Qed.

Lemma sv39_canonical_iff va :
  fits 64 va ->
  sv39_canonical va = true <-> (forall i, 39 <= i < 64 -> Z.testbit va i = Z.testbit va 38).
Proof.
  intros F. unfold sv39_canonical. rewrite orb_true_iff, !Z.eqb_eq. split.
  - intros H i Hi.
    assert (E : forall j, 38 <= j -> Z.testbit va j = Z.testbit (va >> 38) (j - 38))
      by (intros j Hj; rewrite Z.shiftr_spec by lia; f_equal; lia).
    rewrite (E i), (E 38) by lia. destruct H as [-> | ->]; [by rewrite !Z.bits_0|].
    by rewrite !testbit_ones by lia; lia.
  - intros H. destruct (Z.testbit va 38) eqn:E; [right|left]; apply Z.bits_inj'; intros j Hj;
      rewrite Z.shiftr_spec by lia.
    + rewrite testbit_ones by lia. destruct (Z.ltb_spec j 26).
      * destruct (Z.eq_dec j 0) as [->|]; [done|]. apply H. lia.
      * apply (testbit_high 64); [done|lia].
    + rewrite Z.bits_0. destruct (Z.eq_dec j 0) as [->|]; [done|].
      destruct (Z.lt_ge_cases j 26); [apply H; lia|apply (testbit_high 64); [done|lia]].
Qed.

Lemma testbit_pte_ppn pte i : 0 <= i -> Z.testbit (pte_ppn pte) i = (i <? 44) && Z.testbit pte (i + 10).
Proof.
  intros. unfold pte_ppn. change ((1 << 44) - 1) with (Z.ones 44).
  rewrite Z.land_spec, Z.shiftr_spec, testbit_ones by lia. by rewrite andb_comm.
Qed.

Lemma pte_ppn_fits pte : fits 44 (pte_ppn pte).
Proof. unfold pte_ppn. change ((1 << 44) - 1) with (Z.ones 44). by apply (wrap_fits 44). Qed.

Lemma napot_ppn_bits pte va i :
  fits 64 pte -> 0 <= i ->
  Z.testbit (napot_ppn pte (sv39_vpn va 0)) i =
    if Z.testbit pte 63 && (i <? 4) then Z.testbit va (i + 12) else (i <? 44) && Z.testbit pte (i + 10).
Proof.
  intros F Hi. unfold napot_ppn. rewrite nz_top64 by done. destruct (Z.testbit pte 63); cbn [andb].
  - change 15 with (Z.ones 4). unfold sv39_vpn. change 0x1ff with (Z.ones 9).
    rewrite Z.lor_spec, !Z.land_spec, Z.lnot_spec, testbit_pte_ppn, Z.shiftr_spec, !testbit_ones by lia.
    destruct (Z.ltb_spec i 4); cbn [negb].
    + replace (i <? 9) with true by lia. by rewrite andb_false_r, !andb_true_r.
    + by rewrite !andb_false_r, orb_false_r, andb_true_r.
  - by rewrite testbit_pte_ppn.
Qed.

(** The address a leaf of [level] gives, bit by bit. *)
Lemma sv39_address_bits va ppn level i :
  (level <= 2)%nat -> 0 <= i ->
  Z.testbit (sv39_address va ppn level) i =
    if i <? 12 + 9 * Z.of_nat level then Z.testbit va i else Z.testbit ppn (i - 12).
Proof.
  intros Hl Hi. unfold sv39_address, sv39_vpn. cbv zeta.
  change 0xfff with (Z.ones 12). change 0x1ff with (Z.ones 9). change 0x3ffff with (Z.ones 18).
  destruct level as [|[|[|]]]; [| | |lia].
  - change (12 + 9 * Z.of_nat 0) with 12. repeat bits_step; bits_finish.
  - change (12 + 9 * Z.of_nat 1) with 21. repeat bits_step; bits_finish.
  - change (12 + 9 * Z.of_nat 2) with 30. repeat bits_step; bits_finish.
Qed.

Lemma sv39_aligned m level pte va :
  fits 64 pte -> sv39_valid m level pte -> (level <= 2)%nat ->
  negb (Nat.eqb level 0) && nz (napot_ppn pte (sv39_vpn va 0) .& level_mask level) = false <->
  (Z.testbit pte 63 = false -> forall i, 0 <= i < 9 * Z.of_nat level -> Z.testbit pte (10 + i) = false).
Proof.
  intros F V L2. rewrite level_mask_ones.
  assert (E : Z.ones (9 * Z.of_nat level) = Z.ones (9 * Z.of_nat level) << 0) by (by rewrite Z.shiftl_0_r).
  rewrite E. destruct (Nat.eqb_spec level 0) as [->|Hl]; cbn [negb andb].
  { split; [|done]. intros _ _ i Hi. lia. }
  rewrite nz_mask by lia. destruct (Z.testbit pte 63) eqn:E63.
  { destruct (sv_napot _ _ _ V E63) as (_ & ? & _). done. }
  assert (Hb : forall i, 0 <= i -> Z.testbit (napot_ppn pte (sv39_vpn va 0)) i
                 = (i <? 44) && Z.testbit pte (i + 10))
    by (intros i Hi; by rewrite napot_ppn_bits, E63 by done).
  split.
  - intros H _ i Hi. specialize (H i ltac:(lia)). rewrite Hb in H by lia. rewrite Z.add_comm.
    by replace (i <? 44) with true in H by lia.
  - intros H i Hi. rewrite Hb by lia. rewrite Z.add_comm, H by (done || lia). by rewrite andb_false_r.
Qed.

(** The physical address of a leaf is the one the specification describes. *)
Lemma sv39_physical m level pte va :
  fits 64 pte -> sv39_valid m level pte -> (level <= 2)%nat ->
  let pa := sv39_address va (napot_ppn pte (sv39_vpn va 0)) level in
  fits 56 pa /\
  forall i, 0 <= i < 56 ->
    Z.testbit pa i = if i <? 12 + sv39_span level pte then Z.testbit va i else Z.testbit pte (i - 2).
Proof.
  intros F V L2 pa.
  assert (Hb : forall i, 0 <= i ->
    Z.testbit pa i = if i <? 12 + sv39_span level pte then Z.testbit va i
                     else (i <? 56) && Z.testbit pte (i - 2)).
  { intros i Hi. unfold pa. rewrite sv39_address_bits by done. unfold sv39_span.
    destruct (Z.testbit pte 63) eqn:E63.
    - destruct (sv_napot _ _ _ V E63) as (_ & -> & _). change (12 + 9 * Z.of_nat 0) with 12.
      change (12 + 4) with 16. destruct (Z.ltb_spec i 12).
      + replace (i <? 16) with true by lia. done.
      + rewrite napot_ppn_bits, E63 by (done || lia). cbn [andb].
        destruct (Z.ltb_spec (i - 12) 4), (Z.ltb_spec i 16); try lia; [f_equal; lia|].
        replace (i - 12 <? 44) with (i <? 56) by lia. do 2 f_equal. lia.
    - destruct (Z.ltb_spec i (12 + 9 * Z.of_nat level)); [done|].
      rewrite napot_ppn_bits, E63 by (done || lia). cbn [andb].
      replace (i - 12 <? 44) with (i <? 56) by lia. do 2 f_equal. lia. }
  assert (Hh : forall i, 56 <= i -> Z.testbit pa i = false).
  { intros i Hi. rewrite Hb by lia. replace (i <? 56) with false by lia.
    unfold sv39_span. destruct (Z.testbit pte 63); by replace (i <? _) with false by lia. }
  split.
  - apply fits_testbit; [done| |done]. apply Z.bits_iff_nonneg_ex. exists 55.
    intros i Hi. apply Hh. lia.
  - intros i Hi. rewrite Hb by lia. by replace (i <? 56) with true by lia.
Qed.

Lemma pmp_effective_priv_calm m0 m : calm m0 m -> pmp_effective_priv_ls m = pmp_effective_priv_ls m0.
Proof.
  intros H. unfold pmp_effective_priv_ls. rewrite (calm_csr _ _ _ H).
  by destruct (calm_fields _ _ H) as (_ & _ & _ & -> & _).
Qed.

Lemma leaf_denied_calm m0 m ty pte : calm m0 m -> leaf_denied m ty pte = leaf_denied m0 ty pte.
Proof.
  intros H. unfold leaf_denied, eff_priv. rewrite (calm_csr _ _ _ H), (pmp_effective_priv_calm _ _ H).
  by destruct (calm_fields _ _ H) as (_ & _ & _ & -> & _).
Qed.

(** C27: Sv39 translation is the page-table walk of the privileged specification
    (Svade): it returns a physical address and memory type exactly when the
    tables map the address for the access, with the permissions of the leaf and
    of the effective privilege; otherwise it faults with the page-fault or
    access-fault exception of the access. Either way the state changes in
    caches and fault reports only. *)
Theorem sv39_translate_refines va ty m :
  CONFIG_RV64 = true -> CONFIG_RV_SVADE = true -> sv39_ready m -> fits 64 va ->
  let '(o, m') := sv39_translate va ty m in
  calm m m' /\
  match o with
  | Ret (pa, pbmt) => sv39_maps m va ty pa pbmt
  | LongJmp _ =>
      (cause m' = pf_cause ty \/ cause m' = af_cause ty) /\ forall pa pbmt, ~ sv39_maps m va ty pa pbmt
  | Panic => False
  end.
Proof.
  intros E64 Svade R Fv.
  set (ok := fun c => c = pf_cause ty \/ c = af_cause ty).
  set (unmapped := forall pa pbmt, ~ sv39_maps m va ty pa pbmt).
  cut (triple (calm m) (sv39_translate va ty) (fun r s => calm m s /\ sv39_maps m va ty r.1 r.2)
         (fun c s => quiet_exit ok m c s /\ unmapped)).
  { intros H. specialize (H m (calm_refl m)).
    destruct (sv39_translate va ty m) as [[[pa pbmt]|c|] m']; [|destruct H as [[? ?] ?]|]; done. }
  assert (Hf : forall {A} code (Q : A -> machine -> Prop), unmapped ->
    triple (calm m) (fault (pf_cause ty) code) Q (fun c s => quiet_exit ok m c s /\ unmapped)).
  { intros A code Q Hu. apply triple_fault. intros s Hs Hc. split; [|done]. split; [done|]. by left. }
  unfold sv39_translate. pose proof (sv39_canonical_iff va Fv) as Hcan.
  destruct (sv39_canonical va); cbn [negb].
  2:{ apply Hf. intros pa pbmt [H _]. by apply Hcan in H. }
  apply triple_get_bind. intros s0 Hs0.
  eapply triple_bind.
  { eapply triple_conseq; [apply (sv39_walk_spec m va ty 2 _ ok E64); [by right|by left]|
      by intros s ->|intros r s H; exact H|].
    intros c s [Hs Hn]. split; [done|]. intros pa pbmt (_ & level & pte_addr & pte & Hl & _).
    rewrite (calm_csr m s0) in Hn by done. by apply (Hn R (level, pte_addr, pte)). }
  intros [[level pte_addr] pte]. cbn beta. rewrite (calm_csr m s0) by done.
  apply triple_pure. intros Hl. specialize (Hl R).
  destruct (sv39_leaf_valid _ _ _ _ _ _ _ Hl) as (V & Ep & L2).
  assert (Fp : fits 64 pte) by (rewrite Ep; apply (load_bytes_fits _ _ 8), R).
  pose proof (sv39_aligned m level pte va Fp V L2) as Ha.
  pose proof (sv39_permits_iff m ty pte) as Hp.
  assert (Hu : forall pa pbmt, sv39_maps m va ty pa pbmt -> sv39_permits m ty pte = true /\
    (Z.testbit pte 63 = false -> forall i, 0 <= i < 9 * Z.of_nat level -> Z.testbit pte (10 + i) = false)).
  { intros pa pbmt (_ & l' & a' & p' & Hl' & Hp' & Ha' & _).
    pose proof (sv39_leaf_det _ _ _ _ _ _ Hl Hl') as E. apply pair_eq in E as [E ->].
    by apply pair_eq in E as [-> _]. }
  cbv zeta. destruct (negb (Nat.eqb level 0) && _).
  { apply Hf. intros pa pbmt H. apply Hu in H as [_ H]. by apply Ha in H. }
  assert (Ed : leaf_denied s0 ty pte = leaf_denied m ty pte).
  { by apply leaf_denied_calm. }
  rewrite Ed. destruct (leaf_denied m ty pte).
  { apply Hf. intros pa pbmt H. apply Hu in H as [H _]. apply Hp in H as [H _]. done. }
  rewrite Svade. destruct (ad_needed ty pte).
  { eapply triple_bind with (R := fun _ _ => False); [|intros ? s []].
    apply Hf. intros pa pbmt H. apply Hu in H as [H _]. apply Hp in H as [_ H]. done. }
  eapply triple_bind with (R := fun _ => calm m); [by apply triple_ret|]. intros ?.
  apply triple_ret. intros s Hs. split; [done|]. cbn [fst snd].
  split; [by apply Hcan|]. exists level, pte_addr, pte.
  destruct (sv39_physical m level pte va Fp V L2) as [F56 Hb].
  split_and!; [done|by apply Hp|by apply Ha|done|done|done].
Qed.

(** ** Every translation *)

Lemma sv39_translate_total m0 va ty (ok : Z -> Prop) :
  CONFIG_RV64 = true -> CONFIG_RV_SVADE = true -> ok (af_cause ty) -> ok (pf_cause ty) ->
  triple (calm m0) (sv39_translate va ty)
    (fun r m => calm m0 m /\ offset_kept va r.1) (quiet_exit ok m0).
Proof.
  intros E64 Svade Oa Op. unfold sv39_translate.
  destruct (negb _); [by apply fault_calm|]. apply triple_get_bind. intros m Hm.
  eapply triple_bind with (R := fun _ => calm m0).
  { eapply triple_conseq; [by apply (sv39_walk_spec m0 va ty 2 _ ok E64)|by intros s ->
      |by intros r s [? _]|by intros c s [? _]]. }
  intros [[level pte_addr] pte]. cbv zeta. destruct (_ && _); [by apply fault_calm|].
  destruct (leaf_denied m ty pte); [by apply fault_calm|].
  apply ad_check_total; [done..|]. apply triple_ret. intros s Hs. split; [done|]. cbn [fst].
  pose proof (napot_ppn_nonneg pte (sv39_vpn va 0)) as Hn. set (ppn := napot_ppn _ _) in *. clearbody ppn.
  unfold sv39_address, sv39_vpn. cbv zeta. split.
  - change 0xfff with (Z.ones 12). change 0x1ff with (Z.ones 9). change 0x3ffff with (Z.ones 18).
    destruct level as [|[|]]; bits.
  - intros Hv. destruct level as [|[|]]; rewrite ?Z.lor_nonneg, ?Z.shiftl_nonneg, ?Z.land_nonneg;
      split_and?; auto; by right.
Qed.

Lemma guest_translate_total m0 va ty (ok : Z -> Prop) :
  CONFIG_RV64 = true -> CONFIG_RV_SVADE = true ->
  ok (af_cause ty) -> ok (pf_cause ty) -> ok (guest_cause ty) ->
  triple (calm m0) (guest_translate va ty)
    (fun r m => calm m0 m /\ offset_kept va r.1) (quiet_exit ok m0).
Proof.
  intros E64 Svade Oa Op Og. unfold guest_translate.
  assert (Hrep : forall (f : machine -> machine),
    (forall m, calm_view (f m) = calm_view m /\ pmp_wcache (f m) = pmp_wcache m) ->
    triple (calm m0) (modify f) (fun _ => calm m0) (quiet_exit ok m0)).
  { intros f Hf. apply triple_modify. intros m Hm. by apply (calm_report m0 m); [|apply Hf..]. }
  eapply triple_bind; [by apply Hrep|]. intros ?. apply triple_get_bind. intros m Hm.
  eapply triple_bind; [eapply triple_pre; [by apply vstage_translate_total|by intros s ->]|].
  intros [ga pbmt| | |]; cbn beta.
  - eapply triple_pre with (P := fun s => calm m0 s /\ offset_kept va ga); [|by intros s [? ?]].
    apply triple_pure. intros Ega.
    eapply triple_bind; [by apply Hrep|]. intros ?.
    eapply triple_bind; [by apply gstage_translate_total|]. intros [pa pb| |]; cbn beta.
    + apply triple_ret. intros s [Hs E]. split; [done|]. by eapply offset_kept_trans.
    + eapply triple_pre; [by apply fault_calm|by intros s [? _]].
    + eapply triple_pre; [by apply fault_calm|by intros s [? _]].
  - eapply triple_pre with (P := calm m0); [|by intros s [? _]].
    eapply triple_bind; [by apply Hrep|]. intros ?. by apply fault_calm.
  - eapply triple_pre with (P := calm m0); [|by intros s [? _]].
    eapply triple_bind; [by apply Hrep|]. intros ?. by apply fault_calm.
  - eapply triple_pre with (P := calm m0); [|by intros s [? _]].
    eapply triple_bind; [by apply Hrep|]. intros ?. by apply fault_calm.
Qed.

Definition translate_cause (ty : mem_type) (c : Z) : Prop :=
  c = pf_cause ty \/ c = af_cause ty \/ c = guest_cause ty.

Lemma translate_total m0 va ty :
  CONFIG_RV_SVADE = true ->
  triple (calm m0) (isa_mmu_translate_attrs va ty)
    (fun r m => calm m0 m /\ offset_kept va r.1) (quiet_exit (translate_cause ty) m0).
Proof.
  intros Svade. unfold isa_mmu_translate_attrs. apply triple_get_bind. intros m Hm. cbv zeta.
  assert (Oa : translate_cause ty (af_cause ty)) by (right; by left).
  assert (Op : translate_cause ty (pf_cause ty)) by by left.
  assert (Og : translate_cause ty (guest_cause ty)) by (right; by right).
  eapply triple_pre with (P := calm m0); [|by intros s ->].
  destruct (guest_access m ty) eqn:Eg.
  { apply guest_translate_total; try done. unfold guest_access in Eg. by destruct CONFIG_RV64. }
  destruct (CONFIG_RV64 && _) eqn:E39.
  { apply sv39_translate_total; try done. by destruct CONFIG_RV64. }
  destruct (_ || _); [by apply triple_ret|].
  eapply triple_bind; [by apply sv32_translate_total|]. intros pa. cbn beta. by apply triple_ret.
Qed.


End MmuSpec.

(** ** Witnesses: an S-mode store through a two-level table that maps a 2 MiB page *)

Definition walk_sr : machine :=
  setCSR CSR_SATP ((8 << 60) .| 0x80010) pmp_example_sr <| priv := PRV_S |>
    <| mem := store_bytes (store_bytes ∅ 0x80010008 8 ((0x80011 << 10) .| 0x1))
                0x80011008 8 ((0x80200 << 10) .| 0xc7) |>.
Definition walk_machine : machine := pmp_rebuild_decoded (Cfg := riscv64_ref) walk_sr.

Lemma walk_machine_ready : sv39_ready (Cfg := riscv64_ref) walk_machine.
Proof.
  split.
  - apply pmp_rebuild_wf.
    + split; apply entries_cases; vm_compute; (reflexivity || (split; [intros [=]|reflexivity])).
    + split; [vm_compute; split; [intros [=]|reflexivity]|].
      intros slot. change (pmp_wcache walk_sr) with (∅ : gmap Z pmp_wcache_entry).
      rewrite aget_empty. vm_compute. split; intros [=].
  - intros a. change (mem walk_machine) with (mem walk_sr).
    apply (store_bytes_fits _ _ 8 _), (store_bytes_fits _ _ 8 _). intros b. rewrite aget_empty. by split.
Qed.

Lemma sv39_translate_refines_witness :
  sv39_maps (Cfg := riscv64_ref) walk_machine 0x40212345 MEM_TYPE_WRITE 0x80212345 0.
Proof.
  pose proof (sv39_translate_refines (Cfg := riscv64_ref) 0x40212345 MEM_TYPE_WRITE walk_machine
    eq_refl eq_refl walk_machine_ready ltac:(by split)) as H.
  assert (E : fst (sv39_translate (Cfg := riscv64_ref) 0x40212345 MEM_TYPE_WRITE walk_machine)
              = Ret (0x80212345, 0)) by (vm_compute; reflexivity).
  destruct (sv39_translate _ _ _) as [o m']. cbn [fst] in E. subst o. apply H.
Defined.


(** ** A finding on Sv32 without Svade *)

Definition riscv32_adue : Config := {|
  CONFIG_RV64 := false; CONFIG_RV_ASID_BITS := 9; CONFIG_RV_PMPADDR_BITS := 32;
  CONFIG_RV_PC_BITS := 64; CONFIG_RV_PMP_GRANULARITY_LOG2 := 12;
  CONFIG_RV_F := true; CONFIG_RV_D := true; CONFIG_RVE := false; CONFIG_RV_SVADE := false;
  CONFIG_RV_MCOUNTINHIBIT := false; CONFIG_MODE_SYSTEM := true; CONFIG_TARGET_SHARE := true;
  CONFIG_RAPTOR_MEMORY_MAP := true; CONFIG_RAPTOR_PMEM_2G := false;
  CONFIG_MBASE := 0x80000000; CONFIG_MSIZE := 0x10000000; CONFIG_TIMER_CYCLE := false |}.

(** A 4 MiB superpage with A clear. *)
Definition superpage_machine : machine :=
  pmp_rebuild_decoded (Cfg := riscv32_adue)
    (setCSR CSR_SATP ((1 << 31) .| 0x80010) pmp_example_sr <| priv := PRV_S |>
       <| mem := store_bytes ∅ 0x80010004 4 ((0x80400 << 10) .| 0x7) |>).

