(* ===== verification/Vaddr.v ===== *)
(** * Vaddr: virtual memory accesses ([memory/vaddr.c]): the software TLBs in
    front of the translation, and the PMA and PMP checks behind it. The trace
    files and [vaddr_show] of the debugger are not modelled. *)
From S2P Require Import Prelude Config Tlb Machine Pmp Paddr Mmu.

Section Vaddr.
Context {Cfg : Config}.

(** A sign-extended 32-bit address in Bare mode, on the Raptor platform. *)
Definition bare_paddr (a : Z) : Z :=
  if CONFIG_RAPTOR_MEMORY_MAP && CONFIG_RV64 && (a >> 32 =? Z.ones 32) then wrap 32 a else a.

Definition set_g_vaddr (a : Z) : M machine unit := modify (fun m => m <| g_vaddr := a |>).

Definition mmu_checkM (type : mem_type) : M machine mmu_mode := gets (fun m => isa_mmu_check m type).
Definition pointer_maskM (a : Z) : M machine Z := gets (fun m => riscv_pointer_mask m a).

Definition is_direct (mode : mmu_mode) : bool := bool_decide (mode = MMU_DIRECT).

(** In Bare mode the reported address follows the byte the PMP rejected. *)
Definition report_pmp_fault (a pa : Z) (translated : bool) : M machine unit :=
  when (negb translated) (modify (fun m => m <| g_vaddr := word (a + (pmp_last_fault_addr m - pa)) |>)).

(** ** The TLB arrays, as the arguments of the lookup and the refill *)

Inductive tlb_sel := sel_ifetch | sel_load | sel_store.

Definition tlb_array (t : tlb_state) (s : tlb_sel) : gmap Z soft_tlb_entry_t :=
  match s with
  | sel_ifetch => soft_tlb_ifetch t
  | sel_load => soft_tlb_load t
  | sel_store => soft_tlb_store t
  end.

Definition tlb_refill (s : tlb_sel) (va pa pbmt : Z) (t : tlb_state) : tlb_state :=
  let a := soft_tlb_refill_attrs t (tlb_array t s) va pa pbmt in
  match s with
  | sel_ifetch => mk_tlb_state a (soft_tlb_load t) (soft_tlb_store t) (soft_tlb_epoch t)
                    (icache t) (icache_epoch t)
  | sel_load => mk_tlb_state (soft_tlb_ifetch t) a (soft_tlb_store t) (soft_tlb_epoch t)
                  (icache t) (icache_epoch t)
  | sel_store => mk_tlb_state (soft_tlb_ifetch t) (soft_tlb_load t) a (soft_tlb_epoch t)
                   (icache t) (icache_epoch t)
  end.

Definition tlb_lookupM (s : tlb_sel) (va : Z) : M machine (option (Z * Z)) :=
  gets (fun m => soft_tlb_lookup_attrs (tlb m) (tlb_array (tlb m) s) va).

(** A miss walks the page tables and fills the entry. *)
Definition tlb_missM (s : tlb_sel) (va : Z) (type : mem_type) : M machine (Z * Z) :=
  '(pa, pbmt) ← isa_mmu_translate_attrs va type;
  modify (fun m => m <| tlb ::= tlb_refill s va pa pbmt |>);;
  mret (pa, pbmt).

(** ** Instruction fetch *)

Definition ifetch_denied (pa len : Z) : M machine bool :=
  m ← get; pmp_checkM pa len (priv m) false false true.

(** The body for a fetch that does not straddle. *)
Definition vaddr_ifetch_piece (a len : Z) : M machine Z :=
  set_g_vaddr a;;
  mode ← mmu_checkM MEM_TYPE_IFETCH;
  hit ← (if is_direct mode then mret None else tlb_lookupM sel_ifetch a);
  match hit with
  | Some (pa, _) =>
      denied ← (if negb (paddr_is_memory_span pa len) then mret true else ifetch_denied pa len);
      if denied : bool then fault MCA_INS_ACC_FAU 22 else paddr_read pa len
  | None =>
      '(pa, _) ← (if is_direct mode then mret (bare_paddr a, 0)
                  else tlb_missM sel_ifetch a MEM_TYPE_IFETCH);
      if negb (paddr_is_memory_span pa len) then fault MCA_INS_ACC_FAU 20
      else
        denied ← ifetch_denied pa len;
        if denied : bool then
          report_pmp_fault a pa (negb (is_direct mode));; fault MCA_INS_ACC_FAU 22
        else paddr_read pa len
  end.

(** A halfword-aligned 32-bit fetch reads its halves one after the other. *)
Definition vaddr_ifetch (a len : Z) : M machine Z :=
  if (len =? 4) && nz (a .& 2) then
    first ← vaddr_ifetch_piece a 2;
    if negb ((first .& 3) =? 3) then mret first
    else
      second ← vaddr_ifetch_piece (word (a + 2)) 2;
      set_g_vaddr a;;
      mret (first .| word (second << 16))
  else vaddr_ifetch_piece a len.

(** ** Physical memory attributes of data accesses *)

Definition data_fault (store : bool) : M machine unit :=
  if store then fault MCA_STO_ACC_FAU 24 else fault MCA_LOA_ACC_FAU 23.

Definition pma_allows (pa i : Z) (store : bool) : bool :=
  let byte_addr := paddr_add pa i in
  (pa <=? byte_addr) && paddr_is_mapped byte_addr && (negb store || negb (paddr_is_readonly byte_addr)).

(** The offset of the first byte that is not allowed; [n] bytes left from [i]. *)
Fixpoint pma_fault_offset (pa : Z) (store : bool) (n : nat) (i : Z) : option Z :=
  match n with
  | O => None
  | S n => if pma_allows pa i store then pma_fault_offset pa store n (i + 1) else Some i
  end.

Definition check_data_pma (pa len : Z) (store : bool) : M machine unit :=
  if paddr_is_ram_span pa len then mret tt
  else
    match (if 0 <? len then pma_fault_offset pa store (Z.to_nat len) 0 else Some 0) with
    | None => mret tt
    | Some fault_offset =>
        modify (fun m => m <| g_vaddr ::= fun a => word (a + fault_offset) |>);; data_fault store
    end.

Definition check_data_type (pa pbmt : Z) (misaligned store : bool) (original_len : Z)
    : M machine unit :=
  let device := CONFIG_RAPTOR_MEMORY_MAP && paddr_is_mapped pa && negb (paddr_is_memory_span pa 1) in
  let width_fault :=
    CONFIG_RAPTOR_MEMORY_MAP && (0xc000000 <=? pa) && (pa <? 0xd000000)
    && (negb (original_len =? 4) || nz (pa .& 3)) in
  if width_fault || (((pbmt =? 2) || device) && misaligned) then data_fault store else mret tt.

Definition data_type (store : bool) : mem_type := if store then MEM_TYPE_WRITE else MEM_TYPE_READ.

(** The checks behind a translation. *)
Definition check_data (a pa len pbmt : Z) (translated store misaligned : bool) (original_len : Z)
    : M machine unit :=
  check_data_type pa pbmt misaligned store original_len;;
  check_data_pma pa len store;;
  m ← get;
  denied ← pmp_checkM pa len (pmp_effective_priv_ls m) (negb store) store false;
  when denied (report_pmp_fault a pa translated;; data_fault store).

Definition checked_data_piece_attrs (a len : Z) (store misaligned : bool) (original_len : Z)
    : M machine (Z * Z) :=
  a ← pointer_maskM a;
  set_g_vaddr a;;
  mode ← mmu_checkM (data_type store);
  '(pa, pbmt) ← (if is_direct mode then mret (bare_paddr a, 0)
                 else isa_mmu_translate_attrs a (data_type store));
  check_data a pa len pbmt (negb (is_direct mode)) store misaligned original_len;;
  mret (pa, pbmt).

Definition checked_data_piece (a len : Z) (store misaligned : bool) (original_len : Z) : M machine Z :=
  '(pa, _) ← checked_data_piece_attrs a len store misaligned original_len; mret pa.

Definition misaligned_for (a len : Z) : bool := nz (a .& (len - 1)).

Definition checked_data_address (a len : Z) (store : bool) : M machine Z :=
  checked_data_piece a len store (misaligned_for a len) len.

(** The bytes left on the page. *)
Definition page_rest (a : Z) : Z := 4096 - (a .& 4095).

(** Whether an access is split at a page boundary. *)
Definition split_access (a len : Z) (type : mem_type) : M machine bool :=
  if page_rest a <? len then mode ← mmu_checkM type; mret (negb (is_direct mode)) else mret false.

(** ** Checks without an access *)

Definition vaddr_probe_vector (a len : Z) (store : bool) : M machine bool :=
  a ← pointer_maskM a;
  split ← split_access a len (data_type store);
  let first := if split : bool then page_rest a else len in
  '(pa, pbmt) ← checked_data_piece_attrs a first store (misaligned_for a len) len;
  let restricted := (pbmt =? 2) || negb (paddr_is_memory_span pa first) in
  if split then
    '(pa, pbmt) ← checked_data_piece_attrs (word (a + first)) (len - first) store
                    (misaligned_for a len) len;
    mret (restricted || (pbmt =? 2) || negb (paddr_is_memory_span pa (len - first)))
  else mret restricted.

Definition vaddr_check_reservation (a len : Z) (store : bool) : M machine Z :=
  a ← pointer_maskM a;
  pa ← checked_data_address a len store;
  (if negb (paddr_supports_atomic pa len) then set_g_vaddr a;; data_fault store else mret tt);;
  mret pa.

Definition vaddr_check_amo (a len : Z) : M machine unit :=
  a ← pointer_maskM a;
  pa ← vaddr_check_reservation a len true;
  m ← get;
  denied ← pmp_checkM pa len (pmp_effective_priv_ls m) true true false;
  when denied (set_g_vaddr a;; data_fault true).

Definition vaddr_check_zero (a : Z) : M machine unit :=
  a ← pointer_maskM a;
  pa ← checked_data_address a 1 true;
  when (negb (paddr_supports_zero pa)) (set_g_vaddr a;; data_fault true).

Definition vaddr_check_store (a len : Z) : M machine unit :=
  a ← pointer_maskM a;
  split ← split_access a len MEM_TYPE_WRITE;
  if split : bool then
    let first := page_rest a in
    checked_data_piece a first true true len;;
    checked_data_piece (word (a + first)) (len - first) true true len;;
    mret tt
  else checked_data_address a len true;; mret tt.

Definition vaddr_check_cmo (a : Z) : M machine unit :=
  a ← pointer_maskM a;
  set_g_vaddr a;;
  mode ← mmu_checkM MEM_TYPE_CMO;
  pa ← (if is_direct mode then mret (bare_paddr a) else isa_mmu_translate a MEM_TYPE_CMO);
  (if negb (paddr_is_mapped pa) then fault MCA_STO_ACC_FAU 24 else mret tt);;
  m ← get;
  let privilege := pmp_effective_priv_ls m in
  read_fault ← pmp_checkM pa 1 privilege true false false;
  write_fault ← pmp_checkM pa 1 privilege false true false;
  when (read_fault && write_fault)
    (report_pmp_fault a pa (negb (is_direct mode));; fault MCA_STO_ACC_FAU 24).

(** ** Loads and stores *)

(** The physical address of byte [i] of an access split at [first]. *)
Definition split_paddr (lo hi first i : Z) : Z :=
  if i <? first then paddr_add lo i else paddr_add hi (i - first).

(** [n] bytes from byte [i] on. *)
Fixpoint read_split (lo hi first : Z) (n : nat) (i value : Z) : M machine Z :=
  match n with
  | O => mret value
  | S n =>
      b ← paddr_read (split_paddr lo hi first i) 1;
      read_split lo hi first n (i + 1) (value .| word (b << (8 * i)))
  end.

(** The translation of an unsplit access, through its TLB. *)
Definition data_translate (s : tlb_sel) (a : Z) (type : mem_type) : M machine (Z * Z * bool) :=
  mode ← mmu_checkM type;
  if is_direct mode then mret (bare_paddr a, 0, false)
  else
    hit ← tlb_lookupM s a;
    '(pa, pbmt) ← match hit with Some h => mret h | None => tlb_missM s a type end;
    mret (pa, pbmt, true).

Definition vaddr_read_piece (a len original_len : Z) (original_misaligned : bool) : M machine Z :=
  a ← pointer_maskM a;
  modify (fun m => m <| g_vaddr := a |> <| rvaddr := a |> <| rlen := len |>);;
  split ← split_access a len MEM_TYPE_READ;
  if split : bool then
    let first := page_rest a in
    lo ← checked_data_piece a first false original_misaligned original_len;
    hi ← checked_data_piece (word (a + first)) (len - first) false original_misaligned original_len;
    value ← read_split lo hi first (Z.to_nat len) 0 0;
    modify (fun m => m <| g_vaddr := a |> <| rpaddr := word lo |> <| rdata := value |>);;
    mret value
  else
    '(pa, pbmt, mmu_on) ← data_translate sel_load a MEM_TYPE_READ;
    check_data a pa len pbmt mmu_on false original_misaligned original_len;;
    modify (fun m => m <| rpaddr := word pa |>);;
    value ← paddr_read pa len;
    modify (fun m => m <| rdata := value |>);;
    mret value.

Definition vaddr_read (a len : Z) : M machine Z :=
  vaddr_read_piece a len len (misaligned_for a len).

(** A store to the reserved word drops the reservation. *)
Definition drop_reservation (pa : Z) (m : machine) : machine :=
  if (reservation m .& ~~ 3) =? (pa .& ~~ 3)
  then m <| reservation := 0 |> <| reservation_bytes := 0 |> else m.

Fixpoint write_split (lo hi first data : Z) (n : nat) (i : Z) : M machine unit :=
  match n with
  | O => mret tt
  | S n =>
      let pa := split_paddr lo hi first i in
      paddr_write pa 1 ((data >> (8 * i)) .& 0xff);;
      modify (drop_reservation pa);;
      write_split lo hi first data n (i + 1)
  end.

Definition vaddr_write (a len data : Z) : M machine unit :=
  a ← pointer_maskM a;
  modify (fun m => m <| g_vaddr := a |> <| vwaddr := a |> <| wdata := data |> <| wlen := len |>);;
  split ← split_access a len MEM_TYPE_WRITE;
  if split : bool then
    let first := page_rest a in
    lo ← checked_data_piece a first true true len;
    hi ← checked_data_piece (word (a + first)) (len - first) true true len;
    write_split lo hi first data (Z.to_nat len) 0;;
    modify (fun m => m <| g_vaddr := a |> <| pwaddr := word lo |>)
  else
    '(pa, pbmt, mmu_on) ← data_translate sel_store a MEM_TYPE_WRITE;
    check_data a pa len pbmt mmu_on true (misaligned_for a len) len;;
    modify (fun m => m <| pwaddr := word pa |>);;
    paddr_write pa len data;;
    modify (drop_reservation pa).

(** The physical address of a read (declared in [inst.c], not called any more). *)
Definition get_paddr (a : Z) (len : Z) : M machine Z :=
  a ← pointer_maskM a;
  if a =? 0 then fault MCA_INS_ACC_FAU 20
  else
    mode ← mmu_checkM MEM_TYPE_READ;
    if is_direct mode then mret (bare_paddr a) else isa_mmu_translate a MEM_TYPE_READ.

End Vaddr.
