(* ===== verification/VaddrSpec.v ===== *)
(** * VaddrSpec: what the memory access layer promises: stores stay within the
    memory the PMP lets them write, and loads write nothing *)
From S2P Require Import Prelude Config Hoare Tlb Machine Pmp PmpSpec Paddr Mmu MmuSpec Vaddr.

Section VaddrSpec.
Context {Cfg : Config} {CfgOk : ConfigOk Cfg}.

(** The main memory lies in the physical address space. *)
Definition memory_map_ok : Prop :=
  0 <= CONFIG_MBASE /\ 0 < CONFIG_MSIZE /\ CONFIG_MBASE + CONFIG_MSIZE <= 2 ^ 34.

(** A TLB entry holds an unsigned physical page. *)
Definition tlb_typed (t : tlb_state) : Prop := forall s i, 0 <= tlb_ppn (aget (tlb_array t s) i).

(** ** States that agree on memory and on the architectural registers *)

Record steady (m0 m : machine) : Prop := {
  st_mem : mem m = mem m0;
  st_sr : sr m = sr m0;
  st_gpr : gpr m = gpr m0;
  st_priv : priv m = priv m0;
  st_virt : virt m = virt m0;
  st_pc : pc m = pc m0;
  st_ext : riscv_isa_extensions m = riscv_isa_extensions m0;
  st_pmp : pmp_wf m0 -> pmp_wf m;
  st_tlb : tlb_typed (tlb m0) -> tlb_typed (tlb m);
}.

Lemma steady_refl m : steady m m.
Proof. by split. Qed.

Lemma steady_trans m1 m2 m3 : steady m1 m2 -> steady m2 m3 -> steady m1 m3.
Proof. intros [A B C D E F G H I] [A' B' C' D' E' F' G' H' I']. split; congruence || auto. Qed.

Lemma calm_steady m m' : calm m m' -> steady m m'.
Proof.
  intros H. destruct (calm_fields _ _ H) as (? & ? & ? & ? & ? & ? & Et & _ & ? & _).
  split; [done..|apply H|by rewrite Et].
Qed.

Lemma steady_calm m0 m m' : steady m0 m -> calm m m' -> steady m0 m'.
Proof. intros Hs Hc. by eapply steady_trans, calm_steady. Qed.

(** Updates of what [steady] leaves out. *)
Definition steady_fields (m : machine) :=
  (mem m, sr m, gpr m, priv m, virt m, pc m, riscv_isa_extensions m, tlb m,
   (pmp_dec m, pmp_any_active m, pmp_wcache m, pmp_gen m)).

Lemma steady_update m0 m m' : steady m0 m -> steady_fields m' = steady_fields m -> steady m0 m'.
Proof.
  intros Hs E. unfold steady_fields in E. eapply steady_trans; [exact Hs|].
  injection E as E1 E2 E3 E4 E5 E6 E7 E8 E9 E10 E11 E12. split; try done.
  - intros W. by apply (pmp_wf_ext m).
  - by rewrite E8.
Qed.

Lemma steady_csr m0 m c : steady m0 m -> CSR m c = CSR m0 c.
Proof. intros H. unfold CSR. by rewrite (st_sr _ _ H). Qed.

Lemma steady_eff_priv m0 m : steady m0 m -> pmp_effective_priv_ls m = pmp_effective_priv_ls m0.
Proof.
  intros H. unfold pmp_effective_priv_ls. by rewrite (steady_csr _ _ _ H), (st_priv _ _ H).
Qed.

(** A computation that keeps the state steady, however it ends. *)
Definition steadily {A} (m0 : machine) (c : M machine A) (F : A -> Prop) : Prop :=
  ptriple (steady m0) c (fun a m => steady m0 m /\ F a) (steady m0).

Lemma steadily_ret {A} m0 (a : A) (F : A -> Prop) : F a -> steadily m0 (mret a) F.
Proof. intros H. by apply ptriple_ret. Qed.

Lemma steadily_bind {A B} m0 (c : M machine A) (k : A -> M machine B) F G :
  steadily m0 c F -> (forall a, F a -> steadily m0 (k a) G) -> steadily m0 (mbind k c) G.
Proof.
  intros Hc Hk. eapply ptriple_bind; [apply Hc|]. intros a. cbn beta. apply ptriple_pure. apply Hk.
Qed.

Lemma steadily_weaken {A} m0 (c : M machine A) (F G : A -> Prop) :
  steadily m0 c F -> (forall a, F a -> G a) -> steadily m0 c G.
Proof. intros H HG. eapply ptriple_post; [apply H|]. intros a s [? ?]. auto. Qed.

Lemma steadily_modify m0 f (F : unit -> Prop) :
  (forall m, steady_fields (f m) = steady_fields m) -> F tt -> steadily m0 (modify f) F.
Proof. intros Hf HF. apply ptriple_modify. intros m Hm. split; [by apply (steady_update m0 m)|done]. Qed.

Lemma steadily_fault {A} m0 c code (F : A -> Prop) : steadily m0 (fault c code) F.
Proof. intros m Hm. cbn. by apply (steady_update m0 m). Qed.

Lemma steadily_get {B} m0 (k : machine -> M machine B) G :
  (forall m, steady m0 m -> steadily m0 (k m) G) -> steadily m0 (mbind k get) G.
Proof. intros H m Hm. by apply (H m Hm m Hm). Qed.

Lemma steadily_gets {A} m0 (f : machine -> A) (F : A -> Prop) :
  (forall m, steady m0 m -> F (f m)) -> steadily m0 (gets f) F.
Proof. intros H. apply ptriple_gets. auto. Qed.

Lemma steadily_when m0 b (c : M machine unit) (F : unit -> Prop) :
  (b = true -> steadily m0 c F) -> (b = false -> F tt) -> steadily m0 (when b c) F.
Proof. intros H1 H2. destruct b; [by apply H1|by apply steadily_ret, H2]. Qed.

(** Computations that stay calm. *)
Lemma steadily_calm {A} m0 (c : M machine A) (F : machine -> A -> Prop) :
  (forall m, triple (calm m) c (fun a m' => calm m m' /\ F m a) (fun _ => calm m)) ->
  steadily m0 c (fun a => exists m, steady m0 m /\ F m a).
Proof.
  intros H m Hm. specialize (H m m (calm_refl m)). destruct (c m) as [[a|e|] m'].
  - destruct H as [Hc HF]. split; [by eapply steady_calm|by exists m].
  - by eapply steady_calm.
  - done.
Qed.

(** ** The PMP *)

Lemma pmp_checkM_steady m0 a size privilege r w :
  steadily m0 (pmp_checkM a size privilege r w false)
    (fun d => pmp_wf m0 -> access_ok a size -> d = pmp_spec m0 a size privilege r w false).
Proof.
  eapply steadily_weaken.
  - apply (steadily_calm m0 _ (fun m d => pmp_wf m -> access_ok a size ->
             d = pmp_spec m a size privilege r w false)).
    intros m. eapply triple_conseq; [apply (pmp_checkM_calm m _ _ _ _ _ _ (fun _ => calm m))|done| |done].
    intros d s [Hs Hd]. split; [done|]. intros W A. by apply Hd.
  - intros d (m & Hs & Hd) W A. rewrite Hd; [|by apply (st_pmp _ _ Hs)|done].
    apply pmp_spec_sr, Hs.
Qed.

Lemma List_find_ext {A} (f g : A -> bool) l :
  (forall a, f a = g a) -> List.find f l = List.find g l.
Proof. intros H. induction l as [|a l IH]; [done|]. cbn [List.find]. by rewrite H, IH. Qed.

(** A permitted access is permitted byte by byte. *)
Lemma pmp_spec_byte m a size privilege r w x b :
  pmp_spec m a size privilege r w x = false -> a <= b < a + size ->
  pmp_spec m b 1 privilege r w x = false.
Proof.
  unfold pmp_spec. cbv zeta. intros H Hb.
  assert (Hin : b ∈ bytes_of a size) by (apply elem_of_seqZ; lia).
  assert (E1 : bytes_of b 1 = [b]) by done. rewrite E1. cbn [existsb forallb].
  pose proof (find_covering (fun i b => region_match m i (b >> 2)) (bytes_of a size) pmp_entries
    _ eq_refl) as Hc.
  rewrite (List_find_ext _ (fun i => region_match m i (b >> 2)))
    by (intros; apply orb_false_r).
  case_match eqn:Ef.
  - apply orb_false_iff in H as [Hcov H]. apply negb_false_iff in Hcov.
    rewrite (Hc ltac:(intros j [= <-]; exact Hcov) b Hin).
    rewrite forallb_forall in Hcov. rewrite (Hcov b) by by apply list_elem_of_In. done.
  - by rewrite (Hc ltac:(done) b Hin).
Qed.

(** ** Mapped addresses *)

Lemma memory_span_low a size :
  memory_map_ok -> paddr_is_memory_span a size = true -> 0 <= a < 2 ^ 34.
Proof.
  intros (M0 & M1 & M2) H. unfold paddr_is_memory_span, span_in in H.
  destruct (size =? 0); [done|]. destruct (_ <? _); [done|]. revert H.
  assert (Er : PMEM_RIGHT = CONFIG_MBASE + CONFIG_MSIZE - 1).
  { unfold PMEM_RIGHT, paddr_add. rewrite wrap_small by (unfold fits; lia). lia. }
  unfold in_pmem, in_rom, in_sram, in_mrom, in_flash, in_sdram, in_region. rewrite Er.
  unfold PMEM_LEFT, CONFIG_ROM_BASE, CONFIG_ROM_SIZE, CONFIG_SRAM_BASE, CONFIG_SRAM_SIZE, CONFIG_MROM_BASE,
    CONFIG_MROM_SIZE, CONFIG_FLASH_BASE, CONFIG_FLASH_SIZE, CONFIG_SDRAM_BASE, CONFIG_SDRAM_SIZE.
  destruct CONFIG_RAPTOR_PMEM_2G, CONFIG_RAPTOR_MEMORY_MAP; lia.
Qed.

Lemma mapped_low a : memory_map_ok -> paddr_is_mapped a = true -> 0 <= a < 2 ^ 34.
Proof.
  intros Hm. unfold paddr_is_mapped. rewrite orb_true_iff. intros [H|H]; [by eapply memory_span_low|].
  apply andb_true_iff in H as [_ H]. unfold ref_paddr_is_io in H. lia.
Qed.

Lemma paddr_bits_ge : 34 <= paddr_bits.
Proof. unfold paddr_bits. destruct CONFIG_RV64; lia. Qed.

Lemma paddr_add_small a n : 0 <= a < 2 ^ 34 -> 0 <= n < 2 ^ 34 -> paddr_add a n = a + n.
Proof. intros. unfold paddr_add. apply wrap_small; unfold fits; lia. Qed.

(** The bytes of a span in main memory, wherever its last one lies. *)
Lemma ram_span_memory_span a len : paddr_is_ram_span a len = true -> paddr_is_memory_span a len = true.
Proof.
  unfold paddr_is_ram_span, paddr_is_memory_span. destruct (Z.leb_spec len 0); [done|].
  destruct (Z.eqb_spec len 0); [lia|]. destruct (_ <? _); [done|].
  by destruct (span_in in_pmem a len), (span_in in_sram a len), (span_in in_sdram a len),
    (span_in in_rom a len), (span_in in_mrom a len), (span_in in_flash a len).
Qed.

Lemma span_last a len :
  0 < len -> paddr_is_memory_span a len = true -> paddr_is_memory_span (paddr_add a (len - 1)) 1 = true.
Proof.
  intros Hl H. unfold paddr_is_memory_span in *. destruct (Z.eqb_spec len 0); [lia|]. change (1 =? 0) with false.
  cbv iota. destruct (Z.ltb_spec (paddr_add a (len - 1)) a) as [|L]; [done|].
  assert (E : paddr_add (paddr_add a (len - 1)) (1 - 1) = paddr_add a (len - 1)).
  { unfold paddr_add. rewrite Z.add_0_r. apply wrap_small; [lia|apply wrap_fits; lia]. }
  rewrite E, Z.ltb_irrefl. unfold span_in in *. rewrite E. revert H.
  repeat match goal with |- context [?f a && ?f ?b] => destruct (f a), (f b); cbn [andb orb]; try done end.
Qed.

Lemma pma_fault_offset_none pa store n i j :
  pma_fault_offset pa store n i = None -> i <= j < i + Z.of_nat n -> pma_allows pa j store = true.
Proof.
  revert i. induction n as [|n IH]; intros i H Hj; [lia|]. cbn [pma_fault_offset] in H.
  destruct (pma_allows pa i store) eqn:E; [|done].
  destruct (Z.eq_dec i j) as [->|]; [done|]. apply (IH (i + 1)); [done|lia].
Qed.

(** The PMA check bounds the access. *)
Lemma pma_access_ok pa len store :
  memory_map_ok -> 0 <= pa -> 1 <= len < 2 ^ 33 ->
  paddr_is_ram_span pa len = true \/ pma_fault_offset pa store (Z.to_nat len) 0 = None ->
  pa < 2 ^ 34 /\ access_ok pa len.
Proof.
  intros Hm H0 Hl H. pose proof paddr_bits_ge.
  assert (2 ^ 34 <= 2 ^ paddr_bits) by (apply Z.pow_le_mono_r; lia).
  enough (pa < 2 ^ 34 /\ pa + len <= 2 ^ 34) by (unfold access_ok; lia).
  destruct H as [H|H].
  - apply ram_span_memory_span in H. pose proof (memory_span_low _ _ Hm H).
    apply span_last in H; [|lia]. apply memory_span_low in H; [|done].
    rewrite paddr_add_small in H by lia. lia.
  - pose proof (pma_fault_offset_none _ _ _ _ 0 H ltac:(lia)) as A.
    pose proof (pma_fault_offset_none _ _ _ _ (len - 1) H ltac:(lia)) as B.
    unfold pma_allows in A, B. apply andb_true_iff in A as [A _], B as [B _].
    apply andb_true_iff in A as [A1 A2], B as [_ B2].
    apply (mapped_low _ Hm) in A2, B2. rewrite paddr_add_small in B2 by lia. lia.
Qed.

(** ** Grants *)

(** The PMP lets the current privilege of data accesses write byte [b]. *)
Definition granted (m : machine) (b : Z) : Prop :=
  pmp_spec m b 1 (pmp_effective_priv_ls m) false true false = false.

(** The bytes of a checked store. *)
Definition store_span (m : machine) (pa len : Z) : Prop :=
  0 <= pa < 2 ^ 34 /\ forall b, pa <= b < pa + len -> granted m b.

Lemma steadily_pma m0 pa len store :
  steadily m0 (check_data_pma pa len store)
    (fun _ => memory_map_ok -> 0 <= pa -> 1 <= len < 2 ^ 33 -> pa < 2 ^ 34 /\ access_ok pa len).
Proof.
  unfold check_data_pma. destruct (paddr_is_ram_span pa len) eqn:Er.
  { apply steadily_ret. intros. apply (pma_access_ok pa len store); auto. }
  destruct (if 0 <? len then _ else _) eqn:Eo.
  - eapply steadily_bind; [by apply (steadily_modify m0 _ (fun _ => True))|].
    intros _ _. unfold data_fault. destruct store; apply steadily_fault.
  - apply steadily_ret. intros Hm H0 Hl. apply (pma_access_ok pa len store); auto.
    right. destruct (Z.ltb_spec 0 len); [done|lia].
Qed.

Lemma steadily_data_fault m0 store (F : unit -> Prop) : steadily m0 (data_fault store) F.
Proof. unfold data_fault. destruct store; apply steadily_fault. Qed.

Lemma steadily_report m0 a pa t : steadily m0 (report_pmp_fault a pa t) (fun _ => True).
Proof. apply steadily_when; [|done]. intros _. by apply steadily_modify. Qed.

Lemma steadily_check_data m0 a pa len pbmt t store mis ol :
  steadily m0 (check_data a pa len pbmt t store mis ol)
    (fun _ => memory_map_ok -> pmp_wf m0 -> 0 <= pa -> 1 <= len < 2 ^ 33 -> store = true ->
              store_span m0 pa len).
Proof.
  unfold check_data. eapply steadily_bind with (F := fun _ => True).
  { unfold check_data_type. cbv zeta. destruct (_ || _); [apply steadily_data_fault|by apply steadily_ret]. }
  intros _ _. eapply steadily_bind; [apply steadily_pma|]. intros [] Hp. cbn beta.
  apply steadily_get. intros m Hm. rewrite (steady_eff_priv _ _ Hm).
  eapply steadily_bind; [apply pmp_checkM_steady|]. intros d Hd. cbn beta in *.
  apply steadily_when.
  - intros _. eapply steadily_bind; [apply steadily_report|]. intros _ _. apply steadily_data_fault.
  - intros -> Hmap W H0 Hl Est. rewrite Est in Hd.
    destruct (Hp Hmap H0 Hl) as [H1 Ha]. split; [lia|]. intros b Hb.
    by eapply pmp_spec_byte; [symmetry; apply (Hd W Ha)|].
Qed.

(** ** Translation *)

Lemma pointer_mask_value_nonneg a pmm translated : 0 <= a -> 0 <= riscv_pointer_mask_value a pmm translated.
Proof.
  intros H. unfold riscv_pointer_mask_value. cbv zeta.
  generalize (if pmm =? 2 then 7 else if pmm =? 3 then 16 else 0). intros n.
  destruct (n =? 0); [done|].
  assert (0 <= a .& (wnot 0 >> n)) by (apply Z.land_nonneg; by left).
  destruct (_ && _); [|done]. apply Z.lor_nonneg. split; [done|apply word_fits].
Qed.

Lemma pointer_mask_nonneg m a : 0 <= a -> 0 <= riscv_pointer_mask m a.
Proof.
  intros H. unfold riscv_pointer_mask. destruct CONFIG_RV64; [|done]. cbv zeta.
  destruct (negb _); [done|]. destruct (_ || _); [done|]. destruct (negb _); [done|].
  by apply pointer_mask_value_nonneg.
Qed.

Lemma steadily_pointer_mask m0 a : steadily m0 (pointer_maskM a) (fun a' => 0 <= a -> 0 <= a').
Proof. apply steadily_gets. intros m _. apply pointer_mask_nonneg. Qed.

Lemma steadily_mode m0 type : steadily m0 (mmu_checkM type) (fun _ => True).
Proof. by apply steadily_gets. Qed.

Lemma bare_paddr_nonneg a : 0 <= a -> 0 <= bare_paddr a.
Proof. intros H. unfold bare_paddr. destruct (_ && _); [|done]. apply wrap_fits. lia. Qed.

Context (Svade : CONFIG_RV_SVADE = true).

Lemma steadily_translate m0 va ty :
  steadily m0 (isa_mmu_translate_attrs va ty) (fun r => 0 <= va -> 0 <= r.1).
Proof.
  eapply steadily_weaken.
  - apply (steadily_calm m0 _ (fun _ r => 0 <= va -> 0 <= r.1)). intros m.
    eapply triple_conseq; [by apply translate_total|done| |by intros c s [? _]].
    intros r s [? [_ ?]]. by split.
  - intros r (m & _ & H). exact H.
Qed.

Lemma tlb_refill_typed t s va pa pbmt : 0 <= pa -> tlb_typed t -> tlb_typed (tlb_refill s va pa pbmt t).
Proof.
  intros Hpa Ht s' i.
  assert (A : forall j, 0 <= tlb_ppn (aget (soft_tlb_refill_attrs t (tlb_array t s) va pa pbmt) j)).
  { intros j. unfold soft_tlb_refill_attrs. rewrite aget_aset. destruct (_ =? j); [|apply Ht].
    cbn [tlb_ppn]. apply Z.land_nonneg. by left. }
  destruct s, s'; apply A || apply (Ht sel_ifetch) || apply (Ht sel_load) || apply (Ht sel_store).
Qed.

Lemma steadily_tlb_miss m0 s va ty :
  0 <= va -> steadily m0 (tlb_missM s va ty) (fun r => 0 <= r.1).
Proof.
  intros Hva. eapply steadily_bind; [apply steadily_translate|]. intros [pa pbmt] Hpa. specialize (Hpa Hva).
  cbn [fst] in Hpa. eapply steadily_bind with (F := fun _ => True); [|by intros _ _; apply steadily_ret].
  apply ptriple_modify. intros m Hm. split; [|done].
  eapply steady_trans; [exact Hm|]. split; try done.
  - intros W. by apply (pmp_wf_ext m).
  - by apply tlb_refill_typed.
Qed.

Lemma steadily_lookup m0 s va :
  steadily m0 (tlb_lookupM s va)
    (fun h => tlb_typed (tlb m0) -> 0 <= va -> forall pa pbmt, h = Some (pa, pbmt) -> 0 <= pa).
Proof.
  apply steadily_gets. intros m Hm Ht Hva pa pbmt E. apply (st_tlb _ _ Hm) in Ht.
  unfold soft_tlb_lookup_attrs in E. destruct (_ && _); [|done].
  apply (f_equal (fun o => default 0 (fst <$> o))) in E. cbn in E. rewrite <-E.
  apply Z.lor_nonneg. split; [apply Ht|]. apply Z.land_nonneg. by left.
Qed.

Lemma steadily_data_translate m0 s a ty :
  0 <= a -> steadily m0 (data_translate s a ty) (fun r => tlb_typed (tlb m0) -> 0 <= r.1.1).
Proof.
  intros Ha. eapply steadily_bind; [apply steadily_mode|]. intros mode _. destruct (is_direct mode).
  { apply steadily_ret. intros _. by apply bare_paddr_nonneg. }
  eapply steadily_bind; [apply steadily_lookup|]. intros h Hh. cbn beta in Hh.
  eapply steadily_bind with (F := fun r => tlb_typed (tlb m0) -> 0 <= r.1).
  - destruct h as [[pa pbmt]|].
    + apply steadily_ret. intros Ht. by apply (Hh Ht Ha pa pbmt).
    + eapply steadily_weaken; [by apply steadily_tlb_miss|]. intros r Hr _. exact Hr.
  - intros [pa pbmt] Hpa. apply steadily_ret. exact Hpa.
Qed.

(** A checked piece is a store span. *)
Lemma steadily_piece m0 a len store mis ol :
  0 <= a -> 1 <= len < 2 ^ 33 ->
  steadily m0 (checked_data_piece a len store mis ol)
    (fun pa => memory_map_ok -> pmp_wf m0 -> store = true -> store_span m0 pa len).
Proof.
  intros Ha Hl. unfold checked_data_piece, checked_data_piece_attrs.
  eapply steadily_bind with
    (F := fun r => memory_map_ok -> pmp_wf m0 -> store = true -> store_span m0 r.1 len);
    [|by intros [pa pbmt] H; apply steadily_ret].
  eapply steadily_bind; [apply steadily_pointer_mask|]. intros a' Ha'. specialize (Ha' Ha).
  eapply steadily_bind; [by apply (steadily_modify m0 _ (fun _ => True))|]. intros _ _.
  eapply steadily_bind; [apply steadily_mode|]. intros mode _.
  eapply steadily_bind with (F := fun r => 0 <= r.1).
  { destruct (is_direct mode).
    - apply steadily_ret. by apply bare_paddr_nonneg.
    - eapply steadily_weaken; [apply steadily_translate|]. intros r Hr. by apply Hr. }
  intros [pa pbmt] Hpa. eapply steadily_bind; [apply steadily_check_data|]. intros [] Hs.
  apply steadily_ret. intros Hm W Est. by apply Hs.
Qed.

Lemma steadily_split m0 a len ty : steadily m0 (split_access a len ty) (fun b => b = true -> page_rest a < len).
Proof.
  unfold split_access. destruct (Z.ltb_spec (page_rest a) len); [|by apply steadily_ret].
  eapply steadily_bind; [apply steadily_mode|]. intros mode _. by apply steadily_ret.
Qed.

(** ** Loads write nothing *)

Lemma steadily_paddr_read m0 pa len : steadily m0 (paddr_read pa len) (fun _ => True).
Proof.
  assert (G : forall a, steadily m0 (guest_to_host a) (fun _ => True)).
  { intros a. unfold guest_to_host. destruct (in_pmem a); [by apply steadily_ret|].
    eapply steadily_bind; [by apply (steadily_modify m0 _ (fun _ => True))|]. intros _ _.
    destruct (_ || _); [by apply steadily_ret|]. by intros m Hm. }
  assert (R : steadily m0 (pmem_read pa len) (fun _ => True)).
  { eapply steadily_bind; [apply G|]. intros h _. unfold host_read.
    destruct (host_len len); [by apply steadily_gets|]. by intros m Hm. }
  unfold paddr_read. destruct (ram_access pa len); [done|]. destruct (rom_access pa len); [done|].
  eapply steadily_bind with (F := fun _ => True).
  { destruct CONFIG_TARGET_SHARE; [|by apply steadily_ret]. unfold ref_paddr_io.
    destruct (negb _); [by apply steadily_ret|].
    eapply steadily_bind; [by apply (steadily_modify m0 _ (fun _ => True))|]. intros _ _. by apply steadily_ret. }
  intros io _. destruct io; [by apply steadily_ret|]. unfold out_of_bound. apply steadily_get. intros m Hm.
  destruct (_ && _); [apply steadily_fault|]. by intros m' Hm'.
Qed.

Lemma steadily_read_split m0 lo hi first n i value :
  steadily m0 (read_split lo hi first n i value) (fun _ => True).
Proof.
  revert i value. induction n as [|n IH]; intros i value; [by apply steadily_ret|].
  eapply steadily_bind; [apply steadily_paddr_read|]. intros b _. apply IH.
Qed.

Lemma page_rest_pos a : 1 <= page_rest a.
Proof. unfold page_rest. change 4095 with (Z.ones 12). pose proof (wrap_fits 12 a ltac:(lia)) as []. 
  unfold wrap in *. lia. Qed.

Lemma steadily_vaddr_read m0 a len :
  0 <= a -> 1 <= len < 2 ^ 33 -> steadily m0 (vaddr_read a len) (fun _ => True).
Proof.
  intros Ha Hl. unfold vaddr_read, vaddr_read_piece.
  eapply steadily_bind; [apply steadily_pointer_mask|]. intros a' Ha'. specialize (Ha' Ha).
  eapply steadily_bind; [by apply (steadily_modify m0 _ (fun _ => True))|]. intros _ _.
  eapply steadily_bind; [apply steadily_split|]. intros [] Hsp; cbn beta in Hsp; cbv zeta.
  - specialize (Hsp eq_refl). pose proof (page_rest_pos a').
    eapply steadily_bind; [apply steadily_piece; lia|]. intros lo _.
    eapply steadily_bind; [apply steadily_piece; [apply word_fits|lia]|]. intros hi _.
    eapply steadily_bind; [apply steadily_read_split|]. intros v _.
    eapply steadily_bind; [by apply (steadily_modify m0 _ (fun _ => True))|]. intros _ _. by apply steadily_ret.
  - eapply steadily_bind; [by apply steadily_data_translate|]. intros [[pa pbmt] on] _.
    eapply steadily_bind; [apply steadily_check_data|]. intros [] _.
    eapply steadily_bind; [by apply (steadily_modify m0 _ (fun _ => True))|]. intros _ _.
    eapply steadily_bind; [apply steadily_paddr_read|]. intros v _.
    eapply steadily_bind; [by apply (steadily_modify m0 _ (fun _ => True))|]. intros _ _. by apply steadily_ret.
Qed.

(** ** Stores *)

(** What a store may have done to the state. *)
Record stored (m0 m : machine) : Prop := {
  sd_sr : sr m = sr m0;
  sd_gpr : gpr m = gpr m0;
  sd_priv : priv m = priv m0;
  sd_mem : forall b, aget (mem m) b <> aget (mem m0) b -> granted m0 b;
}.

Lemma steady_stored m0 m : steady m0 m -> stored m0 m.
Proof. intros H. split; try apply H. intros b []. by rewrite (st_mem _ _ H). Qed.

Definition storing {A} (m0 : machine) (c : M machine A) : Prop :=
  ptriple (stored m0) c (fun _ => stored m0) (stored m0).

Lemma storing_bind {A B} m0 (c : M machine A) (k : A -> M machine B) :
  storing m0 c -> (forall a, storing m0 (k a)) -> storing m0 (mbind k c).
Proof. intros Hc Hk. eapply ptriple_bind; [apply Hc|exact Hk]. Qed.

Lemma stored_update m0 m m' :
  stored m0 m -> (mem m', sr m', gpr m', priv m') = (mem m, sr m, gpr m, priv m) -> stored m0 m'.
Proof. intros [A B C D] [= E1 E2 E3 E4]. split; congruence || by rewrite E1. Qed.

Lemma storing_modify m0 f :
  (forall m, (mem (f m), sr (f m), gpr (f m), priv (f m)) = (mem m, sr m, gpr m, priv m)) ->
  storing m0 (modify f).
Proof. intros H. apply ptriple_modify. intros m Hm. by apply (stored_update m0 m). Qed.

Lemma storing_fault {A} m0 c code : storing m0 (fault (A := A) c code).
Proof. intros m Hm. cbn. by apply (stored_update m0 m). Qed.

Lemma stored_write m0 m pa n data m' :
  stored m0 m -> (forall b, pa <= b < pa + Z.of_nat n -> granted m0 b) ->
  mem m' = store_bytes (mem m) pa n data -> (sr m', gpr m', priv m') = (sr m, gpr m, priv m) ->
  stored m0 m'.
Proof.
  intros [A B C D] Hg Em [= E1 E2 E3]. split; [congruence..|]. intros b Hb.
  destruct (decide (pa <= b < pa + Z.of_nat n)) as [|Hn]; [by apply Hg|].
  apply D. by rewrite Em, store_bytes_other in Hb.
Qed.

Lemma storing_paddr_write m0 pa len data :
  0 <= len -> (forall b, pa <= b < pa + len -> granted m0 b) -> storing m0 (paddr_write pa len data).
Proof.
  intros Hl Hg. unfold paddr_write. destruct (ram_access pa len) eqn:Er.
  - apply ram_access_region in Er. intros m Hm. unfold pmem_write.
    rewrite (bind_ret _ _ _ _ _ (guest_to_host_region pa m Er)).
    assert (Ht : stored m0 (touch_host pa m)).
    { unfold touch_host. destruct (in_pmem pa); [done|]. by apply (stored_update m0 m). }
    unfold host_write. destruct (host_len len); [|done].
    apply (stored_write m0 (touch_host pa m) pa (Z.to_nat len) data); [done| |done|done].
    intros b Hb. apply Hg. lia.
  - apply storing_bind.
    + destruct CONFIG_TARGET_SHARE; [|by apply ptriple_ret]. unfold ref_paddr_io.
      destruct (negb _); [by apply ptriple_ret|].
      apply storing_bind; [by apply storing_modify|]. intros _. by apply ptriple_ret.
    + intros io. destruct io; [by apply ptriple_ret|]. unfold out_of_bound.
      apply ptriple_get_bind. intros m Hm m' ->. destruct (_ && _); [by apply (storing_fault m0)|done].
Qed.

Lemma storing_drop m0 pa : storing m0 (modify (drop_reservation pa)).
Proof. apply storing_modify. intros m. unfold drop_reservation. by destruct (_ =? _). Qed.

Lemma storing_write_split m0 lo hi first len data n i :
  store_span m0 lo first -> store_span m0 hi (len - first) -> 0 <= first -> len < 2 ^ 33 ->
  0 <= i -> i + Z.of_nat n = len ->
  storing m0 (write_split lo hi first data n i).
Proof.
  intros [L Gl] [H Gh] Hf Hl. revert i. induction n as [|n IH]; intros i Hi En; [by apply ptriple_ret|].
  cbn [write_split]. cbv zeta.
  apply storing_bind; [apply storing_paddr_write; [lia|]|intros _].
  - intros b Hb. unfold split_paddr in Hb. destruct (Z.ltb_spec i first).
    + rewrite paddr_add_small in Hb by lia. apply Gl. lia.
    + rewrite paddr_add_small in Hb by lia. apply Gh. lia.
  - apply storing_bind; [apply storing_drop|]. intros _. apply IH; lia.
Qed.

(** A steady prefix before the stores. *)
Lemma storing_after {A B} m0 (c : M machine A) (k : A -> M machine B) F :
  steadily m0 c F -> (forall a, F a -> storing m0 (k a)) ->
  ptriple (steady m0) (mbind k c) (fun _ => stored m0) (stored m0).
Proof.
  intros Hc Hk. eapply ptriple_bind.
  - eapply ptriple_conseq; [apply Hc|done|intros a s H; exact H|apply steady_stored].
  - intros a. cbn beta. apply ptriple_pure. intros HF. eapply ptriple_pre; [by apply Hk|apply steady_stored].
Qed.

Lemma steady_then {A B} m0 (c : M machine A) (k : A -> M machine B) F :
  steadily m0 c F ->
  (forall a, F a -> ptriple (steady m0) (k a) (fun _ => stored m0) (stored m0)) ->
  ptriple (steady m0) (mbind k c) (fun _ => stored m0) (stored m0).
Proof.
  intros Hc Hk. eapply ptriple_bind.
  - eapply ptriple_conseq; [apply Hc|done|intros a s H; exact H|apply steady_stored].
  - intros a. cbn beta. apply ptriple_pure. apply Hk.
Qed.

Record store_ready (m : machine) : Prop := {
  sr_map : memory_map_ok;
  sr_pmp : pmp_wf m;
  sr_tlb : tlb_typed (tlb m);
}.

(** The memory contents do not matter. *)
Lemma store_ready_mem m f : store_ready m -> store_ready (m <| mem ::= f |>).
Proof. intros [A B C]. split; [exact A|by apply (pmp_wf_ext m)|exact C]. Qed.

Lemma vaddr_write_stores m0 a len data :
  store_ready m0 -> 0 <= a -> 1 <= len < 2 ^ 33 ->
  ptriple (steady m0) (vaddr_write a len data) (fun _ => stored m0) (stored m0).
Proof.
  intros [Hm W Ht] Ha Hl. unfold vaddr_write.
  eapply steady_then; [apply steadily_pointer_mask|]. intros a' Ha'. specialize (Ha' Ha).
  eapply steady_then; [by apply (steadily_modify m0 _ (fun _ => True))|]. intros _ _.
  eapply steady_then; [apply steadily_split|]. intros [] Hsp; cbn beta in Hsp; cbv zeta.
  - specialize (Hsp eq_refl). pose proof (page_rest_pos a').
    eapply steady_then; [apply steadily_piece; lia|]. intros lo Hlo. specialize (Hlo Hm W eq_refl).
    eapply storing_after; [apply steadily_piece; [apply word_fits|lia]|]. intros hi Hhi.
    specialize (Hhi Hm W eq_refl).
    apply storing_bind; [apply (storing_write_split m0 lo hi (page_rest a') len); done || lia|].
    intros _. by apply storing_modify.
  - eapply steady_then; [by apply steadily_data_translate|]. intros [[pa pbmt] on] Hpa. specialize (Hpa Ht).
    eapply storing_after; [apply steadily_check_data|]. intros [] Hs. destruct (Hs Hm W Hpa Hl eq_refl) as [_ Hg].
    apply storing_bind; [by apply storing_modify|]. intros _.
    apply storing_bind; [apply storing_paddr_write; [lia|exact Hg]|]. intros _. apply storing_drop.
Qed.


(** Loads are pure: however a load ends, it leaves memory, the CSRs, the
    general registers, the privilege, the PC and the extension set alone, and
    keeps the PMP invariant. *)
Theorem vaddr_read_pure a len m :
  0 <= a -> 1 <= len <= 8 ->
  let '(_, m') := vaddr_read a len m in steady m m'.
Proof.
  intros Ha Hl. pose proof (steadily_vaddr_read m a len Ha ltac:(lia) m (steady_refl m)) as H.
  by destruct (vaddr_read a len m) as [[v|c|] m']; [apply H|exact H|exact H].
Qed.

End VaddrSpec.

(** ** Witnesses: the S-mode page tables of [MmuSpec] with one more 2 MiB page,
    on the memory around the tables, of which the PMP entries of [PmpSpec]
    leave 64 KiB writable to S-mode *)

Definition store_machine : machine :=
  walk_machine <| mem ::= fun b => store_bytes b 0x80011010 8 ((0x80000 << 10) .| 0xc7) |>.

Lemma store_machine_ready : store_ready (Cfg := riscv64_ref) store_machine.
Proof.
  apply store_ready_mem. split.
  - split; [|split]; vm_compute; (reflexivity || intros [=]).
  - apply walk_machine_ready.
  - assert (E : tlb walk_machine = tlb machine_init) by (vm_compute; reflexivity).
    rewrite E. intros s i. destruct s; cbn; rewrite aget_empty; done.
Qed.


Lemma vaddr_read_pure_witness :
  let '(o, m') := vaddr_read (Cfg := riscv64_ref) 0x40410008 8 store_machine in
  o = Ret 0x20004401 /\ steady (Cfg := riscv64_ref) store_machine m'.
Proof.
  pose proof (vaddr_read_pure (Cfg := riscv64_ref) eq_refl 0x40410008 8 store_machine ltac:(lia) ltac:(lia)) as H.
  assert (E : fst (vaddr_read (Cfg := riscv64_ref) 0x40410008 8 store_machine) = Ret 0x20004401)
    by (vm_compute; reflexivity).
  destruct (vaddr_read _ _ _) as [o m']. split; [exact E|exact H].
Defined.
