(* ===== verification/Decode.v ===== *)
(** * Decode: a decoded instruction, the register file and the operands
    ([cpu/decode.h], [reg.h] and [decode_operand] of [inst.c])

    An instruction body runs in the effect monad and returns [s->dnpc], the
    address to continue at. *)
From S2P Require Import Prelude Config RvC Machine Trap.

(** The monad's return, whose name the instruction [mret] takes. *)
Abbreviation ret := stdpp.base.mret.

(** [s->pc], [s->snpc] and [s->isa.inst], which a body only reads. *)
Record Decode := mk_Decode { d_pc : Z; d_snpc : Z; d_inst : Z }.

(** The operation of a C function that returns a value and updates the hart. *)
Definition lift {A} (f : machine -> A * machine) : M machine A :=
  fun m => let '(a, m) := f m in (Ret a, m).

Section Decode.
Context {Cfg : Config}.

(** ** Registers; an index out of range fails an assertion *)

Definition check_reg_idx (idx : Z) : bool := (0 <=? idx) && (idx <? if CONFIG_RVE then 16 else 32).
Definition gprM (idx : Z) : M machine Z := if check_reg_idx idx then gets (fun m => R m idx) else panic.
Definition set_gprM (idx v : Z) : M machine unit :=
  if check_reg_idx idx then modify (setR idx v) else panic.

Definition check_fpr_idx (idx : Z) : bool := (0 <=? idx) && (idx <? 32).
Definition fprM (idx : Z) : M machine Z :=
  if check_fpr_idx idx then gets (fun m => aget (fpr m) idx) else panic.
Definition set_fprM (idx v : Z) : M machine unit :=
  if check_fpr_idx idx then modify (fun m => m <| fpr ::= fun a => aset a idx v |>) else panic.

Definition csrM (csr : Z) : M machine Z := gets (fun m => CSR m csr).
Definition privM : M machine Z := gets priv.
Definition virtM : M machine bool := gets virt.

(** ** Exceptions *)

Definition raise (NO epc : Z) : M machine Z := lift (isa_raise_intr NO epc).
(** ... of an instruction the reference is told to skip. *)
Definition raise_skip (NO epc : Z) : M machine Z :=
  dnpc ← raise NO epc; modify difftest_skip_ref;; ret dnpc.

(** ** Operands *)

Inductive inst_type := TYPE_R | TYPE_I | TYPE_I_I | TYPE_S | TYPE_B | TYPE_U | TYPE_J | TYPE_N.

Record operands := mk_operands { rd : Z; rs1 : Z; src1 : Z; src2 : Z; imm : Z }.

Definition decode_operand (s : Decode) (type : inst_type) : M machine operands :=
  let i := d_inst s in
  let rs1 := BITS i 19 15 in
  let rs2 := BITS i 24 20 in
  let ops := mk_operands (BITS i 11 7) rs1 in
  match type with
  | TYPE_R => a ← gprM rs1; b ← gprM rs2; ret (ops a b 0)
  | TYPE_I => a ← gprM rs1; ret (ops a 0 (immI i))
  | TYPE_I_I => ret (ops rs1 0 (immI i))
  | TYPE_S => a ← gprM rs1; b ← gprM rs2; ret (ops a b (immS i))
  | TYPE_B => a ← gprM rs1; b ← gprM rs2; ret (ops a b (immB i))
  | TYPE_U => ret (ops 0 0 (immU i))
  | TYPE_J => ret (ops 0 0 (immJ i))
  | TYPE_N => ret (ops 0 0 0)
  end.

End Decode.
