(* ===== verification/MemFrame.v ===== *)
(** * MemFrame: what memory accesses leave alone

    A predicate is [MemStable] when it only looks at the registers of the hart
    and at the decode cache, and survives a flush of the latter; it is [Stable]
    when it only looks at the integer registers and the decode cache. Every
    operation of the memory system keeps the former, returning or jumping. *)
From S2P Require Import Prelude Config Tlb Machine Pmp Trap Hoare Paddr Mmu Vaddr Decode.

#[local] Open Scope Z_scope.

(** The registers of the hart, which memory accesses leave alone. *)
Definition hart (m : machine) :=
  (sr m, gpr m, fpr m, vreg m, (pc m, cpc m, inst m, priv m, virt m, csr_dirty m)).

(** A predicate of the registers and of the decode cache. *)
Class MemStable {Cfg : Config} (P : machine -> Prop) : Prop := {
  mem_eq : forall x y, hart y = hart x -> icache (tlb y) = icache (tlb x) ->
    icache_epoch (tlb y) = icache_epoch (tlb x) -> P x -> P y;
  mem_icache_flush : forall x, P x -> P (x <| tlb ::= icache_flush |>);
}.

(** A predicate of the integer registers and of the decode cache. *)
Class Stable {Cfg : Config} (P : machine -> Prop) : Prop := {
  stable_eq : forall x y, gpr y = gpr x -> icache (tlb y) = icache (tlb x) ->
    icache_epoch (tlb y) = icache_epoch (tlb x) -> P x -> P y;
  stable_icache_flush : forall x, P x -> P (x <| tlb ::= icache_flush |>);
}.

#[export] Instance stable_mem {Cfg : Config} (P : machine -> Prop) (H : Stable P) : MemStable P.
Proof. split; [intros x y E; apply stable_eq; by injection E | apply stable_icache_flush]. Qed.

(** The computation keeps [P], whether it returns or jumps. *)
Definition keeps {A} (P : machine -> Prop) (m : M machine A) : Prop := ptriple P m (fun _ => P) P.

Section Rules.
Context (P : machine -> Prop).

Lemma keeps_bind {A B} (m : M machine A) (k : A -> M machine B) :
  keeps P m -> (forall a, keeps P (k a)) -> keeps P (mbind k m).
Proof. intros Hm Hk. by eapply ptriple_bind. Qed.
Lemma keeps_ret {A} (a : A) : keeps P (ret a).
Proof. by apply ptriple_ret. Qed.
Lemma keeps_gets {A} (f : machine -> A) : keeps P (gets f).
Proof. by apply ptriple_gets. Qed.
Lemma keeps_get : keeps P get.
Proof. by intros m. Qed.
Lemma keeps_longjmp {A} code : keeps P (longjmp (A := A) code).
Proof. by intros m. Qed.
Lemma keeps_panic {A} : keeps P (panic (A := A)).
Proof. by intros m. Qed.
Lemma keeps_modify f : (forall m, P m -> P (f m)) -> keeps P (modify f).
Proof. intros H. by apply ptriple_modify. Qed.
Lemma keeps_when b (m : M machine unit) : keeps P m -> keeps P (when b m).
Proof. intros H. apply ptriple_when; auto. Qed.
Lemma keeps_lift {A} (f : machine -> A * machine) : (forall m, P m -> P (f m).2) -> keeps P (lift f).
Proof. intros H m Hm. specialize (H m Hm). unfold lift. by destruct (f m). Qed.
End Rules.

(** The state function keeps [P]. *)
Definition stays (P : machine -> Prop) (f : machine -> machine) : Prop := forall m, P m -> P (f m).
Definition returns {A} (P : machine -> Prop) (f : machine -> A * machine) : Prop := forall m, P m -> P (f m).2.

(** ** Automation *)

(** The lemmas on the operations. *)
Create HintDb stable discriminated.
Create HintDb keeps discriminated.
#[export] Hint Constants Opaque : stable.
#[export] Hint Constants Opaque : keeps.
#[export] Hint Extern 0 (MemStable _) => exact _ : stable keeps.

Lemma stable_state (P Q : machine -> Prop) (e : machine) : P e -> (forall y, P y -> Q y) -> Q e.
Proof. auto. Qed.
Lemma stable_value {A} (Q : A -> Prop) (e : A) : (forall y, Q y) -> Q e.
Proof. auto. Qed.
Lemma stable_stays P f m : stays P f -> P m -> P (f m).
Proof. auto. Qed.
Lemma stable_returns {A} P (f : machine -> A * machine) m : returns P f -> P m -> P (f m).2.
Proof. auto. Qed.
Lemma stable_foldl {A} (P : machine -> Prop) (f : machine -> A -> machine) l m :
  (forall m x, P m -> P (f m x)) -> P m -> P (foldl f m l).
Proof. intros Hf. revert m. induction l as [|x l IH]; intros m Hm; [done|]. apply IH, Hf, Hm. Qed.

(** Proves [P x], where [x] is a state computed from a state of which [P] holds. *)
Ltac stable1 :=
  lazymatch goal with
  | H : ?P ?m |- ?P ?m => exact H
  | |- ?P (snd (?a, ?b)) => change (P b)
  | |- ?P (let x := ?e in @?b x) => stable_let P e (fun y => P (b y))
  | |- ?P (snd (let x := ?e in @?b x)) => stable_let P e (fun y => P (snd (b y)))
  | |- ?P (snd (match ?x with _ => _ end)) => stable_case P x
  | |- ?P (match ?x with _ => _ end) => stable_case P x
  | |- ?P (upd tlb icache_flush ?m) => refine (mem_icache_flush (P := P) m _)
  | |- ?P (upd ?p ?f ?m) => stable_skip P m (upd p f m)
  | |- ?P (setCSR ?c ?v ?m) => stable_skip P m (setCSR c v m)
  | |- ?P (difftest_skip_ref ?m) => stable_skip P m (difftest_skip_ref m)
  | |- ?P (snd (?f ?m)) => refine (stable_returns P f m _ _); [solve [eauto 2 with stable nocore]|]
  | |- ?P (foldl ?f ?m ?l) => refine (stable_foldl P f l m _ _); [intros|]
  | |- ?P (?f ?m) => refine (stable_stays P f m _ _); [solve [eauto 2 with stable nocore]|]
  end
with stable_skip P x y :=
  first [ refine (stable_eq (P := P) x y _ _ _ _); [mach; reflexivity | mach; reflexivity | mach; reflexivity |]
        | refine (mem_eq (P := P) x y _ _ _ _); [unfold hart; mach; reflexivity | mach; reflexivity | mach; reflexivity |] ]
with stable_let P e Q :=
  lazymatch type of e with
  | machine => refine (stable_state P Q e _ _); [|let y := fresh "m" in let H := fresh "K" in intros y H; cbv beta]
  | _ => refine (stable_value Q e _); intros ?; cbv beta
  end
with stable_case P x :=
  lazymatch type of x with
  | prod _ machine =>
      let H := fresh "K" in assert (H : P (snd x)); [|destruct x; cbn [snd] in *]
  | _ => destruct x
  end.
Ltac stable := repeat stable1.
Tactic Notation "stable_of" reference(op) := intros ??; cbv beta delta [op]; stable.

Ltac keeps1 :=
  lazymatch goal with
  | H : keeps ?P ?m |- keeps ?P ?m => exact H
  | |- keeps _ (mbind _ _) => apply keeps_bind; [|intros ?]
  | |- keeps _ (stdpp.base.mret _) => apply keeps_ret
  | |- keeps _ (gets _) => apply keeps_gets
  | |- keeps _ get => apply keeps_get
  | |- keeps _ (longjmp _) => apply keeps_longjmp
  | |- keeps _ panic => apply keeps_panic
  | |- keeps _ (when _ _) => apply keeps_when
  | |- keeps _ (modify _) => apply keeps_modify; intros ? ?; stable
  | |- keeps _ (lift _) => apply keeps_lift; intros ? ?; stable
  | |- keeps ?P (let x := ?e in @?b x) => refine (stable_value (fun y => keeps P (b y)) e _); intros ?; cbv beta
  | |- keeps _ (match ?x with _ => _ end) => destruct x
  | |- keeps _ _ => solve [eauto 2 with keeps nocore]
  end.
Tactic Notation "keeping" reference(op) := intros; cbv beta delta [op]; repeat keeps1.

Section MemFrame.
Context {Cfg : Config} {P : machine -> Prop} {HP : MemStable P}.

Lemma stable_flush : stays P machine_soft_tlb_flush.
Proof.
  intros m H. apply mem_icache_flush in H. revert H.
  destruct (flush_arrays (tlb m)) as (_ & _ & _ & _ & Ei & Ee).
  apply mem_eq; done.
Qed.
#[local] Hint Resolve stable_flush : stable.

(** ** PMP *)

Lemma stable_pmp_byte_lookup a : returns P (pmp_byte_lookup a).
Proof. stable_of pmp_byte_lookup. Qed.
Lemma stable_pmp_fault a : returns P (pmp_fault a).
Proof. stable_of pmp_fault. Qed.
#[local] Hint Resolve stable_pmp_byte_lookup stable_pmp_fault : stable.

Lemma stable_pmp_covered n addr addr_hi size e0 offset : returns P (pmp_covered n addr addr_hi size e0
  offset).
Proof. revert offset. induction n as [|n IH]; intros offset m H; cbn [pmp_covered]; stable; by apply IH.
  Qed.
#[local] Hint Resolve stable_pmp_covered : stable.

Lemma stable_pmp_check addr size0 privilege op_r op_w op_x : returns P (pmp_check addr size0 privilege op_r
  op_w op_x).
Proof. stable_of pmp_check. Qed.
#[local] Hint Resolve stable_pmp_check : stable.

(** ** Physical memory *)

Lemma keeps_host_read a len : keeps P (host_read a len).
Proof. keeping host_read. Qed.
Lemma keeps_host_write a len data : keeps P (host_write a len data).
Proof. keeping host_write. Qed.
Lemma keeps_guest_to_host a : keeps P (guest_to_host a).
Proof. keeping guest_to_host. Qed.
Lemma keeps_fault {A} c code : keeps P (fault (A := A) c code).
Proof. keeping fault. Qed.
Lemma keeps_ref_paddr_io a : keeps P (ref_paddr_io a).
Proof. keeping ref_paddr_io. Qed.
#[local] Hint Resolve keeps_host_read keeps_host_write keeps_guest_to_host keeps_fault keeps_ref_paddr_io : keeps.

Lemma keeps_out_of_bound {A} : keeps P (out_of_bound (A := A)).
Proof. keeping out_of_bound. Qed.
Lemma keeps_pmem_read a len : keeps P (pmem_read a len).
Proof. keeping pmem_read. Qed.
Lemma keeps_pmem_write a len data : keeps P (pmem_write a len data).
Proof. keeping pmem_write. Qed.
#[local] Hint Resolve keeps_out_of_bound keeps_pmem_read keeps_pmem_write : keeps.

Lemma keeps_paddr_read a len : keeps P (paddr_read a len).
Proof. keeping paddr_read. Qed.
Lemma keeps_paddr_write a len data : keeps P (paddr_write a len data).
Proof. keeping paddr_write. Qed.
Lemma keeps_pmp_checkM a size privilege op_r op_w op_x : keeps P (pmp_checkM a size privilege op_r op_w
  op_x).
Proof. apply (keeps_lift P (pmp_check a size privilege op_r op_w op_x)). apply stable_pmp_check. Qed.
#[local] Hint Resolve keeps_paddr_read keeps_paddr_write keeps_pmp_checkM : keeps.

(** ** Translation *)

Lemma keeps_ptw_denied a size : keeps P (ptw_denied a size).
Proof. keeping ptw_denied. Qed.
#[local] Hint Resolve keeps_ptw_denied : keeps.

Lemma keeps_gstage_leaf guest_address pte_address pte level store execute_access cmo implicit : keeps P
  (gstage_leaf guest_address pte_address pte level store execute_access cmo implicit).
Proof. keeping gstage_leaf. Qed.
#[local] Hint Resolve keeps_gstage_leaf : keeps.

Lemma keeps_gstage_walk guest_address store execute_access cmo implicit level table : keeps P (gstage_walk
  guest_address store execute_access cmo implicit level table).
Proof. revert table. induction level as [|level IH]; intros table; cbn [gstage_walk]; repeat keeps1; apply
  IH. Qed.
#[local] Hint Resolve keeps_gstage_walk : keeps.

Lemma keeps_riscv_gstage_translate guest_address store execute_access cmo implicit : keeps P
  (riscv_gstage_translate guest_address store execute_access cmo implicit).
Proof. keeping riscv_gstage_translate. Qed.
Lemma keeps_vstage_pte_fault a write status : keeps P (vstage_pte_fault a write status).
Proof. keeping vstage_pte_fault. Qed.
#[local] Hint Resolve keeps_riscv_gstage_translate keeps_vstage_pte_fault : keeps.

Lemma keeps_vstage_leaf guest_address guest_pte_address pte level store execute_access virtual_supervisor
  cmo : keeps P (vstage_leaf guest_address guest_pte_address pte level store execute_access
  virtual_supervisor cmo).
Proof. keeping vstage_leaf. Qed.
#[local] Hint Resolve keeps_vstage_leaf : keeps.

Lemma keeps_vstage_walk guest_address store execute_access virtual_supervisor cmo level table : keeps P
  (vstage_walk guest_address store execute_access virtual_supervisor cmo level table).
Proof. revert table. induction level as [|level IH]; intros table; cbn [vstage_walk]; repeat keeps1; apply
  IH. Qed.
#[local] Hint Resolve keeps_vstage_walk : keeps.

Lemma keeps_riscv_vstage_translate guest_address store execute_access virtual_supervisor cmo : keeps P
  (riscv_vstage_translate guest_address store execute_access virtual_supervisor cmo).
Proof. keeping riscv_vstage_translate. Qed.
Lemma keeps_sv39_walk va type level a : keeps P (sv39_walk va type level a).
Proof. revert a. induction level as [|level IH]; intros a; cbn [sv39_walk]; repeat keeps1; apply IH. Qed.
Lemma keeps_sv32_walk va type level a : keeps P (sv32_walk va type level a).
Proof. revert a. induction level as [|level IH]; intros a; cbn [sv32_walk]; repeat keeps1; apply IH. Qed.
#[local] Hint Resolve keeps_riscv_vstage_translate keeps_sv39_walk keeps_sv32_walk : keeps.

Lemma keeps_sv39_translate va type : keeps P (sv39_translate va type).
Proof. keeping sv39_translate. Qed.
Lemma keeps_sv32_translate va type : keeps P (sv32_translate va type).
Proof. keeping sv32_translate. Qed.
Lemma keeps_guest_translate va type : keeps P (guest_translate va type).
Proof. keeping guest_translate. Qed.
#[local] Hint Resolve keeps_sv39_translate keeps_sv32_translate keeps_guest_translate : keeps.

Lemma keeps_isa_mmu_translate_attrs va type : keeps P (isa_mmu_translate_attrs va type).
Proof. keeping isa_mmu_translate_attrs. Qed.
#[local] Hint Resolve keeps_isa_mmu_translate_attrs : keeps.

Lemma keeps_isa_mmu_translate va type : keeps P (isa_mmu_translate va type).
Proof. keeping isa_mmu_translate. Qed.
#[local] Hint Resolve keeps_isa_mmu_translate : keeps.

(** ** Virtual memory *)

Lemma keeps_set_g_vaddr a : keeps P (set_g_vaddr a).
Proof. keeping set_g_vaddr. Qed.
Lemma keeps_mmu_checkM type : keeps P (mmu_checkM type).
Proof. keeping mmu_checkM. Qed.
Lemma keeps_pointer_maskM a : keeps P (pointer_maskM a).
Proof. keeping pointer_maskM. Qed.
Lemma keeps_report_pmp_fault a pa translated : keeps P (report_pmp_fault a pa translated).
Proof. keeping report_pmp_fault. Qed.
Lemma keeps_tlb_lookupM s va : keeps P (tlb_lookupM s va).
Proof. keeping tlb_lookupM. Qed.
Lemma keeps_tlb_missM s va type : keeps P (tlb_missM s va type).
Proof. unfold tlb_missM. apply keeps_bind; [apply keeps_isa_mmu_translate_attrs|]. intros [pa pbmt]. apply
  keeps_bind; [|intros _; apply keeps_ret]. apply keeps_modify. intros m. destruct s; by apply mem_eq.
  Qed.
Lemma keeps_ifetch_denied pa len : keeps P (ifetch_denied pa len).
Proof. keeping ifetch_denied. Qed.
Lemma keeps_data_fault store : keeps P (data_fault store).
Proof. keeping data_fault. Qed.
#[local] Hint Resolve keeps_set_g_vaddr keeps_mmu_checkM keeps_pointer_maskM keeps_report_pmp_fault keeps_tlb_lookupM keeps_tlb_missM keeps_ifetch_denied keeps_data_fault : keeps.

Lemma keeps_vaddr_ifetch_piece a len : keeps P (vaddr_ifetch_piece a len).
Proof. keeping vaddr_ifetch_piece. Qed.
Lemma keeps_check_data_pma pa len store : keeps P (check_data_pma pa len store).
Proof. keeping check_data_pma. Qed.
Lemma keeps_check_data_type pa pbmt misaligned store original_len : keeps P (check_data_type pa pbmt
  misaligned store original_len).
Proof. keeping check_data_type. Qed.
#[local] Hint Resolve keeps_vaddr_ifetch_piece keeps_check_data_pma keeps_check_data_type : keeps.

Lemma keeps_vaddr_ifetch a len : keeps P (vaddr_ifetch a len).
Proof. keeping vaddr_ifetch. Qed.
Lemma keeps_check_data a pa len pbmt translated store misaligned original_len : keeps P (check_data a pa len
  pbmt translated store misaligned original_len).
Proof. keeping check_data. Qed.
#[local] Hint Resolve keeps_vaddr_ifetch keeps_check_data : keeps.

Lemma keeps_checked_data_piece_attrs a len store misaligned original_len : keeps P (checked_data_piece_attrs
  a len store misaligned original_len).
Proof. keeping checked_data_piece_attrs. Qed.
#[local] Hint Resolve keeps_checked_data_piece_attrs : keeps.

Lemma keeps_checked_data_piece a len store misaligned original_len : keeps P (checked_data_piece a len store
  misaligned original_len).
Proof. keeping checked_data_piece. Qed.
Lemma keeps_split_access a len type : keeps P (split_access a len type).
Proof. keeping split_access. Qed.
Lemma keeps_data_translate s a type : keeps P (data_translate s a type).
Proof. keeping data_translate. Qed.
#[local] Hint Resolve keeps_checked_data_piece keeps_split_access keeps_data_translate : keeps.

Lemma keeps_checked_data_address a len store : keeps P (checked_data_address a len store).
Proof. keeping checked_data_address. Qed.
Lemma keeps_read_split lo hi first n i value : keeps P (read_split lo hi first n i value).
Proof. revert i value. induction n as [|n IH]; intros i value; cbn [read_split]; repeat keeps1; apply IH.
  Qed.
#[local] Hint Resolve keeps_checked_data_address keeps_read_split : keeps.

Lemma stable_drop_reservation pa : stays P (drop_reservation pa).
Proof. stable_of drop_reservation. Qed.
#[local] Hint Resolve stable_drop_reservation : stable.

Lemma keeps_write_split lo hi first data n i : keeps P (write_split lo hi first data n i).
Proof. revert i. induction n as [|n IH]; intros i; cbn [write_split]; repeat keeps1; apply IH. Qed.
#[local] Hint Resolve keeps_write_split : keeps.

Lemma keeps_vaddr_probe_vector a len store : keeps P (vaddr_probe_vector a len store).
Proof. keeping vaddr_probe_vector. Qed.
Lemma keeps_vaddr_check_reservation a len store : keeps P (vaddr_check_reservation a len store).
Proof. keeping vaddr_check_reservation. Qed.
Lemma keeps_vaddr_check_zero a : keeps P (vaddr_check_zero a).
Proof. keeping vaddr_check_zero. Qed.
Lemma keeps_vaddr_check_store a len : keeps P (vaddr_check_store a len).
Proof. keeping vaddr_check_store. Qed.
Lemma keeps_vaddr_check_cmo a : keeps P (vaddr_check_cmo a).
Proof. keeping vaddr_check_cmo. Qed.
Lemma keeps_vaddr_read_piece a len original_len original_misaligned : keeps P (vaddr_read_piece a len
  original_len original_misaligned).
Proof. keeping vaddr_read_piece. Qed.
Lemma keeps_vaddr_write a len data : keeps P (vaddr_write a len data).
Proof. keeping vaddr_write. Qed.
#[local] Hint Resolve keeps_vaddr_probe_vector keeps_vaddr_check_reservation keeps_vaddr_check_zero keeps_vaddr_check_store keeps_vaddr_check_cmo keeps_vaddr_read_piece keeps_vaddr_write : keeps.

Lemma keeps_vaddr_check_amo a len : keeps P (vaddr_check_amo a len).
Proof. keeping vaddr_check_amo. Qed.
Lemma keeps_vaddr_read a len : keeps P (vaddr_read a len).
Proof. keeping vaddr_read. Qed.
#[local] Hint Resolve keeps_vaddr_check_amo keeps_vaddr_read : keeps.

End MemFrame.

#[export] Hint Resolve stable_flush stable_pmp_byte_lookup stable_pmp_fault stable_pmp_covered
  stable_pmp_check stable_drop_reservation : stable.
#[export] Hint Resolve keeps_host_read keeps_host_write keeps_guest_to_host keeps_fault keeps_ref_paddr_io
  keeps_out_of_bound keeps_pmem_read keeps_pmem_write keeps_paddr_read keeps_paddr_write keeps_pmp_checkM
  keeps_ptw_denied keeps_gstage_leaf keeps_gstage_walk keeps_riscv_gstage_translate keeps_vstage_pte_fault
  keeps_vstage_leaf keeps_vstage_walk keeps_riscv_vstage_translate keeps_sv39_walk keeps_sv32_walk
  keeps_sv39_translate keeps_sv32_translate keeps_guest_translate keeps_isa_mmu_translate_attrs
  keeps_isa_mmu_translate keeps_set_g_vaddr keeps_mmu_checkM keeps_pointer_maskM keeps_report_pmp_fault
  keeps_tlb_lookupM keeps_tlb_missM keeps_ifetch_denied keeps_data_fault keeps_vaddr_ifetch_piece
  keeps_check_data_pma keeps_check_data_type keeps_vaddr_ifetch keeps_check_data
  keeps_checked_data_piece_attrs keeps_checked_data_piece keeps_split_access keeps_data_translate
  keeps_checked_data_address keeps_read_split keeps_write_split keeps_vaddr_probe_vector
  keeps_vaddr_check_reservation keeps_vaddr_check_zero keeps_vaddr_check_store keeps_vaddr_check_cmo
  keeps_vaddr_read_piece keeps_vaddr_write keeps_vaddr_check_amo keeps_vaddr_read : keeps.

(** ** Precise accesses *)

Section Precise.
Context {Cfg : Config}.

#[local] Instance hart_stable h : MemStable (fun m => hart m = h).
Proof. split; [by intros x y -> | done]. Qed.

Lemma keeps_hart {A} (op : M machine A) m : keeps (fun x => hart x = hart m) op -> hart (op m).2 = hart m.
Proof. intros H. specialize (H m eq_refl). by destruct (op m) as [[a|c|] m']. Qed.

(** Memory accesses are precise: whether a fetch, a load or a store returns,
    traps in the translation, the protection or the bus, or aborts the host, the
    program counter, the integer, floating-point and vector registers, the CSRs,
    the privilege and the virtualisation mode are those it started with. *)
Theorem vaddr_access_precise a len data m :
  hart (vaddr_ifetch a len m).2 = hart m /\
  hart (vaddr_read a len m).2 = hart m /\
  hart (vaddr_write a len data m).2 = hart m /\
  hart (vaddr_check_amo a len m).2 = hart m.
Proof. split_and!; apply keeps_hart; solve [eauto 2 with keeps nocore]. Qed.

End Precise.
