(* ===== verification/FpExec.v ===== *)
(** * FpExec: the floating-point instructions ([fp-exec.c]) *)
From S2P Require Import Prelude Config Alu Fp Machine Trap Vector Vaddr Decode.

Section FpExec.
Context {Cfg : Config} {SF : SoftFloat}.

(** ** Access to the unit *)

(** The extensions an instruction needs, as bits of MISA. *)
Definition fp_required (double_precision : bool) : Z :=
  CSR_MISA_EXT_F .| (if double_precision then CSR_MISA_EXT_D else 0).

Definition fp_denied (double_precision : bool) (m : machine) : bool :=
  let required := fp_required double_precision in
  negb ((CSR m CSR_MISA .& required) =? required)
  || (((CSR m CSR_MSTATUS .& CSR_MSTATUS_FS_MASK) >> 13) =? 0)
  || (virt m && negb (nz (CSR m CSR_VSSTATUS .& CSR_MSTATUS_FS_MASK))).

(** [None] when the unit is usable, or the address of the trap handler. *)
Definition fp_access (s : Decode) (double_precision : bool) : M machine (option Z) :=
  denied ← gets (fp_denied double_precision);
  if denied : bool then dnpc ← raise_skip MCA_ILLEGAL_INS (d_pc s); ret (Some dnpc) else ret None.

Definition fp_frm (m : machine) : Z := (CSR m CSR_FCSR >> 5) .& 0x7.
Definition fp_rm_valid (rm : Z) (m : machine) : bool := (if rm =? 7 then fp_frm m else rm) <=? 4.
Definition fp_rm_resolve (rm : Z) (m : machine) : Z := if rm =? 7 then fp_frm m else rm.

Definition fp_mark_dirty (m : machine) : machine :=
  let m := setCSR CSR_MSTATUS ((CSR m CSR_MSTATUS .& wnot CSR_MSTATUS_FS_MASK) .| (3 << 13)) m in
  let m := if virt m then orCSR CSR_VSSTATUS CSR_MSTATUS_FS_MASK m else m in
  m <| csr_dirty := true |>.

Definition fp_merge_flags (flags : Z) (m : machine) : machine :=
  fp_mark_dirty (setCSR CSR_FCSR ((CSR m CSR_FCSR .& wnot 0x1f) .| ((CSR m CSR_FCSR .| flags) .& 0x1f)) m).

(** The body of an instruction behind [fp_access] ... *)
Definition with_access (s : Decode) (double_precision : bool) (body : M machine unit) : M machine Z :=
  trap ← fp_access s double_precision;
  match trap with Some dnpc => ret dnpc | None => body;; ret (d_snpc s) end.

(** ... and behind [fp_prepare], which also checks the rounding mode; the body
    takes the mode resolved. *)
Definition with_prepare (s : Decode) (double_precision : bool) (body : Z -> M machine unit) : M machine Z :=
  let rm := BITS (d_inst s) 14 12 in
  valid ← gets (fp_rm_valid rm);
  if negb valid then raise_skip MCA_ILLEGAL_INS (d_pc s)
  else with_access s double_precision (mode ← gets (fp_rm_resolve rm); body mode).

Definition fp_rs1 (s : Decode) : Z := BITS (d_inst s) 19 15.
Definition fp_rs2 (s : Decode) : Z := BITS (d_inst s) 24 20.
Definition fp_rs3 (s : Decode) : Z := BITS (d_inst s) 31 27.

(** Reads of a single or half operand, and the writes of a result. *)
Definition read_s (idx : Z) : M machine Z := bits ← fprM idx; ret (riscv_fp_read_s bits).
Definition read_h (idx : Z) : M machine Z := bits ← fprM idx; ret (riscv_fp_read_h bits).
Definition write_fp (rd bits : Z) : M machine unit := set_fprM rd bits;; modify fp_mark_dirty.
Definition write_flags (rd bits flags : Z) : M machine unit := set_fprM rd bits;; modify (fp_merge_flags flags).
Definition write_int (rd value flags : Z) : M machine unit :=
  set_gprM rd (word value);; when (nz flags) (modify (fp_merge_flags flags)).

(** ** Memory *)

Definition fp_read_d_mem (addr : Z) : M machine Z :=
  if CONFIG_RV64 then vaddr_read addr 8
  else
    let misaligned := nz (addr .& 7) in
    lo ← vaddr_read_piece addr 4 8 misaligned;
    hi ← vaddr_read_piece (word (addr + 4)) 4 8 misaligned;
    ret (wrap 32 lo .| (wrap 32 hi << 32)).

Definition fp_write_d_mem (addr data : Z) : M machine unit :=
  if CONFIG_RV64 then vaddr_write addr 8 (word data)
  else
    vaddr_check_store addr 8;;
    vaddr_write addr 4 (word data);;
    vaddr_write (word (addr + 4)) 4 (word (data >> 32)).

Definition fp_load_s (s : Decode) (rd addr : Z) : M machine Z :=
  with_access s false (v ← vaddr_read addr 4; write_fp rd (riscv_fp_box_s (wrap 32 v))).
Definition fp_load_d (s : Decode) (rd addr : Z) : M machine Z :=
  with_access s true (v ← fp_read_d_mem addr; write_fp rd v).
Definition fp_load_h (s : Decode) (rd addr : Z) : M machine Z :=
  with_access s false (v ← vaddr_read addr 2; write_fp rd (riscv_fp_box_h (wrap 16 v))).
Definition fp_store_s (s : Decode) (addr rs2 : Z) : M machine Z :=
  with_access s false (bits ← fprM rs2; vaddr_write addr 4 (riscv_fp_s_bits bits)).
Definition fp_store_d (s : Decode) (addr rs2 : Z) : M machine Z :=
  with_access s true (bits ← fprM rs2; fp_write_d_mem addr bits).
Definition fp_store_h (s : Decode) (addr rs2 : Z) : M machine Z :=
  with_access s false (bits ← fprM rs2; vaddr_write addr 2 (riscv_fp_h_bits bits)).

(** ** Moves *)

Definition fp_move_to_s (s : Decode) (rd value : Z) : M machine Z :=
  with_access s false (write_fp rd (riscv_fp_box_s (wrap 32 value))).
Definition fp_move_from_s (s : Decode) (rd rs1 : Z) : M machine Z :=
  with_access s false (bits ← fprM rs1; set_gprM rd (word (SEXT (riscv_fp_s_bits bits) 32))).
Definition fp_move_to_d (s : Decode) (rd value : Z) : M machine Z :=
  with_access s true (write_fp rd value).
Definition fp_move_from_d (s : Decode) (rd rs1 : Z) : M machine Z :=
  with_access s true (bits ← fprM rs1; set_gprM rd (word bits)).
Definition fp_move_to_h (s : Decode) (rd value : Z) : M machine Z :=
  with_access s false (write_fp rd (riscv_fp_box_h (wrap 16 value))).
Definition fp_move_from_h (s : Decode) (rd rs1 : Z) : M machine Z :=
  with_access s false (bits ← fprM rs1; set_gprM rd (word (SEXT (riscv_fp_h_bits bits) 16))).

Definition fp_sign_inject_s (s : Decode) (rd rs1 rs2 mode : Z) : M machine Z :=
  with_access s false (a ← fprM rs1; b ← fprM rs2; write_fp rd (riscv_fp_sgnj a b mode)).
Definition fp_sign_inject_d (s : Decode) (rd rs1 rs2 mode : Z) : M machine Z :=
  with_access s true
    (a ← fprM rs1; b ← fprM rs2;
     let top := 0x8000000000000000 in
     let sign := if mode =? 1 then wrap 64 (~~ b) .& top
                 else if mode =? 2 then (a .^ b) .& top else b .& top in
     write_fp rd ((a .& 0x7fffffffffffffff) .| sign)).

(** ** Arithmetic *)

Definition fp_exec_binary_s (s : Decode) (rd rs1 rs2 : Z) (operation : Z -> Z -> Z -> Z * Z) : M machine Z :=
  with_prepare s false (fun rm =>
    a ← read_s rs1; b ← read_s rs2;
    let '(v, flags) := operation a b rm in write_flags rd (riscv_fp_box_s v) flags).
Definition fp_exec_binary_d (s : Decode) (rd rs1 rs2 : Z) (operation : Z -> Z -> Z -> Z * Z) : M machine Z :=
  with_prepare s true (fun rm =>
    a ← fprM rs1; b ← fprM rs2;
    let '(v, flags) := operation a b rm in write_flags rd v flags).
Definition fp_exec_unary_s (s : Decode) (rd rs1 : Z) (operation : Z -> Z -> Z * Z) : M machine Z :=
  with_prepare s false (fun rm =>
    a ← read_s rs1;
    let '(v, flags) := operation a rm in write_flags rd (riscv_fp_box_s v) flags).
Definition fp_exec_unary_d (s : Decode) (rd rs1 : Z) (operation : Z -> Z -> Z * Z) : M machine Z :=
  with_prepare s true (fun rm =>
    a ← fprM rs1; let '(v, flags) := operation a rm in write_flags rd v flags).

Definition fp_exec_fma_s (s : Decode) (rd rs1 rs2 rs3 : Z) (negate_product negate_addend : bool) : M machine Z :=
  with_prepare s false (fun rm =>
    a ← read_s rs1; b ← read_s rs2; c ← read_s rs3;
    let '(v, flags) := riscv_fp_fma_s a b c rm negate_product negate_addend in
    write_flags rd (riscv_fp_box_s v) flags).
Definition fp_exec_fma_d (s : Decode) (rd rs1 rs2 rs3 : Z) (negate_product negate_addend : bool) : M machine Z :=
  with_prepare s true (fun rm =>
    a ← fprM rs1; b ← fprM rs2; c ← fprM rs3;
    let '(v, flags) := riscv_fp_fma_d a b c rm negate_product negate_addend in write_flags rd v flags).

Definition fp_exec_minmax_s (s : Decode) (rd rs1 rs2 : Z) (operation : Z -> Z -> Z * Z) : M machine Z :=
  with_access s false
    (a ← read_s rs1; b ← read_s rs2;
     let '(v, flags) := operation a b in write_flags rd (riscv_fp_box_s v) flags).
Definition fp_exec_minmax_d (s : Decode) (rd rs1 rs2 : Z) (operation : Z -> Z -> Z * Z) : M machine Z :=
  with_access s true
    (a ← fprM rs1; b ← fprM rs2; let '(v, flags) := operation a b in write_flags rd v flags).
Definition fp_exec_compare_s (s : Decode) (rd rs1 rs2 : Z) (operation : Z -> Z -> Z * Z) : M machine Z :=
  with_access s false
    (a ← read_s rs1; b ← read_s rs2; let '(v, flags) := operation a b in write_int rd v flags).
Definition fp_exec_compare_d (s : Decode) (rd rs1 rs2 : Z) (operation : Z -> Z -> Z * Z) : M machine Z :=
  with_access s true
    (a ← fprM rs1; b ← fprM rs2; let '(v, flags) := operation a b in write_int rd v flags).
Definition fp_exec_class_s (s : Decode) (rd rs1 : Z) : M machine Z :=
  with_access s false (a ← read_s rs1; set_gprM rd (riscv_fp_class_s a)).
Definition fp_exec_class_d (s : Decode) (rd rs1 : Z) : M machine Z :=
  with_access s true (a ← fprM rs1; set_gprM rd (riscv_fp_class_d a)).

(** ** Conversions *)

(** [int64 ? value : SEXT((uint32_t)value, 32)]. *)
Definition int_value (int64 : bool) (value : Z) : Z := if int64 then value else SEXT (wrap 32 value) 32.

Definition fp_exec_to_int_s (s : Decode) (rd rs1 : Z) (unsigned_result int64 : bool) : M machine Z :=
  with_prepare s false (fun rm =>
    a ← read_s rs1;
    let '(v, flags) := riscv_fp_to_int_s a rm unsigned_result int64 in write_int rd (int_value int64 v) flags).
Definition fp_exec_to_int_d (s : Decode) (rd rs1 : Z) (unsigned_result int64 : bool) : M machine Z :=
  with_prepare s true (fun rm =>
    a ← fprM rs1;
    let '(v, flags) := riscv_fp_to_int_d a rm unsigned_result int64 in write_int rd (int_value int64 v) flags).
Definition fp_exec_from_int_s (s : Decode) (rd value : Z) (unsigned_input int64 : bool) : M machine Z :=
  with_prepare s false (fun rm =>
    let '(v, flags) := riscv_int_to_fp_s value rm unsigned_input int64 in
    write_flags rd (riscv_fp_box_s v) flags).
Definition fp_exec_from_int_d (s : Decode) (rd value : Z) (unsigned_input int64 : bool) : M machine Z :=
  with_prepare s true (fun rm =>
    let '(v, flags) := riscv_int_to_fp_d value rm unsigned_input int64 in write_flags rd v flags).

Definition fp_exec_convert_d_to_s (s : Decode) (rd rs1 : Z) : M machine Z :=
  with_prepare s true (fun rm =>
    a ← fprM rs1; let '(v, flags) := riscv_fp_convert_d_to_s a rm in write_flags rd (riscv_fp_box_s v) flags).
Definition fp_exec_convert_s_to_d (s : Decode) (rd rs1 : Z) : M machine Z :=
  with_prepare s true (fun rm =>
    a ← read_s rs1; let '(v, flags) := riscv_fp_convert_s_to_d a rm in write_flags rd v flags).
Definition fp_exec_convert_h_to_s (s : Decode) (rd rs1 : Z) : M machine Z :=
  with_prepare s false (fun rm =>
    a ← read_h rs1; let '(v, flags) := riscv_fp_convert_h_to_s a in write_flags rd (riscv_fp_box_s v) flags).
Definition fp_exec_convert_h_to_d (s : Decode) (rd rs1 : Z) : M machine Z :=
  with_prepare s true (fun rm =>
    a ← read_h rs1; let '(v, flags) := riscv_fp_convert_h_to_d a in write_flags rd v flags).
Definition fp_exec_convert_s_to_h (s : Decode) (rd rs1 : Z) : M machine Z :=
  with_prepare s false (fun rm =>
    a ← read_s rs1; let '(v, flags) := riscv_fp_convert_s_to_h a rm in write_flags rd (riscv_fp_box_h v) flags).
Definition fp_exec_convert_d_to_h (s : Decode) (rd rs1 : Z) : M machine Z :=
  with_prepare s true (fun rm =>
    a ← fprM rs1; let '(v, flags) := riscv_fp_convert_d_to_h a rm in write_flags rd (riscv_fp_box_h v) flags).

(** ** Zfa *)

Inductive fp_zfa_operation :=
  | FP_ZFA_LI | FP_ZFA_MINMAX | FP_ZFA_ROUND | FP_ZFA_QUIET
  | FP_ZFA_MOD | FP_ZFA_MOVE_HIGH | FP_ZFA_MOVE_PAIR.
#[global] Instance fp_zfa_operation_eq : EqDecision fp_zfa_operation.
Proof. solve_decision. Defined.

Definition is_zfa (a b : fp_zfa_operation) : bool := bool_decide (a = b).

Definition zfa_denied (operation : fp_zfa_operation) (double_precision : bool) (rm : Z) (m : machine) : bool :=
  let required := fp_required double_precision in
  negb (nz (riscv_isa_extensions m .& NEMU_ISA_EXT_ZFA))
  || negb ((CSR m CSR_MISA .& required) =? required)
  || negb (nz (CSR m CSR_MSTATUS .& CSR_MSTATUS_FS_MASK))
  || (virt m && negb (nz (CSR m CSR_VSSTATUS .& CSR_MSTATUS_FS_MASK)))
  || (is_zfa operation FP_ZFA_ROUND && negb (fp_rm_valid rm m))
  || (CONFIG_RV64 && (is_zfa operation FP_ZFA_MOVE_HIGH || is_zfa operation FP_ZFA_MOVE_PAIR)).

(** The result, its flags, and whether it goes to an integer register; [a] and
    [b] are the integer operands of [fmvp.d.x]. *)
Definition zfa_result (operation : fp_zfa_operation) (double_precision : bool) (rs1 rs2 rm mode lhs rhs a b : Z)
  : Z * Z * bool :=
  match operation with
  | FP_ZFA_LI => (riscv_fp_fli rs1 double_precision, 0, false)
  | FP_ZFA_MINMAX =>
      ((if double_precision then riscv_fp_minmaxm_d else riscv_fp_minmaxm_s) lhs rhs (nz (rm .& 1)), false)
  | FP_ZFA_ROUND =>
      ((if double_precision then riscv_fp_round_d else riscv_fp_round_s) lhs mode (nz (rs2 .& 1)), false)
  | FP_ZFA_QUIET =>
      ((if double_precision then riscv_fp_quiet_d else riscv_fp_quiet_s) lhs rhs (nz (rm .& 1)), true)
  | FP_ZFA_MOD => let '(v, flags) := riscv_fp_mod_w_d lhs in (SEXT v 32, flags, true)
  | FP_ZFA_MOVE_HIGH => (lhs >> 32, 0, true)
  | FP_ZFA_MOVE_PAIR => ((wrap 32 b << 32) .| wrap 32 a, 0, false)
  end.

Definition fp_exec_zfa (s : Decode) (operation : fp_zfa_operation) : M machine Z :=
  let i := d_inst s in
  let double_precision := nz (BITS i 25 25) in
  let rm := BITS i 14 12 in
  denied ← gets (zfa_denied operation double_precision rm);
  if denied : bool then raise MCA_ILLEGAL_INS (d_pc s)
  else
    let rd := BITS i 11 7 in
    lhs ← (if double_precision then fprM (fp_rs1 s) else read_s (fp_rs1 s));
    rhs ← (if double_precision then fprM (fp_rs2 s) else read_s (fp_rs2 s));
    mode ← gets (fp_rm_resolve rm);
    b ← (if is_zfa operation FP_ZFA_MOVE_PAIR then gprM (fp_rs2 s) else ret 0);
    a ← (if is_zfa operation FP_ZFA_MOVE_PAIR then gprM (fp_rs1 s) else ret 0);
    let '(result, flags, integer_result) :=
      zfa_result operation double_precision (fp_rs1 s) (fp_rs2 s) rm mode lhs rhs a b in
    (if integer_result : bool then write_int rd result flags
     else write_flags rd (if double_precision then result else riscv_fp_box_s (wrap 32 result)) flags);;
    ret (d_snpc s).

End FpExec.
