(* ===== verification/HvExec.v ===== *)
(** * HvExec: the hypervisor's loads, stores and fences ([inst.c]), which
    access memory as the guest would *)
From S2P Require Import Prelude Config Machine Tlb Pmp Trap Paddr Mmu Decode.

(** The result of an operation that may have trapped: the address of the trap
    handler, or the value. *)
Inductive attempt (A : Type) :=
  | Trapped (dnpc : Z)
  | Value (a : A).
Arguments Trapped {A} dnpc.
Arguments Value {A} a.

Section HvExec.
Context {Cfg : Config}.

Definition hypervisor_pointer_mask (address : Z) (execute_access : bool) (m : machine) : Z :=
  if execute_access || negb (nz (riscv_isa_extensions m .& NEMU_ISA_EXT_SSNPM))
     || nz ((CSR m CSR_MSTATUS .| CSR m CSR_VSSTATUS) .& (1 << 19))
  then address
  else
    let virtual_supervisor := nz (CSR m CSR_HSTATUS .& (1 << 8)) in
    let pmm := if virtual_supervisor then (CSR m CSR_HENVCFG >> 32) .& 3
               else if priv m =? PRV_U then (CSR m CSR_HSTATUS >> 48) .& 3
               else (CSR m CSR_SENVCFG >> 32) .& 3 in
    riscv_pointer_mask_value address pmm (nz (CSR m CSR_VSATP >> 60)).

Definition hypervisor_memory_trap {A} (s : Decode) (trap : Z) : M machine (attempt A) :=
  modify (fun m => m <| riscv_h_explicit_trap := true |>);;
  dnpc ← raise trap (d_pc s);
  modify (fun m => m <| riscv_h_explicit_trap := false |>);;
  ret (Trapped dnpc).

(** The causes of a failed stage of translation. *)
Definition hv_page_fault (store : bool) : Z := if store then MCA_STO_PAG_FAU else MCA_LOA_PAG_FAU.
Definition hv_guest_fault (store : bool) : Z := if store then MCA_STO_GUEST_PAG_FAU else MCA_LOA_GUEST_PAG_FAU.
Definition hv_access_fault (store : bool) : Z := if store then MCA_STO_ACC_FAU else MCA_LOA_ACC_FAU.
Definition hv_misaligned (store : bool) : Z := if store then MCA_STO_ADD_MIS else MCA_LOA_ADD_MIS.

(** The checks on the physical address; the access of a device is that of a
    build without devices. *)
Definition hv_device (pa length : Z) : bool :=
  negb (paddr_is_memory_span pa length)
  && paddr_is_mapped pa && paddr_is_mapped (paddr_add pa (length - 1)).
Definition hv_refused (pa length original_length : Z) (store execute_access : bool) : bool :=
  let memory := paddr_is_memory_span pa length in
  let device := hv_device pa length in
  let invalid_width := CONFIG_RAPTOR_MEMORY_MAP && ((0x0c000000 <=? pa) && (pa <? 0x0d000000))
                       && (negb (original_length =? 4) || nz (pa .& 3)) in
  (negb memory && negb device) || (execute_access && device) || invalid_width
  || (store && negb device && paddr_is_readonly pa).

Definition hv_check (s : Decode) (pa pbmt length original_length : Z) (store execute_access misaligned : bool)
    : M machine (attempt Z) :=
  denied ← (if hv_refused pa length original_length store execute_access then ret true
            else pmp_checkM pa length PRV_S (negb store) store execute_access);
  if denied : bool then hypervisor_memory_trap s (hv_access_fault store)
  else if misaligned && ((pbmt =? 2) || hv_device pa length) then hypervisor_memory_trap s (hv_access_fault store)
  else if misaligned && (pbmt =? 1) then hypervisor_memory_trap s (hv_misaligned store)
  else ret (Value pa).

(** Translates and checks the bytes of an access that lie in one page. *)
Definition hypervisor_memory_piece (s : Decode) (store execute_access : bool) (length : Z) (misaligned : bool)
    (original_length address : Z) : M machine (attempt Z) :=
  modify (fun m => m <| g_vaddr := address |> <| riscv_h_fault_gpa := address |>
                     <| riscv_h_fault_ptw := false |> <| riscv_h_fault_write := false |>);;
  m ← get;
  status ← riscv_vstage_translate address store execute_access (nz (CSR m CSR_HSTATUS .& (1 << 8))) false;
  match status with
  | RISCV_VSTAGE_OK guest_address vs_pbmt =>
      modify (fun m => m <| riscv_h_fault_gpa := guest_address |>);;
      status ← riscv_gstage_translate guest_address store execute_access false false;
      match status with
      | RISCV_GSTAGE_OK pa g_pbmt =>
          hv_check s pa (if nz vs_pbmt then vs_pbmt else g_pbmt) length original_length
            store execute_access misaligned
      | RISCV_GSTAGE_PAGE_FAULT => hypervisor_memory_trap s (hv_guest_fault store)
      | RISCV_GSTAGE_ACCESS_FAULT => hypervisor_memory_trap s (hv_access_fault store)
      end
  | RISCV_VSTAGE_PAGE_FAULT =>
      modify (fun m => m <| riscv_h_fault_ptw := false |>);;
      hypervisor_memory_trap s (hv_page_fault store)
  | RISCV_VSTAGE_GUEST_PAGE_FAULT =>
      modify (fun m => m <| riscv_h_fault_ptw := true |>);;
      hypervisor_memory_trap s (hv_guest_fault store)
  | RISCV_VSTAGE_ACCESS_FAULT =>
      modify (fun m => m <| riscv_h_fault_ptw := false |>);;
      hypervisor_memory_trap s (hv_access_fault store)
  end.

(** Byte [index] of an access whose first piece has [first_length] bytes. *)
Definition hv_byte_address (first second first_length index : Z) : Z :=
  if index <? first_length then paddr_add first index else paddr_add second (index - first_length).

Fixpoint hv_store_bytes (first second first_length data : Z) (n : nat) (index : Z) : M machine unit :=
  match n with
  | O => ret tt
  | S n =>
      paddr_write (hv_byte_address first second first_length index) 1 ((data >> (8 * index)) .& 0xff);;
      hv_store_bytes first second first_length data n (index + 1)
  end.

Fixpoint hv_load_bytes (first second first_length : Z) (n : nat) (index result : Z) : M machine Z :=
  match n with
  | O => ret result
  | S n =>
      b ← paddr_read (hv_byte_address first second first_length index) 1;
      hv_load_bytes first second first_length n (index + 1) (result .| wshl b (8 * index))
  end.

(** The access itself, of one piece or of two. *)
Definition hv_transfer (store : bool) (length data first : Z) (second : option (Z * Z)) : M machine Z :=
  match second with
  | Some (first_length, second) =>
      if store then hv_store_bytes first second first_length data (Z.to_nat length) 0;; ret 0
      else hv_load_bytes first second first_length (Z.to_nat length) 0 0
  | None => if store then paddr_write first length data;; ret 0 else paddr_read first length
  end.

(** Why the instruction is refused to the current mode. *)
Definition hypervisor_denied (m : machine) : option Z :=
  if virt m then Some MCA_VIRT_INS
  else if negb (h_enabled m) || ((priv m =? PRV_U) && negb (nz (CSR m CSR_HSTATUS .& (1 << 9))))
  then Some MCA_ILLEGAL_INS else None.

Definition hypervisor_memory_access (s : Decode) (store execute_access : bool) (length address data : Z)
    : M machine (attempt Z) :=
  denied ← gets hypervisor_denied;
  match denied with
  | Some cause => dnpc ← raise cause (d_pc s); ret (Trapped dnpc)
  | None =>
      address ← gets (hypervisor_pointer_mask address execute_access);
      let misaligned := nz (address .& (length - 1)) in
      let first_length := Z.min (4096 - (address .& 4095)) length in
      let second_length := length - first_length in
      first ← hypervisor_memory_piece s store execute_access first_length misaligned length address;
      match first with
      | Trapped dnpc => ret (Trapped dnpc)
      | Value first =>
          if nz second_length then
            second ← hypervisor_memory_piece s store execute_access second_length misaligned length
                       (word (address + first_length));
            match second with
            | Trapped dnpc => ret (Trapped dnpc)
            | Value second => v ← hv_transfer store length data first (Some (first_length, second)); ret (Value v)
            end
          else v ← hv_transfer store length data first None; ret (Value v)
      end
  end.

(** [None] when the fence is done, or the address of the trap handler. *)
Definition hypervisor_fence (s : Decode) (guest_stage : bool) : M machine (option Z) :=
  m ← get;
  if virt m then dnpc ← raise MCA_VIRT_INS (d_pc s); ret (Some dnpc)
  else if negb (h_enabled m) || (priv m =? PRV_U)
          || (guest_stage && (priv m =? PRV_S) && nz (get_tvm (CSR m CSR_MSTATUS)))
  then dnpc ← raise MCA_ILLEGAL_INS (d_pc s); ret (Some dnpc)
  else modify machine_soft_tlb_flush;; ret None.

End HvExec.
