(* ===== verification/VecMem.v ===== *)
(** * VecMem: vector loads and stores ([riscv_vector_memory] of
    [vector-control.c])

    The [setjmp] of a fault-only-first load is a handler around the element
    loop. *)
From S2P Require Import Prelude Config Tlb Fp Machine Trap Vector VecAlu VecExec Paddr Mmu Vaddr Decode.

Section VecMem.
Context {Cfg : Config}.

(** ** The shape of an access *)

Record vaccess := mk_vaccess {
  a_reg : Z; a_mode : Z; a_unmasked : bool; a_indexed : bool; a_whole : bool; a_fof : bool;
  a_bytes : Z; a_data_bytes : Z; a_fields : Z; a_group : Z; a_limit : Z;
}.

(** The addressing mode, and what it says of the access. *)
Definition mop (instruction : Z) : Z := (instruction >> 26) .& 3.
Definition mem_mode (instruction : Z) : Z := (instruction >> 20) .& 31.
Definition mem_width (instruction : Z) : Z := (instruction >> 12) .& 7.
Definition mem_reg (instruction : Z) : Z := (instruction >> 7) .& 31.
Definition mem_fields (instruction : Z) : Z := ((instruction >> 29) .& 7) + 1.
Definition mem_unmasked (instruction : Z) : bool := nz (instruction .& (1 << 25)).
Definition is_indexed (instruction : Z) : bool := nz (mop instruction .& 1).
Definition is_whole (instruction : Z) : bool := (mop instruction =? 0) && (mem_mode instruction =? 8).
Definition is_mask_transfer (instruction : Z) : bool := (mop instruction =? 0) && (mem_mode instruction =? 11).
Definition is_fof (instruction : Z) (store : bool) : bool :=
  negb store && (mop instruction =? 0) && (mem_mode instruction =? 16).

Definition mem_bytes (instruction : Z) : Z :=
  if nz (mem_width instruction) then 1 << (mem_width instruction - 4) else 1.

Definition mem_encoding_legal (instruction : Z) (store : bool) : bool :=
  negb (nz (instruction .& 0x10000000))
  && negb ((mop instruction =? 0) && negb (is_whole instruction) && negb (is_mask_transfer instruction)
           && negb (is_fof instruction store) && nz (mem_mode instruction))
  && negb (nz (mem_width instruction) && (mem_width instruction <? 5))
  && negb (negb CONFIG_RV64 && is_indexed instruction && (mem_bytes instruction =? 8)).

Definition whole_access (instruction : Z) (store : bool) (m : machine) : option vaccess :=
  let bytes := mem_bytes instruction in
  let group := mem_fields instruction in
  let limit := group * 16 / bytes in
  if negb (mem_unmasked instruction) || negb (one_of group [1; 2; 4; 8])
     || (store && nz (mem_width instruction)) || (limit <=? CSR m CSR_VSTART)
  then None
  else Some (mk_vaccess (mem_reg instruction) (mem_mode instruction) true false true false bytes bytes 1 group limit).

(** [vlm.v] and [vsm.v]. *)
Definition mask_access (instruction : Z) (m : machine) : option vaccess :=
  if negb (mem_fields instruction =? 1) || negb (mem_unmasked instruction) || nz (mem_width instruction)
  then None
  else Some (mk_vaccess (mem_reg instruction) (mem_mode instruction) true false false false 1 1 1 1
               ((CSR m CSR_VL + 7) / 8)).

(** EMUL, in eighths, of [bytes]-wide elements. *)
Definition lmul_eighths (vtype : Z) : Z :=
  let encoded_lmul := vtype .& 7 in
  if encoded_lmul <? 4 then 8 << encoded_lmul else 8 >> (8 - encoded_lmul).
Definition emul_eighths (vtype bytes : Z) : Z := lmul_eighths vtype * bytes / (1 << ((vtype >> 3) .& 7)).
Definition emul_legal (eighths : Z) : bool := negb (eighths =? 0) && negb (64 <? eighths).
Definition emul_group (eighths : Z) : Z := if eighths <? 8 then 1 else eighths / 8.

(** The index registers may overlap the data only where the architecture says. *)
Definition index_legal (store : bool) (reg mode bytes data_bytes fields group index_eighths : Z) : bool :=
  let index_group := emul_group index_eighths in
  let overlap := (reg <? mode + index_group) && (mode <? reg + group * fields) in
  emul_legal index_eighths && vector_group_valid mode index_group
  && negb (store && negb (data_bytes =? bytes) && overlap)
  && negb (negb store && overlap
           && (negb (fields =? 1) || ((data_bytes <? bytes) && negb (reg =? mode))
               || ((bytes <? data_bytes)
                   && ((index_eighths <? 8) || negb (reg + group =? mode + index_group))))).

Definition element_access (instruction : Z) (store : bool) (m : machine) : option vaccess :=
  let vtype := CSR m CSR_VTYPE in
  let bytes := mem_bytes instruction in
  let reg := mem_reg instruction in
  let mode := mem_mode instruction in
  let fields := mem_fields instruction in
  let indexed := is_indexed instruction in
  let data_bytes := if indexed then 1 << ((vtype >> 3) .& 7) else bytes in
  let eighths := emul_eighths vtype data_bytes in
  let group := emul_group eighths in
  if negb (emul_legal eighths) || (8 <? group * fields) || (32 <? reg + group * fields)
     || (indexed && negb (index_legal store reg mode bytes data_bytes fields group (emul_eighths vtype bytes)))
  then None
  else Some (mk_vaccess reg mode (mem_unmasked instruction) indexed false (is_fof instruction store)
               bytes data_bytes fields group (CSR m CSR_VL)).

(** What an instruction accesses; [None] is an illegal instruction. *)
Definition vector_access (instruction : Z) (store : bool) (m : machine) : option vaccess :=
  if negb (riscv_vector_context_enabled m) || negb (mem_encoding_legal instruction store) then None
  else
    let access :=
      if is_whole instruction then whole_access instruction store m
      else
        let maximum := vector_vlmax (CSR m CSR_VTYPE) in
        if (maximum =? 0) || (maximum <? CSR m CSR_VL) then None
        else if is_mask_transfer instruction then mask_access instruction m
        else element_access instruction store m in
    match access with
    | None => None
    | Some a =>
        if negb (vector_group_valid (a_reg a) (a_group a))
           || (negb (a_unmasked a) && negb store && (a_reg a =? 0))
        then None else Some a
    end.

(** ** The accesses *)

(** [vaddr_write(address, data_bytes, value)], in two halves for a doubleword of RV32. *)
Definition element_store (address data_bytes value : Z) : M machine unit :=
  if negb CONFIG_RV64 && (data_bytes =? 8) then
    vaddr_check_store address 8;;
    vaddr_write address 4 (word value);;
    vaddr_write (word (address + 4)) 4 (word (value >> 32))
  else vaddr_write address data_bytes (word value).

Definition element_load (address data_bytes : Z) : M machine Z :=
  if negb CONFIG_RV64 && (data_bytes =? 8) then
    vaddr_probe_vector address 8 false;;
    let misaligned := nz (address .& 7) in
    low ← vaddr_read_piece address 4 8 misaligned;
    high ← vaddr_read_piece (word (address + 4)) 4 8 misaligned;
    ret (wrap 32 low .| (wrap 32 high << 32))
  else vaddr_read address data_bytes.

(** One field of a segment: [Some cause] leaves the instruction, with VSTART at
    the element. A whole-register access is not split. *)
Definition field_access (a : vaccess) (store probe : bool) (index segment_base field : Z) : M machine (option Z) :=
  let address := word (segment_base + field * a_data_bytes a) in
  if a_whole a && nz (address .& (a_data_bytes a - 1)) then
    set_g_vaddr address;; ret (Some (if store then MCA_STO_ADD_MIS else MCA_LOA_ADD_MIS))
  else if probe then
    restricted ← vaddr_probe_vector address (a_data_bytes a) store;
    when restricted (set_g_vaddr address;; data_fault store);;
    ret None
  else if store then
    value ← gets (fun m => vector_element_read m (a_reg a + field * a_group a) index (a_data_bytes a));
    element_store address (a_data_bytes a) value;; ret None
  else
    value ← element_load address (a_data_bytes a);
    modify (vector_element_write (a_reg a + field * a_group a) index (a_data_bytes a) value);; ret None.

(** [n] fields from [field] on. *)
Fixpoint fields_access (a : vaccess) (store probe : bool) (index segment_base : Z) (n : nat) (field : Z)
  : M machine (option Z) :=
  match n with
  | O => ret None
  | S n =>
      trap ← field_access a store probe index segment_base field;
      match trap with
      | Some c => ret (Some c)
      | None => fields_access a store probe index segment_base n (field + 1)
      end
  end.

(** A segment of several fields is probed before any of it is accessed. *)
Definition segment_access (a : vaccess) (store : bool) (index segment_base : Z) : M machine (option Z) :=
  let n := Z.to_nat (a_fields a) in
  trap ← (if 1 <? a_fields a then fields_access a store true index segment_base n 0 else ret None);
  match trap with
  | Some c => ret (Some c)
  | None => fields_access a store false index segment_base n 0
  end.

Definition element_base (a : vaccess) (base stride index : Z) (m : machine) : Z :=
  word (base + (if a_indexed a then word (vector_element_read m (a_mode a) index (a_bytes a))
                else word (index * stride))).

(** [n] elements from [index] on. *)
Fixpoint elements_access (a : vaccess) (store : bool) (base stride : Z) (n : nat) (index : Z) : M machine (option Z) :=
  match n with
  | O => ret None
  | S n =>
      modify (setCSR CSR_VSTART index);;
      m ← get;
      trap ← (if negb (a_unmasked a) && negb (vector_mask_bit m 0 index) then ret None
              else segment_access a store index (element_base a base stride index m));
      match trap with
      | Some c => ret (Some c)
      | None => elements_access a store base stride n (index + 1)
      end
  end.

Definition access_loop (a : vaccess) (store : bool) (base stride : Z) : M machine (option Z) :=
  m ← get;
  elements_access a store base stride (elements (CSR m CSR_VSTART) (a_limit a)) (CSR m CSR_VSTART).

(** The handler of a fault-only-first load: a load fault past the first element
    shortens [vl] instead of trapping. *)
Definition fof_fault (m : machine) : bool :=
  nz (CSR m CSR_VSTART)
  && one_of (cause m) [MCA_LOA_ADD_MIS; MCA_LOA_ACC_FAU; MCA_LOA_PAG_FAU; MCA_LOA_GUEST_PAG_FAU].
Definition fof_handler (loop : M machine (option Z)) : M machine (option (option Z)) := fun m =>
  match loop m with
  | (LongJmp code, m) =>
      if fof_fault m then (Ret None, setCSR CSR_VSTART 0 (setCSR CSR_VL (CSR m CSR_VSTART) m))
      else (LongJmp code, m)
  | (Ret r, m) => (Ret (Some r), m)
  | (Panic, m) => (Panic, m)
  end.

(** Returns the cause of a trap, 0 for none. *)
Definition riscv_vector_memory (instruction : Z) (store : bool) : M machine Z :=
  m ← get;
  match vector_access instruction store m with
  | None => ret MCA_ILLEGAL_INS
  | Some a =>
      let base := R m ((instruction >> 15) .& 31) in
      let stride := if mop instruction =? 2 then R m (a_mode a) else a_fields a * a_data_bytes a in
      modify (vector_mark_dirty false);;
      modify (fun m => m <| csr_dirty := true |>);;
      let loop := access_loop a store base stride in
      done ← (if a_fof a then fof_handler loop else trap ← loop; ret (Some trap));
      match done with
      | None => ret 0
      | Some (Some c) => ret c
      | Some None => modify (setCSR CSR_VSTART 0);; ret 0
      end
  end.

End VecMem.
