(* ===== verification/VecMemSpec.v ===== *)
(** * VecMemSpec: vector loads and stores are precise and restartable *)
From S2P Require Import Prelude Config Tlb Fp Machine Trap Vector VecAlu VecExec VecBits VecSpec VecSafe Csr Hoare Paddr Mmu Vaddr Decode VecMem MemFrame.

#[local] Open Scope Z_scope.

Section VecMemSpec.
Context {Cfg : Config}.

(** ** The geometry of an access *)

(** Element [index] of each field is within the registers of the field. *)
Record access_ok (a : vaccess) : Prop := {
  ao_data : 0 <= a_data_bytes a;
  ao_group : 0 <= a_group a;
  ao_fields : 0 <= a_fields a;
  ao_fit : forall index, 0 <= index < a_limit a -> (index + 1) * a_data_bytes a <= 16 * a_group a;
  ao_file : a_reg a + a_fields a * a_group a <= 32;
}.

(** VLMAX elements of [data] bytes fill at most the group of their EMUL. *)
Definition emul_check (sew l log : Z) : bool :=
  let eighths := (if l <? 4 then 8 << l else 8 >> (8 - l)) * (1 << log) / (1 << sew) in
  (vlmax_fields sew l =? 0) || negb (emul_legal eighths)
  || (vlmax_fields sew l * (1 << log) <=? 16 * emul_group eighths).
Lemma emul_checked : all_below 8 (fun sew => all_below 8 (fun l => all_below 4 (emul_check sew l))) = true.
Proof. vm_compute. reflexivity. Qed.

Lemma emul_fit vtype log :
  0 <= log < 4 -> vector_vlmax vtype <> 0 -> emul_legal (emul_eighths vtype (1 << log)) = true ->
  vector_vlmax vtype * (1 << log) <= 16 * emul_group (emul_eighths vtype (1 << log)).
Proof.
  intros Hl H L. pose proof (vector_vlmax_fields _ H) as E.
  pose proof (land_7_range (vtype >> 3)) as Hs. pose proof (land_7_range vtype) as Hm.
  pose proof (all_below_spec _ _ (all_below_spec _ _ (all_below_spec _ _ emul_checked _ Hs) _ Hm) _ Hl) as C.
  cbv beta in C. unfold emul_check in C. unfold emul_eighths, lmul_eighths in *.
  rewrite <-E, L, (proj2 (Z.eqb_neq _ _) H) in C. cbn [negb orb] in C. by apply Z.leb_le in C.
Qed.

Lemma mem_bytes_log instruction store :
  mem_encoding_legal instruction store = true -> exists log, mem_bytes instruction = 1 << log /\ 0 <= log < 4.
Proof.
  unfold mem_encoding_legal, mem_bytes. rewrite !andb_true_iff. intros [[_ H] _].
  pose proof (land_7_range (instruction >> 12)) as R. fold (mem_width instruction) in R.
  destruct (nz (mem_width instruction)) eqn:N; [|by exists 0]. exists (mem_width instruction - 4). split; [done|].
  cbn [andb] in H. lia.
Qed.

Lemma sew_log vtype : vector_vlmax vtype <> 0 -> 0 <= (vtype >> 3) .& 7 < 4.
Proof.
  intros H. pose proof (land_7_range (vtype >> 3)). pose proof (vector_vlmax_fields _ H) as E. rewrite E in H.
  unfold vlmax_fields in H. destruct (Z.ltb_spec 3 ((vtype >> 3) .& 7)); [done|lia].
Qed.

Lemma shiftl_pos n : 0 <= n -> 0 < 1 << n.
Proof. intros. rewrite Z.shiftl_1_l. by apply Z.pow_pos_nonneg. Qed.
Lemma emul_group_pos e : 0 <= emul_group e.
Proof. unfold emul_group. destruct (Z.ltb_spec e 8); [lia | apply Z.div_pos; lia]. Qed.
Lemma mem_fields_range instruction : 1 <= mem_fields instruction <= 8.
Proof. unfold mem_fields. pose proof (land_7_range (instruction >> 29)). lia. Qed.
Lemma mem_reg_range instruction : 0 <= mem_reg instruction < 32.
Proof. apply land_31_range. Qed.

(** Leaves the [else] branch of an access that is legal. *)
Ltac if_none H := match type of H with (if ?c then _ else _) = _ => destruct c; [discriminate H|] end.

Lemma vector_access_ok instruction store m a :
  vector_wf m -> vector_access instruction store m = Some a -> access_ok a /\ 0 <= a_reg a.
Proof.
  intros W. unfold vector_access.
  destruct (riscv_vector_context_enabled m); [|done]. cbn [negb orb].
  destruct (mem_encoding_legal instruction store) eqn:L; [|done]. cbn [negb].
  destruct (mem_bytes_log _ _ L) as (log & Eb & Hlog). pose proof (shiftl_pos log ltac:(lia)) as Pb.
  pose proof (mem_fields_range instruction) as Hf. pose proof (mem_reg_range instruction) as Hr.
  set (vlmax := vector_vlmax (CSR m CSR_VTYPE)).
  intros E. match type of E with match ?x with _ => _ end = _ => destruct x as [a'|] eqn:A; [|done] end.
  destruct (vector_group_valid (a_reg a') (a_group a')) eqn:V; [|done]. cbn [negb orb] in E.
  if_none E. injection E as ->.
  assert (V' : a_reg a + a_group a <= 32) by (unfold vector_group_valid in V; lia).
  destruct (is_whole instruction).
  - unfold whole_access in A. cbv zeta in A. if_none A. injection A as <-. cbn in V'.
    split; [|cbn; lia]. split; cbn; rewrite ?Eb in *; try lia. intros index Hi.
    pose proof (Z.mul_div_le (mem_fields instruction * 16) (1 << log) Pb). nia.
  - destruct (Z.eqb_spec vlmax 0) as [|Hv]; [discriminate A|].
    destruct (Z.ltb_spec vlmax (CSR m CSR_VL)); [discriminate A|].
    cbn [orb] in A. pose proof (vector_vlmax_spec (CSR m CSR_VTYPE)) as [R _]. fold vlmax in R.
    destruct (is_mask_transfer instruction).
    + unfold mask_access in A. if_none A. injection A as <-. cbn in V'.
      split; [|cbn; lia]. split; cbn; try lia. intros index Hi.
      pose proof (Z.mul_div_le (CSR m CSR_VL + 7) 8). lia.
    + unfold element_access in A. cbv zeta in A.
      set (data := if is_indexed instruction then 1 << ((CSR m CSR_VTYPE >> 3) .& 7) else mem_bytes instruction) in *.
      assert (Hd : exists d, data = 1 << d /\ 0 <= d < 4).
      { unfold data. destruct (is_indexed instruction); [|by exists log]. eexists. split; [done | by apply sew_log]. }
      destruct Hd as (d & Ed & Hd). rewrite Ed in *.
      destruct (emul_legal (emul_eighths (CSR m CSR_VTYPE) (1 << d))) eqn:EL; [|done]. cbn [negb orb] in A.
      pose proof (emul_fit _ d Hd Hv EL) as F. fold vlmax in F. pose proof (shiftl_pos d ltac:(lia)) as Pd.
      set (group := emul_group (emul_eighths (CSR m CSR_VTYPE) (1 << d))) in *.
      pose proof (emul_group_pos (emul_eighths (CSR m CSR_VTYPE) (1 << d))) as Pg. fold group in Pg.
      destruct (Z.ltb_spec 8 (group * mem_fields instruction)); [discriminate A|].
      destruct (Z.ltb_spec 32 (mem_reg instruction + group * mem_fields instruction)); [discriminate A|]. cbn [orb] in A.
      if_none A. injection A as <-. split; [|cbn; lia]. split; cbn; try lia. intros index Hi. nia.
Qed.

(** ** What an access carries through *)

(** From [m] to [x] the scalar registers, the program counter, the privilege and
    every CSR but VSTART are the same, and the vector registers too outside those
    a load fills. *)
Record carried (store : bool) (a : vaccess) (m x : machine) : Prop := {
  c_gpr : gpr x = gpr m;
  c_fpr : fpr x = fpr m;
  c_pc : (pc x, priv x, virt x) = (pc m, priv m, virt m);
  c_csr : forall c, c .& 0xfff <> CSR_VSTART -> CSR x c = CSR m c;
  c_vreg : forall b, store = true \/ ~ (16 * a_reg a <= b < 16 * (a_reg a + a_fields a * a_group a)) ->
    aget (vreg x) b = aget (vreg m) b;
  c_bytes : bytes_ok (vreg m) -> bytes_ok (vreg x);
}.

Definition at_element (store : bool) (a : vaccess) (m : machine) (k : Z) (x : machine) : Prop :=
  carried store a m x /\ CSR x CSR_VSTART = k.

#[export] Instance at_element_stable store a m k : MemStable (at_element store a m k).
Proof.
  split; [|intros x [[H1 H2 H3 H4 H5 H6] H]; by split].
  intros x y E _ _ [[H1 H2 H3 H4 H5 H6] H]. injection E as Es Eg Ef Ev Ep _ _ Er Et _.
  assert (Ec : forall c, CSR y c = CSR x c) by (intros; unfold CSR; by rewrite Es).
  split; [split|]; rewrite ?Ec, ?Eg, ?Ef, ?Ev, ?Ep, ?Er, ?Et; try done. intros c Hc. by rewrite Ec, H4.
Qed.

Lemma carried_refl store a m : carried store a m m.
Proof. by split. Qed.

(** ** Accesses keep what the memory system keeps *)

Section Keeps.
Context {P : machine -> Prop} {HP : MemStable P}.

Lemma keeps_element_store address data_bytes value : keeps P (element_store address data_bytes value).
Proof. keeping element_store. Qed.
Lemma keeps_element_load address data_bytes : keeps P (element_load address data_bytes).
Proof. keeping element_load. Qed.
#[local] Hint Resolve keeps_element_store keeps_element_load : keeps.

(** ... but for the elements a load writes. *)
Lemma keeps_field_access a store probe index base field :
  (store = false -> forall v, stays P (vector_element_write (a_reg a + field * a_group a) index (a_data_bytes a) v)) ->
  keeps P (field_access a store probe index base field).
Proof.
  intros H. unfold field_access. cbv zeta. destruct (_ && _); [repeat keeps1|]. destruct probe; [repeat keeps1|].
  destruct store; [repeat keeps1|]. apply keeps_bind; [apply keeps_element_load|]. intros v.
  apply keeps_bind; [apply keeps_modify; intros; by apply H | intros; apply keeps_ret].
Qed.

Lemma keeps_fields_access a store probe index base n field :
  (store = false -> forall f v, field <= f < field + Z.of_nat n ->
     stays P (vector_element_write (a_reg a + f * a_group a) index (a_data_bytes a) v)) ->
  keeps P (fields_access a store probe index base n field).
Proof.
  revert field. induction n as [|n IH]; intros field H; cbn [fields_access]; [apply keeps_ret|].
  rewrite Nat2Z.inj_succ in H. apply keeps_bind.
  - apply keeps_field_access. intros Hs v. apply H; [done|lia].
  - intros [c|]; [apply keeps_ret|]. apply IH. intros Hs f v Hf. apply H; [done|lia].
Qed.

Lemma keeps_segment_access a store index base :
  (store = false -> forall f v, 0 <= f < a_fields a ->
     stays P (vector_element_write (a_reg a + f * a_group a) index (a_data_bytes a) v)) ->
  keeps P (segment_access a store index base).
Proof.
  intros H. assert (K : forall probe, keeps P (fields_access a store probe index base (Z.to_nat (a_fields a)) 0)).
  { intros probe. apply keeps_fields_access. intros Hs f v Hf. apply H; [done|lia]. }
  unfold segment_access. cbv zeta. apply keeps_bind; [destruct (_ <? _); [apply K | apply keeps_ret]|].
  intros [c|]; [apply keeps_ret | apply K].
Qed.
End Keeps.

(** An element of an access changes only its registers. *)
Lemma segment_at store a m k index base :
  access_ok a -> 0 <= index < a_limit a -> keeps (at_element store a m k) (segment_access a store index base).
Proof.
  intros O Hi. apply keeps_segment_access. intros -> f v Hf x [[H1 H2 H3 H4 H5 H6] H]. split; [|done].
  pose proof (ao_fit a O index Hi) as F. pose proof (ao_data a O). pose proof (ao_group a O).
  split; try done; [|intros Hb; apply element_write_ok; auto].
  intros b [?|Hb]; [done|]. unfold vector_element_write. fields. unfold element_write.
  rewrite vector_element_at_linear, write_bytes_byte, Z2Nat.id by lia.
  destruct (Z.leb_spec (16 * (a_reg a + f * a_group a) + index * a_data_bytes a + 0) b); [|by apply H5; right].
  destruct (Z.ltb_spec b (16 * (a_reg a + f * a_group a) + index * a_data_bytes a + 0 + a_data_bytes a)); [|by apply H5; right].
  exfalso. apply Hb. nia.
Qed.

(** ** The loop over the elements *)

Section Loop.
Context (a : vaccess) (store : bool) (base stride : Z) (O : access_ok a).
Let run := elements_access a store base stride.

(** Where a run of [n] elements from [index] stops early, all before it are done. *)
Definition stopped (n : nat) (index : Z) (x : machine) (r : outcome (option Z)) (y : machine) : Prop :=
  let k := CSR y CSR_VSTART in
  index <= k < index + Z.of_nat n /\
  exists z, run (Z.to_nat (k - index)) index x = (Ret None, z) /\ run 1 k z = (r, y).

Lemma run_one index x :
  0 <= index < a_limit a -> forall m, carried store a m x ->
  match run 1 index x with
  | (Panic, _) => True
  | (_, y) => at_element store a m index y
  end.
Proof.
  intros Hi m C. subst run. cbn [elements_access]. set (x1 := setCSR CSR_VSTART index x).
  assert (C1 : at_element store a m index x1).
  { destruct C as [H1 H2 H3 H4 H5 H6]. split; [|subst x1; by mach]. split; try done.
    intros c Hc. subst x1. rewrite CSR_setCSR_ne by (intros E; apply Hc; by rewrite <-E). by apply H4. }
  unfold modify, get, mbind, M_bind. fold x1. destruct (_ && _); cbn; [exact C1|].
  pose proof (segment_at store a m index index (element_base a base stride index x1) O Hi x1 C1) as K.
  destruct (segment_access a store index _ x1) as [[[c|]|c|] y]; cbn; done.
Qed.

Lemma run_split n index x :
  run (S n) index x =
    match run 1 index x with (Ret None, y) => run n (index + 1) y | r => r end.
Proof.
  subst run. cbn [elements_access]. unfold modify, get, mbind, M_bind.
  destruct (_ && _); cbn; [done|]. by destruct (segment_access a store index _ _) as [[[c|]|c|] y]; cbn.
Qed.

Lemma run_spec n index m x :
  0 <= index -> index + Z.of_nat n <= a_limit a -> carried store a m x ->
  match run n index x with
  | (Ret None, y) => carried store a m y
  | (Ret (Some c), y) => carried store a m y /\ stopped n index x (Ret (Some c)) y
  | (LongJmp c, y) => carried store a m y /\ stopped n index x (LongJmp c) y
  | (Panic, _) => True
  end.
Proof.
  revert index x. induction n as [|n IH]; intros index x Hi Hn C; [exact C|]. rewrite Nat2Z.inj_succ in Hn.
  assert (St : forall r y, run 1 index x = (r, y) -> CSR y CSR_VSTART = index -> stopped (S n) index x r y).
  { intros r y E Ek. split; [lia|]. rewrite Ek, Z.sub_diag. by exists x. }
  assert (Next : forall r y z, run 1 index x = (Ret None, y) -> stopped n (index + 1) y r z -> stopped (S n) index x r z).
  { intros r y z E (Hk & w & E1 & E2). split; [lia|]. exists w. split; [|done].
    replace (Z.to_nat (CSR z CSR_VSTART - index)) with (S (Z.to_nat (CSR z CSR_VSTART - (index + 1)))) by lia.
    by rewrite run_split, E. }
  pose proof (run_one index x ltac:(lia) m C) as K. rewrite run_split.
  destruct (run 1 index x) as [[[c|]|c|] y] eqn:E; [| |..]; try done.
  - destruct K as [K1 K2]. split; [done | by apply St].
  - destruct K as [K1 K2]. specialize (IH (index + 1) y ltac:(lia) ltac:(lia) K1).
    destruct (run n (index + 1) y) as [[[c|]|c|] z]; try done; destruct IH as [I1 I2]; split; try done; by eapply Next.
  - destruct K as [K1 K2]. split; [done | by apply St].
Qed.

End Loop.

(** ** The instructions *)

(** The state the elements are accessed from, and the elements of an access. *)
Definition ready (m : machine) : machine := (vector_mark_dirty false m) <| csr_dirty := true |>.
Definition element_run (instruction : Z) (store : bool) (m : machine) (a : vaccess) : nat -> Z -> M machine (option Z) :=
  elements_access a store (R m ((instruction >> 15) .& 31))
    (if mop instruction =? 2 then R m (a_mode a) else a_fields a * a_data_bytes a).

Lemma ready_vstart m : CSR (ready m) CSR_VSTART = CSR m CSR_VSTART.
Proof. destruct (vector_mark_dirty_frame false m) as [_ H]. by rewrite <-(H CSR_VSTART). Qed.

(** The run an instruction starts, from the state [ready]. *)
Lemma access_run instruction store m a :
  vector_wf m -> vector_access instruction store m = Some a ->
  let start := CSR m CSR_VSTART in
  let n := elements start (a_limit a) in
  match element_run instruction store m a n start (ready m) with
  | (Ret None, y) => carried store a (ready m) y
  | (Ret (Some c), y) => carried store a (ready m) y /\
      stopped a store (R m ((instruction >> 15) .& 31)) (if mop instruction =? 2 then R m (a_mode a) else a_fields a * a_data_bytes a) n start (ready m) (Ret (Some c)) y
  | (LongJmp c, y) => carried store a (ready m) y /\
      stopped a store (R m ((instruction >> 15) .& 31)) (if mop instruction =? 2 then R m (a_mode a) else a_fields a * a_data_bytes a) n start (ready m) (LongJmp c) y
  | (Panic, _) => True
  end.
Proof.
  intros W A. cbv zeta. destruct (vector_access_ok _ _ _ _ W A) as [O _]. unfold element_run, elements.
  pose proof (wf_vstart m W). destruct (Z.le_gt_cases (CSR m CSR_VSTART) (a_limit a)).
  - apply run_spec; [done | lia | lia | apply carried_refl].
  - replace (Z.to_nat (a_limit a - CSR m CSR_VSTART)) with 0%nat by lia. apply carried_refl.
Qed.

Lemma vector_memory_equation instruction store m a :
  vector_access instruction store m = Some a ->
  VecMem.riscv_vector_memory instruction store m =
    let start := CSR m CSR_VSTART in
    match element_run instruction store m a (elements start (a_limit a)) start (ready m) with
    | (Ret None, y) => (Ret 0, setCSR CSR_VSTART 0 y)
    | (Ret (Some c), y) => (Ret c, y)
    | (LongJmp c, y) =>
        if a_fof a && fof_fault y then (Ret 0, setCSR CSR_VSTART 0 (setCSR CSR_VL (CSR y CSR_VSTART) y)) else (LongJmp c, y)
    | (Panic, y) => (Panic, y)
    end.
Proof.
  intros A. unfold VecMem.riscv_vector_memory, element_run. unfold get, modify, mbind, M_bind at 1. rewrite A. cbv zeta.
  unfold M_bind. cbv beta iota. fold (ready m). unfold access_loop, fof_handler, get, mbind, M_bind. 
  destruct (a_fof a); cbv beta; rewrite ready_vstart; cbn [andb];
    destruct (elements_access _ _ _ _ _ _ _) as [[[c|]|c|] y]; try done; by destruct (fof_fault y).
Qed.

(** C6: a vector load or store that traps is precise and restartable. VSTART holds
    the element it stopped at; the elements from the initial VSTART on were all
    accessed before it, and the trap is the one this element raises; the scalar
    registers, the program counter, the privilege and every CSR but VSTART are
    those the accesses started from, and so are the vector registers outside the
    ones a load fills. Without a trap all elements were accessed and VSTART is 0. *)
Theorem vector_memory_precise instruction store m a :
  vector_wf m -> vector_access instruction store m = Some a -> a_fof a = false ->
  let start := CSR m CSR_VSTART in
  let n := elements start (a_limit a) in
  let run := element_run instruction store m a in
  let stops r y := carried store a (ready m) y /\ start <= CSR y CSR_VSTART < start + Z.of_nat n /\
    exists z, run (Z.to_nat (CSR y CSR_VSTART - start)) start (ready m) = (Ret None, z) /\ run 1%nat (CSR y CSR_VSTART) z = (r, y) in
  (exists y, carried store a (ready m) y /\ run n start (ready m) = (Ret None, y) /\
     VecMem.riscv_vector_memory instruction store m = (Ret 0, setCSR CSR_VSTART 0 y)) \/
  (exists c y, VecMem.riscv_vector_memory instruction store m = (Ret c, y) /\ stops (Ret (Some c)) y) \/
  (exists c y, VecMem.riscv_vector_memory instruction store m = (LongJmp c, y) /\ stops (LongJmp c) y) \/
  (exists y, VecMem.riscv_vector_memory instruction store m = (Panic, y)).
Proof.
  intros W A F. cbv zeta. pose proof (access_run instruction store m a W A) as K. cbv zeta in K.
  rewrite (vector_memory_equation instruction store m a A), F. cbv zeta. cbn [andb].
  destruct (element_run _ _ _ _ _ _ _) as [[[c|]|c|] y].
  - right. left. exists c, y. split; [done | exact K].
  - left. by exists y.
  - right. right. left. exists c, y. split; [done | exact K].
  - right. right. right. by exists y.
Qed.

(** C7: a fault-only-first load never traps past its first element: when element
    [k > 0] raises a load fault, the load ends normally with [vl = k] and VSTART
    0, the elements before [k] loaded. A load fault is raised only by element 0. *)
Theorem fault_only_first instruction m a c y :
  vector_wf m -> vector_access instruction false m = Some a -> a_fof a = true ->
  let start := CSR m CSR_VSTART in
  element_run instruction false m a (elements start (a_limit a)) start (ready m) = (LongJmp c, y) ->
  one_of (cause y) [MCA_LOA_ADD_MIS; MCA_LOA_ACC_FAU; MCA_LOA_PAG_FAU; MCA_LOA_GUEST_PAG_FAU] = true ->
  let k := CSR y CSR_VSTART in
  start <= k < a_limit a /\
  (exists z, element_run instruction false m a (Z.to_nat (k - start)) start (ready m) = (Ret None, z) /\
     element_run instruction false m a 1 k z = (LongJmp c, y)) /\
  if k =? 0 then VecMem.riscv_vector_memory instruction false m = (LongJmp c, y)
  else exists y', VecMem.riscv_vector_memory instruction false m = (Ret 0, y') /\
    CSR y' CSR_VL = k /\ CSR y' CSR_VSTART = 0 /\ vreg y' = vreg y /\ gpr y' = gpr m.
Proof.
  intros W A F start E Hc k. pose proof (access_run instruction false m a W A) as K. cbv zeta in K. fold start in K.
  rewrite E in K. destruct K as [C (Hk & z & E1 & E2)]. fold k in Hk, E1, E2.
  unfold elements in Hk. split; [lia|]. split; [by exists z|].
  rewrite (vector_memory_equation instruction false m a A). cbv zeta. fold start. rewrite E, F. unfold fof_fault. rewrite Hc. fold k.
  unfold nz. destruct (Z.eqb_spec k 0); cbn [negb andb]; [done|]. eexists. split; [reflexivity|].
  split; [by mach|]. split; [by mach|]. split; [by mach|]. mach. rewrite (c_gpr _ _ _ _ C).
  destruct (vector_mark_dirty_frame false m) as [Eg _]. exact Eg.
Qed.

End VecMemSpec.

#[local] Existing Instances riscv64_ref zero_float.

(** The last two words of memory are at the address in [a1]. *)
Definition vector_at_end : machine := setR 11 0x8ffffff8 (vector_running <| priv := PRV_M |>).
Lemma vector_at_end_wf : vector_wf vector_at_end.
Proof. destruct vector_running_wf as [H1 H2 H3 H4 H5]. by split. Qed.
Definition vle32 : vaccess := mk_vaccess 4 0 true false false false 4 4 1 1 4.
Definition vle32ff : vaccess := mk_vaccess 4 16 true false false true 4 4 1 1 4.

(** [vle32.v v4, (a1)] stops at element 2. *)
Lemma vector_memory_precise_witness :
  let r := VecMem.riscv_vector_memory 0x0205e207 false vector_at_end in
  r.1 = LongJmp 23 /\ CSR r.2 CSR_VSTART = 2 /\
  exists z, element_run 0x0205e207 false vector_at_end vle32 2 0 (ready vector_at_end) = (Ret None, z) /\
    element_run 0x0205e207 false vector_at_end vle32 1 2 z = (LongJmp 23, r.2).
Proof.
  assert (E : (VecMem.riscv_vector_memory 0x0205e207 false vector_at_end).1 = LongJmp 23) by (vm_compute; reflexivity).
  assert (Ek : CSR (VecMem.riscv_vector_memory 0x0205e207 false vector_at_end).2 CSR_VSTART = 2) by (vm_compute; reflexivity).
  split; [exact E|]. split; [exact Ek|].
  destruct (vector_memory_precise 0x0205e207 false vector_at_end vle32 vector_at_end_wf
    ltac:(vm_compute; reflexivity) eq_refl) as [(y & _ & _ & H)|[(c & y & H & _)|[(c & y & H & _ & _ & z & E1 & E2)|(y & H)]]];
    rewrite H in E, Ek |- *; cbn [fst snd] in E, Ek; try discriminate E.
  injection E as ->. rewrite Ek in E1, E2. exists z. split; [exact E1 | exact E2].
Defined.

(** [vle32ff.v v4, (a1)] ends with [vl = 2]. *)
Lemma fault_only_first_witness :
  exists y, VecMem.riscv_vector_memory 0x0305e207 false vector_at_end = (Ret 0, y) /\ CSR y CSR_VL = 2.
Proof.
  destruct (element_run 0x0305e207 false vector_at_end vle32ff 4 0 (ready vector_at_end)) as [r y] eqn:E.
  assert (Er : (element_run 0x0305e207 false vector_at_end vle32ff 4 0 (ready vector_at_end)).1 = LongJmp 23) by (vm_compute; reflexivity).
  assert (Ek : CSR (element_run 0x0305e207 false vector_at_end vle32ff 4 0 (ready vector_at_end)).2 CSR_VSTART = 2) by (vm_compute; reflexivity).
  assert (Ec : cause (element_run 0x0305e207 false vector_at_end vle32ff 4 0 (ready vector_at_end)).2 = MCA_LOA_ACC_FAU) by (vm_compute; reflexivity).
  rewrite E in Er, Ek, Ec. cbn [fst snd] in Er, Ek, Ec. subst r.
  destruct (fault_only_first 0x0305e207 vector_at_end vle32ff 23 y vector_at_end_wf
    ltac:(vm_compute; reflexivity) eq_refl E ltac:(rewrite Ec; reflexivity)) as (_ & _ & H).
  rewrite Ek in H. destruct H as (y' & H1 & H2 & _). exists y'. split; [exact H1 | exact H2].
Defined.
