(* ===== verification/Frame.v ===== *)
(** * Frame: predicates of the integer registers and of the decode cache that
    traps, CSRs, the clock and the hypervisor's accesses leave alone

    [MemFrame] introduces [Stable] predicates and shows that the memory system keeps
    them; here the same is proved for the other components below the instructions. *)
From S2P Require Import Prelude Config Tlb Machine Pmp Trap Clint Vector Csr Hoare Paddr Mmu Vaddr MemFrame Decode HvExec.

#[local] Open Scope Z_scope.

Section Frame.
Context {Cfg : Config} {P : machine -> Prop} {HP : Stable P}.

(** ** Traps *)

Lemma stable_orCSR csr bits : stays P (orCSR csr bits).
Proof. stable_of orCSR. Qed.
Lemma stable_mergeCSR csr mask v : stays P (mergeCSR csr mask v).
Proof. stable_of mergeCSR. Qed.
Lemma stable_pmp_addr_set i v : stays P (pmp_addr_set i v).
Proof. stable_of pmp_addr_set. Qed.
Lemma stable_pmp_cfg_set i v : stays P (pmp_cfg_set i v).
Proof. stable_of pmp_cfg_set. Qed.
#[local] Hint Resolve stable_orCSR stable_mergeCSR stable_pmp_addr_set stable_pmp_cfg_set : stable.

Lemma stable_raise_to_vs NO epc tval : returns P (raise_to_vs NO epc tval).
Proof. stable_of raise_to_vs. Qed.
Lemma stable_hs_trap_info NO : stays P (hs_trap_info NO).
Proof. stable_of hs_trap_info. Qed.
Lemma stable_m_trap_info NO : stays P (m_trap_info NO).
Proof. stable_of m_trap_info. Qed.
#[local] Hint Resolve stable_raise_to_vs stable_hs_trap_info stable_m_trap_info : stable.

Lemma stable_raise_to_s NO epc tval : returns P (raise_to_s NO epc tval).
Proof. stable_of raise_to_s. Qed.
Lemma stable_raise_to_m NO epc tval : returns P (raise_to_m NO epc tval).
Proof. stable_of raise_to_m. Qed.
Lemma stable_sret_vs : returns P sret_vs.
Proof. stable_of sret_vs. Qed.
Lemma stable_sret_hs : returns P sret_hs.
Proof. stable_of sret_hs. Qed.
#[local] Hint Resolve stable_raise_to_s stable_raise_to_m stable_sret_vs stable_sret_hs : stable.

Lemma stable_isa_raise_intr NO epc : returns P (isa_raise_intr NO epc).
Proof. stable_of isa_raise_intr. Qed.
#[local] Hint Resolve stable_isa_raise_intr : stable.

Lemma stable_mret spc : returns P (mret spc).
Proof. stable_of mret. Qed.
Lemma stable_sret spc : returns P (sret spc).
Proof. stable_of sret. Qed.
#[local] Hint Resolve stable_mret stable_sret : stable.

(** ** The clock, and the end of an instruction *)

Lemma stable_get_time_internal : returns P get_time_internal.
Proof. stable_of get_time_internal. Qed.
Lemma stable_mip_line bit level : stays P (mip_line bit level).
Proof. stable_of mip_line. Qed.
#[local] Hint Resolve stable_get_time_internal stable_mip_line : stable.

Lemma stable_get_time : returns P get_time.
Proof. stable_of get_time. Qed.
#[local] Hint Resolve stable_get_time : stable.

Lemma stable_clint_get_ticks : returns P clint_get_ticks.
Proof. stable_of clint_get_ticks. Qed.
Lemma stable_clint_update_hart ticks : stays P (clint_update_hart ticks).
Proof. stable_of clint_update_hart. Qed.
#[local] Hint Resolve stable_clint_get_ticks stable_clint_update_hart : stable.

Lemma stable_clint_update_mip : stays P clint_update_mip.
Proof. stable_of clint_update_mip. Qed.
#[local] Hint Resolve stable_clint_update_mip : stable.

Lemma stable_clint_wfi_advance : returns P clint_wfi_advance.
Proof. stable_of clint_wfi_advance. Qed.
#[local] Hint Resolve stable_clint_wfi_advance : stable.

Lemma stable_commit_warl : stays P commit_warl.
Proof. stable_of commit_warl. Qed.
Lemma stable_commit_views_in last : stays P (commit_views_in last).
Proof. stable_of commit_views_in. Qed.
Lemma stable_commit_timer last : stays P (commit_timer last).
Proof. stable_of commit_timer. Qed.
Lemma stable_commit_status : stays P commit_status.
Proof. stable_of commit_status. Qed.
Lemma stable_commit_views_out : stays P commit_views_out.
Proof. stable_of commit_views_out. Qed.
#[local] Hint Resolve stable_commit_warl stable_commit_views_in stable_commit_timer stable_commit_status stable_commit_views_out : stable.

Lemma stable_csr_commit : stays P csr_commit.
Proof. stable_of csr_commit. Qed.
#[local] Hint Resolve stable_csr_commit : stable.

(** ** PMP *)

Lemma stable_pmp_decode_all : stays P pmp_decode_all.
Proof. stable_of pmp_decode_all. all: cbv beta delta [pmp_decode_step]; stable. Qed.
#[local] Hint Resolve stable_pmp_decode_all : stable.

Lemma stable_pmp_rebuild_decoded : stays P pmp_rebuild_decoded.
Proof. stable_of pmp_rebuild_decoded. Qed.
#[local] Hint Resolve stable_pmp_rebuild_decoded : stable.

Lemma stable_pmp_csr_write csr val : returns P (pmp_csr_write csr val).
Proof. stable_of pmp_csr_write. all: cbv beta delta [pmp_cfg_write1]; stable. Qed.
#[local] Hint Resolve stable_pmp_csr_write : stable.

(** ** CSRs *)

Lemma stable_vector_mark_dirty floating : stays P (vector_mark_dirty floating).
Proof. stable_of vector_mark_dirty. Qed.
Lemma stable_csrw_fp c v : stays P (csrw_fp c v).
Proof. stable_of csrw_fp. Qed.
Lemma stable_csrw_plain c v : stays P (csrw_plain c v).
Proof. stable_of csrw_plain. Qed.
Lemma stable_stateen_write c v : stays P (stateen_write c v).
Proof. stable_of stateen_write. Qed.
#[local] Hint Resolve stable_vector_mark_dirty stable_csrw_fp stable_csrw_plain stable_stateen_write : stable.

Lemma stable_riscv_vector_csr_write c v : stays P (riscv_vector_csr_write c v).
Proof. intros m H. unfold riscv_vector_csr_write, vector_csr_store. repeat case_match; simplify_eq; stable.
  Qed.
#[local] Hint Resolve stable_riscv_vector_csr_write : stable.

Lemma stable_csrw_store c v : stays P (csrw_store c v).
Proof. stable_of csrw_store. Qed.
#[local] Hint Resolve stable_csrw_store : stable.

Lemma stable_CSRW i v : stays P (CSRW i v).
Proof. stable_of CSRW. Qed.
Lemma stable_csr_valid spc csr is_write : returns P (csr_valid spc csr is_write).
Proof. stable_of csr_valid. Qed.
Lemma stable_cbo_prepare spc kind : returns P (cbo_prepare spc kind).
Proof. stable_of cbo_prepare. Qed.
#[local] Hint Resolve stable_CSRW stable_csr_valid stable_cbo_prepare : stable.

(** ** Decoding and the hypervisor's accesses *)

Lemma keeps_gprM idx : keeps P (gprM idx).
Proof. keeping gprM. Qed.
Lemma keeps_fprM idx : keeps P (fprM idx).
Proof. keeping fprM. Qed.
Lemma keeps_set_fprM idx v : keeps P (set_fprM idx v).
Proof. keeping set_fprM. Qed.
Lemma keeps_csrM csr : keeps P (csrM csr).
Proof. keeping csrM. Qed.
Lemma keeps_privM : keeps P privM.
Proof. keeping privM. Qed.
Lemma keeps_virtM : keeps P virtM.
Proof. keeping virtM. Qed.
Lemma keeps_raise NO epc : keeps P (raise NO epc).
Proof. keeping raise. Qed.
#[local] Hint Resolve keeps_gprM keeps_fprM keeps_set_fprM keeps_csrM keeps_privM keeps_virtM keeps_raise : keeps.

Lemma keeps_raise_skip NO epc : keeps P (raise_skip NO epc).
Proof. keeping raise_skip. Qed.
Lemma keeps_decode_operand s type : keeps P (decode_operand s type).
Proof. keeping decode_operand. Qed.
#[local] Hint Resolve keeps_raise_skip keeps_decode_operand : keeps.

Lemma keeps_hypervisor_memory_trap {A} s trap : keeps P (hypervisor_memory_trap (A := A) s trap).
Proof. keeping hypervisor_memory_trap. Qed.
#[local] Hint Resolve keeps_hypervisor_memory_trap : keeps.

Lemma keeps_hv_check s pa pbmt length original_length store execute_access misaligned : keeps P (hv_check s
  pa pbmt length original_length store execute_access misaligned).
Proof. keeping hv_check. Qed.
#[local] Hint Resolve keeps_hv_check : keeps.

Lemma keeps_hypervisor_memory_piece s store execute_access length misaligned original_length address : keeps
  P (hypervisor_memory_piece s store execute_access length misaligned original_length address).
Proof. keeping hypervisor_memory_piece. Qed.
Lemma keeps_hv_store_bytes first second first_length data n index : keeps P (hv_store_bytes first second
  first_length data n index).
Proof. revert index. induction n as [|n IH]; intros index; cbn [hv_store_bytes]; repeat keeps1; apply IH.
  Qed.
Lemma keeps_hv_load_bytes first second first_length n index result : keeps P (hv_load_bytes first second
  first_length n index result).
Proof. revert index result. induction n as [|n IH]; intros index result; cbn [hv_load_bytes]; repeat keeps1;
  apply IH. Qed.
#[local] Hint Resolve keeps_hypervisor_memory_piece keeps_hv_store_bytes keeps_hv_load_bytes : keeps.

Lemma keeps_hv_transfer store length data first second : keeps P (hv_transfer store length data first
  second).
Proof. keeping hv_transfer. Qed.
#[local] Hint Resolve keeps_hv_transfer : keeps.

Lemma keeps_hypervisor_memory_access s store execute_access length address data : keeps P
  (hypervisor_memory_access s store execute_access length address data).
Proof. keeping hypervisor_memory_access. Qed.
Lemma keeps_hypervisor_fence s guest_stage : keeps P (hypervisor_fence s guest_stage).
Proof. keeping hypervisor_fence. Qed.
#[local] Hint Resolve keeps_hypervisor_memory_access keeps_hypervisor_fence : keeps.

End Frame.

#[export] Hint Resolve stable_orCSR stable_mergeCSR stable_pmp_addr_set stable_pmp_cfg_set stable_raise_to_vs
  stable_hs_trap_info stable_m_trap_info stable_raise_to_s stable_raise_to_m stable_sret_vs stable_sret_hs
  stable_isa_raise_intr stable_mret stable_sret stable_get_time_internal stable_mip_line stable_get_time
  stable_clint_get_ticks stable_clint_update_hart stable_clint_update_mip stable_clint_wfi_advance
  stable_commit_warl stable_commit_views_in stable_commit_timer stable_commit_status stable_commit_views_out
  stable_csr_commit stable_pmp_decode_all stable_pmp_rebuild_decoded stable_pmp_csr_write
  stable_vector_mark_dirty stable_csrw_fp stable_csrw_plain stable_stateen_write stable_riscv_vector_csr_write
  stable_csrw_store stable_CSRW stable_csr_valid stable_cbo_prepare : stable.
#[export] Hint Resolve keeps_gprM keeps_fprM keeps_set_fprM keeps_csrM keeps_privM keeps_virtM keeps_raise
  keeps_raise_skip keeps_decode_operand keeps_hypervisor_memory_trap keeps_hv_check
  keeps_hypervisor_memory_piece keeps_hv_store_bytes keeps_hv_load_bytes keeps_hv_transfer
  keeps_hypervisor_memory_access keeps_hypervisor_fence : keeps.
