(* ===== verification/Exec.v ===== *)
(** * Exec: the instructions of [inst.c], one list of patterns per major opcode

    A row is an [INSTPAT] line: the pattern, the operand type and the body. The
    bus lock of the fences and atomics has no effect with one hart, and the
    debugging output of [ecall] is left out. *)
From Stdlib Require Import String.
From S2P Require Import Prelude Config Tlb InstPat Alu Fp Machine Trap Clint Vector Csr Paddr Mmu Vaddr Decode FpExec HvExec.

(** The element and memory instructions of the vector unit
    ([riscv_vector_execute] and [riscv_vector_memory] of [vector-control.c]), an
    interface here: whether an instruction is legal, and the cause of a memory
    instruction's trap, 0 for none. [VecUnit] implements it. *)
Class VectorUnit := {
  riscv_vector_execute : Z -> M machine bool;
  riscv_vector_memory : Z -> bool -> M machine Z;
}.

#[local] Open Scope string_scope.
#[local] Open Scope Z_scope.

Section Exec.
Context {Cfg : Config} {SF : SoftFloat} {VU : VectorUnit}.

Definition body : Type := Decode -> operands -> M machine Z.
Definition row : Type := string * (inst_type * body).

(** ** Bodies of a common shape *)

(** [R(rd) = v], and on to the next instruction. *)
Definition wr (s : Decode) (o : operands) (v : Z) : M machine Z := set_gprM (rd o) v;; ret (d_snpc s).
Definition next (s : Decode) (m : M machine unit) : M machine Z := m;; ret (d_snpc s).

(** [R(rd) = f(src1, src2, imm)]. *)
Definition alu (f : Z -> Z -> Z -> Z) : body := fun s o => wr s o (f (src1 o) (src2 o) (imm o)).
Definition branch (taken : Z -> Z -> bool) : body := fun s o =>
  ret (if taken (src1 o) (src2 o) then word (d_pc s + imm o) else d_snpc s).
Definition load (len : Z) (extend : Z -> Z) : body := fun s o =>
  v ← vaddr_read (word (src1 o + imm o)) len; wr s o (extend v).
Definition store (len : Z) : body := fun s o => next s (vaddr_write (word (src1 o + imm o)) len (src2 o)).
Definition sext (w x : Z) : Z := word (SEXT x w).
Definition word_address (o : operands) : Z := word (src1 o + imm o).

Definition R_ (pat : string) (b : body) : row := (pat, (TYPE_R, b)).
Definition I_ (pat : string) (b : body) : row := (pat, (TYPE_I, b)).
Definition N_ (pat : string) (b : Decode -> M machine Z) : row := (pat, (TYPE_N, fun s _ => b s)).

(** ** Upper immediates, jumps and branches *)

Definition jump (s : Decode) (o : operands) (target : Z) : M machine Z :=
  set_gprM (rd o) (d_snpc s);; ret (word target .& wnot 1).

Definition grp_lui : list row := [ ("??????? ????? ????? ??? ????? 01101 11", (TYPE_U, fun s o => wr s o (imm o))) ].
Definition grp_auipc : list row := [ ("??????? ????? ????? ??? ????? 00101 11", (TYPE_U, fun s o => wr s o (word (d_pc s + imm o)))) ].
Definition grp_jal : list row := [ ("??????? ????? ????? ??? ????? 11011 11", (TYPE_J, fun s o => jump s o (d_pc s + imm o))) ].
Definition grp_jalr : list row := [ I_ "??????? ????? ????? 000 ????? 11001 11" (fun s o => jump s o (src1 o + imm o)) ].
Definition grp_branch : list row := [
  ("??????? ????? ????? 000 ????? 11000 11", (TYPE_B, branch (fun a b => a =? b)));
  ("??????? ????? ????? 001 ????? 11000 11", (TYPE_B, branch (fun a b => negb (a =? b))));
  ("??????? ????? ????? 100 ????? 11000 11", (TYPE_B, branch (fun a b => sword a <? sword b)));
  ("??????? ????? ????? 101 ????? 11000 11", (TYPE_B, branch (fun a b => sword b <=? sword a)));
  ("??????? ????? ????? 110 ????? 11000 11", (TYPE_B, branch (fun a b => a <? b)));
  ("??????? ????? ????? 111 ????? 11000 11", (TYPE_B, branch (fun a b => b <=? a))) ].

(** ** Loads and stores *)

Definition grp_load : list row := [
  I_ "??????? ????? ????? 000 ????? 00000 11" (load 1 (sext 8));
  I_ "??????? ????? ????? 001 ????? 00000 11" (load 2 (sext 16));
  I_ "??????? ????? ????? 010 ????? 00000 11" (load 4 (sext 32));
  I_ "??????? ????? ????? 100 ????? 00000 11" (load 1 id);
  I_ "??????? ????? ????? 101 ????? 00000 11" (load 2 id) ]
  ++ (if CONFIG_RV64 then [ I_ "??????? ????? ????? 110 ????? 00000 11" (load 4 id); I_ "??????? ????? ????? 011 ????? 00000 11" (load 8 id) ] else []).
Definition grp_store : list row := [
  ("??????? ????? ????? 000 ????? 01000 11", (TYPE_S, store 1));
  ("??????? ????? ????? 001 ????? 01000 11", (TYPE_S, store 2));
  ("??????? ????? ????? 010 ????? 01000 11", (TYPE_S, store 4)) ]
  ++ (if CONFIG_RV64 then [ ("??????? ????? ????? 011 ????? 01000 11", (TYPE_S, store 8)) ] else []).

Definition vector_memory_execute (is_store : bool) (s : Decode) : M machine Z :=
  cause ← riscv_vector_memory (d_inst s) is_store;
  if nz cause then raise cause (d_pc s) else ret (d_snpc s).

Definition grp_fp_load : list row := [
  I_ "??????? ????? ????? 001 ????? 00001 11" (fun s o => fp_load_h s (rd o) (word_address o));
  I_ "??????? ????? ????? 010 ????? 00001 11" (fun s o => fp_load_s s (rd o) (word_address o));
  I_ "??????? ????? ????? 011 ????? 00001 11" (fun s o => fp_load_d s (rd o) (word_address o));
  N_ "??????? ????? ????? 000 ????? 00001 11" (vector_memory_execute false);
  N_ "??????? ????? ????? 101 ????? 00001 11" (vector_memory_execute false);
  N_ "??????? ????? ????? 110 ????? 00001 11" (vector_memory_execute false);
  N_ "??????? ????? ????? 111 ????? 00001 11" (vector_memory_execute false) ].
Definition grp_fp_store : list row := [
  ("??????? ????? ????? 001 ????? 01001 11", (TYPE_S, fun s o => fp_store_h s (word_address o) (fp_rs2 s)));
  ("??????? ????? ????? 010 ????? 01001 11", (TYPE_S, fun s o => fp_store_s s (word_address o) (fp_rs2 s)));
  ("??????? ????? ????? 011 ????? 01001 11", (TYPE_S, fun s o => fp_store_d s (word_address o) (fp_rs2 s)));
  N_ "??????? ????? ????? 000 ????? 01001 11" (vector_memory_execute true);
  N_ "??????? ????? ????? 101 ????? 01001 11" (vector_memory_execute true);
  N_ "??????? ????? ????? 110 ????? 01001 11" (vector_memory_execute true);
  N_ "??????? ????? ????? 111 ????? 01001 11" (vector_memory_execute true) ].

(** ** Floating point *)

Definition fma_s (negate_product negate_addend : bool) : body := fun s o =>
  fp_exec_fma_s s (rd o) (fp_rs1 s) (fp_rs2 s) (fp_rs3 s) negate_product negate_addend.
Definition fma_d (negate_product negate_addend : bool) : body := fun s o =>
  fp_exec_fma_d s (rd o) (fp_rs1 s) (fp_rs2 s) (fp_rs3 s) negate_product negate_addend.

Definition grp_fmadd : list row := [ R_ "????? 00 ????? ????? ??? ????? 10000 11" (fma_s false false); R_ "????? 01 ????? ????? ??? ????? 10000 11" (fma_d false false) ].
Definition grp_fmsub : list row := [ R_ "????? 00 ????? ????? ??? ????? 10001 11" (fma_s false true); R_ "????? 01 ????? ????? ??? ????? 10001 11" (fma_d false true) ].
Definition grp_fnmsub : list row := [ R_ "????? 00 ????? ????? ??? ????? 10010 11" (fma_s true false); R_ "????? 01 ????? ????? ??? ????? 10010 11" (fma_d true false) ].
Definition grp_fnmadd : list row := [ R_ "????? 00 ????? ????? ??? ????? 10011 11" (fma_s true true); R_ "????? 01 ????? ????? ??? ????? 10011 11" (fma_d true true) ].

(** The operand shapes of the group: [rd, rs1, rs2], [rd, rs1] and [rd, src1]. *)
Definition ff (f : Decode -> Z -> Z -> Z -> M machine Z) : body := fun s o => f s (rd o) (fp_rs1 s) (fp_rs2 s).
Definition f1 (f : Decode -> Z -> Z -> M machine Z) : body := fun s o => f s (rd o) (fp_rs1 s).
Definition fx (f : Decode -> Z -> Z -> M machine Z) : body := fun s o => f s (rd o) (src1 o).
Definition sgnj (f : Decode -> Z -> Z -> Z -> Z -> M machine Z) (mode : Z) : body :=
  ff (fun s rd rs1 rs2 => f s rd rs1 rs2 mode).
Definition bin {B} (f : Decode -> Z -> Z -> Z -> B -> M machine Z) (operation : B) : body :=
  ff (fun s rd rs1 rs2 => f s rd rs1 rs2 operation).
Definition un {B} (f : Decode -> Z -> Z -> B -> M machine Z) (operation : B) : body :=
  f1 (fun s rd rs1 => f s rd rs1 operation).
Definition to_int (f : Decode -> Z -> Z -> bool -> bool -> M machine Z) (u int64 : bool) : body :=
  f1 (fun s rd rs1 => f s rd rs1 u int64).
Definition from_int (f : Decode -> Z -> Z -> bool -> bool -> M machine Z) (u int64 : bool) : body :=
  fx (fun s rd value => f s rd value u int64).
Definition zfa (operation : fp_zfa_operation) : Decode -> M machine Z := fun s => fp_exec_zfa s operation.

Definition grp_fp_zfa : list row := [
  N_ "111100? 00001 ????? 000 ????? 10100 11" (zfa FP_ZFA_LI);
  N_ "001010? ????? ????? 01? ????? 10100 11" (zfa FP_ZFA_MINMAX);
  N_ "010000? 0010? ????? ??? ????? 10100 11" (zfa FP_ZFA_ROUND);
  N_ "101000? ????? ????? 10? ????? 10100 11" (zfa FP_ZFA_QUIET);
  N_ "1100001 01000 ????? 001 ????? 10100 11" (zfa FP_ZFA_MOD);
  N_ "1110001 00001 ????? 000 ????? 10100 11" (zfa FP_ZFA_MOVE_HIGH);
  N_ "1011001 ????? ????? 000 ????? 10100 11" (zfa FP_ZFA_MOVE_PAIR) ].

Definition grp_fp_single : list row := [
  R_ "1111010 00000 ????? 000 ????? 10100 11" (fx fp_move_to_h);
  R_ "1110010 00000 ????? 000 ????? 10100 11" (f1 fp_move_from_h);
  R_ "1111000 00000 ????? 000 ????? 10100 11" (fx fp_move_to_s);
  R_ "1110000 00000 ????? 000 ????? 10100 11" (f1 fp_move_from_s);
  R_ "0010000 ????? ????? 000 ????? 10100 11" (sgnj fp_sign_inject_s 0);
  R_ "0010000 ????? ????? 001 ????? 10100 11" (sgnj fp_sign_inject_s 1);
  R_ "0010000 ????? ????? 010 ????? 10100 11" (sgnj fp_sign_inject_s 2);
  R_ "0000000 ????? ????? ??? ????? 10100 11" (bin fp_exec_binary_s riscv_fp_add_s);
  R_ "0000100 ????? ????? ??? ????? 10100 11" (bin fp_exec_binary_s riscv_fp_sub_s);
  R_ "0001000 ????? ????? ??? ????? 10100 11" (bin fp_exec_binary_s riscv_fp_mul_s);
  R_ "0001100 ????? ????? ??? ????? 10100 11" (bin fp_exec_binary_s riscv_fp_div_s);
  R_ "0101100 00000 ????? ??? ????? 10100 11" (un fp_exec_unary_s riscv_fp_sqrt_s);
  R_ "0010100 ????? ????? 000 ????? 10100 11" (bin fp_exec_minmax_s riscv_fp_min_s);
  R_ "0010100 ????? ????? 001 ????? 10100 11" (bin fp_exec_minmax_s riscv_fp_max_s);
  R_ "1010000 ????? ????? 000 ????? 10100 11" (bin fp_exec_compare_s riscv_fp_le_s);
  R_ "1010000 ????? ????? 001 ????? 10100 11" (bin fp_exec_compare_s riscv_fp_lt_s);
  R_ "1010000 ????? ????? 010 ????? 10100 11" (bin fp_exec_compare_s riscv_fp_eq_s);
  R_ "1110000 00000 ????? 001 ????? 10100 11" (f1 fp_exec_class_s);
  R_ "1100000 00000 ????? ??? ????? 10100 11" (to_int fp_exec_to_int_s false false);
  R_ "1100000 00001 ????? ??? ????? 10100 11" (to_int fp_exec_to_int_s true false) ]
  ++ (if CONFIG_RV64 then [
  R_ "1100000 00010 ????? ??? ????? 10100 11" (to_int fp_exec_to_int_s false true);
  R_ "1100000 00011 ????? ??? ????? 10100 11" (to_int fp_exec_to_int_s true true) ] else [])
  ++ [
  R_ "1101000 00000 ????? ??? ????? 10100 11" (from_int fp_exec_from_int_s false false);
  R_ "1101000 00001 ????? ??? ????? 10100 11" (from_int fp_exec_from_int_s true false) ]
  ++ (if CONFIG_RV64 then [
  R_ "1101000 00010 ????? ??? ????? 10100 11" (from_int fp_exec_from_int_s false true);
  R_ "1101000 00011 ????? ??? ????? 10100 11" (from_int fp_exec_from_int_s true true) ] else []).

Definition grp_fp_double : list row := [
  R_ "1111001 00000 ????? 000 ????? 10100 11" (fx fp_move_to_d);
  R_ "1110001 00000 ????? 000 ????? 10100 11" (f1 fp_move_from_d);
  R_ "0010001 ????? ????? 000 ????? 10100 11" (sgnj fp_sign_inject_d 0);
  R_ "0010001 ????? ????? 001 ????? 10100 11" (sgnj fp_sign_inject_d 1);
  R_ "0010001 ????? ????? 010 ????? 10100 11" (sgnj fp_sign_inject_d 2);
  R_ "0000001 ????? ????? ??? ????? 10100 11" (bin fp_exec_binary_d riscv_fp_add_d);
  R_ "0000101 ????? ????? ??? ????? 10100 11" (bin fp_exec_binary_d riscv_fp_sub_d);
  R_ "0001001 ????? ????? ??? ????? 10100 11" (bin fp_exec_binary_d riscv_fp_mul_d);
  R_ "0001101 ????? ????? ??? ????? 10100 11" (bin fp_exec_binary_d riscv_fp_div_d);
  R_ "0101101 00000 ????? ??? ????? 10100 11" (un fp_exec_unary_d riscv_fp_sqrt_d);
  R_ "0010101 ????? ????? 000 ????? 10100 11" (bin fp_exec_minmax_d riscv_fp_min_d);
  R_ "0010101 ????? ????? 001 ????? 10100 11" (bin fp_exec_minmax_d riscv_fp_max_d);
  R_ "1010001 ????? ????? 000 ????? 10100 11" (bin fp_exec_compare_d riscv_fp_le_d);
  R_ "1010001 ????? ????? 001 ????? 10100 11" (bin fp_exec_compare_d riscv_fp_lt_d);
  R_ "1010001 ????? ????? 010 ????? 10100 11" (bin fp_exec_compare_d riscv_fp_eq_d);
  R_ "1110001 00000 ????? 001 ????? 10100 11" (f1 fp_exec_class_d);
  R_ "1100001 00000 ????? ??? ????? 10100 11" (to_int fp_exec_to_int_d false false);
  R_ "1100001 00001 ????? ??? ????? 10100 11" (to_int fp_exec_to_int_d true false) ]
  ++ (if CONFIG_RV64 then [
  R_ "1100001 00010 ????? ??? ????? 10100 11" (to_int fp_exec_to_int_d false true);
  R_ "1100001 00011 ????? ??? ????? 10100 11" (to_int fp_exec_to_int_d true true) ] else [])
  ++ [
  R_ "1101001 00000 ????? ??? ????? 10100 11" (from_int fp_exec_from_int_d false false);
  R_ "1101001 00001 ????? ??? ????? 10100 11" (from_int fp_exec_from_int_d true false) ]
  ++ (if CONFIG_RV64 then [
  R_ "1101001 00010 ????? ??? ????? 10100 11" (from_int fp_exec_from_int_d false true);
  R_ "1101001 00011 ????? ??? ????? 10100 11" (from_int fp_exec_from_int_d true true) ] else []).

Definition grp_fp_convert : list row := [
  R_ "0100000 00001 ????? ??? ????? 10100 11" (f1 fp_exec_convert_d_to_s);
  R_ "0100001 00000 ????? ??? ????? 10100 11" (f1 fp_exec_convert_s_to_d);
  R_ "0100000 00010 ????? ??? ????? 10100 11" (f1 fp_exec_convert_h_to_s);
  R_ "0100001 00010 ????? ??? ????? 10100 11" (f1 fp_exec_convert_h_to_d);
  R_ "0100010 00000 ????? ??? ????? 10100 11" (f1 fp_exec_convert_s_to_h);
  R_ "0100010 00001 ????? ??? ????? 10100 11" (f1 fp_exec_convert_d_to_h) ].

Definition grp_fp_op : list row := grp_fp_zfa ++ grp_fp_single ++ grp_fp_double ++ grp_fp_convert.

(** ** Integer arithmetic *)

(** The shift amount of a word operation. *)
Definition shamt (x : Z) : Z := x .& (XLEN - 1).
Definition sra (a n : Z) : Z := word (sword a >> n).
Definition b2w (b : bool) : Z := if b then 1 else 0.
Definition bclr (a n : Z) : Z := a .& wnot (wshl 1 n).
Definition bext (a n : Z) : Z := (a >> n) .& 1.
Definition binv (a n : Z) : Z := a .^ wshl 1 n.
Definition bset (a n : Z) : Z := a .| wshl 1 n.

Definition grp_opimm : list row := [
  N_ "??????? 00000 ????? 110 00000 00100 11" (fun s => ret (d_snpc s));
  N_ "??????? 00000 ????? 100 00000 00100 11" (fun s => ret (d_snpc s));
  N_ "??????? 00011 ????? 110 00000 00100 11" (fun s => ret (d_snpc s));
  I_ "??????? ????? ????? 000 ????? 00100 11" (alu (fun a _ i => word (sword a + i)));
  I_ "??????? ????? ????? 010 ????? 00100 11" (alu (fun a _ i => b2w (sword a <? sword i)));
  I_ "??????? ????? ????? 011 ????? 00100 11" (alu (fun a _ i => b2w (a <? i)));
  I_ "??????? ????? ????? 100 ????? 00100 11" (alu (fun a _ i => a .^ i));
  I_ "??????? ????? ????? 110 ????? 00100 11" (alu (fun a _ i => a .| i));
  I_ "??????? ????? ????? 111 ????? 00100 11" (alu (fun a _ i => a .& i)) ]
  ++ (if CONFIG_RV64 then [
  I_ "000000? ????? ????? 001 ????? 00100 11" (alu (fun a _ i => wshl a (i .& 0x3f)));
  I_ "000000? ????? ????? 101 ????? 00100 11" (alu (fun a _ i => a >> (i .& 0x3f)));
  I_ "010000? ????? ????? 101 ????? 00100 11" (alu (fun a _ i => sra a (i .& 0x3f))) ]
  else [
  I_ "0000000 ????? ????? 001 ????? 00100 11" (alu (fun a _ i => wshl a (i .& 0x1f)));
  I_ "0000000 ????? ????? 101 ????? 00100 11" (alu (fun a _ i => a >> (i .& 0x1f)));
  I_ "0100000 ????? ????? 101 ????? 00100 11" (alu (fun a _ i => sra a (i .& 0x1f))) ])
  ++ [
  I_ "0110000 00000 ????? 001 ????? 00100 11" (alu (fun a _ _ => alu_clz a));
  I_ "0110000 00001 ????? 001 ????? 00100 11" (alu (fun a _ _ => alu_ctz a));
  I_ "0110000 00010 ????? 001 ????? 00100 11" (alu (fun a _ _ => alu_cpop a));
  I_ "0110000 00100 ????? 001 ????? 00100 11" (alu (fun a _ _ => sext 8 (a .& 0xff)));
  I_ "0110000 00101 ????? 001 ????? 00100 11" (alu (fun a _ _ => sext 16 (a .& 0xffff))) ]
  ++ (if CONFIG_RV64 then [
  I_ "0110101 11000 ????? 101 ????? 00100 11" (alu (fun a _ _ => alu_rev8 a));
  I_ "011000? ????? ????? 101 ????? 00100 11" (alu (fun a _ i => alu_rori a i));
  I_ "010010? ????? ????? 001 ????? 00100 11" (alu (fun a _ i => bclr a (i .& 0x3f)));
  I_ "010010? ????? ????? 101 ????? 00100 11" (alu (fun a _ i => bext a (i .& 0x3f)));
  I_ "011010? ????? ????? 001 ????? 00100 11" (alu (fun a _ i => binv a (i .& 0x3f)));
  I_ "001010? ????? ????? 001 ????? 00100 11" (alu (fun a _ i => bset a (i .& 0x3f))) ]
  else [
  I_ "0110100 11000 ????? 101 ????? 00100 11" (alu (fun a _ _ => alu_rev8 a));
  I_ "0110000 ????? ????? 101 ????? 00100 11" (alu (fun a _ i => alu_rori a i));
  I_ "0100100 ????? ????? 001 ????? 00100 11" (alu (fun a _ i => bclr a (i .& 0x1f)));
  I_ "0100100 ????? ????? 101 ????? 00100 11" (alu (fun a _ i => bext a (i .& 0x1f)));
  I_ "0110100 ????? ????? 001 ????? 00100 11" (alu (fun a _ i => binv a (i .& 0x1f)));
  I_ "0010100 ????? ????? 001 ????? 00100 11" (alu (fun a _ i => bset a (i .& 0x1f))) ])
  ++ [ I_ "0010100 00111 ????? 101 ????? 00100 11" (alu (fun a _ _ => alu_orc_b a)) ].

Definition grp_op : list row := [
  R_ "0000000 ????? ????? 000 ????? 01100 11" (alu (fun a b _ => word (a + b)));
  R_ "0100000 ????? ????? 000 ????? 01100 11" (alu (fun a b _ => word (a - b)));
  R_ "0000000 ????? ????? 001 ????? 01100 11" (alu (fun a b _ => wshl a (shamt b)));
  R_ "0000000 ????? ????? 010 ????? 01100 11" (alu (fun a b _ => b2w (sword a <? sword b)));
  R_ "0000000 ????? ????? 011 ????? 01100 11" (alu (fun a b _ => b2w (a <? b)));
  R_ "0000000 ????? ????? 100 ????? 01100 11" (alu (fun a b _ => a .^ b));
  R_ "0000000 ????? ????? 101 ????? 01100 11" (alu (fun a b _ => a >> shamt b));
  R_ "0100000 ????? ????? 101 ????? 01100 11" (alu (fun a b _ => sra a (shamt b)));
  R_ "0000000 ????? ????? 110 ????? 01100 11" (alu (fun a b _ => a .| b));
  R_ "0000000 ????? ????? 111 ????? 01100 11" (alu (fun a b _ => a .& b));
  R_ "0000001 ????? ????? 000 ????? 01100 11" (alu (fun a b _ => alu_mul a b));
  R_ "0000001 ????? ????? 001 ????? 01100 11" (alu (fun a b _ => alu_mulh a b));
  R_ "0000001 ????? ????? 010 ????? 01100 11" (alu (fun a b _ => alu_mulhsu a b));
  R_ "0000001 ????? ????? 011 ????? 01100 11" (alu (fun a b _ => alu_mulhu a b));
  R_ "0000001 ????? ????? 100 ????? 01100 11" (alu (fun a b _ => alu_div a b));
  R_ "0000001 ????? ????? 101 ????? 01100 11" (alu (fun a b _ => alu_divu a b));
  R_ "0000001 ????? ????? 110 ????? 01100 11" (alu (fun a b _ => alu_rem a b));
  R_ "0000001 ????? ????? 111 ????? 01100 11" (alu (fun a b _ => alu_remu a b));
  R_ "0010000 ????? ????? 010 ????? 01100 11" (alu (fun a b _ => word (wshl a 1 + b)));
  R_ "0010000 ????? ????? 100 ????? 01100 11" (alu (fun a b _ => word (wshl a 2 + b)));
  R_ "0010000 ????? ????? 110 ????? 01100 11" (alu (fun a b _ => word (wshl a 3 + b)));
  R_ "0100000 ????? ????? 111 ????? 01100 11" (alu (fun a b _ => a .& wnot b));
  R_ "0100000 ????? ????? 110 ????? 01100 11" (alu (fun a b _ => a .| wnot b));
  R_ "0100000 ????? ????? 100 ????? 01100 11" (alu (fun a b _ => a .^ wnot b));
  R_ "0000101 ????? ????? 110 ????? 01100 11" (alu (fun a b _ => if sword b <? sword a then a else b));
  R_ "0000101 ????? ????? 111 ????? 01100 11" (alu (fun a b _ => if b <? a then a else b));
  R_ "0000101 ????? ????? 100 ????? 01100 11" (alu (fun a b _ => if sword a <? sword b then a else b));
  R_ "0000101 ????? ????? 101 ????? 01100 11" (alu (fun a b _ => if a <? b then a else b));
  R_ "0110000 ????? ????? 001 ????? 01100 11" (alu (fun a b _ => alu_rol a b));
  R_ "0110000 ????? ????? 101 ????? 01100 11" (alu (fun a b _ => alu_ror a b)) ]
  ++ (if CONFIG_RV64 then [] else [ R_ "0000100 00000 ????? 100 ????? 01100 11" (alu (fun a _ _ => wrap 16 a)) ])
  ++ [
  R_ "0100100 ????? ????? 001 ????? 01100 11" (alu (fun a b _ => bclr a (shamt b)));
  R_ "0100100 ????? ????? 101 ????? 01100 11" (alu (fun a b _ => bext a (shamt b)));
  R_ "0110100 ????? ????? 001 ????? 01100 11" (alu (fun a b _ => binv a (shamt b)));
  R_ "0010100 ????? ????? 001 ????? 01100 11" (alu (fun a b _ => bset a (shamt b)));
  R_ "0000101 ????? ????? 001 ????? 01100 11" (alu (fun a b _ => alu_clmul a b));
  R_ "0000101 ????? ????? 011 ????? 01100 11" (alu (fun a b _ => alu_clmulh a b));
  R_ "0000101 ????? ????? 010 ????? 01100 11" (alu (fun a b _ => alu_clmulr a b));
  R_ "0000111 ????? ????? 101 ????? 01100 11" (alu (fun a b _ => if b =? 0 then 0 else a));
  R_ "0000111 ????? ????? 111 ????? 01100 11" (alu (fun a b _ => if negb (b =? 0) then 0 else a)) ].

(** ** Vectors *)

Definition vector_op (legal : M machine bool) (s : Decode) : M machine Z :=
  ok ← legal; if ok : bool then ret (d_snpc s) else raise MCA_ILLEGAL_INS (d_pc s).

Definition grp_vector : list row := [
  N_ "??????? ????? ????? 111 ????? 10101 11" (fun s => vector_op (lift (riscv_vector_configure (d_inst s))) s);
  N_ "??????? ????? ????? ??? ????? 10101 11" (fun s => vector_op (riscv_vector_execute (d_inst s)) s) ].

(** ** The 32-bit operations of RV64 *)

Definition grp_opimm32 : list row := [
  I_ "??????? ????? ????? 000 ????? 00110 11" (alu (fun a _ i => sext32 (wrap 32 a + i)));
  I_ "0000000 ????? ????? 001 ????? 00110 11" (alu (fun a _ i => sext32 (wrap 32 a << (i .& 0x1f))));
  I_ "0000000 ????? ????? 101 ????? 00110 11" (alu (fun a _ i => sext32 (wrap 32 a >> (i .& 0x1f))));
  I_ "0100000 ????? ????? 101 ????? 00110 11" (alu (fun a _ i => sext32 (signed 32 a >> (i .& 0x1f))));
  I_ "000010? ????? ????? 001 ????? 00110 11" (alu (fun a _ i => wshl (wrap 32 a) (i .& 0x3f)));
  I_ "0110000 00000 ????? 001 ????? 00110 11" (alu (fun a _ _ => alu_clzw a));
  I_ "0110000 00001 ????? 001 ????? 00110 11" (alu (fun a _ _ => alu_ctzw a));
  I_ "0110000 00010 ????? 001 ????? 00110 11" (alu (fun a _ _ => alu_cpopw a));
  I_ "0110000 ????? ????? 101 ????? 00110 11" (alu (fun a _ i => alu_roriw a i)) ].

Definition grp_op32 : list row := [
  R_ "0000000 ????? ????? 000 ????? 01110 11" (alu (fun a b _ => sext32 (wrap 32 a + wrap 32 b)));
  R_ "0100000 ????? ????? 000 ????? 01110 11" (alu (fun a b _ => sext32 (wrap 32 a - wrap 32 b)));
  R_ "0000000 ????? ????? 001 ????? 01110 11" (alu (fun a b _ => sext32 (wrap 32 a << (wrap 32 b .& 31))));
  R_ "0000000 ????? ????? 101 ????? 01110 11" (alu (fun a b _ => sext32 (wrap 32 a >> (wrap 32 b .& 31))));
  R_ "0100000 ????? ????? 101 ????? 01110 11" (alu (fun a b _ => sext32 (signed 32 a >> (wrap 32 b .& 31))));
  R_ "0000001 ????? ????? 000 ????? 01110 11" (alu (fun a b _ => sext32 (wrap 32 a * wrap 32 b)));
  R_ "0000001 ????? ????? 100 ????? 01110 11" (alu (fun a b _ => alu_divw a b));
  R_ "0000001 ????? ????? 101 ????? 01110 11" (alu (fun a b _ => alu_divuw a b));
  R_ "0000001 ????? ????? 110 ????? 01110 11" (alu (fun a b _ => alu_remw a b));
  R_ "0000001 ????? ????? 111 ????? 01110 11" (alu (fun a b _ => alu_remuw a b));
  R_ "0010000 ????? ????? 010 ????? 01110 11" (alu (fun a b _ => word (wshl (wrap 32 a) 1 + b)));
  R_ "0010000 ????? ????? 100 ????? 01110 11" (alu (fun a b _ => word (wshl (wrap 32 a) 2 + b)));
  R_ "0010000 ????? ????? 110 ????? 01110 11" (alu (fun a b _ => word (wshl (wrap 32 a) 3 + b)));
  R_ "0000100 ????? ????? 000 ????? 01110 11" (alu (fun a b _ => word (wrap 32 a + b)));
  R_ "0000100 00000 ????? 100 ????? 01110 11" (alu (fun a _ _ => wrap 16 a));
  R_ "0110000 ????? ????? 001 ????? 01110 11" (alu (fun a b _ => alu_rolw a b));
  R_ "0110000 ????? ????? 101 ????? 01110 11" (alu (fun a b _ => alu_rorw a b)) ].

(** ** Fences and cache blocks *)

Definition cbo (kind : cbo_kind) (action : operands -> M machine unit) : body := fun s o =>
  trap ← lift (cbo_prepare (d_pc s) kind);
  match trap with Some dnpc => ret dnpc | None => next s (action o) end.

(** [n] words from [off] on. *)
Fixpoint zero_words (block : Z) (n : nat) (off : Z) : M machine unit :=
  match n with
  | O => ret tt
  | S n => vaddr_write (word (block + off)) (XLEN / 8) 0;; zero_words block n (off + XLEN / 8)
  end.
Definition zero_block (o : operands) : M machine unit :=
  vaddr_check_zero (src1 o);;
  zero_words (src1 o .& wnot 0x3f) (Z.to_nat (64 / (XLEN / 8))) 0.

Definition grp_miscmem : list row := [
  N_ "0000000 10000 00000 000 00000 00011 11" (fun s => ret (d_snpc s));
  N_ "1000001 10011 00000 000 00000 00011 11" (fun s => ret (d_snpc s));
  N_ "??????? ????? ????? 000 ????? 00011 11" (fun s => ret (d_snpc s));
  I_ "??????? ????? ????? 001 ????? 00011 11" (fun s _ => next s (modify (fun m => m <| tlb ::= icache_flush |>)));
  I_ "0000000 00000 ????? 010 00000 00011 11" (cbo CBO_INVAL (fun o => vaddr_check_cmo (src1 o)));
  I_ "0000000 00001 ????? 010 00000 00011 11" (cbo CBO_CLEAN_FLUSH (fun o => vaddr_check_cmo (src1 o)));
  I_ "0000000 00010 ????? 010 00000 00011 11" (cbo CBO_CLEAN_FLUSH (fun o => vaddr_check_cmo (src1 o)));
  I_ "0000000 00100 ????? 010 00000 00011 11" (cbo CBO_ZERO zero_block) ].

(** ** System instructions *)

Definition ecall_cause (m : machine) : Z :=
  if priv m =? PRV_U then MCA_ENV_CAL_UMO
  else if priv m =? PRV_S then if virt m then MCA_ENV_CAL_VSMO else MCA_ENV_CAL_SMO
  else MCA_ENV_CAL_MMO.

(** A guest's use of a supervisor fence, and the lack of privilege for one. *)
Definition fence_virtual (m : machine) : bool :=
  virt m && h_enabled m && ((priv m =? PRV_U) || nz (CSR m CSR_HSTATUS .& CSR_HSTATUS_VTVM)).
Definition fence_illegal (m : machine) : bool :=
  (priv m =? PRV_U) || ((priv m =? PRV_S) && nz (get_tvm (CSR m CSR_MSTATUS)) && negb (virt m)).

Definition sfence_vma (s : Decode) : M machine Z :=
  m ← get;
  if fence_virtual m then raise MCA_VIRT_INS (d_pc s)
  else if fence_illegal m then raise_skip MCA_ILLEGAL_INS (d_pc s)
  else next s (modify machine_soft_tlb_flush).
Definition sinval_vma (s : Decode) : M machine Z :=
  m ← get;
  if fence_virtual m then raise MCA_VIRT_INS (d_pc s)
  else if fence_illegal m then raise MCA_ILLEGAL_INS (d_pc s)
  else next s (modify machine_soft_tlb_flush).
Definition sfence_inval (s : Decode) : M machine Z :=
  m ← get;
  if (priv m =? PRV_U) && virt m && h_enabled m then raise MCA_VIRT_INS (d_pc s)
  else if priv m =? PRV_U then raise MCA_ILLEGAL_INS (d_pc s)
  else ret (d_snpc s).

Definition hfence (guest_stage : bool) (s : Decode) : M machine Z :=
  trap ← hypervisor_fence s guest_stage; ret (default (d_snpc s) trap).
Definition hlv (execute_access : bool) (length : Z) (extend : Z -> Z) : body := fun s o =>
  value ← hypervisor_memory_access s false execute_access length (src1 o) 0;
  match value with Trapped dnpc => ret dnpc | Value v => wr s o (extend v) end.
Definition hsv (length : Z) : body := fun s o =>
  value ← hypervisor_memory_access s true false length (src1 o) (src2 o);
  ret (match value with Trapped dnpc => dnpc | Value _ => d_snpc s end).

(** A CSR instruction: the access check, the old value to [rd], and the write
    of [update old], computed after [rd] is written. *)
Definition csr_access (is_write : bool) (update : machine -> Z) (s : Decode) (o : operands) : M machine Z :=
  trap ← lift (csr_valid (d_pc s) (imm o) is_write);
  match trap with
  | Some dnpc => ret dnpc
  | None =>
      v ← gets (fun m => csr_read_value m (imm o));
      set_gprM (rd o) v;;
      next s (when is_write (modify (fun m => CSRW (imm o) (update m) m)))
  end.
Definition csr_set (s : Decode) (o : operands) : M machine Z :=
  csr_access (negb (rs1 o =? 0)) (fun m => csr_rmw_value m (wrap 16 (imm o)) .| src1 o) s o.
Definition csr_clear (s : Decode) (o : operands) : M machine Z :=
  csr_access (negb (rs1 o =? 0)) (fun m => csr_rmw_value m (wrap 16 (imm o)) .& wnot (src1 o)) s o.
Definition csr_swap (s : Decode) (o : operands) : M machine Z := csr_access true (fun _ => src1 o) s o.

Definition wrs_nto (s : Decode) : M machine Z :=
  m ← get;
  if negb (nz (riscv_isa_extensions m .& NEMU_ISA_EXT_ZAWRS))
     || (negb (priv m =? PRV_M) && nz (get_tw (CSR m CSR_MSTATUS)))
  then raise MCA_ILLEGAL_INS (d_pc s)
  else if virt m && h_enabled m && nz (CSR m CSR_HSTATUS .& CSR_HSTATUS_VTW)
  then raise MCA_VIRT_INS (d_pc s) else ret (d_snpc s).
Definition wrs_sto (s : Decode) : M machine Z :=
  m ← get;
  if negb (nz (riscv_isa_extensions m .& NEMU_ISA_EXT_ZAWRS))
  then raise MCA_ILLEGAL_INS (d_pc s) else ret (d_snpc s).

Definition wfi (s : Decode) : M machine Z :=
  m ← get;
  let tw := nz (get_tw (CSR m CSR_MSTATUS)) in
  if virt m && h_enabled m && negb tw && ((priv m =? PRV_U) || nz (CSR m CSR_HSTATUS .& CSR_HSTATUS_VTW))
  then raise MCA_VIRT_INS (d_pc s)
  else if (priv m =? PRV_U) || ((priv m =? PRV_S) && tw) then raise_skip MCA_ILLEGAL_INS (d_pc s)
  else
    (if CONFIG_TARGET_SHARE then ret tt
     else when (riscv_mip_value m .& CSR m CSR_MIE =? 0) (lift clint_wfi_advance;; ret tt));;
    next s (modify difftest_skip_ref).

Definition grp_system_h : list row := [
  N_ "0010001 ????? ????? 000 00000 11100 11" (hfence false);
  N_ "0010011 ????? ????? 000 00000 11100 11" (hfence false);
  N_ "0110001 ????? ????? 000 00000 11100 11" (hfence true);
  N_ "0110011 ????? ????? 000 00000 11100 11" (hfence true);
  R_ "011000000000 ????? 100 ????? 11100 11" (hlv false 1 (sext 8));
  R_ "011000000001 ????? 100 ????? 11100 11" (hlv false 1 id);
  R_ "011001000000 ????? 100 ????? 11100 11" (hlv false 2 (sext 16));
  R_ "011001000001 ????? 100 ????? 11100 11" (hlv false 2 id);
  R_ "011010000000 ????? 100 ????? 11100 11" (hlv false 4 (sext 32));
  R_ "011010000001 ????? 100 ????? 11100 11" (hlv false 4 id);
  R_ "011011000000 ????? 100 ????? 11100 11" (hlv false 8 id);
  R_ "011001000011 ????? 100 ????? 11100 11" (hlv true 2 id);
  R_ "011010000011 ????? 100 ????? 11100 11" (hlv true 4 id);
  R_ "0110001 ????? ????? 100 00000 11100 11" (hsv 1);
  R_ "0110011 ????? ????? 100 00000 11100 11" (hsv 2);
  R_ "0110101 ????? ????? 100 00000 11100 11" (hsv 4);
  R_ "0110111 ????? ????? 100 00000 11100 11" (hsv 8) ].

Definition grp_system : list row := [
  N_ "0000000 00000 00000 000 00000 11100 11" (fun s => cause ← gets ecall_cause; raise cause (d_pc s));
  N_ "0000000 00001 00000 000 00000 11100 11" (fun s => raise MCA_BREAK_POINT (d_pc s));
  N_ "0001001 ????? ????? 000 00000 11100 11" sfence_vma ]
  ++ (if CONFIG_RV64 then grp_system_h else [])
  ++ [
  N_ "0001011 ????? ????? 000 00000 11100 11" sinval_vma;
  N_ "0001100 0000? 00000 000 00000 11100 11" sfence_inval;
  I_ "??????? ????? ????? 001 ????? 11100 11" csr_swap;
  I_ "??????? ????? ????? 010 ????? 11100 11" csr_set;
  I_ "??????? ????? ????? 011 ????? 11100 11" csr_clear;
  ("??????? ????? ????? 101 ????? 11100 11", (TYPE_I_I, csr_swap));
  ("??????? ????? ????? 110 ????? 11100 11", (TYPE_I_I, csr_set));
  ("??????? ????? ????? 111 ????? 11100 11", (TYPE_I_I, csr_clear));
  N_ "0011000 00010 00000 000 00000 11100 11" (fun s => lift (mret (d_pc s)));
  N_ "0001000 00010 00000 000 00000 11100 11" (fun s => lift (sret (d_pc s)));
  N_ "0000000 01101 00000 000 00000 11100 11" wrs_nto;
  N_ "0000000 11101 00000 000 00000 11100 11" wrs_sto;
  N_ "0001000 00101 00000 000 00000 11100 11" wfi;
  I_ "1?00??0111?? ????? 100 ????? 11100 11" (alu (fun _ _ _ => 0));
  R_ "1?00??1 ????? ????? 100 ????? 11100 11" (alu (fun _ _ _ => 0)) ].

(** ** Atomics *)

Definition lr (len : Z) (extend : Z -> Z) : body := fun s o =>
  pa ← vaddr_check_reservation (src1 o) len false;
  v ← vaddr_read (src1 o) len;
  set_gprM (rd o) (extend v);;
  next s (modify (fun m => m <| reservation := word pa |> <| reservation_bytes := len |>)).

(** Whether the reservation covers [len] bytes at [pa]. *)
Definition reserved (m : machine) (pa len : Z) : bool :=
  (len <=? reservation_bytes m) && (reservation m <=? pa) && (pa - reservation m <=? reservation_bytes m - len).

Definition sc (len : Z) : body := fun s o =>
  pa ← vaddr_check_reservation (src1 o) len true;
  ok ← gets (fun m => reserved m pa len);
  (if ok : bool then set_gprM (rd o) 0;; vaddr_write (src1 o) len (src2 o) else set_gprM (rd o) 1);;
  next s (modify (fun m => m <| reservation := 0 |> <| reservation_bytes := 0 |>)).

(** The loaded value, the operand and what is stored; [rd] is written last. *)
Definition amo (len : Z) (extend : Z -> Z) (f : Z -> Z -> Z) : body := fun s o =>
  vaddr_check_amo (src1 o) len;;
  tmp ← vaddr_read (src1 o) len;
  vaddr_write (src1 o) len (f tmp (src2 o));;
  wr s o (extend tmp).

Definition grp_amo : list row := [
  R_ "00010?? 00000 ????? 010 ????? 01011 11" (lr 4 (sext 32));
  R_ "00011?? ????? ????? 010 ????? 01011 11" (sc 4);
  R_ "00001?? ????? ????? 010 ????? 01011 11" (amo 4 (sext 32) (fun _ b => b));
  R_ "00000?? ????? ????? 010 ????? 01011 11" (amo 4 (sext 32) (fun t b => word (b + t)));
  R_ "00100?? ????? ????? 010 ????? 01011 11" (amo 4 (sext 32) (fun t b => b .^ t));
  R_ "01100?? ????? ????? 010 ????? 01011 11" (amo 4 (sext 32) (fun t b => b .& t));
  R_ "01000?? ????? ????? 010 ????? 01011 11" (amo 4 (sext 32) (fun t b => b .| t));
  R_ "10000?? ????? ????? 010 ????? 01011 11" (amo 4 (sext 32) (fun t b => if signed 32 t <? signed 32 b then word (signed 32 t) else b));
  R_ "10100?? ????? ????? 010 ????? 01011 11" (amo 4 (sext 32) (fun t b => if signed 32 b <? signed 32 t then word (signed 32 t) else b));
  R_ "11000?? ????? ????? 010 ????? 01011 11" (amo 4 (sext 32) (fun t b => if t <? wrap 32 b then t else b));
  R_ "11100?? ????? ????? 010 ????? 01011 11" (amo 4 (sext 32) (fun t b => if wrap 32 b <? t then t else b)) ]
  ++ (if CONFIG_RV64 then [
  R_ "00010?? 00000 ????? 011 ????? 01011 11" (lr 8 id);
  R_ "00011?? ????? ????? 011 ????? 01011 11" (sc 8);
  R_ "00001?? ????? ????? 011 ????? 01011 11" (amo 8 id (fun _ b => b));
  R_ "00000?? ????? ????? 011 ????? 01011 11" (amo 8 id (fun t b => word (b + t)));
  R_ "00100?? ????? ????? 011 ????? 01011 11" (amo 8 id (fun t b => b .^ t));
  R_ "01100?? ????? ????? 011 ????? 01011 11" (amo 8 id (fun t b => b .& t));
  R_ "01000?? ????? ????? 011 ????? 01011 11" (amo 8 id (fun t b => b .| t));
  R_ "10000?? ????? ????? 011 ????? 01011 11" (amo 8 id (fun t b => if sword t <? sword b then t else b));
  R_ "10100?? ????? ????? 011 ????? 01011 11" (amo 8 id (fun t b => if sword b <? sword t then t else b));
  R_ "11000?? ????? ????? 011 ????? 01011 11" (amo 8 id (fun t b => if t <? b then t else b));
  R_ "11100?? ????? ????? 011 ????? 01011 11" (amo 8 id (fun t b => if b <? t then t else b)) ] else []).

(** ** Dispatch *)

(** [switch (BITS(inst, 6, 2))]. *)
Definition group (opcode : Z) : list row :=
  match opcode with
  | 0x0d => grp_lui
  | 0x05 => grp_auipc
  | 0x1b => grp_jal
  | 0x19 => grp_jalr
  | 0x18 => grp_branch
  | 0x00 => grp_load
  | 0x01 => grp_fp_load
  | 0x08 => grp_store
  | 0x09 => grp_fp_store
  | 0x10 => grp_fmadd
  | 0x11 => grp_fmsub
  | 0x12 => grp_fnmsub
  | 0x13 => grp_fnmadd
  | 0x14 => grp_fp_op
  | 0x04 => grp_opimm
  | 0x0c => grp_op
  | 0x15 => grp_vector
  | 0x06 => if CONFIG_RV64 then grp_opimm32 else []
  | 0x0e => if CONFIG_RV64 then grp_op32 else []
  | 0x03 => grp_miscmem
  | 0x1c => grp_system
  | 0x0b => grp_amo
  | _ => []
  end.

Definition inv : inst_type * body := (TYPE_N, fun s _ => raise MCA_ILLEGAL_INS (d_pc s)).

(** The row an instruction selects: the first match of its group, or [inv]. *)
Definition select (inst : Z) : inst_type * body := default inv (instpat_first (group (BITS inst 6 2)) inst).

Definition execute_inst (s : Decode) : M machine Z :=
  let '(type, b) := select (d_inst s) in
  o ← decode_operand s type; b s o.

End Exec.
