(* ===== verification/ExecSpec.v ===== *)
(** * ExecSpec: what every instruction body does to the registers and the decode
    cache *)
From Stdlib Require Import String.
From S2P Require Import Prelude Config Tlb InstPat Alu Fp Machine Trap Clint Vector Csr Hoare Paddr Mmu Vaddr Decode FpExec HvExec MemFrame Frame Exec.

#[local] Open Scope Z_scope.

(** A body starts in a state of [P] and ends in one of [Q], which does not care
    what the destination register receives; when it jumps, the destination has
    not been written, or only with 0, and [P] holds. *)
Class BodyFrame (P Q : machine -> Prop) : Prop := {
  body_sub : forall m, P m -> Q m;
  body_set : forall i v m, Q m -> Q (setR i v m);
  body_zero : forall i m, P m -> P (setR i 0 m);
}.

Definition ends {A} (P Q : machine -> Prop) (m : M machine A) : Prop := ptriple P m (fun _ => Q) P.
(** No jump and no abort. *)
Definition quiet {A} (Q : machine -> Prop) (m : M machine A) : Prop :=
  ptriple Q m (fun _ => Q) (fun _ => False).

(** What the vector unit owes the rest of the hart. *)
Class VectorFrame {VU : VectorUnit} (P Q : machine -> Prop) : Prop := {
  vector_execute_ends : forall i, ends P Q (riscv_vector_execute i);
  vector_memory_ends : forall i is_store, ends P Q (riscv_vector_memory i is_store);
}.

Section ExecSpec.
Context {Cfg : Config} {SF : SoftFloat} {VU : VectorUnit} (P Q : machine -> Prop).
Context {HP : Stable P} {HQ : Stable Q} {BF : BodyFrame P Q} {VF : VectorFrame P Q}.

(** ** Rules *)

Lemma ends_bind {A B} (m : M machine A) (k : A -> M machine B) :
  keeps P m -> (forall a, ends P Q (k a)) -> ends P Q (mbind k m).
Proof. intros Hm Hk. by eapply ptriple_bind. Qed.

Lemma ends_then {A B} (m : M machine A) (k : A -> M machine B) :
  ends P Q m -> (forall a, quiet Q (k a)) -> ends P Q (mbind k m).
Proof.
  intros Hm Hk. eapply ptriple_bind; [exact Hm|]. intros a.
  eapply ptriple_conseq; [apply Hk|done|done|done].
Qed.

Lemma ends_keeps {A} (m : M machine A) : keeps P m -> ends P Q m.
Proof. intros H. eapply ptriple_post; [exact H|]. intros ? m'. apply body_sub. Qed.

Lemma ends_set_gprM i v : ends P Q (set_gprM i v).
Proof.
  unfold set_gprM. destruct (check_reg_idx i); [|by intros m].
  apply ptriple_modify. intros m Hm. by apply body_set, body_sub.
Qed.

Lemma keeps_set_zero i : keeps P (set_gprM i 0).
Proof.
  unfold set_gprM. destruct (check_reg_idx i); [|apply keeps_panic].
  apply keeps_modify. intros m. apply body_zero.
Qed.

Lemma quiet_ret {A} (a : A) : quiet Q (ret a).
Proof. by apply ptriple_ret. Qed.
Lemma quiet_bind {A B} (m : M machine A) (k : A -> M machine B) :
  quiet Q m -> (forall a, quiet Q (k a)) -> quiet Q (mbind k m).
Proof. intros Hm Hk. by eapply ptriple_bind. Qed.
Lemma quiet_modify f : stays Q f -> quiet Q (modify f).
Proof. intros H. by apply ptriple_modify. Qed.
Lemma quiet_when b (m : M machine unit) : quiet Q m -> quiet Q (when b m).
Proof. intros H. destruct b; [exact H | apply quiet_ret]. Qed.
Lemma quiet_raise NO epc : quiet Q (raise NO epc).
Proof.
  intros m Hm. unfold raise, lift. pose proof (stable_isa_raise_intr NO epc m Hm).
  by destruct (isa_raise_intr NO epc m).
Qed.

Lemma ends_vector_configure i : ends P Q (lift (riscv_vector_configure i)).
Proof.
  intros m Hm. apply body_sub in Hm. unfold lift.
  assert (K : Q (riscv_vector_configure i m).2); [|by destruct (riscv_vector_configure i m)].
  cbv beta delta [riscv_vector_configure].
  repeat first [ stable1 | simple apply body_set ].
Qed.

End ExecSpec.

Ltac quiet1 :=
  lazymatch goal with
  | |- quiet _ (mbind _ _) => apply quiet_bind; [|intros ?]
  | |- quiet _ (stdpp.base.mret _) => apply quiet_ret
  | |- quiet _ (modify _) => apply quiet_modify; intros ? ?; stable
  | |- quiet _ (when _ _) => apply quiet_when
  | |- quiet ?Q (raise _ _) => apply (quiet_raise Q)
  | |- quiet _ (match ?x with _ => _ end) => destruct x
  end.
Ltac ends1 :=
  lazymatch goal with
  | |- ends _ _ (mbind _ _) =>
      first [ apply ends_bind; [solve [repeat keeps1]|intros ?]
            | apply ends_then; [|intros ?; solve [repeat quiet1]] ]
  | |- ends _ _ (match ?x with _ => _ end) => destruct x
  | |- ends ?P ?Q (let x := ?e in @?b x) => refine (stable_value (fun y => ends P Q (b y)) e _); intros ?; cbv beta
  | |- ends ?P ?Q (set_gprM _ _) => apply (ends_set_gprM P Q)
  | |- ends ?P ?Q _ => first [ solve [eauto 2 with keeps nocore] | apply (ends_keeps P Q); solve [repeat keeps1] ]
  end.
Tactic Notation "ending" reference(op) := intros; cbv beta delta [op]; repeat ends1.

Section Bodies.
Context {Cfg : Config} {SF : SoftFloat} {VU : VectorUnit} (P Q : machine -> Prop).
Context {HP : Stable P} {HQ : Stable Q} {BF : BodyFrame P Q} {VF : VectorFrame P Q}.

(** ** Floating point *)

Lemma stable_fp_mark_dirty (R : machine -> Prop) `{!Stable R} : stays R fp_mark_dirty.
Proof. stable_of fp_mark_dirty. Qed.
#[local] Hint Resolve stable_fp_mark_dirty : stable.
Lemma stable_fp_merge_flags (R : machine -> Prop) `{!Stable R} flags : stays R (fp_merge_flags flags).
Proof. stable_of fp_merge_flags. Qed.
#[local] Hint Resolve stable_fp_merge_flags : stable.

Lemma keeps_fp_access s d : keeps P (fp_access s d).
Proof. keeping fp_access. Qed.
Lemma keeps_fp_read_d_mem a : keeps P (fp_read_d_mem a).
Proof. keeping fp_read_d_mem. Qed.
Lemma keeps_fp_write_d_mem a data : keeps P (fp_write_d_mem a data).
Proof. keeping fp_write_d_mem. Qed.
Lemma keeps_read_s idx : keeps P (read_s idx).
Proof. keeping read_s. Qed.
Lemma keeps_read_h idx : keeps P (read_h idx).
Proof. keeping read_h. Qed.
Lemma keeps_write_fp rd bits : keeps P (write_fp rd bits).
Proof. keeping write_fp. Qed.
Lemma keeps_write_flags rd bits flags : keeps P (write_flags rd bits flags).
Proof. keeping write_flags. Qed.
#[local] Hint Resolve keeps_fp_access keeps_fp_read_d_mem keeps_fp_write_d_mem keeps_read_s keeps_read_h
  keeps_write_fp keeps_write_flags : keeps.

Lemma ends_write_int rd v flags : ends P Q (write_int rd v flags).
Proof. ending write_int. Qed.
Lemma ends_with_access s d (b : M machine unit) : ends P Q b -> ends P Q (with_access s d b).
Proof.
  intros Hb. unfold with_access. apply ends_bind; [repeat keeps1|]. intros [dnpc|]; [repeat ends1|].
  apply ends_then; [exact Hb | intros ?; repeat quiet1].
Qed.
Lemma ends_with_prepare s d (b : Z -> M machine unit) :
  (forall mode, ends P Q (b mode)) -> ends P Q (with_prepare s d b).
Proof.
  intros Hb. unfold with_prepare. apply ends_bind; [repeat keeps1|]. intros valid.
  destruct (negb valid); [repeat ends1|]. apply ends_with_access, ends_bind; [repeat keeps1 | exact Hb].
Qed.

Ltac fp_end :=
  first [ apply ends_with_prepare; intros ? | apply ends_with_access ];
  repeat first [ apply ends_write_int | ends1 ].
Lemma ends_fp_load_s s rd addr : ends P Q (fp_load_s s rd addr).
Proof. unfold fp_load_s. fp_end. Qed.
Lemma ends_fp_load_d s rd addr : ends P Q (fp_load_d s rd addr).
Proof. unfold fp_load_d. fp_end. Qed.
Lemma ends_fp_load_h s rd addr : ends P Q (fp_load_h s rd addr).
Proof. unfold fp_load_h. fp_end. Qed.
Lemma ends_fp_store_s s addr rs2 : ends P Q (fp_store_s s addr rs2).
Proof. unfold fp_store_s. fp_end. Qed.
Lemma ends_fp_store_d s addr rs2 : ends P Q (fp_store_d s addr rs2).
Proof. unfold fp_store_d. fp_end. Qed.
Lemma ends_fp_store_h s addr rs2 : ends P Q (fp_store_h s addr rs2).
Proof. unfold fp_store_h. fp_end. Qed.
Lemma ends_fp_move_to_s s rd value : ends P Q (fp_move_to_s s rd value).
Proof. unfold fp_move_to_s. fp_end. Qed.
Lemma ends_fp_move_from_s s rd rs1 : ends P Q (fp_move_from_s s rd rs1).
Proof. unfold fp_move_from_s. fp_end. Qed.
Lemma ends_fp_move_to_d s rd value : ends P Q (fp_move_to_d s rd value).
Proof. unfold fp_move_to_d. fp_end. Qed.
Lemma ends_fp_move_from_d s rd rs1 : ends P Q (fp_move_from_d s rd rs1).
Proof. unfold fp_move_from_d. fp_end. Qed.
Lemma ends_fp_move_to_h s rd value : ends P Q (fp_move_to_h s rd value).
Proof. unfold fp_move_to_h. fp_end. Qed.
Lemma ends_fp_move_from_h s rd rs1 : ends P Q (fp_move_from_h s rd rs1).
Proof. unfold fp_move_from_h. fp_end. Qed.
Lemma ends_fp_sign_inject_s s rd rs1 rs2 mode : ends P Q (fp_sign_inject_s s rd rs1 rs2 mode).
Proof. unfold fp_sign_inject_s. fp_end. Qed.
Lemma ends_fp_sign_inject_d s rd rs1 rs2 mode : ends P Q (fp_sign_inject_d s rd rs1 rs2 mode).
Proof. unfold fp_sign_inject_d. fp_end. Qed.
Lemma ends_fp_exec_binary_s s rd rs1 rs2 operation : ends P Q (fp_exec_binary_s s rd rs1 rs2 operation).
Proof. unfold fp_exec_binary_s. fp_end. Qed.
Lemma ends_fp_exec_binary_d s rd rs1 rs2 operation : ends P Q (fp_exec_binary_d s rd rs1 rs2 operation).
Proof. unfold fp_exec_binary_d. fp_end. Qed.
Lemma ends_fp_exec_unary_s s rd rs1 operation : ends P Q (fp_exec_unary_s s rd rs1 operation).
Proof. unfold fp_exec_unary_s. fp_end. Qed.
Lemma ends_fp_exec_unary_d s rd rs1 operation : ends P Q (fp_exec_unary_d s rd rs1 operation).
Proof. unfold fp_exec_unary_d. fp_end. Qed.
Lemma ends_fp_exec_fma_s s rd rs1 rs2 rs3 negate_product negate_addend : ends P Q (fp_exec_fma_s s rd rs1 rs2 rs3 negate_product negate_addend).
Proof. unfold fp_exec_fma_s. fp_end. Qed.
Lemma ends_fp_exec_fma_d s rd rs1 rs2 rs3 negate_product negate_addend : ends P Q (fp_exec_fma_d s rd rs1 rs2 rs3 negate_product negate_addend).
Proof. unfold fp_exec_fma_d. fp_end. Qed.
Lemma ends_fp_exec_minmax_s s rd rs1 rs2 operation : ends P Q (fp_exec_minmax_s s rd rs1 rs2 operation).
Proof. unfold fp_exec_minmax_s. fp_end. Qed.
Lemma ends_fp_exec_minmax_d s rd rs1 rs2 operation : ends P Q (fp_exec_minmax_d s rd rs1 rs2 operation).
Proof. unfold fp_exec_minmax_d. fp_end. Qed.
Lemma ends_fp_exec_compare_s s rd rs1 rs2 operation : ends P Q (fp_exec_compare_s s rd rs1 rs2 operation).
Proof. unfold fp_exec_compare_s. fp_end. Qed.
Lemma ends_fp_exec_compare_d s rd rs1 rs2 operation : ends P Q (fp_exec_compare_d s rd rs1 rs2 operation).
Proof. unfold fp_exec_compare_d. fp_end. Qed.
Lemma ends_fp_exec_class_s s rd rs1 : ends P Q (fp_exec_class_s s rd rs1).
Proof. unfold fp_exec_class_s. fp_end. Qed.
Lemma ends_fp_exec_class_d s rd rs1 : ends P Q (fp_exec_class_d s rd rs1).
Proof. unfold fp_exec_class_d. fp_end. Qed.
Lemma ends_fp_exec_to_int_s s rd rs1 unsigned_result int64 : ends P Q (fp_exec_to_int_s s rd rs1 unsigned_result int64).
Proof. unfold fp_exec_to_int_s. fp_end. Qed.
Lemma ends_fp_exec_to_int_d s rd rs1 unsigned_result int64 : ends P Q (fp_exec_to_int_d s rd rs1 unsigned_result int64).
Proof. unfold fp_exec_to_int_d. fp_end. Qed.
Lemma ends_fp_exec_from_int_s s rd value unsigned_input int64 : ends P Q (fp_exec_from_int_s s rd value unsigned_input int64).
Proof. unfold fp_exec_from_int_s. fp_end. Qed.
Lemma ends_fp_exec_from_int_d s rd value unsigned_input int64 : ends P Q (fp_exec_from_int_d s rd value unsigned_input int64).
Proof. unfold fp_exec_from_int_d. fp_end. Qed.
Lemma ends_fp_exec_convert_d_to_s s rd rs1 : ends P Q (fp_exec_convert_d_to_s s rd rs1).
Proof. unfold fp_exec_convert_d_to_s. fp_end. Qed.
Lemma ends_fp_exec_convert_s_to_d s rd rs1 : ends P Q (fp_exec_convert_s_to_d s rd rs1).
Proof. unfold fp_exec_convert_s_to_d. fp_end. Qed.
Lemma ends_fp_exec_convert_h_to_s s rd rs1 : ends P Q (fp_exec_convert_h_to_s s rd rs1).
Proof. unfold fp_exec_convert_h_to_s. fp_end. Qed.
Lemma ends_fp_exec_convert_h_to_d s rd rs1 : ends P Q (fp_exec_convert_h_to_d s rd rs1).
Proof. unfold fp_exec_convert_h_to_d. fp_end. Qed.
Lemma ends_fp_exec_convert_s_to_h s rd rs1 : ends P Q (fp_exec_convert_s_to_h s rd rs1).
Proof. unfold fp_exec_convert_s_to_h. fp_end. Qed.
Lemma ends_fp_exec_convert_d_to_h s rd rs1 : ends P Q (fp_exec_convert_d_to_h s rd rs1).
Proof. unfold fp_exec_convert_d_to_h. fp_end. Qed.
Lemma ends_fp_exec_zfa s operation : ends P Q (fp_exec_zfa s operation).
Proof. cbv beta delta [fp_exec_zfa]. repeat first [ apply ends_write_int | ends1 ]. Qed.
#[local] Hint Resolve ends_fp_load_s ends_fp_load_d ends_fp_load_h ends_fp_store_s ends_fp_store_d
  ends_fp_store_h ends_fp_move_to_s ends_fp_move_from_s ends_fp_move_to_d ends_fp_move_from_d
  ends_fp_move_to_h ends_fp_move_from_h ends_fp_sign_inject_s ends_fp_sign_inject_d ends_fp_exec_binary_s
  ends_fp_exec_binary_d ends_fp_exec_unary_s ends_fp_exec_unary_d ends_fp_exec_fma_s ends_fp_exec_fma_d
  ends_fp_exec_minmax_s ends_fp_exec_minmax_d ends_fp_exec_compare_s ends_fp_exec_compare_d
  ends_fp_exec_class_s ends_fp_exec_class_d ends_fp_exec_to_int_s ends_fp_exec_to_int_d
  ends_fp_exec_from_int_s ends_fp_exec_from_int_d ends_fp_exec_convert_d_to_s ends_fp_exec_convert_s_to_d
  ends_fp_exec_convert_h_to_s ends_fp_exec_convert_h_to_d ends_fp_exec_convert_s_to_h
  ends_fp_exec_convert_d_to_h ends_fp_exec_zfa : keeps.


(** ** The other bodies *)

Lemma ends_wr s o v : ends P Q (wr s o v).
Proof. ending wr. Qed.
#[local] Hint Resolve ends_wr : keeps.

Lemma ends_jump s o target : ends P Q (jump s o target).
Proof. ending jump. Qed.
Lemma ends_vector_memory_execute is_store s : ends P Q (vector_memory_execute is_store s).
Proof. cbv beta delta [vector_memory_execute]. apply ends_then; [apply vector_memory_ends | intros ?; repeat quiet1]. Qed.
Lemma ends_vector_op legal s : ends P Q legal -> ends P Q (vector_op legal s).
Proof. intros H. unfold vector_op. apply ends_then; [exact H | intros ?; repeat quiet1]. Qed.

Lemma keeps_zero_words block n off : keeps P (zero_words block n off).
Proof. revert off. induction n as [|n IH]; intros off; cbn [zero_words]; repeat keeps1; apply IH. Qed.
#[local] Hint Resolve keeps_zero_words : keeps.
Lemma keeps_zero_block o : keeps P (zero_block o).
Proof. keeping zero_block. Qed.
Lemma keeps_cbo kind action s o : (forall o, keeps P (action o)) -> keeps P (cbo kind action s o).
Proof. intros H. unfold cbo, next. repeat first [ keeps1 | apply H ]. Qed.

Lemma keeps_sfence_vma s : keeps P (sfence_vma s).
Proof. cbv beta delta [sfence_vma next]. repeat keeps1. Qed.
Lemma keeps_sinval_vma s : keeps P (sinval_vma s).
Proof. cbv beta delta [sinval_vma next]. repeat keeps1. Qed.
Lemma keeps_sfence_inval s : keeps P (sfence_inval s).
Proof. keeping sfence_inval. Qed.
Lemma keeps_hfence guest_stage s : keeps P (hfence guest_stage s).
Proof. keeping hfence. Qed.
Lemma ends_hlv execute_access length extend s o : ends P Q (hlv execute_access length extend s o).
Proof. ending hlv. Qed.
Lemma keeps_hsv length s o : keeps P (hsv length s o).
Proof. keeping hsv. Qed.
Lemma ends_csr_access is_write update s o : ends P Q (csr_access is_write update s o).
Proof. cbv beta delta [csr_access next]. repeat ends1. Qed.
Lemma keeps_wrs_nto s : keeps P (wrs_nto s).
Proof. keeping wrs_nto. Qed.
Lemma keeps_wrs_sto s : keeps P (wrs_sto s).
Proof. keeping wrs_sto. Qed.
Lemma keeps_wfi s : keeps P (wfi s).
Proof. cbv beta delta [wfi next]. repeat keeps1. Qed.

Lemma ends_lr len extend s o : ends P Q (lr len extend s o).
Proof. cbv beta delta [lr next]. repeat ends1. Qed.
Lemma keeps_sc_store (ok : bool) o len :
  ends P Q (if ok then set_gprM (rd o) 0;; vaddr_write (src1 o) len (src2 o) else set_gprM (rd o) 1).
Proof.
  destruct ok; [|apply (ends_set_gprM P Q)]. apply (ends_keeps P Q), keeps_bind; [apply (keeps_set_zero P Q) | intros ?; repeat keeps1].
Qed.
Lemma ends_sc len s o : ends P Q (sc len s o).
Proof.
  unfold sc. apply ends_bind; [repeat keeps1 | intros pa]. apply ends_bind; [repeat keeps1 | intros ok].
  apply ends_then; [apply keeps_sc_store | intros ?; unfold next; repeat quiet1].
Qed.
Lemma ends_amo len extend f s o : ends P Q (amo len extend f s o).
Proof. ending amo. Qed.

#[local] Hint Resolve keeps_hsv keeps_hfence keeps_sfence_vma keeps_sinval_vma keeps_sfence_inval keeps_wrs_nto
  keeps_wrs_sto keeps_wfi : keeps.

(** ** Rows *)

Definition row_ends (r : row) : Prop := forall s o, ends P Q (r.2.2 s o).

Ltac row_end :=
  intros s o; cbn [fst snd R_ I_ N_];
  cbv beta delta [alu branch store load ff f1 fx sgnj bin un to_int from_int zfa fma_s fma_d csr_set csr_clear csr_swap];
  lazymatch goal with
  | |- ends _ _ (wr _ _ _) => apply ends_wr
  | |- ends _ _ (jump _ _ _) => apply ends_jump
  | |- ends _ _ (vector_memory_execute _ _) => apply ends_vector_memory_execute
  | |- ends _ _ (vector_op (lift _) _) => apply ends_vector_op, (ends_vector_configure P Q)
  | |- ends _ _ (vector_op _ _) => apply ends_vector_op, vector_execute_ends
  | |- ends _ _ (hlv _ _ _ _ _) => apply ends_hlv
  | |- ends _ _ (lr _ _ _ _) => apply ends_lr
  | |- ends _ _ (sc _ _ _) => apply ends_sc
  | |- ends _ _ (amo _ _ _ _ _) => apply ends_amo
  | |- ends _ _ (csr_access _ _ _ _) => apply ends_csr_access
  | |- ends _ _ (cbo _ zero_block _ _) => apply (ends_keeps P Q), keeps_cbo, keeps_zero_block
  | |- ends _ _ (cbo _ _ _ _) => apply (ends_keeps P Q), keeps_cbo; intros; repeat keeps1
  | |- ends _ _ (next _ _) => cbv beta delta [next]; repeat ends1
  | |- _ => repeat ends1
  end.
Create HintDb rows discriminated.
Ltac rows_end :=
  repeat first
    [ apply Forall_app; split
    | solve [eauto 1 with rows nocore]
    | apply Forall_cons; split; [row_end; fail|]
    | apply Forall_nil; exact I
    | match goal with |- context [if CONFIG_RV64 then _ else _] => destruct CONFIG_RV64 end ].

Lemma grp_lui_ends : Forall row_ends grp_lui.
Proof. unfold grp_lui. rows_end. Qed.
Lemma grp_auipc_ends : Forall row_ends grp_auipc.
Proof. unfold grp_auipc. rows_end. Qed.
Lemma grp_jal_ends : Forall row_ends grp_jal.
Proof. unfold grp_jal. rows_end. Qed.
Lemma grp_jalr_ends : Forall row_ends grp_jalr.
Proof. unfold grp_jalr. rows_end. Qed.
Lemma grp_branch_ends : Forall row_ends grp_branch.
Proof. unfold grp_branch. rows_end. Qed.
Lemma grp_load_ends : Forall row_ends grp_load.
Proof. unfold grp_load. rows_end. Qed.
Lemma grp_store_ends : Forall row_ends grp_store.
Proof. unfold grp_store. rows_end. Qed.
Lemma grp_fp_load_ends : Forall row_ends grp_fp_load.
Proof. unfold grp_fp_load. rows_end. Qed.
Lemma grp_fp_store_ends : Forall row_ends grp_fp_store.
Proof. unfold grp_fp_store. rows_end. Qed.
Lemma grp_fmadd_ends : Forall row_ends grp_fmadd.
Proof. unfold grp_fmadd. rows_end. Qed.
Lemma grp_fmsub_ends : Forall row_ends grp_fmsub.
Proof. unfold grp_fmsub. rows_end. Qed.
Lemma grp_fnmsub_ends : Forall row_ends grp_fnmsub.
Proof. unfold grp_fnmsub. rows_end. Qed.
Lemma grp_fnmadd_ends : Forall row_ends grp_fnmadd.
Proof. unfold grp_fnmadd. rows_end. Qed.
Lemma grp_fp_zfa_ends : Forall row_ends grp_fp_zfa.
Proof. unfold grp_fp_zfa. rows_end. Qed.
#[local] Hint Resolve grp_fp_zfa_ends : rows.
Lemma grp_fp_single_ends : Forall row_ends grp_fp_single.
Proof. unfold grp_fp_single. rows_end. Qed.
#[local] Hint Resolve grp_fp_single_ends : rows.
Lemma grp_fp_double_ends : Forall row_ends grp_fp_double.
Proof. unfold grp_fp_double. rows_end. Qed.
#[local] Hint Resolve grp_fp_double_ends : rows.
Lemma grp_fp_convert_ends : Forall row_ends grp_fp_convert.
Proof. unfold grp_fp_convert. rows_end. Qed.
#[local] Hint Resolve grp_fp_convert_ends : rows.
Lemma grp_fp_op_ends : Forall row_ends grp_fp_op.
Proof. unfold grp_fp_op. rows_end. Qed.
Lemma grp_opimm_ends : Forall row_ends grp_opimm.
Proof. unfold grp_opimm. rows_end. Qed.
Lemma grp_op_ends : Forall row_ends grp_op.
Proof. unfold grp_op. rows_end. Qed.
Lemma grp_vector_ends : Forall row_ends grp_vector.
Proof. unfold grp_vector. rows_end. Qed.
Lemma grp_opimm32_ends : Forall row_ends grp_opimm32.
Proof. unfold grp_opimm32. rows_end. Qed.
Lemma grp_op32_ends : Forall row_ends grp_op32.
Proof. unfold grp_op32. rows_end. Qed.
Lemma grp_miscmem_ends : Forall row_ends grp_miscmem.
Proof. unfold grp_miscmem. rows_end. Qed.
Lemma grp_system_h_ends : Forall row_ends grp_system_h.
Proof. unfold grp_system_h. rows_end. Qed.
#[local] Hint Resolve grp_system_h_ends : rows.
Lemma grp_system_ends : Forall row_ends grp_system.
Proof. unfold grp_system. rows_end. Qed.
Lemma grp_amo_ends : Forall row_ends grp_amo.
Proof. unfold grp_amo. rows_end. Qed.

Lemma group_ends opcode : Forall row_ends (group opcode).
Proof.
  unfold group. repeat case_match; try (apply Forall_nil; exact I);
    first [ apply grp_lui_ends | apply grp_auipc_ends | apply grp_jal_ends | apply grp_jalr_ends | apply grp_branch_ends | apply grp_load_ends | apply grp_store_ends | apply grp_fp_load_ends | apply grp_fp_store_ends | apply grp_fmadd_ends | apply grp_fmsub_ends | apply grp_fnmsub_ends | apply grp_fnmadd_ends | apply grp_fp_zfa_ends | apply grp_fp_single_ends | apply grp_fp_double_ends | apply grp_fp_convert_ends | apply grp_fp_op_ends | apply grp_opimm_ends | apply grp_op_ends | apply grp_vector_ends | apply grp_opimm32_ends | apply grp_op32_ends | apply grp_miscmem_ends | apply grp_system_h_ends | apply grp_system_ends | apply grp_amo_ends ].
Qed.

Lemma instpat_first_in {A} (rows : list (string * A)) i x :
  instpat_first rows i = Some x -> exists pat, (pat, x) ∈ rows.
Proof.
  induction rows as [|[pat a] rows IH]; cbn [instpat_first]; [done|].
  destruct (instpat_match pat i).
  - intros [= ->]. exists pat. by left.
  - intros H. destruct (IH H) as [pat' ?]. exists pat'. by right.
Qed.

Lemma keeps_inv s o : keeps P (inv.2 s o).
Proof. cbn [inv snd]. repeat keeps1. Qed.

Lemma ends_execute_inst s : ends P Q (execute_inst s).
Proof.
  unfold execute_inst, select. destruct (instpat_first _ _) as [[type b]|] eqn:E.
  - cbn [default]. apply ends_bind; [repeat keeps1|]. intros o.
    apply instpat_first_in in E as [pat E].
    exact (proj1 (Forall_forall _ _) (group_ends _) _ E s o).
  - cbn [default inv]. apply (ends_keeps P Q), keeps_bind; [repeat keeps1 | apply keeps_inv].
Qed.

End Bodies.
