(* ===== verification/VecUnit.v ===== *)
(** * VecUnit: the vector unit behind the interface of the instructions

    [Exec] takes the element and memory instructions of the vector unit from the
    class [VectorUnit]. Here [VecExec] and [VecMem] implement it, and are shown
    to owe the hart what [VectorFrame] asks. *)
From S2P Require Import Prelude Config Tlb Fp Machine Trap Vector VecAlu VecExec Csr Hoare Paddr Mmu Vaddr Decode VecMem MemFrame VecMemSpec Frame Exec ExecSpec.

#[local] Open Scope Z_scope.

#[local] Instance vector_unit {Cfg : Config} {SF : SoftFloat} : VectorUnit := {|
  Exec.riscv_vector_execute instruction := lift (VecExec.riscv_vector_execute instruction);
  Exec.riscv_vector_memory := VecMem.riscv_vector_memory;
|}.

Section VecUnit.
Context {Cfg : Config} {SF : SoftFloat} {P : machine -> Prop} {HP : Stable P}.

(** ** Element instructions *)

Lemma stable_vector_element_write r index b v : stays P (vector_element_write r index b v).
Proof. stable_of vector_element_write. Qed.
Lemma stable_vector_mask_write r index b : stays P (vector_mask_write r index b).
Proof. stable_of vector_mask_write. Qed.
Lemma stable_saturate b : stays P (saturate b).
Proof. stable_of saturate. Qed.
Lemma stable_set_fpr_raw r v : stays P (set_fpr_raw r v).
Proof. stable_of set_fpr_raw. Qed.
Lemma stable_vector_finish floating : stays P (vector_finish floating).
Proof. stable_of vector_finish. Qed.
#[local] Hint Resolve stable_vector_element_write stable_vector_mask_write stable_saturate stable_set_fpr_raw stable_vector_finish : stable.

Lemma stable_vfold {S} (p : S -> machine) f n first s :
  (forall index s, P (p s) -> P (p (f index s))) -> P (p s) -> P (p (vfold f n first s)).
Proof. intros H. revert first s. induction n as [|n IH]; intros first s Hs; [done|]. by apply IH, H. Qed.
Lemma stable_vloop f : (forall index, stays P (f index)) -> stays P (vloop f).
Proof. intros H m Hm. apply (stable_vfold id); [|done]. intros index m'. apply H. Qed.
Lemma stable_vloop_flags f m : (forall index m, P m -> P (f index m).1) -> P m -> P (vloop_flags f m).1.
Proof.
  intros H Hm. refine (stable_vfold fst _ _ _ (m, 0) _ Hm). intros index [m' flags] H'.
  specialize (H index m' H'). by destruct (f index m').
Qed.
Lemma stable_accrue run : P run.1 -> P (accrue run).
Proof. apply stable_orCSR. Qed.

(** One iteration of a loop. *)
Ltac iteration :=
  intros ? ? ?;
  repeat match goal with
  | |- P (fst (let x := ?e in @?b x)) => refine (stable_value (fun y => P (fst (b y))) e _); intros ?; cbv beta
  | |- P (fst (match ?x with _ => _ end)) => destruct x
  | |- P (fst (_, _)) => cbn [fst]
  | _ => stable1
  end.
Tactic Notation "looping" reference(exec) reference(step) :=
  intros ? ?; cbv beta delta [exec]; cbv zeta;
  first [ apply stable_vloop | apply stable_accrue, stable_vloop_flags ]; try done;
  cbv beta delta [step]; cbv beta zeta; iteration.

Lemma stable_move_exec i : stays P (move_exec i).
Proof. intros m H. apply (stable_vfold id); [|done]. unfold move_element, id. iteration. Qed.
Lemma stable_insert_exec i : stays P (insert_exec i).
Proof. stable_of insert_exec. Qed.
Lemma stable_zvbb_exec i : stays P (zvbb_exec i).
Proof. looping zvbb_exec zvbb_element. Qed.
Lemma stable_fp_exec i : stays P (fp_exec i).
Proof.
  intros m H. apply stable_accrue. unfold fp_run. cbv zeta. destruct (fp_extract i); [cbn [fst]; stable|].
  destruct (fp_insert i); [cbn [fst]; stable|].
  destruct (fp_compute i); [apply stable_vloop_flags; [|done]; unfold fp_compute_element; iteration|].
  destruct (fp_slide i); cbn [fst]; apply stable_vloop; try done;
    [unfold fp_slide_element | unfold fp_merge_element]; iteration.
Qed.
Lemma stable_resize_exec i : stays P (resize_exec i).
Proof. looping resize_exec resize_element. Qed.
Lemma stable_fp_integer_exec i : stays P (fp_integer_exec i).
Proof. looping fp_integer_exec fp_integer_element. Qed.
Lemma stable_fp_widen_exec i : stays P (fp_widen_exec i).
Proof. looping fp_widen_exec fp_widen_element. Qed.
Lemma stable_fp_reduce_exec i : stays P (fp_reduce_exec i).
Proof.
  intros m H. unfold fp_reduce_exec. cbv zeta. destruct (_ =? 0); [done|].
  destruct (vfold _ _ _ _). apply stable_orCSR. stable.
Qed.
Lemma stable_slide_exec i : stays P (slide_exec i).
Proof. looping slide_exec slide_element. Qed.
Lemma stable_gather_exec i : stays P (gather_exec i).
Proof. looping gather_exec gather_element. Qed.
Lemma stable_prefix_exec i : stays P (prefix_exec i).
Proof.
  intros m H. unfold prefix_exec. refine (stable_vfold (fun s => s.1.1) _ _ _ (m, 0, false) _ H).
  intros index [[m' count] seen] H'. cbn [fst] in *. unfold prefix_element. cbv zeta.
  destruct (negb _); [done|]. destruct (mask_prefix i); cbn [fst]; stable.
Qed.
Lemma stable_compress_exec i : stays P (compress_exec i).
Proof.
  intros m H. refine (stable_vfold fst _ _ _ (m, 0) _ H). intros index [m' out] H'. cbn [fst] in *.
  unfold compress_element. destruct (negb _); cbn [fst]; stable.
Qed.
Lemma stable_reduction_exec i : stays P (reduction_exec i).
Proof. intros m H. unfold reduction_exec. cbv zeta. stable. Qed.
Lemma stable_extend_exec i : stays P (extend_exec i).
Proof. looping extend_exec extend_element. Qed.
Lemma stable_narrow_exec i : stays P (narrow_exec i).
Proof. looping narrow_exec narrow_element. Qed.
Lemma stable_widen_exec i : stays P (widen_exec i).
Proof. looping widen_exec widen_element. Qed.
Lemma stable_muladd_exec i : stays P (muladd_exec i).
Proof. looping muladd_exec muladd_element. Qed.
Lemma stable_integer_loop i s : stays P (vloop (integer_element i s)).
Proof. apply stable_vloop. unfold integer_element. iteration. Qed.

(** ** Memory instructions *)

Lemma keeps_segment a store index base : keeps P (segment_access a store index base).
Proof. apply keeps_segment_access. intros. apply stable_vector_element_write. Qed.
Lemma keeps_elements_access a store base stride n index : keeps P (elements_access a store base stride n index).
Proof.
  revert index. induction n as [|n IH]; intros index; cbn [elements_access]; [apply keeps_ret|].
  apply keeps_bind; [keeps1; intros; stable|]. intros _. apply keeps_bind; [apply keeps_get|]. intros m.
  apply keeps_bind; [destruct (_ && _); [apply keeps_ret | apply keeps_segment]|].
  intros [c|]; [apply keeps_ret | apply IH].
Qed.
#[local] Hint Resolve keeps_elements_access : keeps.
Lemma keeps_access_loop a store base stride : keeps P (access_loop a store base stride).
Proof. keeping access_loop. Qed.
Lemma keeps_fof_handler loop : keeps P loop -> keeps P (fof_handler loop).
Proof.
  intros H m Hm. specialize (H m Hm). unfold fof_handler. destruct (loop m) as [[r|c|] m']; try done.
  destruct (fof_fault m'); [stable | done].
Qed.

Lemma keeps_riscv_vector_memory instruction store : keeps P (VecMem.riscv_vector_memory instruction store).
Proof.
  unfold VecMem.riscv_vector_memory. apply keeps_bind; [apply keeps_get|]. intros m.
  destruct (vector_access instruction store m) as [a|]; [|apply keeps_ret]. cbv zeta.
  apply keeps_bind; [keeps1; intros; stable|]. intros _. apply keeps_bind; [keeps1; intros; stable|]. intros _.
  apply keeps_bind.
  - destruct (a_fof a); [apply keeps_fof_handler, keeps_access_loop|].
    apply keeps_bind; [apply keeps_access_loop | intros; apply keeps_ret].
  - intros [[c|]|]; repeat keeps1.
Qed.

End VecUnit.

(** ** The interface *)

#[local] Hint Resolve stable_move_exec stable_insert_exec stable_zvbb_exec stable_fp_exec stable_resize_exec
  stable_fp_integer_exec stable_fp_widen_exec stable_fp_reduce_exec stable_slide_exec stable_gather_exec
  stable_prefix_exec stable_compress_exec stable_reduction_exec stable_extend_exec stable_narrow_exec
  stable_widen_exec stable_muladd_exec stable_integer_loop : stable.

Section Interface.
Context {Cfg : Config} {SF : SoftFloat} (P Q : machine -> Prop).
Context {HP : Stable P} {HQ : Stable Q} {BF : BodyFrame P Q}.

Lemma block_ends legal floating f m : P m -> Q (f m) -> Q (block legal floating f m).2.
Proof.
  intros Hm Hf. unfold block. destruct legal; cbn [snd]; [by apply stable_vector_finish | by apply body_sub].
Qed.

Lemma execute_typed_ends i m : P m -> Q (execute_typed i m).2.
Proof.
  intros Hm. unfold execute_typed.
  repeat (match goal with |- context [if ?b then block _ _ _ _ else _] => destruct b end;
          [apply block_ends; [done|]; try (apply body_sub; refine (stable_stays P _ m _ Hm); solve [eauto 2 with stable nocore])|]).
  - unfold mask_scan_exec. cbv zeta. destruct (nz _); [apply body_set|]; by apply body_sub.
  - unfold integer_exec. destruct (extract i); [|apply body_sub, stable_integer_loop, Hm].
    unfold extract_exec. cbv zeta. destruct (nz _); [apply body_set|]; by apply body_sub.
  - by apply body_sub.
Qed.

#[export] Instance vector_unit_frame : VectorFrame P Q.
Proof.
  split.
  - intros instruction. intros m Hm. cbn [Exec.riscv_vector_execute vector_unit]. unfold lift.
    assert (K : Q (VecExec.riscv_vector_execute instruction m).2);
      [|by destruct (VecExec.riscv_vector_execute instruction m)].
    unfold VecExec.riscv_vector_execute. cbv zeta. destruct (_ || _); [by apply body_sub|].
    destruct (is_move _); [apply block_ends; [done | by apply body_sub, stable_move_exec]|].
    destruct (_ || _); [by apply body_sub | by apply execute_typed_ends].
  - intros instruction store. apply (ends_keeps P Q), keeps_riscv_vector_memory.
Qed.

End Interface.
