(* ===== verification/Step.v ===== *)
(** * Step: one instruction from fetch to retirement ([isa_exec_once] and
    [decode_exec] of [inst.c]) and the loop of [cpu-exec.c]

    The tracing, replay and multi-hart hooks of both functions are left out;
    with one hart the bus lock around an atomic instruction has no effect. *)
From S2P Require Import Prelude Config Tlb Decompress Machine Trap Clint Csr Fp Vaddr Decode Exec.

#[local] Open Scope Z_scope.

Section Step.
Context {Cfg : Config} {SF : SoftFloat} {VU : VectorUnit}.

(** ** Retirement: what follows the body in [decode_exec] *)

(** The counters; an explicit write overrides the increment. *)
Definition wrote_mcycle (last_csr_wr : Z) : bool :=
  (last_csr_wr =? CSR_MCYCLE) || (negb CONFIG_RV64 && (last_csr_wr =? CSR_MCYCLEH)).
Definition wrote_minstret (last_csr_wr : Z) : bool :=
  (last_csr_wr =? CSR_MINSTRET) || (negb CONFIG_RV64 && (last_csr_wr =? CSR_MINSTRETH)).

Definition incCSR (csr : Z) (m : machine) : machine := setCSR csr (word (CSR m csr + 1)) m.

Definition advance_counters (last_csr_wr : Z) (m : machine) : machine :=
  let old_mcycle := CSR m CSR_MCYCLE in
  let old_minstret := CSR m CSR_MINSTRET in
  let m := if wrote_mcycle last_csr_wr then m else incCSR CSR_MCYCLE m in
  let m := if wrote_minstret last_csr_wr || instruction_trapped m then m else incCSR CSR_MINSTRET m in
  if CONFIG_RV64 then m
  else
    let m := if CSR m CSR_MCYCLE <? old_mcycle then incCSR CSR_MCYCLEH m else m in
    if CSR m CSR_MINSTRET <? old_minstret then incCSR CSR_MINSTRETH m else m.

(** Every [TIMER_TICK_INTERVAL] instructions the time is read again. *)
Definition TIMER_TICK_INTERVAL : Z := 1024.

Definition tick_time (m : machine) : machine :=
  if g_nr_guest_inst m .& (TIMER_TICK_INTERVAL - 1) =? 0 then
    let '(ticks, m) :=
      if CONFIG_TIMER_CYCLE then (wrap 64 (g_nr_guest_inst m + 1) / 100, m)
      else let '(us, m) := get_time m in (wrap 64 (us * 10), m) in
    let m := setCSR CSR_TIME (word ticks) m in
    let m := if CONFIG_RV64 then m else setCSR CSR_TIMEH (wrap 32 (ticks >> 32)) m in
    clint_update_mip m
  else m.

Definition retire (m : machine) : machine :=
  setR 0 0 (tick_time (advance_counters (last_csr_wr m) (csr_commit m))).

(** ** Decoding *)

(** A halfword is expanded. On a hit of the decode cache the caller has set
    [snpc] past the instruction. *)
Definition decode_head (s : Decode) : Decode :=
  if negb (d_inst s .& 0x3 =? 3) then
    mk_Decode (d_pc s) (word (d_pc s + 2)) (decompress_c (d_inst s .& 0xffff))
  else if d_snpc s <=? d_pc s then mk_Decode (d_pc s) (word (d_pc s + 4)) (d_inst s)
  else s.

(** The instruction at [s], and the next [pc]. *)
Definition decode_exec (s : Decode) : M machine Z :=
  dnpc ← execute_inst (decode_head s);
  modify retire;;
  ret (riscv_legalize_pc dnpc).

(** ** Fetch *)

(** Page-based memory types keep the decode cache out. *)
Definition cache_decode (m : machine) : bool :=
  if CONFIG_RV64 then negb (nz (CSR m CSR_MENVCFG .& (1 << 62))) else true.

Definition icache_entry (pc : Z) (m : machine) : icache_entry_t := aget (icache (tlb m)) (icache_slot pc).
Definition icache_hits (pc : Z) (m : machine) : bool := icache_hit (tlb m) (icache_entry pc m) pc.

(** [s] as [decode_exec] receives it. *)
Definition fetch (pc : Z) : M machine Decode :=
  m ← get;
  if cache_decode m && icache_hits pc m
  then ret (mk_Decode pc (word (pc + ic_ilen (icache_entry pc m))) (ic_inst (icache_entry pc m)))
  else inst ← vaddr_ifetch pc 4; ret (mk_Decode pc (word (pc + 4)) inst).

(** A decode is kept unless the body invalidated the context it was fetched in. *)
Definition fill (cache : bool) (epoch : Z) (s : Decode) (m : machine) : machine :=
  if cache && (epoch =? icache_epoch (tlb m)) && negb (icache_hits (d_pc s) m)
  then m <| tlb ::= fun t => icache_fill t (icache_slot (d_pc s)) (d_pc s) (d_inst s)
                               (wrap 16 (d_snpc s - d_pc s)) |>
  else m.

(** The body under [setjmp]: the next [pc] and the instruction executed. *)
Definition isa_exec_body (pc : Z) : M machine (Z * Z) :=
  cache ← gets cache_decode;
  s ← fetch pc;
  modify (fun m => m <| inst := d_inst s |>);;
  epoch ← gets (fun m => icache_epoch (tlb m));
  next_pc ← decode_exec s;
  modify (fill cache epoch (decode_head s));;
  ret (next_pc, d_inst (decode_head s)).

(** A memory fault comes back through [longjmp] and is taken as a trap, the
    instruction replaced by [addi x0, x0, 0]. *)
Definition isa_exec_once (pc : Z) : M machine (Z * Z) := fun m =>
  let m := m <| instruction_trapped := false |> in
  let m := m <| last_csr_wr := 0 |> in
  match isa_exec_body pc m with
  | (LongJmp _, m) => let '(target, m) := isa_raise_intr (cause m) pc m in (Ret (target, 0x13), m)
  | r => r
  end.

(** ** The loop *)

Definition exec_once : M machine unit :=
  modify (fun m => m <| cpc := pc m |>);;
  pc0 ← gets pc;
  '(next_pc, i) ← isa_exec_once pc0;
  modify (fun m => (m <| pc := next_pc |>) <| inst := i |>).

(** A pending interrupt is taken before the instruction. *)
Definition take_interrupt (m : machine) : machine :=
  if riscv_intr_may_pending m then
    let NO := isa_query_intr m in
    if NO =? INTR_EMPTY then m
    else let '(target, m) := isa_raise_intr NO (pc m) m in m <| pc := target |>
  else m.

Definition execute_step : M machine unit :=
  modify take_interrupt;;
  exec_once;;
  modify (fun m => m <| g_nr_guest_inst ::= fun n => wrap 64 (n + 1) |>).

Fixpoint execute (n : nat) : M machine unit :=
  match n with O => ret tt | S n => execute_step;; execute n end.

End Step.
