(* ===== verification/StepSpec.v ===== *)
(** * StepSpec: the decode cache, the invariant of a step, and the loop *)
From S2P Require Import Prelude Config Tlb Decompress Machine Trap Clint Csr Fp Vaddr Decode MemFrame Frame Exec ExecSpec VecUnit Step Hoare.

#[local] Open Scope Z_scope.

Section StepSpec.
Context {Cfg : Config} {SF : SoftFloat} {VU : VectorUnit}.

(** ** The decode cache *)

(** What a hit of the entry filled from [d] hands to [decode_exec]. *)
Definition cached (d : Decode) : Decode :=
  mk_Decode (d_pc d) (word (d_pc d + wrap 16 (d_snpc d - d_pc d))) (d_inst d).

Lemma xlen_pow : 2 ^ 32 <= 2 ^ XLEN.
Proof. apply Z.pow_le_mono_r; [lia | apply xlen_pos]. Qed.

Lemma ilen_of pc n : 0 <= n < 2 ^ 16 -> wrap 16 (word (pc + n) - pc) = n.
Proof.
  intros Hn. rewrite word_mod. unfold wrap. rewrite Z.land_ones by lia.
  pose proof xlen_pos as HX.
  replace (2 ^ XLEN) with (2 ^ (XLEN - 16) * 2 ^ 16) by (rewrite <-Z.pow_add_r by lia; f_equal; lia).
  set (k := 2 ^ (XLEN - 16)). assert (0 < k) by (apply Z.pow_pos_nonneg; lia).
  rewrite (Z.mod_eq (pc + n)) by lia.
  replace (pc + n - k * 2 ^ 16 * ((pc + n) / (k * 2 ^ 16)) - pc)
    with (n + - (k * ((pc + n) / (k * 2 ^ 16))) * 2 ^ 16) by ring.
  rewrite Z.mod_add by lia. by apply Z.mod_small.
Qed.

Lemma cached_of pc n raw :
  0 <= n < 2 ^ 16 -> cached (mk_Decode pc (word (pc + n)) raw) = mk_Decode pc (word (pc + n)) raw.
Proof. intros. unfold cached. cbn [d_inst d_pc d_snpc]. by rewrite ilen_of. Qed.

Lemma decompress_c_zero : decompress_c 0 = 0.
Proof. vm_compute. reflexivity. Qed.

Lemma word_wraps_le pc : fits XLEN pc -> 2 ^ XLEN <= pc + 2 -> word (pc + 2) <= pc.
Proof.
  intros [H0 H1] H. pose proof xlen_pow. rewrite word_mod.
  generalize dependent (2 ^ XLEN). intros k H1 H Hk.
  rewrite (Z.mod_eq (pc + 2) k) by lia. assert (1 <= (pc + 2) / k) by (apply Z.div_le_lower_bound; lia). nia.
Qed.

Lemma word_add_ne pc : word (pc + 4) <> word (pc + 2).
Proof.
  rewrite !word_mod. pose proof xlen_pow as HX. revert HX. generalize (2 ^ XLEN). intros k Hk E.
  rewrite (Z.mod_eq (pc + 4)), (Z.mod_eq (pc + 2)) in E by lia.
  assert (D : (k | 2)) by (exists ((pc + 4) / k - (pc + 2) / k); lia).
  apply Z.divide_pos_le in D; lia.
Qed.

Lemma decode_head_32 pc raw :
  raw .& 3 = 3 -> let s := mk_Decode pc (word (pc + 4)) raw in decode_head s = s.
Proof.
  intros E s. unfold decode_head. change (d_inst s) with raw. rewrite (proj2 (Z.eqb_eq _ _) E).
  cbn [negb]. by destruct (d_snpc s <=? d_pc s).
Qed.

Lemma decode_head_16 pc snpc raw :
  raw .& 3 <> 3 ->
  decode_head (mk_Decode pc snpc raw) = mk_Decode pc (word (pc + 2)) (decompress_c (raw .& 0xffff)).
Proof. intros E. unfold decode_head. cbn [d_inst]. by rewrite (proj2 (Z.eqb_neq _ _) E). Qed.

Lemma cached_head pc raw :
  fits XLEN pc ->
  let d := decode_head (mk_Decode pc (word (pc + 4)) raw) in
  decode_head (cached d) = d <->
  ~ (raw .& 3 <> 3 /\ decompress_c (raw .& 0xffff) <> 0 /\ 2 ^ XLEN <= pc + 2).
Proof.
  intros Hpc d. destruct (Z.eq_dec (raw .& 3) 3) as [Er|Er]; unfold d; clear d.
  - rewrite decode_head_32, cached_of, decode_head_32 by (done || lia). tauto.
  - rewrite decode_head_16, cached_of by (done || lia).
    destruct (decompress_c_cases (raw .& 0xffff)) as [E0|[_ E3]].
    + rewrite E0, decode_head_16 by done. change (0 .& 0xffff) with 0. rewrite decompress_c_zero. tauto.
    + assert (E0 : decompress_c (raw .& 0xffff) <> 0) by (intros E; by rewrite E in E3).
      unfold decode_head. cbn [d_inst d_pc d_snpc]. rewrite (proj2 (Z.eqb_eq _ _) E3). cbn [negb].
      destruct (Z.lt_ge_cases (pc + 2) (2 ^ XLEN)) as [Hlt|Hge].
      * rewrite (proj2 (Z.leb_gt _ _)); [split; [lia | done]|].
        rewrite word_mod, Z.mod_small by (unfold fits in Hpc; lia). lia.
      * rewrite (proj2 (Z.leb_le _ _)) by (by apply word_wraps_le).
        split; [|tauto]. intros [= E]. by destruct (word_add_ne pc).
Qed.

(** C3: decoding again what the decode cache returns gives what the fetch gave,
    except for a valid compressed instruction in the last halfword of the
    address space. *)
Theorem decode_cache_transparent pc raw :
  fits XLEN pc ->
  let d := decode_head (mk_Decode pc (word (pc + 4)) raw) in
  decode_head (cached d) = d <->
  ~ (raw .& 3 <> 3 /\ decompress_c (raw .& 0xffff) <> 0 /\ 2 ^ XLEN <= pc + 2).
Proof. apply cached_head. Qed.


(** ** The invariant of a step *)

(** A fetch at [pc] returned [raw] at some time. *)
Definition fetched (pc raw : Z) : Prop := exists m m', vaddr_ifetch pc 4 m = (Ret raw, m').

(** The entry decodes a fetched word. In the last halfword of the address
    space its length may be the one [decode_cache_transparent] excepts. *)
Definition decodes (pc inst ilen : Z) : Prop :=
  exists raw, let d := decode_head (mk_Decode pc (word (pc + 4)) raw) in
    fetched pc raw /\ inst = d_inst d /\ (0 <= pc /\ pc + 2 < 2 ^ XLEN -> ilen = wrap 16 (d_snpc d - pc)).

Definition entry_ok (e : icache_entry_t) : Prop :=
  ic_epoch e = 0 \/ decodes (ic_pc e) (ic_inst e) (ic_ilen e).

Definition cache_inv (m : machine) : Prop :=
  (forall i, entry_ok (aget (icache (tlb m)) i)) /\ 1 <= icache_epoch (tlb m) < 2 ^ 32.

Definition step_inv (m : machine) : Prop := R m 0 = 0 /\ cache_inv m.

#[export] Instance cache_inv_stable : Stable cache_inv.
Proof.
  split.
  - intros x y _ Ei Ee. unfold cache_inv. by rewrite Ei, Ee.
  - intros m [He Hep]. unfold cache_inv. fields. split; [|by apply icache_flush_epoch].
    intros i. unfold icache_flush. destruct (_ =? 0); cbn [icache]; [left; by rewrite aget_empty | apply He].
Qed.

#[export] Instance step_inv_stable : Stable step_inv.
Proof.
  split.
  - intros x y Eg Ei Ee [H0 Hc]. split; [unfold R; by rewrite Eg | by eapply stable_eq].
  - intros m [H0 Hc]. split; [exact H0 | by apply stable_icache_flush].
Qed.

#[export] Instance step_frame : BodyFrame step_inv cache_inv.
Proof.
  split.
  - by intros m [_ H].
  - intros i v m H. exact H.
  - intros i m [H0 Hc]. split; [|exact Hc]. unfold R in *. rewrite gpr_setR, aget_aset.
    by destruct (i =? 0).
Qed.

Lemma stable_incCSR (P : machine -> Prop) `{!Stable P} csr : stays P (incCSR csr).
Proof. stable_of incCSR. Qed.
#[local] Hint Resolve stable_incCSR : stable.
Lemma stable_advance_counters (P : machine -> Prop) `{!Stable P} last : stays P (advance_counters last).
Proof. stable_of advance_counters. Qed.
Lemma stable_tick_time (P : machine -> Prop) `{!Stable P} : stays P tick_time.
Proof. stable_of tick_time. Qed.
Lemma stable_take_interrupt (P : machine -> Prop) `{!Stable P} : stays P take_interrupt.
Proof. stable_of take_interrupt. Qed.

Lemma retire_inv m : cache_inv m -> step_inv (retire m).
Proof.
  intros H. apply stable_csr_commit in H. apply (stable_advance_counters _ (last_csr_wr m)) in H.
  apply (stable_tick_time _) in H. split; [unfold R, retire; by rewrite gpr_setR, aget_aset_eq | exact H].
Qed.

Lemma keeps_decode_exec `{!VectorFrame step_inv cache_inv} s : keeps step_inv (decode_exec s).
Proof.
  unfold decode_exec. eapply ptriple_bind; [apply (ends_execute_inst step_inv cache_inv)|].
  intros dnpc. apply (ptriple_bind _ _ _ (fun _ => step_inv)); [apply ptriple_modify, retire_inv | intros; by apply ptriple_ret].
Qed.

(** ** Fetch *)

(** [s] stands for the fetched word [raw]. *)
Definition stands_for (pc raw : Z) (s : Decode) : Prop :=
  let d := decode_head (mk_Decode pc (word (pc + 4)) raw) in
  fetched pc raw /\ d_pc s = pc /\ d_inst (decode_head s) = d_inst d /\
  (0 <= pc /\ pc + 2 < 2 ^ XLEN -> decode_head s = d).

Lemma stands_for_raw pc raw : fetched pc raw -> stands_for pc raw (mk_Decode pc (word (pc + 4)) raw).
Proof. unfold stands_for. cbn [d_pc]. auto. Qed.

Lemma decode_head_idem pc raw snpc :
  d_inst (decode_head (mk_Decode pc snpc (d_inst (decode_head (mk_Decode pc (word (pc + 4)) raw))))) =
  d_inst (decode_head (mk_Decode pc (word (pc + 4)) raw)).
Proof.
  destruct (Z.eq_dec (raw .& 3) 3) as [Er|Er].
  - rewrite (decode_head_32 pc raw) by done. cbn [d_inst]. unfold decode_head. cbn [d_inst d_pc d_snpc].
    rewrite (proj2 (Z.eqb_eq _ _) Er). cbn [negb]. by destruct (_ <=? _).
  - rewrite (decode_head_16 pc (word (pc + 4)) raw) by done. cbn [d_inst].
    destruct (decompress_c_cases (raw .& 0xffff)) as [E0|[_ E3]].
    + rewrite E0, decode_head_16 by done. cbn [d_inst]. apply decompress_c_zero.
    + unfold decode_head. cbn [d_inst d_pc d_snpc].
      rewrite (proj2 (Z.eqb_eq _ _) E3). cbn [negb]. by destruct (_ <=? _).
Qed.

Lemma stands_for_hit pc inst ilen :
  decodes pc inst ilen -> exists raw, stands_for pc raw (mk_Decode pc (word (pc + ilen)) inst).
Proof.
  intros (raw & Hf & -> & Hl). exists raw. split; [exact Hf|]. split; [done|]. split; [apply decode_head_idem|].
  intros Hpc. rewrite (Hl Hpc).
  assert (E : d_pc (decode_head (mk_Decode pc (word (pc + 4)) raw)) = pc)
    by (unfold decode_head; cbn [d_inst]; by repeat case_match).
  pose proof (proj2 (cached_head pc raw ltac:(unfold fits; lia))) as H. unfold cached in H. rewrite E in H. apply H. lia.
Qed.

Lemma stands_for_decodes pc raw s :
  stands_for pc raw s -> decodes pc (d_inst (decode_head s)) (wrap 16 (d_snpc (decode_head s) - pc)).
Proof. intros (Hf & _ & Ei & Eh). exists raw. split; [exact Hf|]. split; [exact Ei|]. intros H. by rewrite (Eh H). Qed.

(** Whether it hits or misses, the fetch hands over some fetched word. *)
Lemma fetch_stands_for pc :
  ptriple step_inv (fetch pc) (fun s m => step_inv m /\ exists raw, stands_for pc raw s) step_inv.
Proof.
  unfold fetch. apply ptriple_get_bind. intros m Hm. destruct (cache_decode m && icache_hits pc m) eqn:Eh.
  - apply ptriple_ret. intros m' ->. split; [exact Hm|]. apply stands_for_hit.
    apply andb_true_iff in Eh as [_ Eh]. unfold icache_hits, icache_hit in Eh.
    apply andb_true_iff in Eh as [Ep Ee]. apply Z.eqb_eq in Ep, Ee.
    destruct Hm as [_ [He Hep]]. destruct (He (icache_slot pc)) as [E0|Hd]; fold (icache_entry pc m) in *; [lia|].
    by rewrite Ep in Hd.
  - apply (ptriple_bind _ _ _ (fun raw m' => step_inv m' /\ fetched pc raw)).
    + intros m' ->. pose proof (keeps_vaddr_ifetch (P := step_inv) pc 4 m Hm) as H.
      destruct (vaddr_ifetch pc 4 m) as [[raw|c|] m'] eqn:E; [|exact H..]. split; [exact H|]. by exists m, m'.
    + intros raw. apply ptriple_ret. intros m' [Hm' Hf]. split; [exact Hm'|]. exists raw. by apply stands_for_raw.
Qed.

Lemma fill_inv cache epoch pc raw s m : stands_for pc raw s -> step_inv m -> step_inv (fill cache epoch (decode_head s) m).
Proof.
  intros Hs Hm. pose proof (stands_for_decodes _ _ _ Hs) as Hd.
  assert (Ep : d_pc (decode_head s) = pc) by (rewrite <-(proj1 (proj2 Hs)); unfold decode_head; by repeat case_match).
  unfold fill. rewrite Ep. destruct (_ && _); [|exact Hm]. destruct Hm as [H0 [He Hep]].
  split; [exact H0|]. unfold cache_inv. fields. split; [|exact Hep].
  intros i. unfold icache_fill. cbn [icache]. rewrite aget_aset. destruct (_ =? i); [right; exact Hd | apply He].
Qed.

Lemma keeps_isa_exec_body `{!VectorFrame step_inv cache_inv} pc : keeps step_inv (isa_exec_body pc).
Proof.
  unfold isa_exec_body. apply keeps_bind; [apply keeps_gets | intros cache].
  eapply ptriple_bind; [apply fetch_stands_for | intros s].
  apply (ptriple_pre (fun m => step_inv m /\ exists raw, stands_for pc raw s)); [|done].
  apply ptriple_pure. intros [raw Hs].
  apply keeps_bind; [apply keeps_modify; intros ? ?; stable | intros _].
  apply keeps_bind; [apply keeps_gets | intros epoch].
  apply keeps_bind; [apply keeps_decode_exec | intros next_pc].
  apply keeps_bind; [apply keeps_modify; intros m; by apply (fill_inv _ _ pc raw) | intros _; apply keeps_ret].
Qed.

(** ** Steps *)

(** A computation that handles every jump itself. *)
Definition closed {A} (P : machine -> Prop) (m : M machine A) : Prop :=
  forall s, P s ->
    match m s with (Ret _, s') => P s' | (LongJmp _, _) => False | (Panic, _) => True end.

Lemma closed_bind {A B} P (m : M machine A) (k : A -> M machine B) :
  closed P m -> (forall a, closed P (k a)) -> closed P (mbind k m).
Proof.
  intros Hm Hk s Hs. specialize (Hm s Hs). unfold mbind, M_bind.
  destruct (m s) as [[a|c|] s']; [by apply Hk | done | done].
Qed.
Lemma closed_ret {A} P (a : A) : closed P (ret a).
Proof. by intros s. Qed.
Lemma closed_modify P f : stays P f -> closed P (modify f).
Proof. intros H s. apply H. Qed.

Lemma closed_isa_exec_once `{!VectorFrame step_inv cache_inv} pc : closed step_inv (isa_exec_once pc).
Proof.
  intros m Hm. cbv beta zeta delta [isa_exec_once].
  assert (K : step_inv ((m <| instruction_trapped := false |>) <| last_csr_wr := 0 |>)) by stable.
  revert K. generalize ((m <| instruction_trapped := false |>) <| last_csr_wr := 0 |>). intros m1 K.
  pose proof (keeps_isa_exec_body pc m1 K) as H.
  destruct (isa_exec_body pc m1) as [[r|c|] m2]; [exact H | | done].
  pose proof (stable_isa_raise_intr (cause m2) pc m2 H) as Ht.
  by destruct (isa_raise_intr (cause m2) pc m2).
Qed.

Lemma closed_exec_once `{!VectorFrame step_inv cache_inv} : closed step_inv exec_once.
Proof.
  unfold exec_once. apply closed_bind; [apply closed_modify; intros ? ?; stable | intros _].
  apply closed_bind; [by intros s | intros pc0]. apply closed_bind; [apply closed_isa_exec_once | intros [next_pc i]].
  apply closed_modify. intros ? ?. stable.
Qed.

Lemma closed_execute `{!VectorFrame step_inv cache_inv} n : closed step_inv (execute n).
Proof.
  induction n as [|n IH]; [apply closed_ret|]. apply closed_bind; [|intros _; exact IH].
  unfold execute_step. apply closed_bind; [apply closed_modify, (stable_take_interrupt _) | intros _].
  apply closed_bind; [apply closed_exec_once | intros _]. apply closed_modify. intros ? ?. stable.
Qed.


(** The decode cache is transparent: outside the last halfword, the
    instruction executed is the one that a word fetched at [pc] decodes to, at the
    same length, whether the cache hits or not. *)
Theorem fetch_decodes pc m :
  step_inv m -> 0 <= pc /\ pc + 2 < 2 ^ XLEN ->
  match fetch pc m with
  | (Ret s, m') => exists raw, fetched pc raw /\ decode_head s = decode_head (mk_Decode pc (word (pc + 4)) raw)
  | _ => True
  end.
Proof.
  intros Hm Hpc. pose proof (fetch_stands_for pc m Hm) as H.
  destruct (fetch pc m) as [[s|c|] m']; [|done|done].
  destruct H as [_ (raw & Hf & _ & _ & H)]. exists raw. split; [exact Hf | by apply H].
Qed.

End StepSpec.

(** ** Witnesses *)

Lemma step_inv_init {Cfg : Config} : step_inv machine_init.
Proof.
  split; [done|]. split; [|cbn; lia]. intros i. left. cbn [machine_init tlb tlb_init icache].
  by rewrite aget_empty.
Qed.

#[local] Existing Instances riscv64_ref zero_float vector_unit.

Lemma decode_cache_transparent_witness :
  let d := decode_head (mk_Decode 0x80000000 0x80000004 0x4501) in
  let top := decode_head (mk_Decode (2 ^ 64 - 2) 2 0x4501) in
  decode_head (cached d) = d /\ decode_head (cached top) <> top.
Proof.
  split.
  - apply (proj2 (decode_cache_transparent 0x80000000 0x4501
      ltac:(vm_compute; split; [discriminate | reflexivity]))). vm_compute. intros (_ & _ & H). by apply H.
  - intros E. apply (proj1 (decode_cache_transparent (2 ^ 64 - 2) 0x4501
      ltac:(vm_compute; split; [discriminate | reflexivity])) E). vm_compute.
    split; [discriminate|]. split; [discriminate|]. discriminate.
Defined.


(** A hart in M-mode about to execute [c.li a0, 0] and [c.j 0x80000000]. *)
Definition boot_machine : machine :=
  (((machine_init <| priv := PRV_M |>) <| pc := 0x80000000 |>) <| riscv_isa_extensions := 0 |>)
    <| mem := aset (aset (aset (aset ∅ 0x80000000 0x01) 0x80000001 0x45) 0x80000002 0xfd) 0x80000003 0xbf |>.
Definition second_pass : machine :=
  (execute 2 boot_machine).2.

Lemma second_pass_inv : step_inv second_pass.
Proof.
  assert (K : step_inv boot_machine).
  { apply (stable_eq (P := step_inv) machine_init);
      [reflexivity.. | apply (step_inv_init)]. }
  pose proof (closed_execute 2 boot_machine K) as H.
  assert (E : (execute 2 boot_machine).1 = Ret tt)
    by (vm_compute; reflexivity).
  unfold second_pass. revert H E. generalize (execute 2 boot_machine). intros p H E. destruct p as [r m']. cbn [fst snd] in *. rewrite E in H. exact H.
Qed.

Lemma fetch_decodes_witness :
  (pc second_pass, icache_hits 0x80000000 second_pass) = (0x80000000, true) /\
  match fetch 0x80000000 second_pass with
  | (Ret s, m') => exists raw, fetched 0x80000000 raw /\
      decode_head s = decode_head (mk_Decode 0x80000000 0x80000004 raw)
  | _ => True
  end.
Proof.
  split; [vm_compute; reflexivity|].
  exact (fetch_decodes 0x80000000 second_pass second_pass_inv
    ltac:(vm_compute; split; [discriminate | reflexivity])).
Defined.
