(* ===== verification/Isa.v ===== *)
(** * Isa: the base instruction set as the ISA manual states it

    RV32I and RV64I with the M extension: the instructions as data, their binary
    encoding as a sequence of fields, and their effect in terms of the signed and
    unsigned integers that registers hold. Nothing here refers to the decoder or
    to the instruction bodies of the simulator; only memory is accessed through
    the simulator's [vaddr_read] and [vaddr_write], and exceptions are taken by
    its trap entry. [IsaSpec] shows that the simulator executes this. *)
From S2P Require Import Prelude Config Machine Trap Vaddr Decode.

(** ** Instructions *)

Inductive rop := ADD | SUB | SLL | SLT | SLTU | XOR | SRL | SRA | OR | AND
  | MUL | MULH | MULHSU | MULHU | DIV | DIVU | REM | REMU.
Inductive cond := EQ | NE | LT | GE | LTU | GEU.
Inductive width := B | H | W | D.

(** The [W] forms work on the low 32 bits. The flag of [LOAD] is that of the
    zero-extending loads. *)
Inductive instr :=
  | LUI (rd imm : Z) | AUIPC (rd imm : Z)
  | JAL (rd off : Z) | JALR (rd rs1 imm : Z)
  | BRANCH (c : cond) (rs1 rs2 off : Z)
  | LOAD (w : width) (u : bool) (rd rs1 imm : Z) | STORE (w : width) (rs1 rs2 imm : Z)
  | OPI (op : rop) (rd rs1 imm : Z) | SHI (op : rop) (rd rs1 sh : Z) | OP (op : rop) (rd rs1 rs2 : Z)
  | ADDIW (rd rs1 imm : Z) | SHIW (op : rop) (rd rs1 sh : Z) | OPW (op : rop) (rd rs1 rs2 : Z)
  | FENCE (rd rs1 imm : Z) | ECALL | EBREAK.

Definition bytes (w : width) : Z := match w with B => 1 | H => 2 | W => 4 | D => 8 end.

(** ** Encoding *)

(** Fields of the given widths, the least significant first. *)
Fixpoint pack (l : list (Z * Z)) : Z :=
  match l with
  | [] => 0
  | (w, v) :: l => v mod 2 ^ w + 2 ^ w * pack l
  end.

Definition enc_R (f7 rs2 rs1 f3 rd op : Z) : Z := pack [(7, op); (5, rd); (3, f3); (5, rs1); (5, rs2); (7, f7)].
Definition enc_I (imm rs1 f3 rd op : Z) : Z := pack [(7, op); (5, rd); (3, f3); (5, rs1); (12, imm)].
Definition enc_S (imm rs2 rs1 f3 op : Z) : Z :=
  pack [(7, op); (5, imm); (3, f3); (5, rs1); (5, rs2); (7, imm / 2 ^ 5)].
Definition enc_B (off rs2 rs1 f3 op : Z) : Z :=
  pack [(7, op); (1, off / 2 ^ 11); (4, off / 2); (3, f3); (5, rs1); (5, rs2); (6, off / 2 ^ 5); (1, off / 2 ^ 12)].
Definition enc_U (imm rd op : Z) : Z := pack [(7, op); (5, rd); (20, imm)].
Definition enc_J (off rd op : Z) : Z :=
  pack [(7, op); (5, rd); (8, off / 2 ^ 12); (1, off / 2 ^ 11); (10, off / 2); (1, off / 2 ^ 20)].

Definition funct3 (op : rop) : Z :=
  match op with
  | ADD | SUB | MUL => 0 | SLL | MULH => 1 | SLT | MULHSU => 2 | SLTU | MULHU => 3
  | XOR | DIV => 4 | SRL | SRA | DIVU => 5 | OR | REM => 6 | AND | REMU => 7
  end.
Definition funct7 (op : rop) : Z :=
  match op with
  | SUB | SRA => 0x20
  | MUL | MULH | MULHSU | MULHU | DIV | DIVU | REM | REMU => 1
  | _ => 0
  end.
Definition cond_funct3 (c : cond) : Z := match c with EQ => 0 | NE => 1 | LT => 4 | GE => 5 | LTU => 6 | GEU => 7 end.
Definition width_funct3 (w : width) : Z := match w with B => 0 | H => 1 | W => 2 | D => 3 end.

Definition encode (i : instr) : Z :=
  match i with
  | LUI rd imm => enc_U imm rd 0x37
  | AUIPC rd imm => enc_U imm rd 0x17
  | JAL rd off => enc_J off rd 0x6f
  | JALR rd rs1 imm => enc_I imm rs1 0 rd 0x67
  | BRANCH c rs1 rs2 off => enc_B off rs2 rs1 (cond_funct3 c) 0x63
  | LOAD w u rd rs1 imm => enc_I imm rs1 (width_funct3 w + if u : bool then 4 else 0) rd 0x03
  | STORE w rs1 rs2 imm => enc_S imm rs2 rs1 (width_funct3 w) 0x23
  | OPI op rd rs1 imm => enc_I imm rs1 (funct3 op) rd 0x13
  | SHI op rd rs1 sh => enc_I (sh + 2 ^ 5 * funct7 op) rs1 (funct3 op) rd 0x13
  | OP op rd rs1 rs2 => enc_R (funct7 op) rs2 rs1 (funct3 op) rd 0x33
  | ADDIW rd rs1 imm => enc_I imm rs1 0 rd 0x1b
  | SHIW op rd rs1 sh => enc_I (sh + 2 ^ 5 * funct7 op) rs1 (funct3 op) rd 0x1b
  | OPW op rd rs1 rs2 => enc_R (funct7 op) rs2 rs1 (funct3 op) rd 0x3b
  | FENCE rd rs1 imm => enc_I imm rs1 0 rd 0x0f
  | ECALL => enc_I 0 0 0 0 0x73
  | EBREAK => enc_I 1 0 0 0 0x73
  end.

(** ** Arithmetic *)

(** The integer that a [w]-bit pattern denotes in two's complement. *)
Definition sint (w x : Z) : Z := (x + 2 ^ (w - 1)) mod 2 ^ w - 2 ^ (w - 1).

(** The operations on [w]-bit words. The quotient of the most negative integer
    by -1 overflows to itself. *)
Definition rop_sem (w : Z) (op : rop) (a b : Z) : Z :=
  match op with
  | ADD => (a + b) mod 2 ^ w
  | SUB => (a - b) mod 2 ^ w
  | SLL => (a * 2 ^ (b mod w)) mod 2 ^ w
  | SLT => if sint w a <? sint w b then 1 else 0
  | SLTU => if a <? b then 1 else 0
  | XOR => Z.lxor a b
  | SRL => a / 2 ^ (b mod w)
  | SRA => (sint w a / 2 ^ (b mod w)) mod 2 ^ w
  | OR => Z.lor a b
  | AND => Z.land a b
  | MUL => (a * b) mod 2 ^ w
  | MULH => (sint w a * sint w b / 2 ^ w) mod 2 ^ w
  | MULHSU => (sint w a * b / 2 ^ w) mod 2 ^ w
  | MULHU => a * b / 2 ^ w
  | DIV => (if b =? 0 then -1 else Z.quot (sint w a) (sint w b)) mod 2 ^ w
  | DIVU => (if b =? 0 then -1 else a / b) mod 2 ^ w
  | REM => (if b =? 0 then a else Z.rem (sint w a) (sint w b)) mod 2 ^ w
  | REMU => if b =? 0 then a else a mod b
  end.

Definition holds (w : Z) (c : cond) (a b : Z) : bool :=
  match c with
  | EQ => a =? b | NE => negb (a =? b)
  | LT => sint w a <? sint w b | GE => sint w b <=? sint w a
  | LTU => a <? b | GEU => b <=? a
  end.

Section Isa.
Context {Cfg : Config}.

(** An operation on the low words, its result sign-extended. *)
Definition ropw_sem (op : rop) (a b : Z) : Z :=
  sint 32 (rop_sem 32 op (a mod 2 ^ 32) (b mod 2 ^ 32)) mod 2 ^ XLEN.

(** ** The instructions of an implementation *)

Definition is_shift (op : rop) : bool := match op with SLL | SRL | SRA => true | _ => false end.
Definition has_imm (op : rop) : bool :=
  match op with ADD | SLT | SLTU | XOR | OR | AND => true | _ => false end.
Definition has_word (op : rop) : bool :=
  match op with ADD | SUB | SLL | SRL | SRA | MUL | DIV | DIVU | REM | REMU => true | _ => false end.
Definition has_load (w : width) (u : bool) : bool :=
  match w, u with
  | D, u => CONFIG_RV64 && negb u
  | W, u => CONFIG_RV64 || negb u
  | _, _ => true
  end.

(** A register number, and a signed multiple of [s] in [w] bits. *)
Definition reg (r : Z) : Prop := 0 <= r < if CONFIG_RVE then 16 else 32.
Definition simm (w s imm : Z) : Prop := - 2 ^ (w - 1) <= imm < 2 ^ (w - 1) /\ imm mod s = 0.

Definition valid (i : instr) : Prop :=
  match i with
  | LUI rd imm | AUIPC rd imm => reg rd /\ 0 <= imm < 2 ^ 20
  | JAL rd off => reg rd /\ simm 21 2 off
  | JALR rd rs1 imm => reg rd /\ reg rs1 /\ simm 12 1 imm
  | BRANCH _ rs1 rs2 off => reg rs1 /\ reg rs2 /\ simm 13 2 off
  | LOAD w u rd rs1 imm => has_load w u = true /\ reg rd /\ reg rs1 /\ simm 12 1 imm
  | STORE w rs1 rs2 imm => has_load w false = true /\ reg rs1 /\ reg rs2 /\ simm 12 1 imm
  | OPI op rd rs1 imm => has_imm op = true /\ reg rd /\ reg rs1 /\ simm 12 1 imm
  | SHI op rd rs1 sh => is_shift op = true /\ reg rd /\ reg rs1 /\ 0 <= sh < XLEN
  | OP _ rd rs1 rs2 => reg rd /\ reg rs1 /\ reg rs2
  | ADDIW rd rs1 imm => CONFIG_RV64 = true /\ reg rd /\ reg rs1 /\ simm 12 1 imm
  | SHIW op rd rs1 sh => CONFIG_RV64 = true /\ is_shift op = true /\ reg rd /\ reg rs1 /\ 0 <= sh < 32
  | OPW op rd rs1 rs2 => CONFIG_RV64 = true /\ has_word op = true /\ reg rd /\ reg rs1 /\ reg rs2
  | FENCE rd rs1 imm => reg rd /\ reg rs1 /\ simm 12 1 imm
  | ECALL | EBREAK => True
  end.

(** ** Execution *)

(** [x0] reads 0 and ignores what is written. *)
Definition getx (m : machine) (r : Z) : Z := if r =? 0 then 0 else R m r.
Definition setx (r v : Z) : M machine unit := if r =? 0 then ret tt else modify (setR r v).

Definition loaded (w : width) (u : bool) (v : Z) : Z :=
  if u || (8 * bytes w =? 64) then v else sint (8 * bytes w) v mod 2 ^ XLEN.

Definition environment_call (m : machine) : Z :=
  if priv m =? PRV_U then 8 else if priv m =? PRV_S then if virt m then 10 else 9 else 11.

(** The effect of [i] at [pc], with the next instruction at [npc]; the result is
    the address execution continues at. *)
Definition isa_exec (i : instr) (pc npc : Z) : M machine Z :=
  m ← get;
  let x := getx m in
  match i with
  | LUI rd imm => setx rd (sint 32 (imm * 2 ^ 12) mod 2 ^ XLEN);; ret npc
  | AUIPC rd imm => setx rd ((pc + sint 32 (imm * 2 ^ 12)) mod 2 ^ XLEN);; ret npc
  | JAL rd off => setx rd npc;; ret ((pc + off) mod 2 ^ XLEN)
  | JALR rd rs1 imm => setx rd npc;; ret ((x rs1 + imm) mod 2 ^ XLEN / 2 * 2)
  | BRANCH c rs1 rs2 off => ret (if holds XLEN c (x rs1) (x rs2) then (pc + off) mod 2 ^ XLEN else npc)
  | LOAD w u rd rs1 imm =>
      v ← vaddr_read ((x rs1 + imm) mod 2 ^ XLEN) (bytes w); setx rd (loaded w u v);; ret npc
  | STORE w rs1 rs2 imm => vaddr_write ((x rs1 + imm) mod 2 ^ XLEN) (bytes w) (x rs2);; ret npc
  | OPI op rd rs1 imm => setx rd (rop_sem XLEN op (x rs1) (imm mod 2 ^ XLEN));; ret npc
  | SHI op rd rs1 sh => setx rd (rop_sem XLEN op (x rs1) sh);; ret npc
  | OP op rd rs1 rs2 => setx rd (rop_sem XLEN op (x rs1) (x rs2));; ret npc
  | ADDIW rd rs1 imm => setx rd (ropw_sem ADD (x rs1) imm);; ret npc
  | SHIW op rd rs1 sh => setx rd (ropw_sem op (x rs1) sh);; ret npc
  | OPW op rd rs1 rs2 => setx rd (ropw_sem op (x rs1) (x rs2));; ret npc
  | FENCE _ _ _ => ret npc
  | ECALL => raise (environment_call m) pc
  | EBREAK => raise 3 pc
  end.

End Isa.
