(* ===== verification/IsaDecode.v ===== *)
(** * IsaDecode: what the simulator decodes an encoded instruction of [Isa] to *)
From Stdlib Require Import String.
From S2P Require Import Prelude Config Tlb InstPat RvC Alu AluSpec Machine Trap Clint Csr Fp Vaddr Decode Exec Step Isa.

(** ** Encodings as bit patterns *)

Lemma pack_cons w v l : 0 <= w -> pack ((w, v) :: l) = wrap w v .| (pack l << w).
Proof.
  intros Hw. cbn [pack]. rewrite <-wrap_mod by done. rewrite (Z.mul_comm (2 ^ w)), <-Z.shiftl_mul_pow2 by done.
  rewrite <-Z.lxor_lor, Z.add_nocarry_lxor; [done| |]; bits.
Qed.

Ltac pack_bits := cbn [pack enc_R enc_I enc_S enc_B enc_U enc_J]; rewrite ?pack_cons by lia.

Lemma enc_I_R imm rs1 f3 rd op : enc_I imm rs1 f3 rd op = enc_R (imm >> 5) imm rs1 f3 rd op.
Proof. unfold enc_I, enc_R. rewrite !pack_cons by lia. cbn [pack]. bits. Qed.

Lemma enc_S_R imm rs2 rs1 f3 op : enc_S imm rs2 rs1 f3 op = enc_R (imm >> 5) rs2 rs1 f3 imm op.
Proof. unfold enc_S, enc_R. by rewrite (Z.shiftr_div_pow2 imm 5) by lia. Qed.

Lemma enc_B_R off rs2 rs1 f3 op : enc_B off rs2 rs1 f3 op =
  enc_R (wrap 6 (off >> 5) .| ((off >> 12) << 6)) rs2 rs1 f3 (wrap 1 (off >> 11) .| ((off >> 1) << 1)) op.
Proof.
  unfold enc_B, enc_R. change (off / 2) with (off / 2 ^ 1). rewrite <-!Z.shiftr_div_pow2, !pack_cons by lia.
  cbn [pack]. bits.
Qed.

Lemma enc_U_R imm rd op : enc_U imm rd op = enc_R (imm >> 13) (imm >> 8) (imm >> 3) imm rd op.
Proof. unfold enc_U, enc_R. rewrite !pack_cons by lia. cbn [pack]. bits. Qed.

Lemma enc_J_R off rd op : enc_J off rd op =
  enc_R (wrap 6 (off >> 5) .| ((off >> 20) << 6)) (wrap 1 (off >> 11) .| ((off >> 1) << 1)) (off >> 15) (off >> 12) rd op.
Proof.
  unfold enc_J, enc_R. change (off / 2) with (off / 2 ^ 1). rewrite <-!Z.shiftr_div_pow2, !pack_cons by lia.
  cbn [pack]. bits.
Qed.

Lemma enc_R_land f7 rs2 rs1 f3 rd op f7' rs2' rs1' f3' rd' op' :
  enc_R f7 rs2 rs1 f3 rd op .& enc_R f7' rs2' rs1' f3' rd' op' =
  enc_R (f7 .& f7') (rs2 .& rs2') (rs1 .& rs1') (f3 .& f3') (rd .& rd') (op .& op').
Proof. unfold enc_R. rewrite !pack_cons by lia. cbn [pack]. bits. Qed.

Lemma enc_R_fields f7 rs2 rs1 f3 rd op :
  let i := enc_R f7 rs2 rs1 f3 rd op in
  BITS i 24 20 = wrap 5 rs2 /\ BITS i 19 15 = wrap 5 rs1 /\ BITS i 11 7 = wrap 5 rd /\ BITS i 6 2 = wrap 5 (op >> 2).
Proof. unfold enc_R. rewrite !pack_cons by lia. cbn [pack]. repeat split; bits. Qed.

(** ** Immediates *)

Section Immediates.
Context {Cfg : Config}.

Lemma immI_enc imm rs1 f3 rd op : immI (enc_I imm rs1 f3 rd op) = word (signed 12 imm).
Proof. apply word_of_64. unfold enc_I. rewrite !pack_cons by lia. cbn [pack]. bits. Qed.

Lemma immS_enc imm rs2 rs1 f3 op : immS (enc_S imm rs2 rs1 f3 op) = word (signed 12 imm).
Proof.
  apply word_of_64. unfold enc_S. rewrite <-Z.shiftr_div_pow2, !pack_cons by lia. cbn [pack]. bits.
Qed.

Lemma immB_enc off rs2 rs1 f3 op : immB (enc_B off rs2 rs1 f3 op) = word (signed 13 (off .& ~~ Z.ones 1)).
Proof.
  apply word_of_64. unfold enc_B. change (off / 2) with (off / 2 ^ 1). change (~~ 1) with (~~ (Z.ones 1)).
  rewrite <-!Z.shiftr_div_pow2, !pack_cons by lia. cbn [pack]. bits.
Qed.

Lemma immJ_enc off rd op : immJ (enc_J off rd op) = word (signed 21 (off .& ~~ Z.ones 1)).
Proof.
  apply word_of_64. unfold enc_J. change (off / 2) with (off / 2 ^ 1). change (~~ 1) with (~~ (Z.ones 1)).
  rewrite <-!Z.shiftr_div_pow2, !pack_cons by lia. cbn [pack]. bits.
Qed.

Lemma immU_enc imm rd op : immU (enc_U imm rd op) = word (signed 32 (imm << 12)).
Proof. apply word_of_64. unfold enc_U. rewrite !pack_cons by lia. cbn [pack]. bits. Qed.

Lemma simm_signed w imm : 0 < w -> simm w 1 imm -> signed w imm = imm.
Proof. intros Hw [Hi _]. rewrite <-signed_wrap by done. by apply signed_small. Qed.

Lemma simm_even w off : 0 < w -> simm w 2 off -> signed w (off .& ~~ Z.ones 1) = off.
Proof.
  intros Hw [Hi E]. rewrite land_lnot_ones, Z.shiftl_mul_pow2, Z.shiftr_div_pow2 by lia.
  replace (off / 2 ^ 1 * 2 ^ 1) with off by (rewrite Z.mul_comm; apply Z_div_exact_2; [lia|exact E]).
  apply simm_signed; [done|]. split; [done|apply Z.mod_1_r].
Qed.

End Immediates.

(** ** Selection *)

Definition decoded : Type := option (Z * Z * Z).

Definition decoded_match (d : decoded) (inst : Z) : bool :=
  match d with Some (key, mask, shift) => ((inst >> shift) .& mask) =? key | None => false end.

(** Whether [d] can match a word with bits [s0] under [g], and whether it
    depends on no other bit. *)
Definition can_match (g s0 : Z) (d : decoded) : bool := row_compatible g s0 (d, tt).
Definition covered (g : Z) (d : decoded) : bool :=
  match d with
  | Some (key, mask, shift) => (mask .& (g >> shift) =? mask) && (key .& (g >> shift) =? key)
  | None => false
  end.

(** The rows that can match a word with bits [s0] under [g], up to the first
    that matches every such word. *)
Fixpoint candidates (g s0 : Z) (ds : list decoded) (k : nat) : option (list nat) :=
  match ds with
  | [] => None
  | d :: ds =>
      if can_match g s0 d then if covered g d then Some [k] else cons k <$> candidates g s0 ds (S k)
      else candidates g s0 ds (S k)
  end.

Lemma match_can g inst d : decoded_match d inst = true -> can_match g (inst .& g) d = true.
Proof.
  destruct d as [[[key mask] shift]|]; [|done]. cbn [decoded_match can_match row_compatible].
  rewrite !Z.eqb_eq, Z.shiftr_land. intros <-. apply Z.bits_inj'. intros i Hi.
  rewrite !Z.land_spec. by repeat bits_case.
Qed.

Lemma covered_match g inst d :
  can_match g (inst .& g) d = true -> covered g d = true -> decoded_match d inst = true.
Proof.
  destruct d as [[[key mask] shift]|]; [|done]. cbn [decoded_match can_match row_compatible covered].
  rewrite andb_true_iff, !Z.eqb_eq. intros Ec [Eg Ek]. rewrite Ek in Ec.
  rewrite <-Ec, <-Eg, Z.shiftr_land. apply Z.bits_inj'. intros i Hi. rewrite !Z.land_spec. by repeat bits_case.
Qed.

Lemma decoded_first_cons {A} d (a : A) rows inst :
  decoded_first ((d, a) :: rows) inst = if decoded_match d inst then Some a else decoded_first rows inst.
Proof. by destruct d as [[[key mask] shift]|]. Qed.

Lemma candidates_first {A} (rows : list (decoded * A)) g inst k ks :
  candidates g (inst .& g) rows.*1 k = Some ks ->
  exists j row, (k + j)%nat ∈ ks /\ rows !! j = Some row /\ decoded_match row.1 inst = true /\
    decoded_first rows inst = Some row.2.
Proof.
  revert k ks. induction rows as [|[d a] rows IH]; intros k ks; [done|].
  rewrite decoded_first_cons. cbn [fmap list_fmap fst candidates].
  destruct (decoded_match d inst) eqn:Em.
  - rewrite (match_can g inst d Em). intros H. exists 0%nat, (d, a). rewrite Nat.add_0_r. split; [|done].
    destruct (covered g d); [|apply fmap_Some in H as (ks' & _ & ->)]; simplify_eq; by left.
  - intros H. assert (H' : exists ks', candidates g (inst .& g) rows.*1 (S k) = Some ks' /\ ks' ⊆ ks).
    { destruct (can_match g (inst .& g) d) eqn:Ec; [|by exists ks].
      destruct (covered g d) eqn:Eg; [by rewrite (covered_match g inst d Ec Eg) in Em|].
      apply fmap_Some in H as (ks' & H & ->). exists ks'. split; [done|]. intros x Hx. by right. }
    destruct H' as (ks' & H' & Hs). destruct (IH _ _ H') as (j & row & Hj & Hr). exists (S j), row.
    rewrite Nat.add_succ_r. split; [by apply Hs|done].
Qed.

(** A row that asks for [rd = 0]. *)
Definition rd_zero (d : decoded) : bool :=
  match d with
  | Some (key, mask, shift) =>
      (0 <=? shift) && (shift <=? 7) && ((mask << shift) .& (Z.ones 5 << 7) =? Z.ones 5 << 7)
      && ((key << shift) .& (Z.ones 5 << 7) =? 0)
  | None => false
  end.

Lemma matched_rd d inst : decoded_match d inst = true -> rd_zero d = true -> BITS inst 11 7 = 0.
Proof.
  destruct d as [[[key mask] shift]|]; [|done]. cbn [decoded_match rd_zero].
  rewrite !andb_true_iff, !Z.eqb_eq, !Z.leb_le. intros E [[[H0 H7] Em] Ek].
  rewrite BITS_getf by lia. apply Z.bits_inj'. intros i Hi. rewrite getf_testbit, Z.bits_0 by lia.
  destruct (Z.ltb_spec i 5); [|by rewrite (proj2 (Z.ltb_ge i (11 - 7 + 1))) by lia].
  apply (f_equal (fun z => Z.testbit z (i + 7 - shift))) in E.
  apply (f_equal (fun z => Z.testbit z (i + 7))) in Em, Ek.
  revert E Em Ek. bits_rewrite. replace (i + 7 - shift + shift) with (i + 7) by lia.
  replace (i + 7 - 7 <? 5) with true by lia. rewrite !andb_true_r. intros <- -> . rewrite andb_true_r.
  intros ->. apply andb_false_r.
Qed.
