(* ===== verification/IsaAlu.v ===== *)
(** * IsaAlu: the arithmetic of the instruction bodies is that of [Isa] *)
From S2P Require Import Prelude Config Alu AluSpec Exec Isa.

(** ** Signed integers *)

Lemma signed_sint w x : 0 < w -> signed w x = sint w x.
Proof.
  intros Hw. destruct (signed_diff w x Hw) as [k E]. pose proof (signed_range w x Hw).
  assert (P : 2 ^ w = 2 * 2 ^ (w - 1)) by (rewrite <-Z.pow_succ_r by lia; f_equal; lia).
  unfold sint.
  replace (x + 2 ^ (w - 1)) with (signed w x + 2 ^ (w - 1) + (- k) * 2 ^ w) by lia.
  rewrite Z.mod_add, Z.mod_small by lia. lia.
Qed.

Lemma signed_id w x : 0 < w -> - 2 ^ (w - 1) <= x < 2 ^ (w - 1) -> signed w x = x.
Proof. intros Hw Hx. rewrite <-signed_wrap by done. by apply signed_small. Qed.

Lemma sint_0 w x : 0 < w -> fits w x -> (sint w x =? 0) = (x =? 0).
Proof.
  intros Hw Hx. rewrite <-signed_sint, signed_fits by done. unfold fits in Hx.
  destruct (Z.leb_spec (2 ^ (w - 1)) x), (Z.eqb_spec x 0); try lia.
Qed.

Lemma sint_mod w x : 0 < w -> sint w x mod 2 ^ w = x mod 2 ^ w.
Proof. intros. rewrite <-signed_sint, <-!wrap_mod by lia. apply signed_congr. lia. Qed.

(** ** The operations on [w]-bit words *)

Lemma shift_amount_pow w b k : w = 2 ^ k -> 0 <= k -> b .& (w - 1) = b mod w.
Proof. intros -> Hk. rewrite <-Z.land_ones by done. f_equal. by rewrite Z.ones_equiv, Z.sub_1_r. Qed.

Section Words.
Context (w a b : Z) (Hw : 1 < w) (Ha : fits w a) (Hb : fits w b).

Lemma product_ss : - 2 ^ (2 * w - 1) <= sint w a * sint w b < 2 ^ (2 * w - 1).
Proof.
  rewrite <-!signed_sint by lia. pose proof (signed_range w a). pose proof (signed_range w b).
  destruct (pow_double w) as [-> _]; [lia|]. apply product_signed; lia.
Qed.

Lemma product_su : - 2 ^ (2 * w - 1) <= sint w a * b < 2 ^ (2 * w - 1).
Proof.
  rewrite <-!signed_sint by lia. pose proof (signed_range w a).
  destruct (pow_double w) as [-> E]; [lia|]. unfold fits in Hb. apply product_mixed; lia.
Qed.

Lemma product_uu : fits (2 * w) (a * b).
Proof.
  unfold fits in *. replace (2 * w) with (w + w) by lia. rewrite Z.pow_add_r by lia. nia.
Qed.

(** The quotient of the most negative integer by -1 is itself again, as a word. *)
Lemma quot_overflow : sint w a = - 2 ^ (w - 1) -> Z.quot (sint w a) (-1) mod 2 ^ w = a.
Proof.
  intros E. assert (Ea : a = sint w a mod 2 ^ w) by (rewrite sint_mod by lia; by rewrite Z.mod_small).
  rewrite Ea at 2. rewrite E. assert (P : 2 ^ w = 2 * 2 ^ (w - 1)) by (rewrite <-Z.pow_succ_r by lia; f_equal; lia).
  change (-1) with (- (1)). rewrite Z.quot_opp_r, Z.quot_1_r by lia.
  replace (- - 2 ^ (w - 1)) with (- 2 ^ (w - 1) + 1 * 2 ^ w) by lia. by rewrite Z.mod_add by lia.
Qed.

Lemma rem_overflow : Z.rem (sint w a) (-1) mod 2 ^ w = 0.
Proof. change (-1) with (- (1)). by rewrite Z.rem_opp_r, Z.rem_1_r by lia. Qed.

(** A signed division with the C code's special cases taken out. *)
Lemma div_cases (min : Z) : min = - 2 ^ (w - 1) ->
  rop_sem w DIV a b = if sint w b =? 0 then (-1) mod 2 ^ w
    else if (sint w a =? min) && (sint w b =? -1) then a else Z.quot (sint w a) (sint w b) mod 2 ^ w.
Proof.
  intros ->. cbn [rop_sem]. rewrite sint_0 by (done || lia). destruct (b =? 0); [done|].
  destruct (_ && _) eqn:E; [|done]. apply andb_true_iff in E as [E1 E2]. apply Z.eqb_eq in E1, E2.
  rewrite E2. by apply quot_overflow.
Qed.

Lemma rem_cases (min : Z) : min = - 2 ^ (w - 1) ->
  rop_sem w REM a b = if sint w b =? 0 then a
    else if (sint w a =? min) && (sint w b =? -1) then 0 else Z.rem (sint w a) (sint w b) mod 2 ^ w.
Proof.
  intros ->. cbn [rop_sem]. rewrite sint_0 by (done || lia). destruct (b =? 0); [by apply Z.mod_small|].
  destruct (_ && _) eqn:E; [|done]. apply andb_true_iff in E as [E1 E2]. apply Z.eqb_eq in E2.
  rewrite E2. apply rem_overflow.
Qed.

End Words.

Section IsaAlu.
Context {Cfg : Config}.

Lemma xlen_1 : 1 < XLEN.
Proof. pose proof xlen_pos. lia. Qed.

Lemma sext32_mod x : sext32 x = sint 32 x mod 2 ^ XLEN.
Proof.
  unfold sext32, SEXT. rewrite signed_sint by lia. rewrite <-word_mod. unfold word, XLEN.
  destruct CONFIG_RV64; bits.
Qed.

Lemma shamt_mod b : b .& (XLEN - 1) = b mod XLEN.
Proof.
  unfold XLEN. destruct CONFIG_RV64; [apply (shift_amount_pow 64 b 6)|apply (shift_amount_pow 32 b 5)]; lia.
Qed.

Section Full.
Context (a b : Z) (Ha : fits XLEN a) (Hb : fits XLEN b).

Lemma mulh_ok : alu_mulh a b = rop_sem XLEN MULH a b.
Proof.
  pose proof xlen_cases as X. unfold alu_mulh, sword. rewrite !signed_sint by lia.
  rewrite <-signed_sint, signed_id by (lia || (apply product_ss; done || lia)).
  cbn [rop_sem]. by rewrite word_mod, Z.shiftr_div_pow2 by lia.
Qed.

Lemma mulhsu_ok : alu_mulhsu a b = rop_sem XLEN MULHSU a b.
Proof.
  pose proof xlen_cases as X. unfold alu_mulhsu, sword. rewrite !signed_sint by lia.
  rewrite <-signed_sint, signed_id by (lia || (apply product_su; done || lia)).
  cbn [rop_sem]. by rewrite word_mod, Z.shiftr_div_pow2 by lia.
Qed.

Lemma mulhu_ok : alu_mulhu a b = rop_sem XLEN MULHU a b.
Proof.
  pose proof xlen_cases as X. unfold alu_mulhu. rewrite (wrap_small (2 * XLEN)) by (lia || (apply product_uu; done || lia)).
  cbn [rop_sem]. rewrite word_mod, Z.shiftr_div_pow2 by lia. apply Z.mod_small.
  assert (P : 0 < 2 ^ XLEN) by (apply Z.pow_pos_nonneg; clear Ha Hb; lia).
  destruct Ha as [A0 A1], Hb as [B0 B1].
  split; [by apply Z.div_pos, P; apply Z.mul_nonneg_nonneg|].
  apply Z.div_lt_upper_bound; [done|]. by apply Z.mul_lt_mono_nonneg.
Qed.

Lemma div_ok : alu_div a b = rop_sem XLEN DIV a b.
Proof.
  pose proof xlen_cases as X. rewrite (div_cases XLEN a b xlen_1 Ha Hb _ eq_refl).
  unfold alu_div. rewrite INT_MIN_signed by done. unfold sword. rewrite !signed_sint by lia.
  rewrite word_mod. by rewrite <-(word_mod (-1)).
Qed.

Lemma rem_ok : alu_rem a b = rop_sem XLEN REM a b.
Proof.
  pose proof xlen_cases as X. rewrite (rem_cases XLEN a b xlen_1 Ha Hb _ eq_refl).
  unfold alu_rem. rewrite INT_MIN_signed by done. unfold sword. rewrite !signed_sint by lia. by rewrite word_mod.
Qed.

Lemma divu_ok : alu_divu a b = rop_sem XLEN DIVU a b.
Proof.
  pose proof xlen_cases as X. unfold alu_divu. cbn [rop_sem]. destruct (Z.eqb_spec b 0).
  - by rewrite <-(word_mod (-1)).
  - symmetry. apply Z.mod_small. apply (wrap_div_fits XLEN); [done|apply Hb].
Qed.

End Full.

(** ** Additions, comparisons and shifts *)

Lemma add_ok a b : word (a + b) = rop_sem XLEN ADD a b.
Proof. apply word_mod. Qed.

Lemma addi_ok a i : word (sword a + i) = rop_sem XLEN ADD a i.
Proof.
  pose proof xlen_1. unfold sword. rewrite signed_sint, word_mod by lia. cbn [rop_sem].
  rewrite Zplus_mod, sint_mod, <-Zplus_mod by lia. done.
Qed.

Lemma sub_ok a b : word (a - b) = rop_sem XLEN SUB a b.
Proof. apply word_mod. Qed.

Lemma slt_ok a b : b2w (sword a <? sword b) = rop_sem XLEN SLT a b.
Proof. pose proof xlen_1. unfold sword. by rewrite !signed_sint by lia. Qed.

Lemma mul_ok a b : alu_mul a b = rop_sem XLEN MUL a b.
Proof. apply word_mod. Qed.

(** The shift amount is [n], however the code obtains it. *)
Lemma sll_by a b n : n = b mod XLEN -> wshl a n = rop_sem XLEN SLL a b.
Proof.
  intros ->. pose proof xlen_1. unfold wshl. rewrite word_mod, Z.shiftl_mul_pow2; [done|].
  apply Z.mod_pos_bound. lia.
Qed.

Lemma srl_by a b n : n = b mod XLEN -> a >> n = rop_sem XLEN SRL a b.
Proof. intros ->. pose proof xlen_1. apply Z.shiftr_div_pow2, Z.mod_pos_bound. lia. Qed.

Lemma sra_by a b n : n = b mod XLEN -> sra a n = rop_sem XLEN SRA a b.
Proof.
  intros ->. pose proof xlen_1. unfold sra, sword.
  rewrite word_mod, signed_sint, Z.shiftr_div_pow2 by (lia || (apply Z.mod_pos_bound; lia)). done.
Qed.

(** ** The 32-bit operations *)

Lemma low_fits x : fits 32 (x mod 2 ^ 32).
Proof. apply Z.mod_pos_bound. lia. Qed.

Lemma sint_low x : sint 32 (x mod 2 ^ 32) = sint 32 x.
Proof. unfold sint. by rewrite Zplus_mod_idemp_l. Qed.

Lemma sint_low' x y : x mod 2 ^ 32 = y mod 2 ^ 32 -> sint 32 x = sint 32 y.
Proof. intros E. by rewrite <-(sint_low x), E, sint_low. Qed.

Lemma divw_ok a b : alu_divw a b = ropw_sem DIV a b.
Proof.
  unfold ropw_sem. rewrite (div_cases 32 _ _ ltac:(lia) (low_fits a) (low_fits b) INT32_MIN eq_refl), !sint_low.
  unfold alu_divw. rewrite !sext32_mod, !signed_sint by lia.
  destruct (sint 32 b =? 0); [done|]. destruct (_ && _) eqn:E.
  - apply andb_true_iff in E as [E _]. apply Z.eqb_eq in E. rewrite sint_low. rewrite E. done.
  - f_equal. symmetry. apply sint_low.
Qed.

Lemma remw_ok a b : alu_remw a b = ropw_sem REM a b.
Proof.
  unfold ropw_sem. rewrite (rem_cases 32 _ _ ltac:(lia) (low_fits a) (low_fits b) INT32_MIN eq_refl), !sint_low.
  unfold alu_remw. rewrite !sext32_mod, !signed_sint by lia. rewrite wrap_mod by lia.
  destruct (sint 32 b =? 0); [done|]. destruct (_ && _); [by unfold XLEN; destruct CONFIG_RV64|].
  f_equal. symmetry. apply sint_low.
Qed.

Lemma divuw_ok a b : alu_divuw a b = ropw_sem DIVU a b.
Proof.
  unfold ropw_sem, alu_divuw. cbn [rop_sem]. rewrite !sext32_mod, !wrap_mod by lia.
  destruct (_ =? 0); [done|]. by rewrite sint_low.
Qed.

Lemma remuw_ok a b : alu_remuw a b = ropw_sem REMU a b.
Proof.
  unfold ropw_sem, alu_remuw. cbn [rop_sem]. rewrite !sext32_mod, !wrap_mod by lia. by destruct (_ =? 0).
Qed.

Lemma ropw_low op a b y : rop_sem 32 op (a mod 2 ^ 32) (b mod 2 ^ 32) = y mod 2 ^ 32 ->
  sext32 y = ropw_sem op a b.
Proof. intros E. unfold ropw_sem. by rewrite sext32_mod, E, sint_low. Qed.

Lemma addw_ok a b : sext32 (wrap 32 a + b) = ropw_sem ADD a b.
Proof.
  apply ropw_low. rewrite wrap_mod by lia. cbn [rop_sem].
  by rewrite !Zplus_mod_idemp_l, !Zplus_mod_idemp_r.
Qed.

Lemma addw_ok' a b : sext32 (wrap 32 a + wrap 32 b) = ropw_sem ADD a b.
Proof. apply ropw_low. by rewrite !wrap_mod by lia. Qed.

Lemma subw_ok a b : sext32 (wrap 32 a - wrap 32 b) = ropw_sem SUB a b.
Proof. apply ropw_low. by rewrite !wrap_mod by lia. Qed.

Lemma mulw_ok a b : sext32 (wrap 32 a * wrap 32 b) = ropw_sem MUL a b.
Proof. apply ropw_low. by rewrite !wrap_mod by lia. Qed.

Lemma shamtw b : wrap 32 b .& 31 = (b mod 2 ^ 32) mod 32.
Proof. rewrite wrap_mod by lia. apply (shift_amount_pow 32 _ 5); lia. Qed.

Section ShiftW.
Context (a b n : Z) (Hn : n = (b mod 2 ^ 32) mod 32).

Lemma shiftw_pos : 0 <= n.
Proof. subst n. apply Z.mod_pos_bound. lia. Qed.

Lemma sllw_by : sext32 (wrap 32 a << n) = ropw_sem SLL a b.
Proof.
  pose proof shiftw_pos. apply ropw_low. rewrite wrap_mod, Z.shiftl_mul_pow2 by lia. cbn [rop_sem]. by rewrite Hn.
Qed.

Lemma srlw_by : sext32 (wrap 32 a >> n) = ropw_sem SRL a b.
Proof.
  pose proof shiftw_pos. apply ropw_low. rewrite wrap_mod, Z.shiftr_div_pow2 by lia. cbn [rop_sem]. rewrite <-Hn.
  symmetry. apply Z.mod_small. apply (wrap_div_fits 32); [apply low_fits|lia].
Qed.

Lemma sraw_by : sext32 (signed 32 a >> n) = ropw_sem SRA a b.
Proof.
  pose proof shiftw_pos. apply ropw_low. rewrite signed_sint, Z.shiftr_div_pow2 by lia. cbn [rop_sem].
  by rewrite <-Hn, sint_low.
Qed.

End ShiftW.

(** The immediate of a shift holds the amount in its low bits. *)
Lemma shift_imm k f sh : 0 <= k <= 6 -> 0 <= sh < 2 ^ k ->
  word (signed 12 (sh + 2 ^ 5 * (f * 2 ^ 1))) .& (Z.ones k) = sh.
Proof.
  intros Hk Hs. replace (sh + 2 ^ 5 * (f * 2 ^ 1)) with (sh + f * 2 ^ 6) by lia.
  rewrite Z.land_ones, word_mod by lia. pose proof XLEN_pos.
  destruct (signed_diff 12 (sh + f * 2 ^ 6) ltac:(lia)) as [q ->].
  replace (2 ^ XLEN) with (2 ^ (XLEN - k) * 2 ^ k) by (rewrite <-Z.pow_add_r by lia; f_equal; lia).
  rewrite (Z.mul_comm (2 ^ (XLEN - k))), Z.rem_mul_r by lia.
  rewrite (Z.mul_comm (2 ^ k) (_ mod _)), Z.mod_add, Z.mod_mod by lia.
  replace (2 ^ 12) with (2 ^ (12 - k) * 2 ^ k) by (rewrite <-Z.pow_add_r by lia; f_equal; lia).
  replace (2 ^ 6) with (2 ^ (6 - k) * 2 ^ k) by (rewrite <-Z.pow_add_r by lia; f_equal; lia).
  rewrite !Z.mul_assoc, !Z.mod_add by lia. by apply Z.mod_small.
Qed.

End IsaAlu.
