(* ===== verification/VecArith.v ===== *)
(** * VecArith: the arithmetic of the vector elements

    The element functions compute in 64 or 128 bits whatever the width of the
    element; here they are shown to be the operations of the base instruction
    set at the element's width, clamped or rounded where the instruction says. *)
From S2P Require Import Prelude Config Alu AluSpec VecAlu Isa IsaAlu.

#[local] Open Scope Z_scope.

Definition width_ok (bits : Z) : Prop := bits = 8 \/ bits = 16 \/ bits = 32 \/ bits = 64.

(** ** Signed elements *)

Lemma width_pow bits : width_ok bits -> exists k, bits = 2 ^ k /\ 0 <= k.
Proof. intros [-> |[-> |[->| ->]]]; [exists 3|exists 4|exists 5|exists 6]; done. Qed.

Lemma mask_small bits a : 0 < bits -> fits bits a -> a .& element_mask bits = a.
Proof. intros. apply wrap_small; [lia|done]. Qed.

Lemma vector_signed_sint bits a : width_ok bits -> fits bits a -> vector_signed_value a bits = sint bits a.
Proof.
  intros Hw Ha. assert (H0 : 0 < bits) by (destruct Hw as [-> |[-> |[->| ->]]]; lia).
  rewrite <-signed_sint by done. unfold vector_signed_value, signed. rewrite nz_bit by lia.
  fold (wrap bits a). rewrite (wrap_small bits a) by (done || lia). by destruct (bits <? 64).
Qed.

(** Flipping the sign bit orders the elements as signed integers. *)
Lemma flip_sign bits a : 0 < bits -> fits bits a -> a .^ (1 << (bits - 1)) = sint bits a + 2 ^ (bits - 1).
Proof.
  intros H0 Ha. unfold sint. rewrite Z.shiftl_1_l. set (s := 2 ^ (bits - 1)).
  assert (P : 2 ^ bits = 2 * s) by (unfold s; rewrite <-Z.pow_succ_r by lia; f_equal; lia).
  assert (S0 : 0 < s) by (apply Z.pow_pos_nonneg; lia). unfold fits in Ha. rewrite P in *.
  assert (N : forall x, 0 <= x < s -> x .& s = 0).
  { intros x Hx. apply Z.bits_inj'. intros i Hi. unfold s. rewrite Z.land_spec, Z.pow2_bits_eqb, Z.bits_0 by lia.
    destruct (Z.eqb_spec (bits - 1) i) as [<-|]; [|apply andb_false_r]. by rewrite (testbit_high (bits - 1)) by (unfold fits; lia). }
  destruct (Z.lt_ge_cases a s).
  - rewrite <-Z.add_nocarry_lxor by (apply N; lia). rewrite Z.mod_small by lia. lia.
  - assert (E : a = (a - s) .^ s) by (rewrite <-Z.add_nocarry_lxor by (apply N; lia); lia).
    rewrite E at 1. rewrite Z.lxor_assoc, Z.lxor_nilpotent, Z.lxor_0_r.
    rewrite <-(Z.mod_add (a + s) (-1)), Z.mod_small by lia. lia.
Qed.

Lemma mod_mod_le x n k : 0 <= n <= k -> (x mod 2 ^ k) mod 2 ^ n = x mod 2 ^ n.
Proof.
  intros H. replace k with (n + (k - n)) by lia. rewrite Z.pow_add_r by lia.
  rewrite Z.rem_mul_r by (try apply Z.pow_nonzero; try apply Z.pow_pos_nonneg; lia).
  rewrite Z.mul_comm, Z.mod_add by (apply Z.pow_nonzero; lia). apply Z.mod_mod, Z.pow_nonzero; lia.
Qed.

Lemma sint_range w x : 0 < w -> - 2 ^ (w - 1) <= sint w x < 2 ^ (w - 1).
Proof. intros. rewrite <-signed_sint by done. by apply signed_range. Qed.

(** ** Integer elements *)

(** The [function] codes of the operations the base instruction set has too. *)
Definition integer_op (f : Z) : option rop :=
  match f with
  | 0x00 => Some ADD | 0x02 => Some SUB | 0x09 => Some AND | 0x0a => Some OR | 0x0b => Some XOR
  | 0x1a => Some SLTU | 0x1b => Some SLT | 0x25 => Some SLL | 0x28 => Some SRL | 0x29 => Some SRA
  | _ => None
  end.
Definition muldiv_op (f : Z) : option rop :=
  match f with
  | 0x20 => Some DIVU | 0x21 => Some DIV | 0x22 => Some REMU | 0x23 => Some REM
  | 0x24 => Some MULHU | 0x25 => Some MUL | 0x26 => Some MULHSU | 0x27 => Some MULH
  | _ => None
  end.

Lemma bit_fits w x : 1 <= w -> x = 0 \/ x = 1 -> fits w x.
Proof. intros Hw Hx. pose proof (Z.pow_le_mono_r 2 1 w). unfold fits. lia. Qed.

(** The low half of a quotient does not depend on the high bits of the dividend. *)
Lemma div_low p n k : 0 <= n -> n <= k -> (p mod (2 ^ n * 2 ^ k)) / 2 ^ n mod 2 ^ n = p / 2 ^ n mod 2 ^ n.
Proof.
  intros Hn Hk. assert (0 < 2 ^ n) by (apply Z.pow_pos_nonneg; lia). assert (0 < 2 ^ k) by (apply Z.pow_pos_nonneg; lia).
  rewrite Z.rem_mul_r by lia. rewrite (Z.mul_comm (2 ^ n)), Z.div_add by lia.
  rewrite (Z.div_small (p mod 2 ^ n)), Z.add_0_l by (apply Z.mod_pos_bound; lia). by apply mod_mod_le.
Qed.

(** Evaluates the tests of a literal [function] code. *)
Ltac consts :=
  repeat match goal with
  | |- context [Z.pos ?f .& Z.pos ?k] => let v := eval vm_compute in (Z.pos f .& Z.pos k) in change (Z.pos f .& Z.pos k) with v
  | |- context [0 .& Z.pos ?k] => change (0 .& Z.pos k) with 0
  | |- context [nz (Z.pos ?p)] => change (nz (Z.pos p)) with true
  | |- context [nz 0] => change (nz 0) with false
  | |- context [Z.pos ?f <? Z.pos ?k] => let v := eval vm_compute in (Z.pos f <? Z.pos k) in change (Z.pos f <? Z.pos k) with v
  | |- context [0 <? Z.pos ?k] => change (0 <? Z.pos k) with true
  | |- context [Z.pos ?f =? Z.pos ?k] => let v := eval vm_compute in (Z.pos f =? Z.pos k) in change (Z.pos f =? Z.pos k) with v
  end; cbv iota.

Lemma width_range bits : width_ok bits -> 8 <= bits <= 64.
Proof. intros [-> |[-> |[-> | ->]]]; lia. Qed.

Lemma amount_mod bits b : width_ok bits -> b .& (bits - 1) = b mod bits.
Proof. intros Hw. destruct (width_pow bits Hw) as (k & E & Hk). by apply (shift_amount_pow bits b k). Qed.

Section Elements.
Context (bits a b : Z) (Hw : width_ok bits) (Ha : fits bits a) (Hb : fits bits b).

Lemma wrap_low x : wrap bits (wrap 64 x) = x mod 2 ^ bits.
Proof. pose proof (width_range bits Hw). rewrite !wrap_mod by lia. apply mod_mod_le. lia. Qed.

Lemma integer_element_sem f op :
  integer_op f = Some op -> wrap bits (vector_integer_result f a b bits false) = rop_sem bits op a b.
Proof.
  pose proof (width_range bits Hw) as W. pose proof (amount_mod bits b Hw) as E. pose proof (Z.mod_pos_bound b bits ltac:(lia)) as R.
  intros Hf. unfold integer_op in Hf. unfold vector_integer_result. rewrite !mask_small, E by (done || lia). cbv zeta.
  repeat (match type of Hf with context [match ?x with _ => _ end] => destruct x; try discriminate Hf end);
    injection Hf as <-; cbn [rop_sem]; rewrite ?wrap_low; try done.
  - unfold b2z. rewrite !flip_sign by (done || lia).
    replace (sint bits a + 2 ^ (bits - 1) <? sint bits b + 2 ^ (bits - 1)) with (sint bits a <? sint bits b) by lia.
    destruct (_ <? _); apply wrap_small; try lia; apply bit_fits; lia.
  - apply wrap_small; [lia | by apply fits_lxor; [lia|..]].
  - by rewrite Z.shiftl_mul_pow2 by lia.
  - rewrite flip_sign by (done || lia). rewrite Z.shiftl_1_l. replace (sint bits a + 2 ^ (bits - 1) - 2 ^ (bits - 1)) with (sint bits a) by lia.
    pose proof (sint_range bits a ltac:(lia)). assert (2 ^ (bits - 1) <= 2 ^ 63) by (apply Z.pow_le_mono_r; lia).
    rewrite signed_id by (change (64 - 1) with 63; lia). by rewrite Z.shiftr_div_pow2 by lia.
  - apply wrap_small; [lia | by apply fits_land; [lia|]].
  - unfold b2z. destruct (_ <? _); apply wrap_small; try lia; apply bit_fits; lia.
  - apply wrap_small; [lia | by apply fits_lor; [lia|..]].
  - rewrite <-Z.shiftr_div_pow2 by lia. apply wrap_small; [lia | apply fits_shiftr; [lia..|done]].
Qed.

Lemma muldiv_element_sem f op : muldiv_op f = Some op -> vector_muldiv_result f a b bits = rop_sem bits op a b.
Proof.
  pose proof (width_range bits Hw) as W. intros Hf. unfold muldiv_op in Hf. unfold vector_muldiv_result.
  rewrite !(mask_small bits a), !(mask_small bits b), !(vector_signed_sint bits) by (done || lia). cbv zeta.
  assert (M : forall x, x .& element_mask bits = x mod 2 ^ bits) by (intros; by apply (wrap_mod bits); lia).
  assert (E1 : element_mask bits = (-1) mod 2 ^ bits).
  { unfold element_mask. rewrite Z.ones_equiv. rewrite <-(Z.mod_add (-1) 1), Z.mod_small; [lia| |];
      pose proof (Z.pow_pos_nonneg 2 bits); pose proof (Z.pow_le_mono_r 2 1 bits); lia. }
  repeat (match type of Hf with context [match ?x with _ => _ end] => destruct x; try discriminate Hf end);
    injection Hf as <-; cbn [rop_sem].
  all: consts.
  - rewrite M, Z.shiftr_div_pow2, (wrap_mod 128) by lia.
    replace 128 with (bits + (128 - bits)) by lia. rewrite Z.pow_add_r by lia. by rewrite div_low by lia.
  - rewrite M. destruct (Z.eqb_spec b 0); [by rewrite Z.mod_small | done].
  - rewrite M, wrap_mod by lia. apply mod_mod_le. lia.
  - rewrite M. by destruct (Z.eqb_spec b 0).
  - rewrite M, Z.shiftr_div_pow2, (wrap_mod 128) by lia.
    replace 128 with (bits + (128 - bits)) by lia. rewrite Z.pow_add_r by lia. by rewrite div_low by lia.
  - done.
  - rewrite M, Z.shiftr_div_pow2 by lia. apply Z.mod_small. unfold fits in *.
    split; [apply Z.div_pos; nia | apply Z.div_lt_upper_bound; nia].
  - destruct (Z.eqb_spec b 0); [done|]. symmetry. apply Z.mod_small. unfold fits in *.
    split; [apply Z.div_pos; lia|]. apply Z.div_lt_upper_bound; nia.
Qed.

(** C8: the integer elements compute what the scalar instructions do, at the
    width of the element: additions, logic, shifts and comparisons, and
    multiplications, divisions and remainders with their special cases. *)
Theorem vector_element_refines_isa f op :
  (integer_op f = Some op -> wrap bits (vector_integer_result f a b bits false) = rop_sem bits op a b) /\
  (muldiv_op f = Some op -> vector_muldiv_result f a b bits = rop_sem bits op a b).
Proof. split; [apply integer_element_sem | apply muldiv_element_sem]. Qed.

End Elements.

Section Saturation.
Context (bits : Z) (Hw : width_ok bits).

(** ** Saturation *)

(** The integer an element stands for, and the nearest one of the type. *)
Definition element_value (signed_operation : bool) (x : Z) : Z := if signed_operation then sint bits x else x.
Definition saturated (signed_operation : bool) (x : Z) : Z :=
  Z.max (element_minimum signed_operation bits) (Z.min x (element_maximum signed_operation bits)).

Lemma element_bounds s :
  element_minimum s bits = (if s then - 2 ^ (bits - 1) else 0) /\
  element_maximum s bits = (if s then 2 ^ (bits - 1) else 2 ^ bits) - 1.
Proof.
  unfold element_minimum, element_maximum, element_mask. rewrite !Z.shiftl_1_l, Z.ones_equiv. destruct s; lia.
Qed.

Lemma clamp_saturated s x :
  clamp (element_minimum s bits) (element_maximum s bits) x = (saturated s x, negb (saturated s x =? x)).
Proof.
  destruct (element_bounds s) as [E1 E2]. unfold clamp, saturated. rewrite E1, E2.
  pose proof (width_range bits Hw). pose proof (Z.pow_pos_nonneg 2 (bits - 1)). pose proof (Z.pow_pos_nonneg 2 bits).
  destruct s; repeat (match goal with |- context [?x <? ?y] => destruct (Z.ltb_spec x y) end); f_equal; try lia;
    symmetry; rewrite ?negb_true_iff, ?negb_false_iff, ?Z.eqb_eq, ?Z.eqb_neq; lia.
Qed.

(** An element stores the integer it stands for, when it is one of the type. *)
Lemma element_value_wrap s x :
  element_minimum s bits <= x <= element_maximum s bits -> element_value s (wrap bits x) = x.
Proof.
  destruct (element_bounds s) as [-> ->]. pose proof (width_range bits Hw). intros Hx. unfold element_value. destruct s.
  - rewrite <-signed_sint by lia. apply signed_small; lia.
  - apply wrap_small; [lia | unfold fits; lia].
Qed.

Lemma saturated_range s x : element_minimum s bits <= saturated s x <= element_maximum s bits.
Proof.
  unfold saturated. destruct (element_bounds s) as [-> ->]. pose proof (width_range bits Hw).
  pose proof (Z.pow_pos_nonneg 2 (bits - 1)). pose proof (Z.pow_pos_nonneg 2 bits). destruct s; lia.
Qed.

Lemma element_values (s : bool) x : fits bits x -> (if s then vector_signed_value x bits else x) = element_value s x.
Proof. intros Hx. destruct s; [by apply vector_signed_sint | done]. Qed.

End Saturation.



(** ** Rounding *)

(** [q] is [value / 2^shift] rounded as the fixed-point rounding mode says:
    to nearest with ties up, to nearest with ties to even, down, or to odd. *)
Definition rounds (mode value shift q : Z) : Prop :=
  let scale := 2 ^ shift in
  match mode with
  | 0 => - scale < 2 * (q * scale - value) <= scale
  | 1 => Z.abs (2 * (q * scale - value)) < scale \/ Z.abs (2 * (q * scale - value)) = scale /\ Z.Even q
  | 2 => q * scale <= value < (q + 1) * scale
  | _ => q * scale = value \/ Z.Odd q /\ Z.abs (q * scale - value) < scale
  end.

Lemma odd_bit q : nz (q .& 1) = Z.odd q.
Proof. change 1 with (1 << 0). rewrite nz_bit by lia. apply Z.bit0_odd. Qed.

(** Truncated division, corrected, is the floor. *)
Lemma floor_rem value scale :
  0 < scale ->
  (if Z.rem value scale <? 0 then (Z.quot value scale - 1, Z.rem value scale + scale) else (Z.quot value scale, Z.rem value scale))
  = (value / scale, value mod scale).
Proof.
  intros Hs. pose proof (Z.quot_rem value scale ltac:(lia)). pose proof (Z.rem_bound_abs value scale ltac:(lia)).
  pose proof (Z.div_mod value scale ltac:(lia)). pose proof (Z.mod_pos_bound value scale Hs).
  destruct (Z.ltb_spec (Z.rem value scale) 0).
  - assert (Z.quot value scale - 1 = value / scale) by nia. f_equal; nia.
  - assert (Z.quot value scale = value / scale) by nia. f_equal; nia.
Qed.

Lemma vector_round_rounds value shift mode :
  0 <= shift -> 0 <= mode < 4 -> rounds mode value shift (vector_round_result value shift mode).
Proof.
  intros Hs Hm. unfold vector_round_result, rounds. rewrite Z.shiftl_1_l. set (scale := 2 ^ shift).
  assert (S0 : 0 < scale) by (apply Z.pow_pos_nonneg; lia). cbv zeta. rewrite floor_rem by done. rewrite odd_bit.
  pose proof (Z.div_mod value scale ltac:(lia)) as E. pose proof (Z.mod_pos_bound value scale S0) as R.
  set (q := value / scale) in *. set (r := value mod scale) in *.
  assert (D : forall k, (q + k) * scale - value = k * scale - r) by (intros; lia).
  pose proof (D 0) as D0. pose proof (D 1) as D1. rewrite Z.add_0_r in D0.
  assert (Ez : nz r = negb (r =? 0)) by done. rewrite Ez. clear Ez.
  assert (Hodd : Z.odd q = true <-> Z.Odd q) by apply Z.odd_spec.
  assert (Heven : Z.odd q = false -> Z.Even q) by (rewrite <-Z.negb_even, negb_false_iff; apply Z.even_spec).
  assert (O1 : Z.Odd q -> Z.Even (q + 1)) by (intros [k ->]; exists (k + 1); lia).
  assert (O2 : Z.Even q -> Z.Odd (q + 1)) by (intros [k ->]; exists k; lia).
  assert (M : mode = 0 \/ mode = 1 \/ mode = 2 \/ mode = 3) by lia. clear E.
  destruct M as [-> |[-> |[-> | ->]]]; cbn [Z.eqb Pos.eqb andb orb].
  - destruct (Z.leb_spec scale (2 * r)); cbn [orb]; lia.
  - destruct (Z.ltb_spec scale (2 * r)); cbn [orb]; [left; lia|]. destruct (Z.eqb_spec (2 * r) scale); cbn [andb].
    + right. destruct (Z.odd q); cbn [orb]; (split; [lia|]); [by apply O1, Hodd | by apply Heven].
    + left. cbn [orb]. lia.
  - cbn [orb]. lia.
  - destruct (Z.eqb_spec r 0); cbn [negb andb orb]; [left; lia|]. destruct (Z.odd q); cbn [negb orb]; right.
    + split; [by apply Hodd | lia].
    + split; [by apply O2, Heven | lia].
Qed.

Section FixedPoint.
Context (bits a b mode : Z) (Hw : width_ok bits) (Ha : fits bits a) (Hb : fits bits b) (Hm : 0 <= mode < 4).

(** The exact value and the shift of a fixed-point operation: averaging addition
    and subtraction, the fractional product, and the scaling shifts. *)
Definition fixed_exact (f : Z) : Z * Z :=
  let s := nz (f .& 1) in
  if f <=? 0x0b then
    (if nz (f .& 2) then element_value bits s a - element_value bits s b else element_value bits s a + element_value bits s b, 1)
  else if f =? 0x27 then (sint bits a * sint bits b, bits - 1)
  else (element_value bits s a, b mod bits).

Lemma fixed_shift f : 0 <= (fixed_exact f).2.
Proof.
  pose proof (width_range bits Hw). pose proof (Z.mod_pos_bound b bits). unfold fixed_exact. cbv zeta.
  destruct (_ <=? _); cbn [snd]; [lia|]. destruct (_ =? _); cbn [snd]; lia.
Qed.

Lemma rounded_fixed_equation f :
  vector_rounded_fixed_result f a b bits mode =
    let q := vector_round_result (fixed_exact f).1 (fixed_exact f).2 mode in
    if f =? 0x27 then (wrap bits (saturated bits true q), negb (saturated bits true q =? q)) else (wrap bits q, false).
Proof.
  pose proof (width_range bits Hw) as W. unfold vector_rounded_fixed_result, fixed_exact.
  rewrite !mask_small by (done || lia). rewrite !element_values, !vector_signed_sint, (amount_mod bits b) by done. cbv zeta.
  destruct (f <=? 0x0b) eqn:F; cbn [fst snd].
  - replace (f =? 0x27) with false by lia. done.
  - destruct (f =? 0x27); cbn [fst snd]; [by rewrite clamp_saturated|done].
Qed.

(** C9: the fixed-point operations round the exact result as [vxrm] says; the
    fractional product then saturates, the others keep the low bits. *)
Theorem vector_fixed_point_spec f :
  let '(result, sat) := vector_rounded_fixed_result f a b bits mode in
  exists q, rounds mode (fixed_exact f).1 (fixed_exact f).2 q /\
    if f =? 0x27
    then element_value bits true result = saturated bits true q /\ (sat = true <-> saturated bits true q <> q)
    else result = q mod 2 ^ bits /\ sat = false.
Proof.
  pose proof (width_range bits Hw) as W. rewrite rounded_fixed_equation. cbv zeta.
  set (q := vector_round_result _ _ _).
  assert (R : rounds mode (fixed_exact f).1 (fixed_exact f).2 q) by (apply vector_round_rounds; [apply fixed_shift | done]).
  destruct (f =? 0x27); exists q; (split; [done|]); split.
  - by apply element_value_wrap; [|apply saturated_range].
  - by rewrite negb_true_iff, Z.eqb_neq.
  - apply wrap_mod. lia.
  - done.
Qed.

End FixedPoint.

(** A narrowing clip rounds the shifted source of twice the width and
    saturates to the element, reporting when it had to. *)
Theorem vector_clip_spec bits mode (s : bool) source shift_operand :
  width_ok bits -> bits <= 32 -> 0 <= mode < 4 -> fits (2 * bits) source ->
  let '(result, sat) := vector_clip_result s source shift_operand bits mode in
  exists q, rounds mode (element_value (2 * bits) s source) (shift_operand mod (2 * bits)) q /\
    element_value bits s result = saturated bits s q /\ (sat = true <-> saturated bits s q <> q).
Proof.
  intros Hw Hb32 Hm Hs. pose proof (width_range bits Hw) as W. unfold vector_clip_result.
  assert (W2 : width_ok (2 * bits)) by (destruct Hw as [-> |[-> |[-> | E]]]; [by right; left | by right; right; left | by right; right; right | lia]).
  replace (bits * 2) with (2 * bits) by lia. rewrite (amount_mod (2 * bits) shift_operand W2).
  rewrite (element_values (2 * bits)) by done. cbv zeta. rewrite clamp_saturated by done.
  eexists. split; [apply vector_round_rounds; [apply Z.mod_pos_bound; lia | done]|].
  split; [by apply element_value_wrap; [|apply saturated_range]|]. by rewrite negb_true_iff, Z.eqb_neq.
Qed.

(** ** Estimates *)

Definition recip_nearest (index : Z) : bool :=
  let e := estimate_of false index in
  let d := 257 + 2 * index in
  (0 <=? e) && (e <? 128) && (Z.abs (2 * ((e + 128) * d) - 2 * 65536) <=? d).
Definition rsqrt_nearest (index : Z) : bool :=
  let e := estimate_of true index in
  let d := 129 + 2 * (index .& 63) in
  let n := if nz (index .& 64) then 8388608 else 4194304 in
  (0 <=? e) && (e <? 128)
  && ((2 * (e + 128) - 1) * (2 * (e + 128) - 1) * d <? 4 * n + 1)
  && (4 * n <? (2 * (e + 128) + 1) * (2 * (e + 128) + 1) * d).

(** The estimates are the seven bits of the nearest quotient and of the
    nearest root: [e + 128] is the integer nearest to [65536 / d], where [d / 512]
    is the middle of the interval of the operand's leading bits, and the one
    nearest to the square root of [n / d]. The bisection needs no more steps than
    it has. *)
Theorem estimate_nearest index :
  0 <= index < 128 -> recip_nearest index = true /\ rsqrt_nearest index = true.
Proof.
  intros Hi. assert (C : all_below 128 (fun i => recip_nearest i && rsqrt_nearest i) = true) by (vm_compute; reflexivity).
  apply andb_true_iff. exact (all_below_spec _ _ C index Hi).
Qed.

(** ** Concrete elements *)

Lemma vector_element_refines_isa_witness :
  vector_integer_result 0x29 0x85 0x0b 8 false .& 255 = 0xf0 /\ vector_muldiv_result 0x21 0x80 0xff 8 = 0x80.
Proof.
  split.
  - exact (proj1 (vector_element_refines_isa 8 0x85 0x0b (or_introl eq_refl)
      ltac:(split; [discriminate | reflexivity]) ltac:(split; [discriminate | reflexivity]) 0x29 SRA) eq_refl).
  - exact (proj2 (vector_element_refines_isa 8 0x80 0xff (or_introl eq_refl)
      ltac:(split; [discriminate | reflexivity]) ltac:(split; [discriminate | reflexivity]) 0x21 DIV) eq_refl).
Defined.


(** [vaadd] of 1 and 2 to nearest even, and [vsmul] of -1.0 by itself. *)
Lemma vector_fixed_point_spec_witness :
  (exists q, rounds 1 3 1 q /\ 2 = q mod 2 ^ 8) /\ vector_rounded_fixed_result 0x27 0x80 0x80 8 0 = (127, true).
Proof.
  split; [|reflexivity].
  destruct (vector_fixed_point_spec 8 1 2 1 (or_introl eq_refl) ltac:(split; [discriminate | reflexivity])
    ltac:(split; [discriminate | reflexivity]) ltac:(split; [discriminate | reflexivity]) 0x09) as (q & H & E & _).
  exists q. split; [exact H | exact E].
Defined.

Lemma vector_clip_spec_witness :
  vector_clip_result false 0x1ff 1 8 0 = (255, true) /\ exists q, rounds 0 0x1ff 1 q /\ element_value 8 false 255 = saturated 8 false q.
Proof.
  split; [reflexivity|].
  destruct (vector_clip_spec 8 0 false 0x1ff 1 (or_introl eq_refl) ltac:(discriminate) ltac:(split; [discriminate | reflexivity])
    ltac:(split; [discriminate | reflexivity])) as (q & H & E & _).
  exists q. split; [exact H | exact E].
Defined.

Lemma estimate_nearest_witness : recip_nearest 0 = true /\ rsqrt_nearest 127 = true.
Proof.
  split; [apply (estimate_nearest 0) | apply (estimate_nearest 127)]; split; discriminate || reflexivity.
Defined.
