(* ===== verification/IsaRun.v ===== *)
(** * IsaRun: retirement, operands and the selection of instruction bodies *)
From Stdlib Require Import String.
From S2P Require Import Prelude Config Tlb InstPat RvC Alu AluSpec Machine Trap Clint Csr Fp Vaddr Decode Exec Step Isa IsaDecode IsaAlu.

Section IsaRun.
Context {Cfg : Config} {SF : SoftFloat} {VU : VectorUnit}.

(** ** Retirement does not depend on what [x0] holds *)

Definition blind (f : machine -> machine) : Prop := forall v m, f (setR 0 v m) = setR 0 v (f m).

Lemma blind_id : blind (fun m => m).
Proof. done. Qed.

Lemma blind_let {A} (o : machine -> A) (g : A -> machine -> machine) :
  (forall v m, o (setR 0 v m) = o m) -> (forall a, blind (g a)) -> blind (fun m => g (o m) m).
Proof. intros Ho Hg v m. cbn beta. by rewrite Ho, Hg. Qed.

Lemma blind_comp f g : blind f -> blind g -> blind (fun m => g (f m)).
Proof. intros Hf Hg v m. by rewrite Hf, Hg. Qed.

Lemma blind_when (o : machine -> bool) f g :
  (forall v m, o (setR 0 v m) = o m) -> blind f -> blind g -> blind (fun m => if o m then f m else g m).
Proof. intros Ho Hf Hg v m. rewrite Ho. destruct (o m); [apply Hf|apply Hg]. Qed.

Lemma blind_setCSR csr (o : machine -> Z) :
  (forall v m, o (setR 0 v m) = o m) -> blind (fun m => setCSR csr (o m) m).
Proof. intros Ho v m. by rewrite Ho. Qed.

(** The operations of retirement are chains of conditional CSR writes, the
    conditions over other registers. *)
Ltac blind_step :=
  lazymatch goal with
  | |- blind (fun m => m) => apply blind_id
  | |- blind (fun s => if _ then _ else _) => apply blind_when; [done|..]
  | |- blind (fun s => let m := @?f s in @?g m) => apply (blind_comp f g)
  | |- blind _ => done
  end.

Lemma blind_update_hart ticks : blind (clint_update_hart ticks).
Proof. intros v m. unfold clint_update_hart. destruct CONFIG_RV64; done. Qed.

Lemma get_time_blind v m : get_time (setR 0 v m) = ((get_time m).1, setR 0 v (get_time m).2).
Proof. unfold get_time, get_time_internal. destruct CONFIG_TIMER_CYCLE; [done|]. cbn. by destruct (_ =? 0). Qed.

Lemma blind_update_mip : blind clint_update_mip.
Proof.
  intros v m. unfold clint_update_mip, clint_get_ticks. destruct CONFIG_TARGET_SHARE; [done|].
  destruct CONFIG_TIMER_CYCLE; [apply blind_update_hart|]. rewrite get_time_blind.
  destruct (get_time m) as [t m']. apply blind_update_hart.
Qed.

Lemma blind_status : blind commit_status.
Proof. cbv beta delta [commit_status]. repeat blind_step. Qed.

Lemma blind_views_in last : blind (commit_views_in last).
Proof. intros v m. unfold commit_views_in. by destruct (_ =? _), (_ =? _), (_ =? _). Qed.

Lemma blind_timer last : blind (commit_timer last).
Proof. unfold commit_timer. destruct (one_of _ _); [apply blind_update_mip|done]. Qed.

Lemma blind_warl : blind commit_warl.
Proof. done. Qed.

Lemma blind_views_out : blind commit_views_out.
Proof. done. Qed.

Lemma blind_commit : blind csr_commit.
Proof.
  intros v m. unfold csr_commit.
  change (last_csr_wr (setR 0 v m)) with (last_csr_wr m). change (csr_dirty (setR 0 v m)) with (csr_dirty m).
  set (last := last_csr_wr m). destruct (if CONFIG_TARGET_SHARE then true else _); [|done].
  change ((setR 0 v m) <| last_csr_wr := 0 |> <| csr_dirty := false |>)
    with (setR 0 v (m <| last_csr_wr := 0 |> <| csr_dirty := false |>)).
  generalize (m <| last_csr_wr := 0 |> <| csr_dirty := false |>). intros m'.
  rewrite (blind_warl v m'), (blind_views_in last v), (blind_timer last v), (blind_status v). apply blind_views_out.
Qed.

Lemma blind_inc csr : blind (incCSR csr).
Proof. done. Qed.

Lemma blind_advance last : blind (advance_counters last).
Proof.
  set (cycle := fun m => if wrote_mcycle last then m else incCSR CSR_MCYCLE m).
  set (retired := fun m => if wrote_minstret last || instruction_trapped m then m else incCSR CSR_MINSTRET m).
  set (carry1 := fun old m => if CSR m CSR_MCYCLE <? old then incCSR CSR_MCYCLEH m else m).
  set (carry2 := fun old m => if CSR m CSR_MINSTRET <? old then incCSR CSR_MINSTRETH m else m).
  change (advance_counters last) with (fun m => if CONFIG_RV64 then retired (cycle m)
    else carry2 (CSR m CSR_MINSTRET) (carry1 (CSR m CSR_MCYCLE) (retired (cycle m)))).
  assert (B1 : blind cycle) by (unfold cycle; repeat blind_step).
  assert (B2 : blind retired) by (unfold retired; repeat blind_step).
  assert (B3 : forall old, blind (carry1 old)) by (intros old; unfold carry1; repeat blind_step).
  assert (B4 : forall old, blind (carry2 old)) by (intros old; unfold carry2; repeat blind_step).
  intros v m. cbn beta. rewrite B1, B2. change (CSR (setR 0 v m)) with (CSR m). rewrite B3, B4. by destruct CONFIG_RV64.
Qed.

Lemma setCSR_setR csr w v m : setCSR csr w (setR 0 v m) = setR 0 v (setCSR csr w m).
Proof. done. Qed.

Lemma blind_tick : blind tick_time.
Proof.
  intros v m. unfold tick_time. change (g_nr_guest_inst (setR 0 v m)) with (g_nr_guest_inst m).
  destruct (_ =? 0); [|done]. destruct CONFIG_TIMER_CYCLE.
  - destruct CONFIG_RV64; rewrite !setCSR_setR; apply blind_update_mip.
  - rewrite get_time_blind. destruct (get_time m) as [us m']. cbn [fst snd]. destruct CONFIG_RV64; rewrite !setCSR_setR; apply blind_update_mip.
Qed.

Lemma setR_setR i v w m : setR i v (setR i w m) = setR i v m.
Proof.
  transitivity (m <| gpr := aset (aset (gpr m) i w) i v |>); [done|]. by rewrite aset_aset_eq.
Qed.

Lemma retire_x0 v m : retire (setR 0 v m) = retire m.
Proof.
  unfold retire. rewrite blind_commit. change (last_csr_wr (setR 0 v m)) with (last_csr_wr m).
  rewrite (blind_advance _ v), (blind_tick v). apply setR_setR.
Qed.

(** ** Running a selected body *)

Definition decoded_rows (opc : Z) : list (decoded * (inst_type * body)) :=
  map (fun r => (pattern_decode r.1, r.2)) (group opc).

Lemma select_candidates inst g opc ks :
  BITS inst 6 2 = opc -> candidates g (inst .& g) (decoded_rows opc).*1 0 = Some ks ->
  exists j row, j ∈ ks /\ decoded_rows opc !! j = Some row /\ decoded_match row.1 inst = true /\ select inst = row.2.
Proof.
  intros <- H. destruct (candidates_first _ _ _ _ _ H) as (j & row & Hj & Hr & Hm & Hf).
  exists j, row. repeat split; try done. unfold select. rewrite instpat_first_decoded.
  change (map _ _) with (decoded_rows (BITS inst 6 2)). by rewrite Hf.
Qed.

Lemma read_reg {A} r (k : Z -> M machine A) m : reg r -> (x ← gprM r; k x) m = k (R m r) m.
Proof.
  intros [H0 H1]. unfold gprM, check_reg_idx. by replace ((0 <=? r) && _) with true by lia.
Qed.

Lemma write_reg {A} r v (k : M machine A) m : reg r -> (set_gprM r v;; k) m = k (setR r v m).
Proof.
  intros [H0 H1]. unfold set_gprM, check_reg_idx. by replace ((0 <=? r) && _) with true by lia.
Qed.

(** The simulator's result may differ from the specification's in [x0], until
    the instruction retires. *)
Definition agree (r1 r2 : outcome Z * machine) : Prop :=
  r1.1 = r2.1 /\ (r1.2 = r2.2 \/ exists a v, r1.1 = Ret a /\ r1.2 = setR 0 v r2.2).

Lemma agree_refl r : agree r r.
Proof. split; [done|by left]. Qed.

Lemma agree_set rd v (x : Z) m : agree (Ret x, setR rd v m) ((setx rd v;; ret x) m).
Proof.
  unfold setx. destruct (Z.eqb_spec rd 0) as [->|]; [|apply agree_refl].
  split; [done|]. right. by exists x, v.
Qed.

Lemma agree_bind {A} (r : M machine A) k1 k2 m :
  (forall a m', agree (k1 a m') (k2 a m')) -> agree ((a ← r; k1 a) m) ((a ← r; k2 a) m).
Proof. intros H. unfold mbind, M_bind. destruct (r m) as [[a|c|] m']; [apply H|apply agree_refl..]. Qed.

(** ** Operands *)

Lemma reg_wrap r : reg r -> wrap 5 r = r.
Proof. intros [H0 H1]. apply wrap_small; [lia|]. unfold fits. destruct CONFIG_RVE; lia. Qed.

(** The word [s] decodes has the fields of [i], and selects body [b] of type [t]. *)
Record runs (s : Decode) (rd rs1 rs2 : Z) (t : inst_type) (b : body) : Prop := {
  runs_rd : BITS (d_inst s) 11 7 = rd;
  runs_rs1 : BITS (d_inst s) 19 15 = rs1;
  runs_rs2 : BITS (d_inst s) 24 20 = rs2;
  runs_select : select (d_inst s) = (t, b);
}.

Ltac run :=
  intros [Hd H1 H2 Hs]; intros; unfold execute_inst; rewrite Hs; unfold decode_operand;
  rewrite ?Hd, ?H1, ?H2; unfold mbind at 1, M_bind at 1; by rewrite ?read_reg by done.

Section Runs.
Context (s : Decode) (rd rs1 rs2 : Z) (b : body) (m : machine).

Lemma run_R : runs s rd rs1 rs2 TYPE_R b -> reg rs1 -> reg rs2 ->
  execute_inst s m = b s (mk_operands rd rs1 (R m rs1) (R m rs2) 0) m.
Proof. run. Qed.

Lemma run_I : runs s rd rs1 rs2 TYPE_I b -> reg rs1 ->
  execute_inst s m = b s (mk_operands rd rs1 (R m rs1) 0 (immI (d_inst s))) m.
Proof. run. Qed.

Lemma run_S : runs s rd rs1 rs2 TYPE_S b -> reg rs1 -> reg rs2 ->
  execute_inst s m = b s (mk_operands rd rs1 (R m rs1) (R m rs2) (immS (d_inst s))) m.
Proof. run. Qed.

Lemma run_B : runs s rd rs1 rs2 TYPE_B b -> reg rs1 -> reg rs2 ->
  execute_inst s m = b s (mk_operands rd rs1 (R m rs1) (R m rs2) (immB (d_inst s))) m.
Proof. run. Qed.

Lemma run_U : runs s rd rs1 rs2 TYPE_U b ->
  execute_inst s m = b s (mk_operands rd rs1 0 0 (immU (d_inst s))) m.
Proof. run. Qed.

Lemma run_J : runs s rd rs1 rs2 TYPE_J b ->
  execute_inst s m = b s (mk_operands rd rs1 0 0 (immJ (d_inst s))) m.
Proof. run. Qed.

Lemma run_N : runs s rd rs1 rs2 TYPE_N b ->
  execute_inst s m = b s (mk_operands rd rs1 0 0 0) m.
Proof. run. Qed.

End Runs.

Lemma runs_enc s f7 rs2 rs1 f3 rd op t b :
  d_inst s = enc_R f7 rs2 rs1 f3 rd op -> select (enc_R f7 rs2 rs1 f3 rd op) = (t, b) ->
  runs s (wrap 5 rd) (wrap 5 rs1) (wrap 5 rs2) t b.
Proof.
  intros E Hs. rewrite <-E in Hs. pose proof (enc_R_fields f7 rs2 rs1 f3 rd op) as F. rewrite <-E in F.
  destruct F as (F2 & F1 & Fd & _). by split.
Qed.

(** ** What the specification assumes of the registers *)

Definition regs_ok (m : machine) : Prop := R m 0 = 0 /\ forall r, fits XLEN (R m r).

Lemma getx_R m r : regs_ok m -> getx m r = R m r.
Proof. intros [H _]. unfold getx. destruct (Z.eqb_spec r 0) as [->|]; [by rewrite H|done]. Qed.

Lemma agree_wr s o m rd' v v' : reg rd' -> rd o = rd' -> v = v' ->
  agree (wr s o v m) ((setx rd' v';; ret (d_snpc s)) m).
Proof. intros Hr E ->. unfold wr. rewrite E, write_reg by done. apply agree_set. Qed.

End IsaRun.
