(* ===== verification/IsaSpec.v ===== *)
(** * IsaSpec: the simulator executes the base instruction set of [Isa] *)
From Stdlib Require Import String.
From S2P Require Import Prelude Config Tlb InstPat RvC Alu AluSpec Machine Trap Clint Csr Fp Vaddr Decode Exec VecUnit Step StepSpec Isa IsaDecode IsaAlu IsaRun.

Section IsaSpec.
Context {Cfg : Config} {SF : SoftFloat} {VU : VectorUnit}.

(** The bits of an immediate shift above its amount. *)
Lemma shift_top64 f sh : 0 <= sh < 64 -> (sh + 2 ^ 5 * (2 * f)) >> 5 .& 126 = 2 * f .& 126.
Proof.
  intros H. assert (E : forall y, y .& 126 = ((y >> 1) .& Z.ones 6) << 1) by (intros y; change 126 with (Z.ones 6 << 1); bits).
  rewrite !E, Z.shiftr_shiftr by lia. do 2 f_equal. rewrite !Z.shiftr_div_pow2 by lia.
  change (2 ^ (5 + 1)) with 64. change (2 ^ 5) with 32. change (2 ^ 1) with 2.
  Z.to_euclidean_division_equations. lia.
Qed.

Lemma shift_top32 f sh : 0 <= sh < 32 -> (sh + 2 ^ 5 * f) >> 5 .& 127 = f .& 127.
Proof.
  intros H. f_equal. rewrite Z.shiftr_div_pow2 by lia. change (2 ^ 5) with 32.
  Z.to_euclidean_division_equations. lia.
Qed.

Ltac rows H :=
  cbv [decoded_rows group grp_op grp_opimm grp_op32 grp_opimm32 grp_load grp_store grp_branch grp_lui grp_auipc
       grp_jal grp_jalr grp_miscmem map app lookup list_lookup R_ I_ N_ fst snd] in H.
Ltac cands RV :=
  rewrite enc_R_land, ?Z.land_0_r; rewrite ?shift_top64, ?shift_top32 by done;
  cbv [decoded_rows group grp_op grp_opimm grp_op32 grp_opimm32 grp_load grp_store grp_branch grp_lui grp_auipc
       grp_jal grp_jalr grp_miscmem map app R_ I_ N_ fst snd fmap list_fmap]; rewrite ?RV; cbv [map app list_fmap];
  lazymatch goal with |- ?c = _ => let v := eval vm_compute in c in transitivity v; [vm_compute; reflexivity|reflexivity] end.

Ltac choose RV m7 m3 :=
  lazymatch goal with |- context [select (enc_R ?f7 ?rs2 ?rs1 ?f3 ?rd ?op)] =>
    let opc := eval vm_compute in (wrap 5 (op >> 2)) in
    let j := fresh "j" in let row := fresh "row" in let Hj := fresh "Hj" in let Hr := fresh "Hr" in let Hm := fresh "Hm" in
    edestruct (select_candidates (enc_R f7 rs2 rs1 f3 rd op) (enc_R m7 0 0 m3 0 127) opc) as (j & row & Hj & Hr & Hm & ->);
    [apply enc_R_fields|cands RV|]
  end.


Ltac picked RV Hj Hr := apply list_elem_of_singleton in Hj as ->; rows Hr; rewrite ?RV in Hr; rows Hr; injection Hr as <-; cbn [snd].

Definition simulated (i : instr) : Prop := forall s m,
  valid i -> d_inst s = encode i -> regs_ok m -> fits XLEN (d_pc s) -> d_pc s mod 2 = 0 ->
  agree (execute_inst s m) (isa_exec i (d_pc s) (d_snpc s) m).

(** The specification's side, with the registers it reads. *)
Ltac spec :=
  unfold isa_exec, get; unfold mbind at 1, M_bind at 1; cbv beta iota zeta; by rewrite ?getx_R by done.

(** ** Register operations *)

Lemma select_OP op rd rs1 rs2 : exists f, select (encode (OP op rd rs1 rs2)) = (TYPE_R, alu f) /\
  forall a b, fits XLEN a -> fits XLEN b -> f a b 0 = rop_sem XLEN op a b.
Proof.
  destruct CONFIG_RV64 eqn:RV, op; cbn [encode funct3 funct7].
  all: choose RV 127 7; picked RV Hj Hr.
  all: eexists; split; [reflexivity|]; intros a b Ha Hb; cbn beta.
  all: first [ done | by apply mulh_ok | by apply mulhsu_ok | by apply mulhu_ok | by apply div_ok | by apply rem_ok
    | by apply divu_ok | by apply add_ok | by apply sub_ok | by apply slt_ok | by apply mul_ok
    | by apply sll_by, shamt_mod | by apply srl_by, shamt_mod | by apply sra_by, shamt_mod ].
Qed.

Lemma simulated_R i s m f7 rs2 rs1 f3 rd op f v :
  d_inst s = enc_R f7 rs2 rs1 f3 rd op -> select (enc_R f7 rs2 rs1 f3 rd op) = (TYPE_R, alu f) ->
  reg rd -> reg rs1 -> reg rs2 -> f (R m rs1) (R m rs2) 0 = v ->
  isa_exec i (d_pc s) (d_snpc s) m = (setx rd v;; ret (d_snpc s)) m ->
  agree (execute_inst s m) (isa_exec i (d_pc s) (d_snpc s) m).
Proof.
  intros E Hs Hd H1 H2 Hv ->. pose proof (runs_enc _ _ _ _ _ _ _ _ _ E Hs) as Hr.
  rewrite !reg_wrap in Hr by done. rewrite (run_R _ _ _ _ _ _ Hr) by done. by apply agree_wr.
Qed.

Lemma simulated_OP op rd rs1 rs2 : simulated (OP op rd rs1 rs2).
Proof.
  intros s m (Hd & H1 & H2) E Hm Hpc _. destruct (select_OP op rd rs1 rs2) as (f & Hs & Hf).
  eapply simulated_R; [exact E|exact Hs|done..| |]; [apply Hf; apply Hm|].
  spec.
Qed.

Lemma select_OPW op rd rs1 rs2 : CONFIG_RV64 = true -> has_word op = true ->
  exists f, select (encode (OPW op rd rs1 rs2)) = (TYPE_R, alu f) /\ forall a b, f a b 0 = ropw_sem op a b.
Proof.
  intros RV Hw. destruct op; try discriminate; cbn [encode funct3 funct7].
  all: choose RV 127 7; picked RV Hj Hr.
  all: eexists; split; [reflexivity|]; intros a b; cbn beta.
  all: first [ apply divw_ok | apply remw_ok | apply divuw_ok | apply remuw_ok | apply addw_ok' | apply subw_ok
    | apply mulw_ok | apply sllw_by, shamtw | apply srlw_by, shamtw | apply sraw_by, shamtw ].
Qed.

Lemma simulated_OPW op rd rs1 rs2 : simulated (OPW op rd rs1 rs2).
Proof.
  intros s m (RV & Hw & Hd & H1 & H2) E Hm _ _. destruct (select_OPW op rd rs1 rs2 RV Hw) as (f & Hs & Hf).
  eapply simulated_R; [exact E|exact Hs|done..| |]; [apply Hf|spec].
Qed.

(** ** Operations with an immediate *)

Lemma simulated_I i s m imm rs1 f3 rd op f v :
  d_inst s = enc_I imm rs1 f3 rd op -> select (enc_I imm rs1 f3 rd op) = (TYPE_I, alu f) ->
  reg rd -> reg rs1 -> f (R m rs1) 0 (word (signed 12 imm)) = v ->
  isa_exec i (d_pc s) (d_snpc s) m = (setx rd v;; ret (d_snpc s)) m ->
  agree (execute_inst s m) (isa_exec i (d_pc s) (d_snpc s) m).
Proof.
  intros E Hs Hd H1 Hv ->. pose proof E as E'. rewrite enc_I_R in E', Hs.
  pose proof (runs_enc _ _ _ _ _ _ _ _ _ E' Hs) as Hr. rewrite !(reg_wrap rd), !(reg_wrap rs1) in Hr by done.
  rewrite (run_I _ _ _ _ _ _ Hr) by done. apply agree_wr; [done..|]. by rewrite E, immI_enc.
Qed.

Lemma select_OPI op rd rs1 imm : has_imm op = true -> exists t b, select (encode (OPI op rd rs1 imm)) = (t, b) /\
  ((exists f, t = TYPE_I /\ b = alu f /\ forall a i, fits XLEN a -> f a 0 i = rop_sem XLEN op a i)
   \/ (t = TYPE_N /\ wrap 5 rd = 0 /\ b = fun s _ => ret (d_snpc s))).
Proof.
  intros Hi. destruct CONFIG_RV64 eqn:RV, op; try discriminate; cbn [encode funct3]; rewrite enc_I_R.
  all: choose RV 0 7.
  all: repeat (apply elem_of_cons in Hj as [->|Hj]); try by apply not_elem_of_nil in Hj.
  all: rows Hr; rewrite ?RV in Hr; rows Hr; injection Hr as <-; eexists _, _; split; [reflexivity|].
  all: first
    [ left; eexists; split; [reflexivity|split; [reflexivity|]]; intros a i Ha; cbn beta;
      first [ done | apply addi_ok | apply slt_ok ]
    | right; split; [reflexivity|]; split; [|reflexivity] ].
  all: apply matched_rd in Hm; [|done]; rewrite <-Hm; symmetry; apply enc_R_fields.
Qed.

Lemma imm_word imm : simm 12 1 imm -> word (signed 12 imm) = imm mod 2 ^ XLEN.
Proof. intros H. rewrite (simm_signed 12) by (done || lia). apply word_mod. Qed.

Lemma simulated_OPI op rd rs1 imm : simulated (OPI op rd rs1 imm).
Proof.
  intros s m (Hi & Hd & H1 & Hm) E Hreg _ _.
  destruct (select_OPI op rd rs1 imm Hi) as (t & b & Hs & [(f & -> & -> & Hf)|(-> & Hd0 & ->)]).
  - eapply simulated_I; [exact E|exact Hs|done..| |]; [|spec]. rewrite (imm_word imm) by done. by apply Hf, Hreg.
  - rewrite reg_wrap in Hd0 by done. subst rd.
    pose proof E as E'. cbn [encode] in E', Hs. rewrite enc_I_R in E', Hs.
    pose proof (runs_enc _ _ _ _ _ _ _ _ _ E' Hs) as Hr. rewrite (run_N _ _ _ _ _ _ Hr). apply agree_refl.
Qed.

(** The [funct7] of a shift, whose low bit is the top bit of a 6-bit amount. *)
Lemma funct7_shift op : is_shift op = true -> funct7 op = 2 * (funct7 op / 2).
Proof. by destruct op. Qed.

Lemma select_SHI op rd rs1 sh : is_shift op = true -> 0 <= sh < XLEN ->
  exists f, select (encode (SHI op rd rs1 sh)) = (TYPE_I, alu f) /\
    forall a, f a 0 (word (signed 12 (sh + 2 ^ 5 * funct7 op))) = rop_sem XLEN op a sh.
Proof.
  intros Hi Hsh. assert (Hmod : sh = sh mod XLEN) by (symmetry; by apply Z.mod_small).
  unfold XLEN in Hsh. destruct CONFIG_RV64 eqn:RV.
  - assert (Hn : word (signed 12 (sh + 2 ^ 5 * funct7 op)) .& Z.ones 6 = sh).
    { rewrite (funct7_shift op Hi), (Z.mul_comm 2). by apply shift_imm. }
    destruct op; try discriminate; cbn [encode funct3]; rewrite enc_I_R.
    1,2: change (funct7 _) with (2 * 0). 3: change (funct7 _) with (2 * 16).
    all: choose RV 126 7; picked RV Hj Hr; eexists; split; [reflexivity|]; intros a; cbn beta.
    all: first [apply sll_by|apply srl_by|apply sra_by]; rewrite <-Hmod; exact Hn.
  - assert (Hn : word (signed 12 (sh + 2 ^ 5 * funct7 op)) .& Z.ones 5 = sh).
    { rewrite (funct7_shift op Hi), (Z.mul_comm 2). by apply shift_imm. }
    destruct op; try discriminate; cbn [encode funct3 funct7]; rewrite enc_I_R.
    all: choose RV 127 7; picked RV Hj Hr; eexists; split; [reflexivity|]; intros a; cbn beta.
    all: first [apply sll_by|apply srl_by|apply sra_by]; rewrite <-Hmod; exact Hn.
Qed.

Lemma simulated_SHI op rd rs1 sh : simulated (SHI op rd rs1 sh).
Proof.
  intros s m (Hi & Hd & H1 & Hsh) E Hm _ _. destruct (select_SHI op rd rs1 sh Hi Hsh) as (f & Hs & Hf).
  eapply simulated_I; [exact E|exact Hs|done..| |]; [apply Hf|spec].
Qed.

Lemma select_SHIW op rd rs1 sh : CONFIG_RV64 = true -> is_shift op = true -> 0 <= sh < 32 ->
  exists f, select (encode (SHIW op rd rs1 sh)) = (TYPE_I, alu f) /\
    forall a, f a 0 (word (signed 12 (sh + 2 ^ 5 * funct7 op))) = ropw_sem op a sh.
Proof.
  intros RV Hi Hsh. assert (Hmod : sh = (sh mod 2 ^ 32) mod 32) by (rewrite (Z.mod_small sh), Z.mod_small; lia).
  assert (Hn : word (signed 12 (sh + 2 ^ 5 * funct7 op)) .& Z.ones 5 = sh).
  { rewrite (funct7_shift op Hi), (Z.mul_comm 2). by apply shift_imm. }
  destruct op; try discriminate; cbn [encode funct3 funct7]; rewrite enc_I_R.
  all: choose RV 127 7; picked RV Hj Hr; eexists; split; [reflexivity|]; intros a; cbn beta.
  all: first [apply sllw_by|apply srlw_by|apply sraw_by]; rewrite <-Hmod; exact Hn.
Qed.

Lemma simulated_SHIW op rd rs1 sh : simulated (SHIW op rd rs1 sh).
Proof.
  intros s m (RV & Hi & Hd & H1 & Hsh) E Hm _ _. destruct (select_SHIW op rd rs1 sh RV Hi Hsh) as (f & Hs & Hf).
  eapply simulated_I; [exact E|exact Hs|done..| |]; [apply Hf|spec].
Qed.

Lemma simulated_ADDIW rd rs1 imm : simulated (ADDIW rd rs1 imm).
Proof.
  intros s m (RV & Hd & H1 & Hi) E Hm _ _.
  assert (Hs : select (enc_I imm rs1 0 rd 0x1b) = (TYPE_I, alu (fun a _ i => sext32 (wrap 32 a + i)))).
  { rewrite enc_I_R. choose RV 0 7. picked RV Hj Hr. done. }
  eapply simulated_I; [exact E|exact Hs|done..| |]; [|spec]. cbn beta. rewrite addw_ok, imm_word by done.
  unfold ropw_sem. rewrite Z.mod_mod_divide; [done|].
  pose proof XLEN_pos. exists (2 ^ (XLEN - 32)). rewrite <-Z.pow_add_r by lia. f_equal. lia.
Qed.

(** ** Upper immediates and jumps *)

Lemma simulated_U (s : Decode) m imm rd op b (r : M machine Z) :
  d_inst s = enc_U imm rd op -> select (enc_U imm rd op) = (TYPE_U, b) ->
  agree (b s (mk_operands (wrap 5 rd) (wrap 5 (imm >> 3)) 0 0 (word (signed 32 (imm << 12)))) m) (r m) ->
  agree (execute_inst s m) (r m).
Proof.
  intros E Hs H. pose proof E as E'. rewrite enc_U_R in E', Hs.
  rewrite (run_U _ _ _ _ _ _ (runs_enc _ _ _ _ _ _ _ _ _ E' Hs)). by rewrite E, immU_enc.
Qed.

Lemma imm_upper imm : word (signed 32 (imm << 12)) = sint 32 (imm * 2 ^ 12) mod 2 ^ XLEN.
Proof. by rewrite word_mod, signed_sint, Z.shiftl_mul_pow2 by lia. Qed.

Lemma simulated_LUI rd imm : simulated (LUI rd imm).
Proof.
  intros s m [Hd _] E _ _ _.
  assert (Hs : select (enc_U imm rd 0x37) = (TYPE_U, fun s o => wr s o (Decode.imm o))).
  { rewrite enc_U_R. choose RV 0 0. picked RV Hj Hr. done. }
  apply (simulated_U s m imm rd 0x37 _ _ E Hs). rewrite reg_wrap by done. apply agree_wr; [done..|].
  apply imm_upper.
Qed.

Lemma simulated_AUIPC rd imm : simulated (AUIPC rd imm).
Proof.
  intros s m [Hd _] E _ _ _.
  assert (Hs : select (enc_U imm rd 0x17) = (TYPE_U, fun s o => wr s o (word (d_pc s + Decode.imm o)))).
  { rewrite enc_U_R. choose RV 0 0. picked RV Hj Hr. done. }
  apply (simulated_U s m imm rd 0x17 _ _ E Hs). rewrite reg_wrap by done. apply agree_wr; [done..|].
  cbn [Decode.imm]. by rewrite imm_upper, word_mod, Zplus_mod_idemp_r.
Qed.

Lemma agree_jump s o m rd' t t' : reg rd' -> rd o = rd' -> word t .& wnot 1 = t' ->
  agree (jump s o t m) ((setx rd' (d_snpc s);; ret t') m).
Proof. intros Hr E <-. unfold jump. rewrite E, write_reg by done. apply agree_set. Qed.

Lemma word_add a b : word (a + word b) = word (a + b).
Proof. by rewrite !word_mod, Zplus_mod_idemp_r. Qed.

Lemma clear_bit0 x : word x .& wnot 1 = x mod 2 ^ XLEN / 2 * 2.
Proof.
  pose proof xlen_1. rewrite <-word_mod.
  assert (E : word x .& wnot 1 = word x .& ~~ Z.ones 1).
  { unfold wnot, word. change 1 with (Z.ones 1) at 1. bits. }
  rewrite E, land_lnot_ones, Z.shiftl_mul_pow2, Z.shiftr_div_pow2 by lia. done.
Qed.

Lemma clear_bit0_even x : x mod 2 = 0 -> word x .& wnot 1 = x mod 2 ^ XLEN.
Proof.
  intros E. pose proof xlen_1. rewrite clear_bit0, Z.mul_comm. symmetry. apply Z_div_exact_2; [lia|].
  rewrite Z.mod_mod_divide; [done|]. exists (2 ^ (XLEN - 1)). rewrite <-(Z.pow_add_r 2 _ 1) by lia. f_equal. lia.
Qed.

Lemma simulated_JAL rd off : simulated (JAL rd off).
Proof.
  intros s m [Hd Ho] E _ Hpc Hev.
  assert (Hs : select (enc_J off rd 0x6f) = (TYPE_J, fun s o => jump s o (d_pc s + Decode.imm o))).
  { rewrite enc_J_R. choose RV 0 0. picked RV Hj Hr. done. }
  pose proof E as E'. cbn [encode] in E'. rewrite enc_J_R in E', Hs.
  rewrite (run_J _ _ _ _ _ _ (runs_enc _ _ _ _ _ _ _ _ _ E' Hs)), E, reg_wrap by done.
  cbn [encode]. rewrite immJ_enc. apply agree_jump; [done..|]. cbn [Decode.imm].
  rewrite (simm_even 21), word_add by (done || lia).
  apply clear_bit0_even. destruct Ho as [_ Ho]. by rewrite Zplus_mod, Hev, Ho.
Qed.

Lemma simulated_JALR rd rs1 imm : simulated (JALR rd rs1 imm).
Proof.
  intros s m (Hd & H1 & Hi) E Hm _ _.
  assert (Hs : select (enc_I imm rs1 0 rd 0x67) = (TYPE_I, fun s o => jump s o (src1 o + Decode.imm o))).
  { rewrite enc_I_R. choose RV 0 7. picked RV Hj Hr. done. }
  pose proof E as E'. cbn [encode] in E'. rewrite enc_I_R in E', Hs.
  pose proof (runs_enc _ _ _ _ _ _ _ _ _ E' Hs) as Hr. rewrite !(reg_wrap rd), !(reg_wrap rs1) in Hr by done.
  rewrite (run_I _ _ _ _ _ _ Hr), E by done. cbn [encode]. rewrite immI_enc, imm_word by done.
  replace (isa_exec _ _ _ m) with
    ((setx rd (d_snpc s);; ret ((R m rs1 + imm) mod 2 ^ XLEN / 2 * 2)) m) by (symmetry; spec).
  apply agree_jump; [done..|]. cbn [Decode.imm src1].
  by rewrite clear_bit0, Zplus_mod_idemp_r.
Qed.

(** ** Branches *)

Lemma simulated_BRANCH c rs1 rs2 off : simulated (BRANCH c rs1 rs2 off).
Proof.
  intros s m (H1 & H2 & Ho) E Hm _ _.
  assert (Hs : exists f, select (enc_B off rs2 rs1 (cond_funct3 c) 0x63) = (TYPE_B, branch f) /\
    forall a b, f a b = holds XLEN c a b).
  { pose proof xlen_1. rewrite enc_B_R. destruct c; cbn [cond_funct3]; choose RV 0 7; picked RV Hj Hr.
    all: eexists; split; [reflexivity|]; intros a b; unfold sword; rewrite ?signed_sint by lia; done. }
  destruct Hs as (f & Hs & Hf). pose proof E as E'. cbn [encode] in E'. rewrite enc_B_R in E', Hs.
  pose proof (runs_enc _ _ _ _ _ _ _ _ _ E' Hs) as Hr. rewrite !(reg_wrap rs1), !(reg_wrap rs2) in Hr by done.
  rewrite (run_B _ _ _ _ _ _ Hr), E by done. cbn [encode]. rewrite immB_enc, (simm_even 13) by (done || lia).
  replace (isa_exec _ _ _ m) with
    ((ret (if holds XLEN c (R m rs1) (R m rs2) then (d_pc s + off) mod 2 ^ XLEN else d_snpc s) : M machine Z) m)
    by (symmetry; spec).
  unfold branch. cbn [src1 src2 Decode.imm]. rewrite Hf, word_add, word_mod.
  apply agree_refl.
Qed.

(** ** Memory *)

Lemma sext_loaded w v : sext w v = word (signed w v).
Proof. unfold sext, SEXT, word, XLEN. destruct CONFIG_RV64; bits. Qed.

Lemma select_LOAD w u rd rs1 imm : has_load w u = true ->
  exists f, select (encode (LOAD w u rd rs1 imm)) = (TYPE_I, load (bytes w) f) /\ forall v, f v = loaded w u v.
Proof.
  intros Hl. destruct CONFIG_RV64 eqn:RV, w, u; cbn [has_load] in Hl; rewrite ?RV in Hl; try discriminate.
  all: cbn [encode width_funct3]; rewrite enc_I_R; choose RV 0 7; picked RV Hj Hr.
  all: eexists; split; [reflexivity|]; intros v; try done.
  all: by rewrite sext_loaded, signed_sint, word_mod by lia.
Qed.

Lemma simulated_LOAD w u rd rs1 imm : simulated (LOAD w u rd rs1 imm).
Proof.
  intros s m (Hl & Hd & H1 & Hi) E Hm _ _. destruct (select_LOAD w u rd rs1 imm Hl) as (f & Hs & Hf).
  pose proof E as E'. cbn [encode] in E', Hs. rewrite enc_I_R in E', Hs.
  pose proof (runs_enc _ _ _ _ _ _ _ _ _ E' Hs) as Hr. rewrite !(reg_wrap rd), !(reg_wrap rs1) in Hr by done.
  rewrite (run_I _ _ _ _ _ _ Hr), E by done. cbn [encode]. rewrite immI_enc, imm_word by done.
  replace (isa_exec _ _ _ m) with ((v ← vaddr_read ((R m rs1 + imm) mod 2 ^ XLEN) (bytes w);
    setx rd (loaded w u v);; ret (d_snpc s)) m) by (symmetry; spec).
  unfold load. cbn [src1 Decode.imm]. rewrite word_mod, Zplus_mod_idemp_r.
  apply agree_bind. intros v m'. by apply agree_wr.
Qed.

Lemma select_STORE w rs1 rs2 imm : has_load w false = true ->
  select (encode (STORE w rs1 rs2 imm)) = (TYPE_S, store (bytes w)).
Proof.
  intros Hl. destruct CONFIG_RV64 eqn:RV, w; cbn [has_load] in Hl; rewrite ?RV in Hl; try discriminate.
  all: cbn [encode width_funct3]; rewrite enc_S_R; choose RV 0 7; picked RV Hj Hr; done.
Qed.

Lemma simulated_STORE w rs1 rs2 imm : simulated (STORE w rs1 rs2 imm).
Proof.
  intros s m (Hl & H1 & H2 & Hi) E Hm _ _. pose proof (select_STORE w rs1 rs2 imm Hl) as Hs.
  pose proof E as E'. cbn [encode] in E', Hs. rewrite enc_S_R in E', Hs.
  pose proof (runs_enc _ _ _ _ _ _ _ _ _ E' Hs) as Hr. rewrite !(reg_wrap rs1), !(reg_wrap rs2) in Hr by done.
  rewrite (run_S _ _ _ _ _ _ Hr), E by done. cbn [encode]. rewrite immS_enc, imm_word by done.
  replace (isa_exec _ _ _ m) with
    ((vaddr_write ((R m rs1 + imm) mod 2 ^ XLEN) (bytes w) (R m rs2);; ret (d_snpc s)) m) by (symmetry; spec).
  unfold store, next. cbn [src1 src2 Decode.imm]. rewrite word_mod, Zplus_mod_idemp_r. apply agree_refl.
Qed.

(** ** Fences and environment calls *)

Lemma simulated_FENCE rd rs1 imm : simulated (FENCE rd rs1 imm).
Proof.
  intros s m _ E _ _ _.
  assert (Hs : select (enc_I imm rs1 0 rd 0x0f) = (TYPE_N, fun s _ => ret (d_snpc s))).
  { rewrite enc_I_R. choose RV 0 7.
    repeat (apply elem_of_cons in Hj as [->|Hj]; [rows Hr; by injection Hr as <-|]). by apply not_elem_of_nil in Hj. }
  pose proof E as E'. cbn [encode] in E'. rewrite enc_I_R in E', Hs.
  rewrite (run_N _ _ _ _ _ _ (runs_enc _ _ _ _ _ _ _ _ _ E' Hs)). apply agree_refl.
Qed.

Lemma simulated_ECALL : simulated ECALL.
Proof.
  intros s m _ E _ _ _.
  assert (Hs : select (encode ECALL) = (TYPE_N, fun s _ => cause ← gets ecall_cause; raise cause (d_pc s))) by done.
  unfold execute_inst. rewrite E, Hs. apply agree_refl.
Qed.

Lemma simulated_EBREAK : simulated EBREAK.
Proof.
  intros s m _ E _ _ _.
  assert (Hs : select (encode EBREAK) = (TYPE_N, fun s _ => raise MCA_BREAK_POINT (d_pc s))) by done.
  unfold execute_inst. rewrite E, Hs. apply agree_refl.
Qed.

Lemma simulated_all i : simulated i.
Proof.
  destruct i; eauto using simulated_LUI, simulated_AUIPC, simulated_JAL, simulated_JALR, simulated_BRANCH,
    simulated_LOAD, simulated_STORE, simulated_OPI, simulated_SHI, simulated_OP, simulated_ADDIW, simulated_SHIW,
    simulated_OPW, simulated_FENCE, simulated_ECALL, simulated_EBREAK.
Qed.

(** ** Refinement *)

(** The instruction [i] of the specification, retired. *)
Definition isa_step (i : instr) (pc npc : Z) : M machine Z :=
  dnpc ← isa_exec i pc npc; modify retire;; ret (riscv_legalize_pc dnpc).

(** C1: the simulator implements the base instruction set: whatever word [s]
    decodes to the encoding of a valid instruction of RV32IM or RV64IM, compressed
    or not and from the decode cache or from memory, [decode_exec] has exactly the
    effect and the next address that the ISA manual gives that instruction,
    followed by retirement. *)
Theorem decode_exec_refines_isa i s m :
  valid i -> d_inst (decode_head s) = encode i -> regs_ok m ->
  fits XLEN (d_pc s) -> d_pc s mod 2 = 0 ->
  decode_exec s m = isa_step i (d_pc s) (d_snpc (decode_head s)) m.
Proof.
  intros Hv E Hm Hpc Hev. assert (Epc : d_pc (decode_head s) = d_pc s).
  { unfold decode_head. by repeat case_match. }
  rewrite <-Epc in Hpc, Hev. pose proof (simulated_all i (decode_head s) m Hv E Hm Hpc Hev) as [E1 E2].
  rewrite Epc in E1, E2. unfold decode_exec, isa_step, mbind, M_bind.
  destruct (execute_inst (decode_head s) m) as [r1 m1], (isa_exec i (d_pc s) _ m) as [r2 m2].
  cbn [fst snd] in E1, E2. subst r2. destruct E2 as [->|(a & v & -> & ->)]; [done|].
  unfold modify. by rewrite retire_x0.
Qed.

End IsaSpec.

#[local] Existing Instances riscv64_ref zero_float vector_unit.

(** [c.li a0, 5], and [sraw a0, a1, a2]. *)
Lemma decode_exec_refines_isa_witness :
  let s := mk_Decode 0x80000000 0x80000004 0x4515 in
  let s' := mk_Decode 0x80000000 0x80000004 0x40c5d53b in
  decode_exec s machine_init = isa_step (OPI ADD 10 0 5) 0x80000000 0x80000002 machine_init /\
  decode_exec s' machine_init = isa_step (OPW SRA 10 11 12) 0x80000000 0x80000004 machine_init.
Proof.
  assert (K : regs_ok machine_init).
  { split; [reflexivity|]. intros r. unfold R. cbn [machine_init gpr]. rewrite aget_empty. split; [discriminate|reflexivity]. }
  split.
  - refine (decode_exec_refines_isa (OPI ADD 10 0 5) (mk_Decode 0x80000000 0x80000004 0x4515) machine_init _ _ K _ _);
      vm_compute; repeat split; discriminate || reflexivity.
  - refine (decode_exec_refines_isa (OPW SRA 10 11 12) (mk_Decode 0x80000000 0x80000004 0x40c5d53b) machine_init _ _ K _ _);
      vm_compute; repeat split; discriminate || reflexivity.
Defined.
