(* ===== verification/Expr.v ===== *)
(** * Expr: the expression evaluator of the debugger ([monitor/sdb/expr.c], and
    [isa_reg_str2val] of [reg.c])

    A text is split into tokens by twelve regular expressions, and a segment of
    the token array is evaluated by splitting it at its main operator. A segment
    [p .. q] of the array is a list here. [success] is the flag the C functions
    share through a pointer: it comes in and goes out with the value. *)
From Stdlib Require Import String Ascii.
From S2P Require Import Prelude Config Machine Vaddr.

#[local] Open Scope Z_scope.

(** ** Tokens *)

Inductive token_type :=
  | TK_NOTYPE | TK_EQ | TK_NEQ | TK_AND | TK_NUM | TK_REG | TK_DEREF
  | LPAREN | RPAREN | STAR | SLASH | PLUS | MINUS.
#[export] Instance token_type_eq : EqDecision token_type.
Proof. solve_decision. Defined.
Definition tok_is (a b : token_type) : bool := bool_decide (a = b).

Record Token := mk_token { type : token_type; str : string }.

(** Character classes of the C locale. *)
Definition code (c : ascii) : Z := Z.of_N (N_of_ascii c).
Definition in_class (lo hi c : ascii) : bool := (code lo <=? code c) && (code c <=? code hi).
Definition digit (c : ascii) : bool := in_class "0" "9" c.
Definition alnum (c : ascii) : bool := in_class "a" "z" c || in_class "A" "Z" c || digit c.
Definition lower_hex (c : ascii) : bool := digit c || in_class "a" "f" c.

(** The number of leading characters in a class. *)
Fixpoint span (p : ascii -> bool) (s : string) : nat :=
  match s with
  | EmptyString => O
  | String c s => if p c then S (span p s) else O
  end.
Fixpoint skipn_string (n : nat) (s : string) : string :=
  match n, s with
  | S n, String _ s => skipn_string n s
  | _, _ => s
  end.
Fixpoint firstn_string (n : nat) (s : string) : string :=
  match n, s with
  | S n, String c s => String c (firstn_string n s)
  | _, _ => EmptyString
  end.

Fixpoint starts (t s : string) : bool :=
  match t, s with
  | EmptyString, _ => true
  | String a t, String c s => Ascii.eqb a c && starts t s
  | _, _ => false
  end.

(** The length of the longest match at the start of a text, if there is one:
    what [regexec] reports in [rm_eo] when [rm_so] is 0. *)
Definition one_or_more (p : ascii -> bool) (s : string) : option nat :=
  match span p s with O => None | n => Some n end.
Definition literal (t s : string) : option nat :=
  if starts t s then Some (String.length t) else None.
Definition optional (p : ascii -> bool) (s : string) : nat :=
  match s with String c _ => if p c then 1%nat else O | _ => O end.

Definition is_l (c : ascii) : bool := Ascii.eqb c "l" || Ascii.eqb c "L".
Definition is_u (c : ascii) : bool := Ascii.eqb c "u" || Ascii.eqb c "U".

(** [((0x[0-9abcdef]+)|[0-9]+)[lL]?[lL]?[uU]?] *)
Definition number_digits (s : string) : option nat :=
  match one_or_more lower_hex (skipn_string 2 s) with
  | Some n => if starts "0x" s then Some (2 + n)%nat else one_or_more digit s
  | None => one_or_more digit s
  end.
Definition number_match (s : string) : option nat :=
  n ← number_digits s;
  let n1 := (n + optional is_l (skipn_string n s))%nat in
  let n2 := (n1 + optional is_l (skipn_string n1 s))%nat in
  Some (n2 + optional is_u (skipn_string n2 s))%nat.

(** [\$[a-zA-Z0-9]+] *)
Definition register_match (s : string) : option nat :=
  match s with
  | String c s => if Ascii.eqb c "$" then S <$> one_or_more alnum s else None
  | EmptyString => None
  end.

Definition rules : list ((string -> option nat) * token_type) := [
  (register_match, TK_REG);
  (literal "(", LPAREN);
  (literal ")", RPAREN);
  (literal "*", STAR);
  (literal "/", SLASH);
  (one_or_more (Ascii.eqb " "), TK_NOTYPE);
  (literal "+", PLUS);
  (literal "-", MINUS);
  (literal "==", TK_EQ);
  (literal "!=", TK_NEQ);
  (literal "&&", TK_AND);
  (number_match, TK_NUM) ].

Fixpoint first_rule (rules : list ((string -> option nat) * token_type)) (s : string) : option (nat * token_type) :=
  match rules with
  | [] => None
  | (matches, ty) :: rules =>
      match matches s with Some n => Some (n, ty) | None => first_rule rules s end
  end.

(** What [make_token] ends with: tokens, a position nothing matches, the failed
    [Assert] on the length of a token, or a write past the 128 tokens. A token of
    exactly 32 characters leaves its terminator in the type of the next entry,
    which is written after it. *)
Inductive lexed := Tokens (l : list Token) | NoMatch | TooLong | TooMany.

Definition NR_TOKEN : Z := 128.
Definition TOKEN_STR : Z := 32.

(** The characters kept of a matched text; an operator keeps none. *)
Definition token_str (ty : token_type) (text : string) : string :=
  if tok_is ty TK_EQ || tok_is ty TK_NEQ || tok_is ty TK_AND || tok_is ty TK_NUM || tok_is ty TK_REG then text else EmptyString.

Fixpoint make_token_loop (fuel : nat) (e : string) (nr_token : Z) (l : list Token) : lexed :=
  match fuel with
  | O => Tokens l
  | S fuel =>
      match e with
      | EmptyString => Tokens l
      | _ =>
          match first_rule rules e with
          | None => NoMatch
          | Some (len, ty) =>
              if NR_TOKEN <=? nr_token then TooMany
              else if tok_is ty TK_NOTYPE then make_token_loop fuel (skipn_string len e) nr_token l
              else if (tok_is ty TK_NUM || tok_is ty TK_REG) && (TOKEN_STR <? Z.of_nat len) then TooLong
              else make_token_loop fuel (skipn_string len e) (nr_token + 1)
                     (l ++ [mk_token ty (token_str ty (firstn_string len e))])
          end
      end
  end.

(** Every match takes a character at least. *)
Definition make_token (e : string) : lexed := make_token_loop (String.length e) e 0 [].

(** ** Operators *)

Definition get_priority (t : token_type) : option Z :=
  match t with
  | STAR | SLASH => Some (-3)
  | PLUS | MINUS => Some (-4)
  | _ => None
  end.

Definition is_op (t : token_type) : bool :=
  match t with
  | STAR | SLASH | PLUS | MINUS | TK_EQ | TK_NEQ | TK_AND | TK_DEREF => true
  | _ => false
  end.

(** The loop of [check_parentheses], which leaves the last token out. *)
Fixpoint closes_early (l : list Token) (i : Z) : bool :=
  match l with
  | [] => false
  | t :: l =>
      let i := if tok_is (type t) LPAREN then i + 1 else if tok_is (type t) RPAREN then i - 1 else i in
      (i <? 0) || closes_early l i
  end.

(** The tokens between the first and the last. *)
Definition inner (l : list Token) : list Token := removelast (tail l).
Definition last_type (l : list Token) : token_type :=
  match last l with Some t => type t | None => TK_NOTYPE end.

Definition check_parentheses (l : list Token) : bool :=
  match l with
  | t :: _ => tok_is (type t) LPAREN && tok_is (last_type l) RPAREN && negb (closes_early (removelast (inner l)) 0)
  | [] => false
  end.

(** The search for the main operator: the depth and the candidate so far, or the
    end of the search by an unmatched parenthesis or by the [Assert] of
    [get_priority]. *)
Inductive search := Searching (b : Z) (op : option (nat * token_type)) | Unmatched | Asserted.

Definition search_step (i : nat) (t : token_type) (s : search) : search :=
  match s with
  | Searching b op =>
      let b := if tok_is t LPAREN then b + 1 else if tok_is t RPAREN then b - 1 else b in
      if b <? 0 then Unmatched
      else if (b =? 0) && is_op t then
        match op with
        | None => Searching b (Some (i, t))
        | Some (_, o) =>
            match get_priority o, get_priority t with
            | Some p, Some p' => Searching b (if p' <=? p then Some (i, t) else op)
            | _, _ => Asserted
            end
        end
      else Searching b op
  | s => s
  end.

Fixpoint search_op (i : nat) (l : list Token) (s : search) : search :=
  match l with
  | [] => s
  | t :: l => search_op (S i) l (search_step i (type t) s)
  end.

(** From an operator back over the operators just before it. *)
Fixpoint first_of_run (l : list Token) (i : nat) : nat :=
  match i with
  | O => O
  | S j => if is_op (default TK_NOTYPE (type <$> l !! j)) then first_of_run l j else i
  end.

(** ** Values *)

(** [strtoull(s, NULL, 0)] on a text that starts with a digit. *)
Definition hex_value (c : ascii) : option Z :=
  if digit c then Some (code c - code "0")
  else if in_class "a" "f" c then Some (code c - code "a" + 10)
  else if in_class "A" "F" c then Some (code c - code "A" + 10)
  else None.
Definition digit_value (base : Z) (c : ascii) : option Z :=
  match hex_value c with Some d => if d <? base then Some d else None | None => None end.
Fixpoint read_digits (base : Z) (s : string) (acc : Z) : Z :=
  match s with
  | EmptyString => acc
  | String c s => match digit_value base c with Some d => read_digits base s (acc * base + d) | None => acc end
  end.

Definition hex_prefixed (s : string) : bool :=
  (starts "0x" s || starts "0X" s)
  && match skipn_string 2 s with String c _ => match hex_value c with Some _ => true | None => false end | _ => false end.
Definition strtoull (s : string) : Z :=
  let n :=
    if hex_prefixed s then read_digits 16 (skipn_string 2 s) 0
    else if starts "0" s then read_digits 8 s 0
    else read_digits 10 s 0 in
  if 2 ^ 64 <=? n then 2 ^ 64 - 1 else n.

Definition regs : list string := [
  "zero"; "ra"; "sp"; "gp"; "tp"; "t0"; "t1"; "t2";
  "s0"; "s1"; "a0"; "a1"; "a2"; "a3"; "a4"; "a5";
  "a6"; "a7"; "s2"; "s3"; "s4"; "s5"; "s6"; "s7";
  "s8"; "s9"; "s10"; "s11"; "t3"; "t4"; "t5"; "t6"]%string.

Fixpoint reg_index (names : list string) (s : string) (i : Z) : option Z :=
  match names with
  | [] => None
  | name :: names => if String.eqb s name then Some i else reg_index names s (i + 1)
  end.

Section Expr.
Context {Cfg : Config}.

(** The value and the flag: the register's name decides the latter alone. *)
Definition isa_reg_str2val (s : string) (m : machine) : Z * bool :=
  if String.eqb s "pc" then (pc m, true)
  else if String.eqb s "mstatus" then (CSR m CSR_MSTATUS, true)
  else if String.eqb s "mepc" then (CSR m CSR_MEPC, true)
  else if String.eqb s "mtvec" then (CSR m CSR_MTVEC, true)
  else if String.eqb s "mcause" then (CSR m CSR_MCAUSE, true)
  else
    match reg_index (take (if CONFIG_RVE then 16 else 32) regs) s 0 with
    | Some i => (R m i, true)
    | None => (0, false)
    end.

(** ** Evaluation *)

(** A division by zero is a trap of the host. *)
Definition binary (t : token_type) (val1 val2 : Z) (success : bool) : M machine (Z * bool) :=
  match t with
  | PLUS => mret (word (val1 + val2), success)
  | MINUS => mret (word (val1 - val2), success)
  | STAR => mret (word (val1 * val2), success)
  | SLASH => if val2 =? 0 then panic else mret (word (val1 / val2), success)
  | TK_EQ => mret (b2z (val1 =? val2), success)
  | TK_NEQ => mret (b2z (negb (val1 =? val2)), success)
  | TK_AND => mret (b2z (nz val1 && nz val2), success)
  | _ => mret (0, false)
  end.

Definition eval_token (t : Token) (success : bool) : M machine (Z * bool) :=
  match type t with
  | TK_NUM => mret (word (strtoull (str t)), success)
  | TK_REG => gets (isa_reg_str2val (skipn_string 1 (str t)))
  | _ => mret (0, false)
  end.

(** [fuel] bounds the depth of the recursion, which shortens the segment. The
    test of [!success] in the code looks at the pointer, and never fails. *)
Fixpoint eval (fuel : nat) (l : list Token) (success : bool) : M machine (Z * bool) :=
  match fuel with
  | O => panic
  | S fuel =>
      match l with
      | [] => mret (0, false)
      | [t] => eval_token t success
      | _ =>
          if check_parentheses l then eval fuel (inner l) success
          else
            match search_op 0 (removelast l) (Searching 0 None) with
            | Asserted => panic
            | Unmatched | Searching _ None => mret (0, false)
            | Searching _ (Some (op, _)) =>
                let op := first_of_run l op in
                let t := default TK_NOTYPE (type <$> l !! op) in
                if (0 <? op)%nat then
                  '(val1, success) ← eval fuel (take op l) success;
                  '(val2, success) ← eval fuel (drop (S op) l) success;
                  binary t val1 val2 success
                else
                  match t with
                  | MINUS => '(v, success) ← eval fuel (drop 1 l) success; mret (word (- v), success)
                  | TK_DEREF =>
                      '(v, success) ← eval fuel (drop 1 l) success;
                      v ← vaddr_read v (XLEN / 8); mret (v, success)
                  | _ => mret (0, false)
                  end
            end
      end
  end.

(** A star at the start or after an operator is a dereference. *)
Fixpoint mark_deref (after_op : bool) (l : list Token) : list Token :=
  match l with
  | [] => []
  | t :: l =>
      let t := if tok_is (type t) STAR && after_op then mk_token TK_DEREF (str t) else t in
      t :: mark_deref (is_op (type t)) l
  end.

Definition expr (e : string) (success : bool) : M machine (Z * bool) :=
  match make_token e with
  | Tokens l => eval (S (length l)) (mark_deref true l) success
  | NoMatch => mret (0, false)
  | TooLong | TooMany => panic
  end.

End Expr.
