(* ===== verification/ExprSpec.v ===== *)
(** * ExprSpec: the debugger evaluates what is written

    Arithmetic expressions are printed with the parentheses that the precedence
    and the left associativity of the operators require; tokenizing and
    evaluating the text gives the value of the expression. The other operators
    only work between operands without operators of their own. *)
From Stdlib Require Import String Ascii.
From S2P Require Import Prelude Config Machine Vaddr PmpSpec Expr.

#[local] Open Scope Z_scope.
#[local] Arguments String.append !_ _ /.

(** ** Expressions and their text *)

Inductive binop := Add | Sub | Mul | Div.
Inductive expression :=
  | Num (n : Z)
  | Reg (name : string)
  | Bin (op : binop) (a b : expression).

Definition additive (op : binop) : bool := match op with Add | Sub => true | _ => false end.
Definition op_type (op : binop) : token_type :=
  match op with Add => PLUS | Sub => MINUS | Mul => STAR | Div => SLASH end.

(** Decimal numerals of 64-bit numbers. *)
Definition digit_char (d : Z) : ascii := ascii_of_N (Z.to_N (code "0" + d)).
Fixpoint decimal_digits (fuel : nat) (n : Z) (s : string) : string :=
  match fuel with
  | O => s
  | S fuel =>
      let s := String (digit_char (n mod 10)) s in
      if n <? 10 then s else decimal_digits fuel (n / 10) s
  end.
Definition decimal (n : Z) : string := decimal_digits 20 n EmptyString.

(** Where an expression stands decides whether it needs parentheses. *)
Inductive place := Sum | Term | Factor.
Definition bare (p : place) (op : binop) : bool :=
  match p with Sum => true | Term => negb (additive op) | Factor => false end.
Definition left_place (op : binop) : place := if additive op then Sum else Term.
Definition right_place (op : binop) : place := if additive op then Term else Factor.

Definition sign (ty : token_type) : Token := mk_token ty EmptyString.

Fixpoint tokens (p : place) (e : expression) : list Token :=
  match e with
  | Num n => [mk_token TK_NUM (decimal n)]
  | Reg s => [mk_token TK_REG (String "$" s)]
  | Bin op a b =>
      let body := tokens (left_place op) a ++ sign (op_type op) :: tokens (right_place op) b in
      if bare p op then body else sign LPAREN :: body ++ [sign RPAREN]
  end.

(** The text of a token, and tokens with single spaces between them. *)
Definition text (t : Token) : string :=
  match type t with
  | LPAREN => "(" | RPAREN => ")" | STAR | TK_DEREF => "*" | SLASH => "/" | PLUS => "+" | MINUS => "-"
  | TK_EQ => "==" | TK_NEQ => "!=" | TK_AND => "&&" | TK_NOTYPE => " "
  | TK_NUM | TK_REG => str t
  end%string.
Fixpoint render (l : list Token) : string :=
  match l with
  | [] => EmptyString
  | [t] => text t
  | t :: l => text t ++ String " " (render l)
  end.
Definition print (e : expression) : string := render (tokens Sum e).

(** ** Values *)

Section ExprSpec.
Context {Cfg : Config}.

Definition apply (op : binop) (a b : Z) : option Z :=
  match op with
  | Add => Some (word (a + b))
  | Sub => Some (word (a - b))
  | Mul => Some (word (a * b))
  | Div => if b =? 0 then None else Some (word (a / b))
  end.

(** [None] is a division by zero. *)
Fixpoint denote (e : expression) (m : machine) : option Z :=
  match e with
  | Num n => Some (word n)
  | Reg s => Some (fst (isa_reg_str2val s m))
  | Bin op a b => x ← denote a m; y ← denote b m; apply op x y
  end.

Definition register_names : list string :=
  ["pc"; "mstatus"; "mepc"; "mtvec"; "mcause"]%string ++ take (if CONFIG_RVE then 16 else 32) regs.

Fixpoint valid (e : expression) : Prop :=
  match e with
  | Num n => 0 <= n < 2 ^ 64
  | Reg s => In s register_names
  | Bin _ a b => valid a /\ valid b
  end.

(** The outcome of a computation that may only fail by a division by zero. *)
Definition result (v : option Z) (m : machine) : outcome (Z * bool) * machine :=
  match v with Some v => (Ret (v, true), m) | None => (Panic, m) end.

End ExprSpec.

(** ** The search for the main operator *)

Definition exposed (p : place) (e : expression) : bool :=
  match e with Bin op _ _ => bare p op | _ => false end.

(** The main operator of a printed expression. *)
Definition top (p : place) (e : expression) (i : nat) : option (nat * token_type) :=
  match e with
  | Bin op a _ => if bare p op then Some ((i + length (tokens (left_place op) a))%nat, op_type op) else None
  | _ => None
  end.
Definition priority (t : token_type) : Z := match t with STAR | SLASH => -3 | _ => -4 end.
Definition arithmetic (o : option (nat * token_type)) : Prop :=
  match o with Some (_, (STAR | SLASH | PLUS | MINUS)) | None => True | _ => False end.
Definition later (o t : option (nat * token_type)) : option (nat * token_type) :=
  match o, t with
  | Some (_, o'), Some (_, t') => if priority t' <=? priority o' then t else o
  | None, t => t
  | o, None => o
  end.

Lemma search_op_app i l1 l2 s :
  search_op i (l1 ++ l2) s = search_op (i + length l1) l2 (search_op i l1 s).
Proof.
  revert i s. induction l1 as [|t l1 IH]; intros i s; cbn [search_op app length]; [f_equal; lia|].
  rewrite IH. f_equal; lia.
Qed.

Lemma body_app op a b (rest : list Token) :
  (tokens (left_place op) a ++ sign (op_type op) :: tokens (right_place op) b) ++ rest
  = tokens (left_place op) a ++ (sign (op_type op) :: tokens (right_place op) b ++ rest).
Proof. by rewrite <-app_assoc. Qed.

Lemma step_quiet i t b o :
  t <> LPAREN -> t <> RPAREN -> 0 <= b -> (b = 0 -> is_op t = false) ->
  search_step i t (Searching b o) = Searching b o.
Proof.
  intros H1 H2 Hb Hop. unfold search_step, tok_is. rewrite !bool_decide_eq_false_2 by done. cbv zeta.
  destruct (Z.ltb_spec b 0); [lia|]. destruct (Z.eqb_spec b 0); [by rewrite Hop|done].
Qed.

Lemma step_open i b o : 0 <= b -> search_step i LPAREN (Searching b o) = Searching (b + 1) o.
Proof. intros. unfold search_step. change (tok_is LPAREN LPAREN) with true. cbv iota zeta. by rewrite (proj2 (Z.ltb_ge (b + 1) 0)), andb_false_r by lia. Qed.

Lemma step_close i b o : 0 < b -> search_step i RPAREN (Searching b o) = Searching (b - 1) o.
Proof.
  intros. unfold search_step. change (tok_is RPAREN LPAREN) with false. change (tok_is RPAREN RPAREN) with true.
  cbv iota zeta. by rewrite (proj2 (Z.ltb_ge (b - 1) 0)), andb_false_r by lia.
Qed.

(** A parenthesised body counts as nothing if the body does so inside. *)
Lemma search_parens l i b o :
  0 <= b -> (forall j, search_op j l (Searching (b + 1) o) = Searching (b + 1) o) ->
  search_op i (sign LPAREN :: l ++ [sign RPAREN]) (Searching b o) = Searching b o.
Proof.
  intros Hb H. cbn [search_op sign type]. rewrite step_open, search_op_app, H by done. cbn [search_op sign type].
  rewrite step_close by lia. f_equal. lia.
Qed.

Lemma op_type_paren op : op_type op <> LPAREN /\ op_type op <> RPAREN.
Proof. by destruct op. Qed.

(** Nothing between parentheses counts. *)
Lemma search_inside p e i b o : 0 < b -> search_op i (tokens p e) (Searching b o) = Searching b o.
Proof.
  revert p i b. induction e as [n|s|op a IHa c IHc]; intros p i b Hb; cbn [tokens].
  1, 2: cbn [search_op type]; apply step_quiet; done || lia.
  assert (Body : forall i b, 0 < b ->
    search_op i (tokens (left_place op) a ++ sign (op_type op) :: tokens (right_place op) c) (Searching b o) = Searching b o).
  { intros j d Hd. rewrite search_op_app, IHa by done. cbn [search_op sign type].
    rewrite step_quiet; [by apply IHc | apply op_type_paren.. | lia | lia]. }
  destruct (bare p op); [by apply Body|]. apply search_parens; [lia|]. intros j. apply Body. lia.
Qed.

Lemma search_enclosed op a b i d o :
  0 <= d -> search_op i (sign LPAREN :: tokens Sum (Bin op a b) ++ [sign RPAREN]) (Searching d o) = Searching d o.
Proof. intros H. apply search_parens; [done|]. intros j. apply search_inside. lia. Qed.

Lemma tokens_enclosed p op a b :
  bare p op = false -> tokens p (Bin op a b) = sign LPAREN :: tokens Sum (Bin op a b) ++ [sign RPAREN].
Proof. intros H. cbn [tokens bare]. by rewrite H. Qed.

Lemma tokens_bare p op a b :
  bare p op = true -> tokens p (Bin op a b) = tokens (left_place op) a ++ sign (op_type op) :: tokens (right_place op) b.
Proof. intros H. cbn [tokens]. by rewrite H. Qed.

(** An operator at the top level. *)
Lemma step_operator i op o :
  arithmetic o -> search_step i (op_type op) (Searching 0 o) = Searching 0 (later o (Some (i, op_type op))).
Proof. intros H. destruct o as [[k []]|]; try done; by destruct op. Qed.

Lemma later_arithmetic o op i : arithmetic o -> arithmetic (later o (Some (i, op_type op))).
Proof. intros H. destruct o as [[k []]|]; try done; by destruct op. Qed.

Lemma later_none o : later o None = o.
Proof. by destruct o as [[? ?]|]. Qed.

(** The operands of an operator do not compete with it. *)
Lemma later_right o op b k i :
  arithmetic o ->
  later (later o (Some (k, op_type op))) (top (right_place op) b i) = later o (Some (k, op_type op)).
Proof.
  intros Ho. destruct b as [| |op' b1 b2]; cbn [top]; rewrite ?later_none; [done..|].
  destruct (bare _ op') eqn:B; rewrite ?later_none; [|done].
  destruct o as [[n []]|]; try done; by destruct op, op'.
Qed.

Lemma later_left o op a k i :
  arithmetic o ->
  later (later o (top (left_place op) a i)) (Some (k, op_type op)) = later o (Some (k, op_type op)).
Proof.
  intros Ho. destruct a as [| |op' a1 a2]; cbn [top]; rewrite ?later_none; [done..|].
  destruct (bare _ op') eqn:B; rewrite ?later_none; [|done].
  destruct o as [[n []]|]; try done; by destruct op, op'.
Qed.

Lemma later_top_arithmetic o p e i : arithmetic o -> arithmetic (later o (top p e i)).
Proof.
  intros Ho. destruct e as [| |op a b]; cbn [top]; rewrite ?later_none; [done..|].
  destruct (bare p op); rewrite ?later_none; [by apply later_arithmetic | done].
Qed.

(** The search over a printed expression finds its main operator, unless a
    candidate binds weaker. *)
Lemma search_top p e i o :
  arithmetic o -> search_op i (tokens p e) (Searching 0 o) = Searching 0 (later o (top p e i)).
Proof.
  revert p i o. induction e as [n|s|op a IHa b IHb]; intros p i o Ho.
  1, 2: cbn [tokens search_op type top]; by rewrite step_quiet, later_none.
  cbn [top]. destruct (bare p op) eqn:B.
  - rewrite tokens_bare, search_op_app, IHa by done. cbn [search_op sign type].
    rewrite step_operator, later_left, IHb by (done || by apply later_top_arithmetic || by apply later_arithmetic).
    by rewrite later_right.
  - by rewrite tokens_enclosed, search_enclosed, later_none.
Qed.

(** A candidate without a priority makes any later operator fail the [Assert]. *)
Lemma search_asserted i l : search_op i l Asserted = Asserted.
Proof. revert i. induction l as [|t l IH]; intros i; [done|]. apply IH. Qed.

Lemma search_after_comparison p e i k ty :
  get_priority ty = None ->
  search_op i (tokens p e) (Searching 0 (Some (k, ty)))
  = if exposed p e then Asserted else Searching 0 (Some (k, ty)).
Proof.
  intros Hty. revert p i. induction e as [n|s|op a IHa b IHb]; intros p i.
  1, 2: cbn [tokens search_op type exposed]; by rewrite step_quiet.
  cbn [exposed]. destruct (bare p op) eqn:B.
  - rewrite tokens_bare, search_op_app, IHa by done. destruct (exposed _ a); [apply search_asserted|].
    cbn [search_op sign type]. replace (search_step _ _ _) with Asserted; [apply search_asserted|].
    destruct op; cbn; by rewrite Hty.
  - by rewrite tokens_enclosed, search_enclosed.
Qed.

(** The search leaves the last token out, which is never an operator. *)
Lemma search_last i l t s :
  is_op (type t) = false ->
  match search_op i (l ++ [t]) s with
  | Searching _ o => exists b, search_op i l s = Searching b o
  | Asserted => search_op i l s = Asserted
  | Unmatched => True
  end.
Proof.
  intros Ht. rewrite search_op_app. cbn [search_op]. destruct (search_op i l s) as [b o| |]; cbn [search_step]; [|done..].
  cbv zeta. match goal with |- context [?x <? 0] => set (b' := x) end. destruct (b' <? 0); [done|]. rewrite Ht, andb_false_r. by exists b.
Qed.

(** ** The shape of a printed expression *)

Lemma tokens_last p e : exists (l : list Token) (t : Token), tokens p e = l ++ [t] /\ is_op (type t) = false.
Proof.
  revert p. induction e as [n|s|op a IHa b IHb]; intros p.
  1, 2: exists (@nil Token); by eexists.
  destruct (bare p op) eqn:B.
  - rewrite tokens_bare by done. destruct (IHb (right_place op)) as (l & t & -> & Ht).
    exists (tokens (left_place op) a ++ sign (op_type op) :: l), t. by rewrite <-app_assoc.
  - rewrite tokens_enclosed by done. by exists (sign LPAREN :: tokens Sum (Bin op a b)), (sign RPAREN).
Qed.

Lemma tokens_nonempty p e : tokens p e <> [].
Proof. destruct (tokens_last p e) as (l & t & -> & _). by destruct l. Qed.

Lemma closes_quiet t l i :
  type t <> LPAREN -> type t <> RPAREN -> 0 <= i -> closes_early (t :: l) i = closes_early l i.
Proof.
  intros H1 H2 Hi. cbn [closes_early]. unfold tok_is. rewrite !bool_decide_eq_false_2 by done.
  by rewrite (proj2 (Z.ltb_ge i 0)).
Qed.

Lemma closes_open l i : 0 <= i -> closes_early (sign LPAREN :: l) i = closes_early l (i + 1).
Proof. intros Hi. cbn [closes_early sign type]. change (tok_is LPAREN LPAREN) with true. cbv iota zeta. by rewrite (proj2 (Z.ltb_ge (i + 1) 0)) by lia. Qed.

Lemma closes_close l i : closes_early (sign RPAREN :: l) i = (i <? 1) || closes_early l (i - 1).
Proof.
  cbn [closes_early sign type]. change (tok_is RPAREN LPAREN) with false. change (tok_is RPAREN RPAREN) with true.
  cbv iota zeta. f_equal. destruct (Z.ltb_spec (i - 1) 0), (Z.ltb_spec i 1); done || lia.
Qed.

Lemma closes_early_app p e i rest : 0 <= i -> closes_early (tokens p e ++ rest) i = closes_early rest i.
Proof.
  revert p i rest. induction e as [n|s|op a IHa b IHb]; intros p i rest Hi.
  1, 2: by apply closes_quiet.
  assert (Body : forall i rest, 0 <= i -> closes_early (tokens Sum (Bin op a b) ++ rest) i = closes_early rest i).
  { intros j r Hj. rewrite tokens_bare, body_app, IHa, closes_quiet by (done || apply op_type_paren). by apply IHb. }
  destruct (bare p op) eqn:B; [rewrite tokens_bare by done; specialize (Body i rest Hi); by rewrite tokens_bare in Body|].
  rewrite tokens_enclosed by done. cbn [app]. rewrite closes_open, <-app_assoc, Body by lia. cbn [app].
  rewrite closes_close. rewrite (proj2 (Z.ltb_ge (i + 1) 1)) by lia. cbn [orb]. f_equal. lia.
Qed.

(** An expression that starts with a parenthesis closes it before it ends,
    unless it is wholly enclosed. *)
Lemma closes_first p e t l rest :
  tokens p e = t :: l -> type t = LPAREN -> closes_early (l ++ rest) 0 = true.
Proof.
  revert p t l rest. induction e as [n|s|op a IHa b IHb]; intros p t l rest E Ht.
  1, 2: injection E as <- <-; done.
  destruct (bare p op) eqn:B.
  - rewrite tokens_bare in E by done. destruct (tokens (left_place op) a) as [|t' l'] eqn:Ea; [by apply tokens_nonempty in Ea|].
    injection E as <- <-. rewrite <-app_assoc. by eapply IHa.
  - rewrite tokens_enclosed in E by done. apply (f_equal tail) in E. cbn [tail] in E. rewrite <-E, <-app_assoc, closes_early_app by done. by apply closes_close.
Qed.

Lemma closes_early_prefix l1 l2 i : closes_early (l1 ++ l2) i = false -> closes_early l1 i = false.
Proof.
  revert i. induction l1 as [|t l1 IH]; intros i; [done|]. cbn [closes_early app].
  match goal with |- context [?x <? 0] => set (i' := x) end. intros [-> ?]%orb_false_iff. by apply IH.
Qed.

(** A wholly enclosed expression. *)
Lemma check_enclosed p e : check_parentheses (sign LPAREN :: tokens p e ++ [sign RPAREN]) = true.
Proof.
  unfold check_parentheses, last_type, inner. cbn [tail]. rewrite app_comm_cons, last_snoc, removelast_last. cbn [type sign].
  destruct (tokens_last p e) as (l & t & E & _). rewrite E, removelast_last.
  pose proof (closes_early_app p e 0 []) as H. rewrite E, <-app_assoc in H.
  by rewrite (closes_early_prefix l ([t] ++ []) 0) by (by apply H).
Qed.

(** Two operands around an operator. *)
Lemma check_split p e p' e' t :
  check_parentheses (tokens p e ++ t :: tokens p' e') = false.
Proof.
  destruct (tokens p e) as [|t0 l] eqn:E; [by apply tokens_nonempty in E|]. cbn [app check_parentheses].
  destruct (tok_is (type t0) LPAREN) eqn:Ht; [|done]. apply bool_decide_eq_true in Ht. cbn [andb].
  destruct (tok_is _ RPAREN); [|done]. cbn [andb]. unfold inner. cbn [tail].
  destruct (tokens_last p' e') as (r & t' & E' & _). rewrite E'.
  replace (l ++ t :: r ++ [t']) with ((l ++ t :: r) ++ [t']) by (by rewrite <-app_assoc). rewrite removelast_last.
  destruct r as [|t'' r _] using rev_ind.
  - by rewrite removelast_last, <-(app_nil_r l), (closes_first p e t0 l [] E Ht).
  - rewrite app_comm_cons, app_assoc, removelast_last. by rewrite (closes_first p e t0 l _ E Ht).
Qed.

Lemma first_of_run_split p e (t : Token) l :
  first_of_run (tokens p e ++ t :: l) (length (tokens p e)) = length (tokens p e).
Proof.
  destruct (tokens_last p e) as (r & t' & E & Ht). rewrite E, length_app, Nat.add_1_r. cbn [first_of_run].
  rewrite <-app_assoc, lookup_app_r, Nat.sub_diag by lia. cbn. by rewrite Ht.
Qed.

(** ** Numerals *)

(** A decimal digit, by cases. *)
Lemma digit_char_value d : 0 <= d < 10 -> digit_value 10 (digit_char d) = Some d.
Proof. intros H. assert (C : d = 0 \/ d = 1 \/ d = 2 \/ d = 3 \/ d = 4 \/ d = 5 \/ d = 6 \/ d = 7 \/ d = 8 \/ d = 9) by lia. by repeat (destruct C as [->|C]; [done|]); subst. Qed.

Lemma digit_char_digit d : 0 <= d < 10 -> digit (digit_char d) = true.
Proof. intros H. assert (C : d = 0 \/ d = 1 \/ d = 2 \/ d = 3 \/ d = 4 \/ d = 5 \/ d = 6 \/ d = 7 \/ d = 8 \/ d = 9) by lia. by repeat (destruct C as [->|C]; [done|]); subst. Qed.

(** Text made of digits. *)
Fixpoint numeral (s : string) : bool :=
  match s with EmptyString => true | String c s => digit c && numeral s end.

Lemma read_decimal fuel n s :
  0 <= n < 10 ^ Z.of_nat fuel -> read_digits 10 (decimal_digits fuel n s) 0 = read_digits 10 s n.
Proof.
  revert n s. induction fuel as [|fuel IH]; intros n s H; [cbn in *; by replace n with 0 by lia|].
  cbn [decimal_digits]. rewrite Nat2Z.inj_succ, Z.pow_succ_r in H by lia.
  assert (D : 0 <= n mod 10 < 10) by (apply Z.mod_pos_bound; lia). destruct (Z.ltb_spec n 10).
  - cbn [read_digits]. rewrite digit_char_value by done. by rewrite Z.mod_small by lia.
  - rewrite IH by (split; [apply Z.div_pos; lia | apply Z.div_lt_upper_bound; lia]).
    cbn [read_digits]. rewrite digit_char_value by done. f_equal. pose proof (Z.div_mod n 10). lia.
Qed.

Lemma decimal_numeral fuel n s : 0 <= n -> numeral s = true -> numeral (decimal_digits fuel n s) = true.
Proof.
  revert n s. induction fuel as [|fuel IH]; intros n s Hn Hs; [done|]. cbn [decimal_digits].
  assert (D : 0 <= n mod 10 < 10) by (apply Z.mod_pos_bound; lia).
  assert (numeral (String (digit_char (n mod 10)) s) = true) by (cbn [numeral]; by rewrite digit_char_digit, Hs).
  destruct (n <? 10); [done|]. apply IH; [apply Z.div_pos; lia | done].
Qed.

Lemma decimal_length fuel n s : (String.length (decimal_digits fuel n s) <= fuel + String.length s)%nat.
Proof.
  revert n s. induction fuel as [|fuel IH]; intros n s; [done|]. cbn [decimal_digits].
  destruct (n <? 10); [cbn; lia|]. etrans; [apply IH|]. cbn; lia.
Qed.

(** The first digit of a numeral is not 0, except in 0. *)
Lemma decimal_head fuel n s :
  0 < n < 10 ^ Z.of_nat fuel -> exists d r, 0 < d < 10 /\ decimal_digits fuel n s = String (digit_char d) r.
Proof.
  revert n s. induction fuel as [|fuel IH]; intros n s H; [cbn in H; lia|].
  cbn [decimal_digits]. rewrite Nat2Z.inj_succ, Z.pow_succ_r in H by lia. destruct (Z.ltb_spec n 10).
  - exists n. rewrite Z.mod_small by lia. eexists. split; [lia | done].
  - apply IH. split; [apply Z.div_str_pos; lia | apply Z.div_lt_upper_bound; lia].
Qed.

Lemma decimal_bound n : 0 <= n < 2 ^ 64 -> 0 <= n < 10 ^ Z.of_nat 20.
Proof. intros H. assert (2 ^ 64 < 10 ^ Z.of_nat 20) by (vm_compute; done). lia. Qed.

Lemma strtoull_decimal n : 0 <= n < 2 ^ 64 -> strtoull (decimal n) = n.
Proof.
  intros H. pose proof (decimal_bound n H) as B. assert (C : n = 0 \/ 0 < n) by lia. destruct C as [->|C]; [done|].
  unfold strtoull. destruct (decimal_head 20 n "" ltac:(lia)) as (d & r & Hd & E).
  assert (Z0 : starts "0" (decimal n) = false /\ hex_prefixed (decimal n) = false).
  { unfold hex_prefixed, decimal. rewrite E.
    assert (d = 1 \/ d = 2 \/ d = 3 \/ d = 4 \/ d = 5 \/ d = 6 \/ d = 7 \/ d = 8 \/ d = 9) as K by lia.
    by repeat (destruct K as [->|K]; [done|]); subst. }
  destruct Z0 as [-> ->]. unfold decimal. rewrite read_decimal by done. cbn [read_digits].
  by rewrite (proj2 (Z.leb_gt _ _)) by lia.
Qed.

(** ** Evaluation *)

Section Evaluation.
Context {Cfg : Config}.

(** The general case of [eval]. *)
Definition eval_main (fuel : nat) (l : list Token) (success : bool) : M machine (Z * bool) :=
  match search_op 0 (removelast l) (Searching 0 None) with
  | Asserted => panic
  | Unmatched | Searching _ None => mret (0, false)
  | Searching _ (Some (op, _)) =>
      let op := first_of_run l op in
      let t := default TK_NOTYPE (type <$> l !! op) in
      if (0 <? op)%nat then
        '(val1, success) ← eval fuel (take op l) success;
        '(val2, success) ← eval fuel (drop (S op) l) success;
        binary t val1 val2 success
      else
        match t with
        | MINUS => '(v, success) ← eval fuel (drop 1 l) success; mret (word (- v), success)
        | TK_DEREF =>
            '(v, success) ← eval fuel (drop 1 l) success;
            v ← vaddr_read v (XLEN / 8); mret (v, success)
        | _ => mret (0, false)
        end
  end.

Lemma eval_long fuel l success :
  (2 <= length l)%nat ->
  eval (S fuel) l success = if check_parentheses l then eval fuel (inner l) success else eval_main fuel l success.
Proof. destruct l as [|t1 [|t2 l]]; cbn [length]; [lia..|done]. Qed.

Lemma eval_enclosed fuel p e success :
  eval (S fuel) (sign LPAREN :: tokens p e ++ [sign RPAREN]) success = eval fuel (tokens p e) success.
Proof.
  rewrite eval_long, check_enclosed by (cbn [length]; rewrite length_app; cbn; lia).
  unfold inner. cbn [tail]. by rewrite removelast_last.
Qed.

(** Two printed operands around the main operator. *)
Lemma eval_split fuel p1 e1 t p2 e2 success :
  let l := tokens p1 e1 ++ t :: tokens p2 e2 in
  match search_op 0 l (Searching 0 None) with
  | Searching b (Some (op, _)) => b = 0 /\ op = length (tokens p1 e1)
  | Asserted => True
  | _ => False
  end ->
  eval (S fuel) l success =
  match search_op 0 l (Searching 0 None) with
  | Asserted => panic
  | _ =>
      '(val1, success) ← eval fuel (tokens p1 e1) success;
      '(val2, success) ← eval fuel (tokens p2 e2) success;
      binary (type t) val1 val2 success
  end.
Proof.
  intros l H. assert (N1 := tokens_nonempty p1 e1). assert (N2 := tokens_nonempty p2 e2).
  assert (0 < length (tokens p1 e1))%nat by (destruct (tokens p1 e1); cbn; done || lia).
  assert (0 < length (tokens p2 e2))%nat by (destruct (tokens p2 e2); cbn; done || lia).
  subst l. rewrite eval_long, check_split by (rewrite length_app; cbn [length]; lia). unfold eval_main.
  destruct (tokens_last p2 e2) as (r & t' & E & Ht). rewrite E in *.
  rewrite app_comm_cons, app_assoc, removelast_last in *.
  pose proof (search_last 0 (tokens p1 e1 ++ t :: r) t' (Searching 0 None) Ht) as K.
  destruct (search_op 0 ((tokens p1 e1 ++ t :: r) ++ [t']) (Searching 0 None)) as [b [[op ty]|]| |]; try done.
  - destruct H as [-> ->]. destruct K as [b' ->]. rewrite <-app_assoc. cbn [app].
    rewrite first_of_run_split, (proj2 (Nat.ltb_lt _ _)) by done.
    rewrite take_app_length, list_lookup_middle by done. cbn [fmap option_fmap option_map default].
    replace (drop _ _) with (r ++ [t']); [done|]. by rewrite drop_app_ge, Nat.sub_succ_l, Nat.sub_diag by lia.
  - by rewrite K.
Qed.

Lemma search_comparison p1 e1 t p2 e2 :
  is_op (type t) = true -> get_priority (type t) = None ->
  search_op 0 (tokens p1 e1 ++ t :: tokens p2 e2) (Searching 0 None)
  = if exposed p1 e1 || exposed p2 e2 then Asserted else Searching 0 (Some (length (tokens p1 e1), type t)).
Proof.
  intros Hop Hp. rewrite search_op_app, search_top by done. cbn [search_op].
  destruct (exposed p1 e1) eqn:X1.
  - replace (search_step _ _ _) with Asserted; [apply search_asserted|].
    destruct e1 as [| |op a b]; try done. cbn [exposed] in X1. cbn [top]. rewrite X1.
    destruct t as [ty s]. cbn [type] in *. destruct ty; try done; by destruct op.
  - replace (top p1 e1 0) with (@None (nat * token_type)).
    2:{ destruct e1 as [| |op a b]; try done. cbn [exposed] in X1. cbn [top]. by rewrite X1. }
    replace (search_step _ _ _) with (Searching 0 (Some (length (tokens p1 e1), type t))).
    2:{ destruct t as [ty s]. cbn [type] in *. by destruct ty. }
    rewrite search_after_comparison by done. by destruct (exposed p2 e2).
Qed.

(** The value of a computation that goes on after [result]. *)
Lemma result_bind {B} v m (k : Z * bool -> M machine B) (c : M machine (Z * bool)) :
  c m = result v m -> (c ≫= k) m = match v with Some x => k (x, true) m | None => (Panic, m) end.
Proof. unfold mbind, M_bind. intros ->. by destruct v. Qed.

Lemma binary_op op a b m : binary (op_type op) a b true m = result (apply op a b) m.
Proof. destruct op; try done. cbn. by destruct (b =? 0). Qed.

Lemma reg_index_in names s i : In s names -> exists j, reg_index names s i = Some j.
Proof.
  revert i. induction names as [|name names IH]; intros i H; [done|]. cbn [reg_index].
  destruct (String.eqb_spec s name) as [|N]; [by eexists|]. apply IH. by destruct H as [->|H].
Qed.

Lemma register_names_valid s m : In s register_names -> snd (isa_reg_str2val s m) = true.
Proof.
  intros H. unfold isa_reg_str2val. unfold register_names in H.
  destruct (String.eqb_spec s "pc"); [done|]. destruct (String.eqb_spec s "mstatus"); [done|].
  destruct (String.eqb_spec s "mepc"); [done|]. destruct (String.eqb_spec s "mtvec"); [done|].
  destruct (String.eqb_spec s "mcause"); [done|]. apply in_app_iff in H as [H|H].
  - cbn in H. by repeat (destruct H as [<-|H]; [done|]).
  - destruct (reg_index_in (take (if CONFIG_RVE then 16 else 32) regs) s 0 H) as [i ->]. done.
Qed.

Lemma eval_operand t e m fuel :
  match e with
  | Num n => t = mk_token TK_NUM (decimal n)
  | Reg s => t = mk_token TK_REG (String "$" s)
  | Bin _ _ _ => False
  end -> valid e -> eval (S fuel) [t] true m = result (denote e m) m.
Proof.
  destruct e as [n|s|]; [intros -> H|intros -> H|done]; cbn [eval denote valid] in *.
  - unfold eval_token. cbn [type str]. by rewrite strtoull_decimal.
  - unfold eval_token. cbn [type str skipn_string]. unfold gets. pose proof (register_names_valid s m H) as E.
    by destruct (isa_reg_str2val s m) as [v b]; cbn in *; subst b.
Qed.

(** A printed expression evaluates to its value, however deep the recursion may
    go beyond its length. *)
Lemma eval_tokens p e m fuel :
  valid e -> (length (tokens p e) <= fuel)%nat -> eval fuel (tokens p e) true m = result (denote e m) m.
Proof.
  revert p fuel. induction e as [n|s|op a IHa b IHb]; intros p fuel V H.
  1, 2: destruct fuel; [cbn in H; lia | by apply eval_operand].
  destruct V as [Va Vb].
  assert (Body : forall fuel, (length (tokens Sum (Bin op a b)) <= fuel)%nat ->
    eval fuel (tokens Sum (Bin op a b)) true m = result (denote (Bin op a b) m) m).
  { clear fuel H. intros fuel H. rewrite tokens_bare in * by done. rewrite length_app in H. cbn [length] in H.
    assert (N1 := tokens_nonempty (left_place op) a).
    assert (0 < length (tokens (left_place op) a))%nat by (destruct (tokens (left_place op) a); cbn; done || lia).
    destruct fuel as [|fuel]; [lia|].
    pose proof (search_top Sum (Bin op a b) 0 None I) as S. rewrite tokens_bare in S by done.
    cbn [top bare later] in S. rewrite eval_split; rewrite S; [|done].
    rewrite (result_bind (denote a m)) by (apply IHa; done || lia). cbn [denote]. destruct (denote a m) as [x|]; [|done].
    rewrite (result_bind (denote b m)) by (apply IHb; done || lia). destruct (denote b m) as [y|]; [|done].
    apply binary_op. }
  destruct (bare p op) eqn:B; [rewrite (tokens_bare Sum) in Body by done; rewrite (tokens_bare p) in * by done; by apply Body|].
  rewrite tokens_enclosed in * by done. cbn [length] in H. rewrite length_app in H. destruct fuel as [|fuel]; [lia|].
  rewrite eval_enclosed. apply Body. lia.
Qed.

(** A comparison or a conjunction of printed operands. *)
Lemma eval_comparison t p1 e1 p2 e2 m fuel :
  is_op (type t) = true -> get_priority (type t) = None -> valid e1 -> valid e2 ->
  (length (tokens p1 e1 ++ t :: tokens p2 e2) <= fuel)%nat ->
  eval fuel (tokens p1 e1 ++ t :: tokens p2 e2) true m
  = if exposed p1 e1 || exposed p2 e2 then (Panic, m)
    else match denote e1 m, denote e2 m with
         | Some x, Some y => binary (type t) x y true m
         | _, _ => (Panic, m)
         end.
Proof.
  intros Hop Hp V1 V2 H. rewrite length_app in H. cbn [length] in H. destruct fuel as [|fuel]; [lia|].
  rewrite eval_split; rewrite search_comparison by done; destruct (_ || _); try done.
  rewrite (result_bind (denote e1 m)) by (apply eval_tokens; done || lia). destruct (denote e1 m) as [x|]; [|done].
  rewrite (result_bind (denote e2 m)) by (apply eval_tokens; done || lia). by destruct (denote e2 m).
Qed.

End Evaluation.

(** ** Fuel *)

Section Fuel.
Context {Cfg : Config}.

(** A candidate of the search is an index of the segment. *)
Lemma search_op_bound i l s n :
  match s with Searching _ (Some (j, _)) => (j < n)%nat | _ => True end -> (i + length l <= n)%nat ->
  match search_op i l s with Searching _ (Some (j, _)) => (j < n)%nat | _ => True end.
Proof.
  revert i s. induction l as [|t l IH]; intros i s Hs Hn; [done|]. cbn [search_op length] in *.
  apply IH; [|lia]. destruct s as [b o| |]; cbn [search_step]; [|done..]. cbv zeta.
  match goal with |- context [?x <? 0] => set (b' := x) end.
  destruct (b' <? 0); [done|]. destruct (_ && _); [|done].
  destruct o as [[j o]|]; [|lia]. destruct (get_priority o), (get_priority (type t)); try done.
  destruct (_ <=? _); [lia | done].
Qed.

Lemma first_of_run_le l i : (first_of_run l i <= i)%nat.
Proof. induction i as [|i IH]; [done|]. cbn. destruct (is_op _); lia. Qed.

Lemma bind_ext {A B} (c c' : M machine A) (k k' : A -> M machine B) m :
  c m = c' m -> (forall a m, k a m = k' a m) -> (c ≫= k) m = (c' ≫= k') m.
Proof. unfold mbind, M_bind. intros -> H. by destruct (c' m) as [[a|x|] m']. Qed.

Lemma removelast_length (l : list Token) : length (removelast l) = pred (length l).
Proof. destruct l as [|t l _] using rev_ind; [done|]. rewrite removelast_last, length_app. cbn. lia. Qed.

Lemma main_operator_bound (l : list Token) : l <> [] ->
  match search_op 0 (removelast l) (Searching 0 None) with
  | Searching _ (Some (j, _)) => (first_of_run l j < length l)%nat
  | _ => True
  end.
Proof.
  intros N. pose proof (search_op_bound 0 (removelast l) (Searching 0 None) (length l) I) as H.
  rewrite removelast_length in H. specialize (H ltac:(lia)).
  destruct (search_op _ _ _) as [b [[j o]|]| |]; try done. pose proof (first_of_run_le l j). lia.
Qed.

(** Evaluation terminates on every segment of tokens: a recursion deeper than
    the number of tokens never happens, whatever they are. *)
Theorem eval_terminates fuel l success m :
  (length l < fuel)%nat -> eval fuel l success m = eval (S (length l)) l success m.
Proof.
  cut (forall n f l success m, (length l < n)%nat -> (length l < f)%nat -> eval f l success m = eval n l success m).
  { intros H Hf. apply H; lia. }
  clear. intros n. induction n as [|n IH]; intros f l success m Hn Hf; [lia|]. destruct f as [|f]; [lia|].
  destruct l as [|t1 [|t2 l]]; [done..|]. set (l0 := t1 :: t2 :: l) in *.
  rewrite !(eval_long _ l0) by (cbn; lia).
  assert (L : length (inner l0) = length l) by (unfold inner, l0; by rewrite removelast_length).
  destruct (check_parentheses l0); [apply IH; cbn in *; lia|]. unfold eval_main.
  pose proof (main_operator_bound l0 ltac:(done)) as B.
  destruct (search_op _ _ _) as [b [[op ty]|]| |]; [|done..]. cbv zeta.
  assert (Lt : (length (take (first_of_run l0 op) l0) < length l0)%nat) by (rewrite length_take; lia).
  assert (Ld : (length (drop (S (first_of_run l0 op)) l0) < length l0)%nat) by (rewrite length_drop; lia).
  assert (L1 : (length (drop 1 l0) < length l0)%nat) by (rewrite length_drop; cbn; lia).
  destruct (0 <? first_of_run l0 op)%nat.
  - apply bind_ext; [apply IH; lia|]. intros [v1 s1] m1. apply bind_ext; [apply IH; lia|]. by intros [v2 s2] m2.
  - destruct (default _ _); try done; (apply bind_ext; [apply IH; lia | by intros [v s] m1]).
Qed.

End Fuel.

(** ** Tokenizing *)

(** Text in a class, and text that ends a token. *)
Fixpoint within (p : ascii -> bool) (s : string) : bool :=
  match s with EmptyString => true | String c s => p c && within p s end.
Definition stops (s : string) : Prop := s = EmptyString \/ exists r, s = String " " r.

Lemma span_within p a s :
  within p a = true -> stops s -> p " "%char = false -> span p (a ++ s) = String.length a.
Proof.
  intros H Hs Hp. induction a as [|c a IH]; cbn [within String.append String.length span] in *.
  - destruct Hs as [->|[r ->]]; cbn [span]; [done | by rewrite Hp].
  - apply andb_true_iff in H as [-> H]. by rewrite IH.
Qed.

Lemma numeral_within s : numeral s = within digit s.
Proof. induction s as [|c s IH]; cbn; [done | by rewrite IH]. Qed.

Lemma skipn_append a s : skipn_string (String.length a) (a ++ s) = s.
Proof. induction a as [|c a IH]; cbn; [by destruct s | done]. Qed.
Lemma firstn_append a s : firstn_string (String.length a) (a ++ s) = a.
Proof. induction a as [|c a IH]; cbn; [by destruct s | by rewrite IH]. Qed.

Lemma digit_cases c : digit c = true -> In c ["0"; "1"; "2"; "3"; "4"; "5"; "6"; "7"; "8"; "9"]%char.
Proof. destruct c as [[] [] [] [] [] [] [] []]; vm_compute; intros H; first [discriminate H | repeat (first [left; reflexivity | right])]. Qed.

(** Tokens as they are written. *)
Definition writable (t : Token) : Prop :=
  match type t with
  | TK_NUM => numeral (str t) = true /\ str t <> EmptyString /\ (String.length (str t) <= 32)%nat
  | TK_REG => exists s, str t = String "$" s /\ within alnum s = true /\ s <> EmptyString /\ (String.length s <= 31)%nat
  | TK_EQ | TK_NEQ | TK_AND => str t = text t
  | TK_DEREF | TK_NOTYPE => False
  | _ => str t = EmptyString
  end.

Lemma number_match_numeral a s :
  numeral a = true -> a <> EmptyString -> stops s -> number_match (a ++ s) = Some (String.length a).
Proof.
  intros H N Hs. assert (X : starts "0x" (a ++ s) = false).
  { destruct a as [|c [|c' a]]; [done| |]; cbn in H.
    - apply andb_true_iff in H as [H _]. apply digit_cases in H. cbn in H.
      by repeat (destruct H as [<-|H]; [destruct Hs as [->|[r ->]]|]).
    - apply andb_true_iff in H as [H H']. apply andb_true_iff in H' as [H' _].
      apply digit_cases in H, H'. cbn in H. destruct H as [<-|H]; [|by repeat (destruct H as [<-|H]; [done|])].
      cbn in H'. by repeat (destruct H' as [<-|H']; [done|]). }
  assert (D : number_digits (a ++ s) = Some (String.length a)).
  { unfold number_digits. rewrite X. rewrite numeral_within in H.
    assert (one_or_more digit (a ++ s) = Some (String.length a)).
    { unfold one_or_more. rewrite span_within by done. by destruct a. }
    by destruct (one_or_more lower_hex _). }
  unfold number_match. rewrite D. cbn [mbind option_bind]. cbv zeta.
  assert (O : forall p, p " "%char = false -> optional p s = O) by (intros p Hp; destruct Hs as [->|[r ->]]; cbn; by rewrite ?Hp).
  rewrite skipn_append, O, Nat.add_0_r, skipn_append, O, Nat.add_0_r, skipn_append, O, Nat.add_0_r by done. done.
Qed.

Lemma first_rule_text t s :
  writable t -> stops s -> first_rule rules (text t ++ s) = Some (String.length (text t), type t).
Proof.
  intros W Hs. unfold writable in W. unfold text. destruct (type t) eqn:Ty; try done; try reflexivity.
  - destruct W as (H & N & _). pose proof (number_match_numeral _ s H N Hs) as K.
    destruct (str t) as [|c a]; [done|]. cbn in H. apply andb_true_iff in H as [H _]. apply digit_cases in H. cbn in H.
    by repeat (destruct H as [<-|H]; [cbn [rules first_rule register_match literal append] in *; cbn -[number_match] in *; rewrite K|]).
  - destruct W as (a & -> & H & N & _). cbn -[span]. unfold one_or_more. rewrite span_within by done. by destruct a.
Qed.

(** One round of the loop. *)
Lemma lex_token t s fuel nr l :
  writable t -> stops s -> nr < 128 ->
  make_token_loop (S fuel) (text t ++ s) nr l = make_token_loop fuel s (nr + 1) (l ++ [t]).
Proof.
  intros W Hs Hn. cbn [make_token_loop]. rewrite first_rule_text, skipn_append, firstn_append by done.
  assert (T : text t <> EmptyString /\ token_str (type t) (text t) = str t /\ type t <> TK_NOTYPE
    /\ (tok_is (type t) TK_NUM || tok_is (type t) TK_REG = true -> (String.length (text t) <= 32)%nat)).
  { unfold writable in W. unfold text in *. destruct (type t) eqn:Ty; try done; try by rewrite W.
    - split; [by apply W|]. split; [done|]. split; [done|]. intros _. apply W.
    - destruct W as (a & E & _ & _ & H). rewrite E. split; [done|]. split; [done|]. split; [done|]. intros _. cbn. lia. }
  destruct T as (T1 & T2 & T3 & T4). rewrite T2, (proj2 (Z.leb_gt NR_TOKEN nr)) by done.
  replace (tok_is (type t) TK_NOTYPE) with false by (symmetry; by apply bool_decide_eq_false).
  replace (_ && (TOKEN_STR <? _)) with false.
  2:{ destruct (_ || _); [|done]. specialize (T4 eq_refl). symmetry. apply Z.ltb_ge. unfold TOKEN_STR. lia. }
  replace (mk_token (type t) (str t)) with t by (by destruct t). destruct (text t); done.
Qed.

(** Text that does not start with a space. *)
Definition solid (s : string) : Prop := match s with String c _ => c <> " "%char | EmptyString => True end.

Lemma lex_space s fuel nr l :
  solid s -> nr < 128 -> make_token_loop (S fuel) (String " " s) nr l = make_token_loop fuel s nr l.
Proof.
  intros H Hn. cbn [make_token_loop].
  replace (first_rule rules (String " " s)) with (Some (1%nat, TK_NOTYPE)).
  - rewrite (proj2 (Z.leb_gt NR_TOKEN nr)) by done. change (tok_is TK_NOTYPE TK_NOTYPE) with true. by destruct s.
  - destruct s as [|c s]; [done|]. cbn in H. cbn -[span]. unfold one_or_more. cbn [span].
    destruct (Ascii.eqb_spec " " c); [by subst | done].
Qed.

Lemma text_solid t s : writable t -> solid (text t ++ s).
Proof.
  unfold writable, text. destruct (type t); try done.
  - intros (H & N & _). destruct (str t) as [|c a]; [done|]. cbn in *. apply andb_true_iff in H as [H _].
    intros ->. done.
  - by intros (a & -> & _).
Qed.

Lemma append_length a b : String.length (a ++ b) = (String.length a + String.length b)%nat.
Proof. induction a as [|c a IH]; cbn; [done | by rewrite IH]. Qed.

Lemma text_length t : writable t -> (1 <= String.length (text t))%nat.
Proof.
  unfold writable, text. destruct (type t); cbn; try (done || lia).
  - intros (_ & N & _). destruct (str t); [done | cbn; lia].
  - intros (a & -> & _). cbn; lia.
Qed.

Lemma append_empty s : (s ++ "")%string = s.
Proof. induction s as [|c s IH]; cbn; [done | by rewrite IH]. Qed.

(** Rendered tokens are read back. *)
Lemma lex_render l fuel nr acc :
  Forall writable l -> nr + Z.of_nat (length l) <= 128 -> (String.length (render l) <= fuel)%nat ->
  make_token_loop fuel (render l) nr acc = Tokens (acc ++ l).
Proof.
  intros W. revert fuel nr acc. induction W as [|t l Wt W IH]; intros fuel nr acc Hn Hf.
  { rewrite app_nil_r. by destruct fuel. }
  cbn [length] in Hn. pose proof (text_length t Wt) as L. destruct l as [|t' l].
  - cbn [render] in *. destruct fuel as [|fuel]; [lia|]. rewrite <-(append_empty (text t)), lex_token by (done || lia || by left).
    by destruct fuel.
  - change (render (t :: t' :: l)) with (text t ++ String " " (render (t' :: l)))%string in *.
    rewrite append_length in Hf. cbn [String.length] in Hf.
    destruct fuel as [|[|fuel]]; [lia..|]. rewrite lex_token by (done || lia || (right; by eexists)).
    rewrite lex_space; [|inversion W; subst; destruct l; cbn [render];
      [rewrite <-(append_empty (text t')) |]; by apply text_solid | cbn [length] in Hn; lia].
    rewrite IH by (cbn [length] in *; lia). by rewrite <-app_assoc.
Qed.

(** A register name is a dollar-free word of at most five letters and digits. *)
Lemma register_name_ok `{Config} s :
  In s register_names -> within alnum s = true /\ s <> EmptyString /\ (String.length s <= 31)%nat.
Proof.
  assert (K : forallb (fun s => within alnum s && negb (String.eqb s "") && Nat.leb (String.length s) 31)
                (["pc"; "mstatus"; "mepc"; "mtvec"; "mcause"]%string ++ regs) = true) by (vm_compute; reflexivity).
  intros Hs. assert (I : In s (["pc"; "mstatus"; "mepc"; "mtvec"; "mcause"]%string ++ regs)).
  { unfold register_names in Hs. apply in_app_iff in Hs as [Hs|Hs]; apply in_app_iff; [by left|right].
    rewrite <-(take_drop (if CONFIG_RVE then 16 else 32) regs). apply in_app_iff. by left. }
  rewrite forallb_forall in K. specialize (K s I). rewrite !andb_true_iff in K. destruct K as [[K1 K2] K3].
  split; [done|]. split; [|by apply Nat.leb_le]. intros ->. done.
Qed.

Lemma sign_writable ty : match ty with LPAREN | RPAREN | STAR | SLASH | PLUS | MINUS => True | _ => False end -> writable (sign ty).
Proof. by destruct ty. Qed.

Lemma decimal_writable n : 0 <= n < 2 ^ 64 -> writable (mk_token TK_NUM (decimal n)).
Proof.
  intros H. unfold writable, decimal. cbn [type str]. split; [apply decimal_numeral; [lia | done]|]. split.
  - assert (n = 0 \/ 0 < n) as [->|C] by lia; [done|].
    pose proof (decimal_bound n H). destruct (decimal_head 20 n "" ltac:(lia)) as (d & r & _ & ->). done.
  - etrans; [apply decimal_length|]. cbn. lia.
Qed.

Lemma tokens_writable `{Config} p e : valid e -> Forall writable (tokens p e).
Proof.
  revert p. induction e as [n|s|op a IHa b IHb]; intros p V.
  - apply Forall_singleton. by apply decimal_writable.
  - apply Forall_singleton. exists s. split; [done | by apply register_name_ok].
  - destruct V as [Va Vb].
    assert (Body : Forall writable (tokens Sum (Bin op a b))).
    { rewrite tokens_bare by done. apply Forall_app. split; [by apply IHa|]. constructor; [by destruct op | by apply IHb]. }
    destruct (bare p op) eqn:B; [by rewrite tokens_bare in * by done|].
    rewrite tokens_enclosed by done. constructor; [done|]. apply Forall_app. split; [done|]. constructor; [done | constructor].
Qed.

(** No star of a printed expression stands for a dereference. *)
Lemma mark_deref_tokens p e after rest :
  mark_deref after (tokens p e ++ rest) = tokens p e ++ mark_deref false rest.
Proof.
  revert p after rest. induction e as [n|s|op a IHa b IHb]; intros p after rest; [done..|].
  assert (Body : forall after rest,
    mark_deref after (tokens Sum (Bin op a b) ++ rest) = tokens Sum (Bin op a b) ++ mark_deref false rest).
  { intros af r. rewrite tokens_bare, !body_app, IHa by done. cbn [mark_deref].
    rewrite <-IHb with (after := true). by destruct op. }
  destruct (bare p op) eqn:B; [rewrite (tokens_bare Sum) in Body by done; by rewrite tokens_bare by done|].
  rewrite tokens_enclosed by done. cbn [app]. rewrite <-!app_assoc. cbn [mark_deref].
  change (tok_is (type (sign LPAREN)) STAR && after) with false. cbv iota zeta. by rewrite Body.
Qed.

Section Whole.
Context {Cfg : Config}.

(** The length of the array of tokens. *)
Definition fits_array (l : list Token) : Prop := Z.of_nat (length l) <= NR_TOKEN.

Lemma expr_render l m :
  Forall writable l -> fits_array l -> expr (render l) true m = eval (S (length l)) (mark_deref true l) true m.
Proof. intros W L. unfold expr, make_token. by rewrite lex_render. Qed.

(** C38: the debugger computes what is written. An arithmetic expression over
    numbers and registers, printed with the parentheses that precedence and left
    associativity ask for, is tokenized and evaluated to its value, whatever its
    depth; the only failure is the host's trap on a division by zero. *)
Theorem expr_print e m :
  valid e -> fits_array (tokens Sum e) -> expr (print e) true m = result (denote e m) m.
Proof.
  intros V L. unfold print. rewrite expr_render by (done || by apply tokens_writable).
  rewrite <-(app_nil_r (tokens Sum e)), mark_deref_tokens. cbn [mark_deref]. rewrite app_nil_r.
  apply eval_tokens; [done | lia].
Qed.

Definition comparisons : list Token := [mk_token TK_EQ "=="; mk_token TK_NEQ "!="; mk_token TK_AND "&&"].

(** A comparison or a conjunction works between operands that are numbers,
    registers or enclosed in parentheses; an operand with an operator of its own
    aborts the simulator in [get_priority]. *)
Theorem expr_comparison t p1 e1 p2 e2 m :
  In t comparisons -> valid e1 -> valid e2 ->
  let l := tokens p1 e1 ++ t :: tokens p2 e2 in
  fits_array l ->
  expr (render l) true m
  = if exposed p1 e1 || exposed p2 e2 then (Panic, m)
    else match denote e1 m, denote e2 m with
         | Some x, Some y => binary (type t) x y true m
         | _, _ => (Panic, m)
         end.
Proof.
  intros Ht V1 V2 l L.
  assert (K : writable t /\ is_op (type t) = true /\ get_priority (type t) = None /\ tok_is (type t) STAR = false)
    by (cbn in Ht; by repeat (destruct Ht as [<-|Ht]; [done|])).
  destruct K as (W & Hop & Hp & Hs). subst l. rewrite expr_render; [|apply Forall_app; split;
    [by apply tokens_writable | constructor; [done | by apply tokens_writable]] | done].
  rewrite mark_deref_tokens. cbn [mark_deref]. rewrite Hs. cbn [andb]. cbv iota zeta.
  rewrite <-(app_nil_r (tokens p2 e2)) at 2. rewrite mark_deref_tokens. cbn [mark_deref]. rewrite app_nil_r.
  apply eval_comparison; done || lia.
Qed.

End Whole.

(** ** Concrete expressions *)

#[local] Existing Instance riscv64_ref.

(** [10 - 3 * (2 + $a0) - 4] with [a0 = 1]. *)
Definition example_expression : expression :=
  Bin Sub (Bin Sub (Num 10) (Bin Mul (Num 3) (Bin Add (Num 2) (Reg "a0")))) (Num 4).
Definition example_machine : machine := setR 10 1 pmp_example_sr.

Example example_text : print example_expression = "10 - 3 * ( 2 + $a0 ) - 4"%string.
Proof. vm_compute. reflexivity. Qed.

Lemma expr_print_witness : fst (expr (print example_expression) true example_machine) = Ret (word (-3), true).
Proof.
  rewrite (expr_print example_expression example_machine); [vm_compute; reflexivity | | vm_compute; discriminate].
  split; [split; [by vm_compute | split; [by vm_compute | split; [by vm_compute|]]]|by vm_compute].
  cbn. tauto.
Defined.

Lemma expr_comparison_witness : fst (expr "( 1 + 2 ) == 3" true example_machine) = Ret (1, true) /\
  fst (expr "1 + 2 == 3" true example_machine) = Panic.
Proof.
  assert (V : valid (Bin Add (Num 1) (Num 2)) /\ valid (Num 3)) by (by repeat split; vm_compute).
  assert (E : In (mk_token TK_EQ "==") comparisons) by (by left).
  split.
  - change "( 1 + 2 ) == 3"%string with (render (tokens Factor (Bin Add (Num 1) (Num 2)) ++ mk_token TK_EQ "==" :: tokens Sum (Num 3))).
    rewrite (expr_comparison (mk_token TK_EQ "==") Factor (Bin Add (Num 1) (Num 2)) Sum (Num 3)); [vm_compute; reflexivity | done | apply V | apply V | vm_compute; discriminate].
  - change "1 + 2 == 3"%string with (render (tokens Sum (Bin Add (Num 1) (Num 2)) ++ mk_token TK_EQ "==" :: tokens Sum (Num 3))).
    rewrite (expr_comparison (mk_token TK_EQ "==") Sum (Bin Add (Num 1) (Num 2)) Sum (Num 3)); [vm_compute; reflexivity | done | apply V | apply V | vm_compute; discriminate].
Defined.

(** A finding: a minus sign after an operator takes that operator for the main
    one, so [1 - 2 * -3] is [(1 - 2) * (-3)]. *)
Lemma negative_operand_regroups :
  fst (expr "1 - 2 * -3" true example_machine) = Ret (3, true) /\
  fst (expr "1 - 2 * (-3)" true example_machine) = Ret (7, true).
Proof. vm_compute. auto. Qed.

(** A finding: a register to the right of an invalid operand sets the flag
    again, and the invalid expression is accepted. *)
Lemma register_hides_failure :
  fst (expr "()" true example_machine) = Ret (0, false) /\
  fst (expr "() + $a0" true example_machine) = Ret (1, true).
Proof. vm_compute. auto. Qed.

Lemma eval_terminates_witness : fst (eval 100 (tokens Sum example_expression) true example_machine) = Ret (word (-3), true).
Proof. rewrite (eval_terminates 100); [vm_compute; reflexivity | vm_compute; lia]. Defined.
