(* ===== verification/Watch.v ===== *)
(** * Watch: the watchpoints of the debugger ([monitor/sdb/watchpoint.c])

    A pool of 32 entries, the free ones on a singly linked list and the others
    on a doubly linked one. Pointers into the pool are indices. *)
From Stdlib Require Import String.
From S2P Require Import Prelude Config Machine Expr.

#[local] Open Scope Z_scope.

Definition NR_WP : Z := 32.

Record WP := mk_WP {
  next : option Z;
  next_alloc : option Z;
  prev_alloc : option Z;
  alloc : bool;
  str : string;
  v : Z;
}.
#[export] Instance wp_zero : Zero WP := mk_WP None None None false EmptyString 0.
#[export] Instance wp_fields : Fields WP := fun w =>
  mk_WP (next w) (next_alloc w) (prev_alloc w) (alloc w) (str w) (v w).
#[export] Instance set_next : Setter next := ltac:(build_setter next).
#[export] Instance set_next_alloc : Setter next_alloc := ltac:(build_setter next_alloc).
#[export] Instance set_prev_alloc : Setter prev_alloc := ltac:(build_setter prev_alloc).
#[export] Instance set_alloc : Setter alloc := ltac:(build_setter alloc).
#[export] Instance set_str : Setter str := ltac:(build_setter str).
#[export] Instance set_v : Setter v := ltac:(build_setter v).

(** [wp_pool], [head], [free_] and [wp_present]; the number of an entry is its
    index. *)
Record watch := mk_watch {
  wp_pool : gmap Z WP;
  head : option Z;
  free_ : option Z;
  wp_present : bool;
}.
#[export] Instance watch_fields : Fields watch := fun s => mk_watch (wp_pool s) (head s) (free_ s) (wp_present s).
#[export] Instance set_wp_pool : Setter wp_pool := ltac:(build_setter wp_pool).
#[export] Instance set_head : Setter head := ltac:(build_setter head).
#[export] Instance set_free_ : Setter free_ := ltac:(build_setter free_).
#[export] Instance set_wp_present : Setter wp_present := ltac:(build_setter wp_present).

Definition wp (s : watch) (i : Z) : WP := aget (wp_pool s) i.
Definition set_wp (i : Z) (f : WP -> WP) (s : watch) : watch := s <| wp_pool ::= fun a => aset a i (f (aget a i)) |>.

Fixpoint init_loop (n : nat) (i : Z) (s : watch) : watch :=
  match n with
  | O => s
  | S n =>
      init_loop n (i + 1)
        (set_wp i (fun w => w <| next := if i =? NR_WP - 1 then None else Some (i + 1) |>
                              <| next_alloc := None |> <| prev_alloc := None |>) s)
  end.
Definition init_wp_pool (s : watch) : watch :=
  (init_loop (Z.to_nat NR_WP) 0 s) <| head := None |> <| free_ := Some 0 |> <| wp_present := false |>.

(** [None] when the [Assert] on the free list fails. *)
Definition new_wp (s : watch) : option (Z * watch) :=
  match free_ s with
  | None => None
  | Some p =>
      let s := s <| free_ := next (wp s p) |> in
      let s := set_wp p (fun w => w <| next_alloc := head s |> <| prev_alloc := None |>) s in
      let s := match head s with Some h => set_wp h (fun w => w <| prev_alloc := Some p |>) s | None => s end in
      Some (p, s <| head := Some p |> <| wp_present := true |>)
  end.

Definition is_some (p : option Z) : bool := match p with Some _ => true | None => false end.

(** Out of the list of watchpoints. *)
Definition unlink (p : Z) (s : watch) : watch :=
  let w := wp s p in
  match prev_alloc w with
  | Some q =>
      if bool_decide (head s = Some p) then s <| head := next_alloc w |>
      else set_wp q (fun x => x <| next_alloc := next_alloc w |>) s
  | None => s <| head := next_alloc w |>
  end.

Definition free_wp (p : Z) (s : watch) : watch :=
  let s := unlink p s in
  let s := set_wp p (fun w => w <| next := free_ s |> <| prev_alloc := None |> <| next_alloc := None |>
                                <| alloc := false |>) s in
  let s := s <| free_ := Some p |> in
  s <| wp_present := is_some (head s) |>.

(** A new entry for an expression, of which 32 characters are kept. *)
Definition wp_enter (e : string) (s : watch) : option (Z * watch) :=
  '(p, s) ← new_wp s;
  Some (p, set_wp p (fun w => w <| alloc := true |> <| str := firstn_string 32 e |>) s).

Section Watch.
Context {Cfg : Config}.

(** The flag is the caller's. *)
Definition wp_add (e : string) (success : bool) (s : watch) : M machine (watch * bool) :=
  match wp_enter e s with
  | None => panic
  | Some (p, s) =>
      '(x, success) ← expr (str (wp s p)) success;
      mret (if success : bool then (set_wp p (fun w => w <| v := x |>) s, true) else (free_wp p s, false))
  end.

(** [None] when the entry just behind the pool is looked at. *)
Definition wp_del (id : Z) (s : watch) : option (bool * watch) :=
  if (id <? 0) || (NR_WP <? id) then Some (false, s)
  else if id =? NR_WP then None
  else if negb (alloc (wp s id)) then Some (false, s)
  else Some (true, free_wp id s).

(** One entry of [wp_check_changed]: the value of its expression, and whether it
    has changed. The flag passed to [expr] is not looked at. *)
Definition wp_changed (p : Z) (s : watch) : M machine (option watch) :=
  '(x, _) ← expr (str (wp s p)) true;
  mret (if v (wp s p) =? x then None else Some (set_wp p (fun w => w <| v := x |>) s)).

(** The loop over the list, [fuel] entries at most; [None] when they were not
    enough. *)
Fixpoint wp_check_loop (fuel : nat) (p : option Z) (s : watch) : M machine (option (bool * watch)) :=
  match p with
  | None => mret (Some (false, s))
  | Some i =>
      match fuel with
      | O => mret None
      | S fuel =>
          changed ← wp_changed i s;
          match changed with
          | Some s => mret (Some (true, s))
          | None => wp_check_loop fuel (next_alloc (wp s i)) s
          end
      end
  end.
Definition wp_check_changed (fuel : nat) (s : watch) : M machine (option (bool * watch)) :=
  wp_check_loop fuel (head s) s.

(** [wp_show] refreshes every value. *)
Fixpoint wp_show_loop (fuel : nat) (p : option Z) (s : watch) : M machine (option watch) :=
  match p with
  | None => mret (Some s)
  | Some i =>
      match fuel with
      | O => mret None
      | S fuel =>
          '(x, _) ← expr (str (wp s i)) true;
          let s := set_wp i (fun w => w <| v := x |>) s in
          wp_show_loop fuel (next_alloc (wp s i)) s
      end
  end.
Definition wp_show (fuel : nat) (s : watch) : M machine (option watch) := wp_show_loop fuel (head s) s.

End Watch.
