(* ===== verification/WatchSpec.v ===== *)
(** * WatchSpec: the lists of watchpoints

    The pool is split between the two lists as long as watchpoints are removed
    from an end of theirs; a removal from the middle leaves a stale back link, and
    the next removal can put a watchpoint on both lists. *)
From Stdlib Require Import String.
From S2P Require Import Prelude Config Machine PmpSpec Expr Watch.

#[local] Open Scope Z_scope.

(** ** Chains of pointers *)

Fixpoint chain (f : Z -> option Z) (p : option Z) (l : list Z) : Prop :=
  match l with
  | [] => p = None
  | i :: l => p = Some i /\ chain f (f i) l
  end.

Lemma chain_ext f g p l : (forall i, i ∈ l -> f i = g i) -> chain f p l -> chain g p l.
Proof.
  revert p. induction l as [|i l IH]; intros p H C; [done|]. destruct C as [-> C]. split; [done|].
  rewrite <-H by (by left). apply IH; [|done]. intros j Hj. apply H. by right.
Qed.

(** Taking the successor of [q] out. *)
Lemma chain_unlink f g p a q i b :
  NoDup (a ++ q :: i :: b) -> g q = f i -> (forall j, j <> q -> g j = f j) ->
  chain f p (a ++ q :: i :: b) -> chain g p (a ++ q :: b).
Proof.
  intros N Hq Hg. revert p. induction a as [|j a IH]; intros p C.
  - destruct C as (-> & _ & C). split; [done|]. rewrite Hq. eapply chain_ext; [|exact C].
    intros k Hk. symmetry. apply Hg. intros ->. inversion N as [|? ? Hn _]; subst. apply Hn. by right.
  - inversion N as [|? ? Hn N']; subst. destruct C as [-> C]. split; [done|].
    rewrite Hg by (intros ->; apply Hn, elem_of_app; right; by left). by apply IH.
Qed.

(** ** The pool *)

Definition watched (s : watch) (i : Z) : option Z := next_alloc (wp s i).
Definition vacant (s : watch) (i : Z) : option Z := next (wp s i).

(** Back links are right, but for the first entry, whose link is not looked at. *)
Definition back_links (s : watch) (l : list Z) : Prop :=
  forall a q i b, l = a ++ q :: i :: b -> prev_alloc (wp s i) = Some q.

Record pool_ok (s : watch) (l free : list Z) : Prop := {
  ok_watched : chain (watched s) (head s) l;
  ok_vacant : chain (vacant s) (free_ s) free;
  ok_parts : l ++ free ≡ₚ seqZ 0 NR_WP;
  ok_alloc : forall i, 0 <= i < NR_WP -> alloc (wp s i) = bool_decide (i ∈ l);
  ok_back : back_links s l;
  ok_present : wp_present s = is_some (head s);
}.

Lemma wp_set_wp s i j f : wp (set_wp i f s) j = if i =? j then f (wp s i) else wp s j.
Proof. unfold wp, set_wp, upd, set_wp_pool. cbn. by rewrite aget_aset. Qed.

Lemma wp_set_wp_eq s i f : wp (set_wp i f s) i = f (wp s i).
Proof. by rewrite wp_set_wp, Z.eqb_refl. Qed.

Lemma wp_set_wp_ne s i j f : i <> j -> wp (set_wp i f s) j = wp s j.
Proof. intros. by rewrite wp_set_wp, (proj2 (Z.eqb_neq _ _)). Qed.

Section Parts.
Context {s : watch} {l free : list Z} (H : pool_ok s l free).

Lemma parts_nodup : NoDup (l ++ free).
Proof. rewrite (ok_parts _ _ _ H). apply NoDup_seqZ. Qed.

Lemma parts_in i : i ∈ l \/ i ∈ free <-> 0 <= i < NR_WP.
Proof. rewrite <-elem_of_app, (ok_parts _ _ _ H), elem_of_seqZ. lia. Qed.

Lemma parts_disjoint i : i ∈ l -> i ∈ free -> False.
Proof. pose proof parts_nodup as N. apply NoDup_app in N as (_ & N & _). apply N. Qed.

End Parts.

(** ** Initialisation *)

Lemma chain_seq f i n :
  (forall k, i <= k -> k < i + Z.of_nat n -> f k = Some (k + 1)) -> f (i + Z.of_nat n) = None ->
  chain f (Some i) (seqZ i (Z.of_nat (S n))).
Proof.
  revert i. induction n as [|n IH]; intros i Hf Hn.
  - replace (i + Z.of_nat 0) with i in Hn by lia. rewrite seqZ_cons by lia. split; [done|]. rewrite Hn. by rewrite seqZ_nil by lia.
  - rewrite seqZ_cons by lia. split; [done|]. rewrite Hf by lia.
    replace (Z.pred (Z.of_nat (S (S n)))) with (Z.of_nat (S n)) by lia. replace (Z.succ i) with (i + 1) by lia.
    apply IH; [intros; apply Hf; lia|]. by replace (i + 1 + Z.of_nat n) with (i + Z.of_nat (S n)) by lia.
Qed.

Lemma init_loop_wp n i s j :
  wp (init_loop n i s) j =
  if (i <=? j) && (j <? i + Z.of_nat n)
  then (wp s j) <| next := if j =? NR_WP - 1 then None else Some (j + 1) |> <| next_alloc := None |> <| prev_alloc := None |>
  else wp s j.
Proof.
  revert i s. induction n as [|n IH]; intros i s; cbn [init_loop].
  - destruct (Z.leb_spec i j), (Z.ltb_spec j (i + Z.of_nat 0)); try reflexivity. exfalso. lia.
  - rewrite IH, wp_set_wp. destruct (Z.eqb_spec i j) as [->|].
    + rewrite (proj2 (Z.leb_gt (j + 1) j)), (proj2 (Z.leb_le j j)), (proj2 (Z.ltb_lt j (j + Z.of_nat (S n)))) by lia. reflexivity.
    + destruct (Z.leb_spec (i + 1) j), (Z.leb_spec i j), (Z.ltb_spec j (i + 1 + Z.of_nat n)),
        (Z.ltb_spec j (i + Z.of_nat (S n))); try (exfalso; lia); reflexivity.
Qed.

Lemma linked_pool_ok s s0 :
  (forall i, alloc (wp s i) = false) ->
  (forall j, wp s0 j = if (0 <=? j) && (j <? 32)
    then (wp s j) <| next := if j =? 31 then None else Some (j + 1) |> <| next_alloc := None |> <| prev_alloc := None |>
    else wp s j) ->
  pool_ok (s0 <| head := None |> <| free_ := Some 0 |> <| wp_present := false |>) [] (seqZ 0 NR_WP).
Proof.
  intros Ha W. split; [done | | done | | |done].
  - apply (chain_seq _ 0 31).
    + intros k H0 Hk. change (next (wp s0 k) = Some (k + 1)).
      rewrite W, (proj2 (Z.leb_le 0 k)), (proj2 (Z.ltb_lt k 32)) by lia. cbn [andb].
      by rewrite (proj2 (Z.eqb_neq k 31)) by lia.
    + change (next (wp s0 31) = None). by rewrite W.
  - intros i Hi. rewrite bool_decide_eq_false_2 by (by intros ?%elem_of_nil). change (alloc (wp s0 i) = false).
    rewrite W. destruct (_ && _); exact (Ha i).
  - intros a q i b E. by destruct a.
Qed.

(** Initially nothing is watched. *)
Lemma init_pool_ok s : (forall i, alloc (wp s i) = false) -> pool_ok (init_wp_pool s) [] (seqZ 0 NR_WP).
Proof. intros Ha. apply (linked_pool_ok s); [done|]. intros j. apply (init_loop_wp (Z.to_nat NR_WP) 0). Qed.

(** ** Taking a free entry *)

Lemma back_links_cons s p l :
  (forall h t, l = h :: t -> prev_alloc (wp s h) = Some p) -> back_links s l -> back_links s (p :: l).
Proof.
  intros Hh Hl a q i b E. destruct a as [|x a]; injection E as -> E; [|by eapply Hl].
  by eapply Hh.
Qed.

(** The state after an entry has been taken. *)
Lemma wp_enter_state e s p s' :
  wp_enter e s = Some (p, s') ->
  free_ s = Some p /\ head s' = Some p /\ free_ s' = next (wp s p) /\ wp_present s' = true /\
  (head s <> Some p ->
   wp s' p = (wp s p) <| next_alloc := head s |> <| prev_alloc := None |> <| alloc := true |> <| str := firstn_string 32 e |> /\
   forall j, j <> p -> wp s' j = if bool_decide (head s = Some j) then (wp s j) <| prev_alloc := Some p |> else wp s j).
Proof.
  unfold wp_enter, new_wp. destruct (free_ s) as [p0|]; [|done]. cbv zeta.
  set (s1 := set_wp p0 (fun w => w <| next_alloc := _ |> <| prev_alloc := None |>) _).
  assert (W1 : forall j, wp s1 j = if p0 =? j then (wp s p0) <| next_alloc := head s |> <| prev_alloc := None |> else wp s j)
    by (intros j; unfold s1; by rewrite wp_set_wp).
  assert (H1 : head s1 = head s /\ free_ s1 = next (wp s p0)) by done. destruct H1 as [E1 E2]. clearbody s1.
  set (s2 := match head s1 with Some h => _ | None => _ end).
  assert (W2 : head s <> Some p0 -> forall j, wp s2 j = if bool_decide (head s = Some j) then (wp s1 j) <| prev_alloc := Some p0 |> else wp s1 j).
  { intros N j. unfold s2. rewrite E1. destruct (head s) as [h|]; [|done]. rewrite wp_set_wp.
    destruct (Z.eqb_spec h j) as [->|]; [by rewrite bool_decide_eq_true_2 | by rewrite bool_decide_eq_false_2 by congruence]. }
  assert (E3 : free_ s2 = next (wp s p0)) by (unfold s2; by destruct (head s1)). clearbody s2.
  cbn [mbind option_bind]. intros [= <- <-].
  split_and!; [done..|]. intros N. split.
  - rewrite wp_set_wp_eq. change (wp (s2 <| head := Some p0 |> <| wp_present := true |>) p0) with (wp s2 p0).
    by rewrite W2, bool_decide_eq_false_2, W1, Z.eqb_refl.
  - intros j Hj. rewrite wp_set_wp_ne by done. change (wp (s2 <| head := Some p0 |> <| wp_present := true |>) j) with (wp s2 j).
    by rewrite W2, W1, (proj2 (Z.eqb_neq p0 j)) by done.
Qed.

Lemma chain_head f p l : chain f p l -> match l with [] => p = None | i :: _ => p = Some i end.
Proof. by destruct l as [|i l]; [|intros [-> _]]. Qed.

Lemma wp_enter_ok s l free e p s' :
  pool_ok s l free -> wp_enter e s = Some (p, s') ->
  exists free', free = p :: free' /\ pool_ok s' (p :: l) free' /\ str (wp s' p) = firstn_string 32 e.
Proof.
  intros H E. apply wp_enter_state in E as (F & Hh & Hf & Hp & W). pose proof (ok_vacant _ _ _ H) as V. rewrite F in V.
  destruct free as [|p' free]; [by cbn in V|]. destruct V as [[= <-] V]. exists free. split; [done|].
  pose proof (parts_nodup H) as N. apply NoDup_app in N as (Nl & Nd & Nf). inversion Nf as [|? ? Np Nf']; subst.
  assert (Nlp : p ∉ l) by (intros K; apply (parts_disjoint H p K); by left).
  pose proof (chain_head _ _ _ (ok_watched _ _ _ H)) as Hd.
  assert (Np' : head s <> Some p) by (destruct l as [|h l]; rewrite Hd; [done | intros [= ->]; apply Nlp; by left]).
  destruct (W Np') as [Wp Wj]. clear W. split; [|by rewrite Wp].
  assert (A : forall j, j <> p -> next_alloc (wp s' j) = next_alloc (wp s j) /\ next (wp s' j) = next (wp s j) /\ alloc (wp s' j) = alloc (wp s j))
    by (intros j Hj; rewrite Wj by done; by destruct (bool_decide _)).
  split.
  - rewrite Hh. split; [done|]. unfold watched at 2. rewrite Wp. cbn.
    eapply chain_ext; [|exact (ok_watched _ _ _ H)]. intros i Hi. unfold watched. by destruct (A i) as (-> & _); [intros ->|].
  - rewrite Hf. eapply chain_ext; [|exact V]. intros i Hi. unfold vacant. by destruct (A i) as (_ & -> & _); [intros ->|].
  - rewrite <-(ok_parts _ _ _ H). cbn. by rewrite Permutation_middle.
  - intros i Hi. destruct (decide (i = p)) as [->|Ni].
    + rewrite Wp. cbn. symmetry. apply bool_decide_eq_true_2. by left.
    + destruct (A i Ni) as (_ & _ & ->). rewrite (ok_alloc _ _ _ H) by done. apply bool_decide_ext. rewrite elem_of_cons. naive_solver.
  - apply back_links_cons.
    + intros h t ->. rewrite Wj by (intros ->; apply Nlp; by left). by rewrite Hd, bool_decide_eq_true_2.
    + intros a q i b E. pose proof (ok_back _ _ _ H a q i b E) as K. rewrite Wj; [|intros ->; apply Nlp; rewrite E; set_solver].
      rewrite bool_decide_eq_false_2; [done|]. subst l. destruct a as [|x a]; rewrite Hd; intros [= ->];
        (apply NoDup_cons in Nl as [Nx _] || idtac); set_solver.
  - by rewrite Hp, Hh.
Qed.

(** ** Giving an entry back *)

(** An entry at an end of the list: the first, or the last of several. *)
Definition at_end (l1 l2 : list Z) : Prop := l1 = [] \/ l2 = [].

Lemma unlink_state s l1 i l2 free :
  pool_ok s (l1 ++ i :: l2) free -> at_end l1 l2 ->
  let s' := unlink i s in
  chain (watched s') (head s') (l1 ++ l2) /\ free_ s' = free_ s /\
  (forall j, next (wp s' j) = next (wp s j) /\ alloc (wp s' j) = alloc (wp s j) /\ prev_alloc (wp s' j) = prev_alloc (wp s j)) /\
  wp s' i = wp s i.
Proof.
  intros H E s'. pose proof (ok_watched _ _ _ H) as C. pose proof (parts_nodup H) as N. apply NoDup_app in N as (N & _ & _).
  destruct l1 as [|h l1].
  - destruct C as [Hh C].
    assert (s' = s <| head := next_alloc (wp s i) |>) as ->; [|by split_and!].
    unfold s', unlink. destruct (prev_alloc (wp s i)) as [q|]; [|done]. by rewrite bool_decide_eq_true_2.
  - destruct E as [E|E]; [done|]. subst l2. rewrite app_nil_r.
    destruct (exists_last (l := h :: l1) ltac:(done)) as (a & q & Ea). rewrite Ea in *. clear h l1 Ea.
    rewrite <-!app_assoc in *. cbn [app] in *. pose proof (ok_back _ _ _ H a q i []) as Hq. specialize (Hq eq_refl).
    assert (Hi : q <> i) by (intros ->; apply NoDup_app in N as (_ & _ & N); inversion N as [|? ? Nx _]; apply Nx; by left).
    assert (Hh : head s <> Some i).
    { pose proof (chain_head _ _ _ C) as K. apply NoDup_app in N as (_ & Nd & _).
      destruct a as [|x a]; cbn in K; rewrite K; intros [= ->]; [done|]. apply (Nd i); [by left | right; by left]. }
    assert (s' = set_wp q (fun x => x <| next_alloc := next_alloc (wp s i) |>) s) as ->.
    { unfold s', unlink. rewrite Hq. by rewrite bool_decide_eq_false_2. }
    split; [|split; [done|split]].
    + apply (chain_unlink (watched s) _ _ a q i []); [done| | |exact C].
      * unfold watched. by rewrite wp_set_wp_eq.
      * intros j Hj. unfold watched. by rewrite wp_set_wp_ne.
    + intros j. rewrite wp_set_wp. by destruct (Z.eqb_spec q j) as [->|].
    + by rewrite wp_set_wp_ne.
Qed.

Lemma free_wp_ok s l1 i l2 free :
  pool_ok s (l1 ++ i :: l2) free -> at_end l1 l2 -> pool_ok (free_wp i s) (l1 ++ l2) (i :: free).
Proof.
  intros H E. destruct (unlink_state s l1 i l2 free H E) as (C & F & W & Wi).
  pose proof (parts_nodup H) as N. unfold free_wp. set (s1 := unlink i s) in *. clearbody s1.
  set (s2 := set_wp i _ s1).
  assert (W2 : forall j, wp s2 j = if i =? j then (wp s1 i) <| next := free_ s1 |> <| prev_alloc := None |> <| next_alloc := None |> <| alloc := false |> else wp s1 j)
    by (intros j; unfold s2; by rewrite wp_set_wp).
  assert (Hs2 : head s2 = head s1) by done. clearbody s2.
  assert (Nl : (i ∉ (l1 ++ l2)) /\ NoDup (l1 ++ l2) /\ (i ∉ free)).
  { rewrite <-Permutation_middle in N. cbn in N. apply NoDup_cons in N as [N1 N2]. apply NoDup_app in N2 as (N2 & _ & _).
    rewrite !not_elem_of_app in N1. rewrite not_elem_of_app. tauto. }
  destruct Nl as (Nl & Nd & Nf).
  assert (Wo : forall j, j <> i -> wp s2 j = wp s1 j) by (intros j Hj; by rewrite W2, (proj2 (Z.eqb_neq i j))).
  split.
  - change (chain (watched s2) (head s2) (l1 ++ l2)). rewrite Hs2. eapply chain_ext; [|exact C].
    intros j Hj. unfold watched. rewrite Wo; [done | by intros ->].
  - change (chain (vacant s2) (Some i) (i :: free)). split; [done|]. unfold vacant at 2. rewrite W2, Z.eqb_refl.
    change (chain (vacant s2) (free_ s1) free). rewrite F. eapply chain_ext; [|exact (ok_vacant _ _ _ H)].
    intros j Hj. unfold vacant. rewrite Wo by (by intros ->). symmetry. apply W.
  - rewrite <-(ok_parts _ _ _ H). rewrite <-!app_assoc. cbn. by rewrite Permutation_middle.
  - intros j Hj. change (alloc (wp s2 j) = bool_decide (j ∈ l1 ++ l2)). destruct (decide (j = i)) as [->|Nj].
    + rewrite W2, Z.eqb_refl. symmetry. by apply bool_decide_eq_false_2.
    + rewrite Wo by done. destruct (W j) as (_ & -> & _). rewrite (ok_alloc _ _ _ H) by done.
      apply bool_decide_ext. rewrite !elem_of_app, elem_of_cons. naive_solver.
  - intros a q k b Eq. change (prev_alloc (wp s2 k) = Some q).
    assert (Hk : k <> i) by (intros ->; apply Nl; rewrite Eq; apply elem_of_app; right; right; by left).
    rewrite Wo by done. destruct (W k) as (_ & _ & ->).
    destruct E as [-> | ->]; cbn [app] in *.
    + apply (ok_back _ _ _ H (i :: a) q k b). cbn. by rewrite Eq.
    + rewrite app_nil_r in Eq. subst l1. apply (ok_back _ _ _ H a q k (b ++ [i])). by rewrite <-app_assoc.
  - done.
Qed.

Lemma set_v_ok s l free i x : pool_ok s l free -> pool_ok (set_wp i (fun w => w <| v := x |>) s) l free.
Proof.
  intros H. assert (W : forall j, let w := wp (set_wp i (fun w => w <| v := x |>) s) j in
    next w = next (wp s j) /\ next_alloc w = next_alloc (wp s j) /\ prev_alloc w = prev_alloc (wp s j) /\ alloc w = alloc (wp s j)).
  { intros j. cbv zeta. rewrite wp_set_wp. by destruct (Z.eqb_spec i j) as [->|]. }
  split; [| |apply H| | |apply H].
  - eapply chain_ext; [|apply H]. intros j _. symmetry. apply W.
  - eapply chain_ext; [|apply H]. intros j _. symmetry. apply W.
  - intros j Hj. rewrite <-(ok_alloc _ _ _ H) by done. apply W.
  - intros a q j b E. destruct (W j) as (_ & _ & -> & _). by apply (ok_back _ _ _ H a q j b).
Qed.

(** ** Commands *)

Section Commands.
Context {Cfg : Config}.

(** A watchpoint is entered, deleted from an end of the list, or found changed. *)
Inductive command (m : machine) : watch -> watch -> Prop :=
  | command_add e b s s' m' ok : wp_add e b s m = (Ret (s', ok), m') -> command m s s'
  | command_del i s s' l1 l2 free :
      pool_ok s (l1 ++ i :: l2) free -> at_end l1 l2 -> wp_del i s = Some (true, s') -> command m s s'
  | command_check s s' fuel b m' : wp_check_changed fuel s m = (Ret (Some (b, s')), m') -> command m s s'.

Inductive session : watch -> Prop :=
  | session_start s : (forall i, alloc (wp s i) = false) -> session (init_wp_pool s)
  | session_command m s s' : session s -> command m s s' -> session s'.

Lemma bind_ret_split {A B} (c : M machine A) (k : A -> M machine B) m b m' :
  (c ≫= k) m = (Ret b, m') -> exists a m1, c m = (Ret a, m1) /\ k a m1 = (Ret b, m').
Proof. unfold mbind, M_bind. destruct (c m) as [[a|x|] m1]; [|done..]. by exists a, m1. Qed.

Lemma wp_add_ok e b s m s' ok m' l free :
  pool_ok s l free -> wp_add e b s m = (Ret (s', ok), m') ->
  exists p free', free = p :: free' /\
    if ok : bool then pool_ok s' (p :: l) free' /\ str (wp s' p) = firstn_string 32 e else pool_ok s' l free.
Proof.
  intros H E. unfold wp_add in E. destruct (wp_enter e s) as [[p s1]|] eqn:En; [|done].
  destruct (wp_enter_ok s l free e p s1 H En) as (free' & -> & H1 & Hs). exists p, free'. split; [done|].
  apply bind_ret_split in E as ([x b'] & m1 & _ & E). injection E as E _.
  destruct b'; injection E as <- <-.
  - split; [by apply set_v_ok|]. rewrite wp_set_wp_eq. exact Hs.
  - apply (free_wp_ok s1 [] p l free'); [done | by left].
Qed.

Lemma wp_check_ok fuel s m b s' m' l free :
  pool_ok s l free -> wp_check_changed fuel s m = (Ret (Some (b, s')), m') -> pool_ok s' l free.
Proof.
  intros H. unfold wp_check_changed. generalize (head s). revert m. induction fuel as [|fuel IH]; intros m p E.
  - destruct p; cbn in E; [done|]. by injection E as _ <- _.
  - destruct p as [i|]; cbn [wp_check_loop] in E; [|by injection E as _ <- _].
    apply bind_ret_split in E as (c & m1 & Ec & E). unfold wp_changed in Ec.
    apply bind_ret_split in Ec as ([x b'] & m2 & _ & Ec). injection Ec as Ec _.
    destruct (_ =? x); subst c; [by eapply IH|]. injection E as _ <- _. by apply set_v_ok.
Qed.

(** C39: as long as watchpoints are deleted from an end of their list, the two lists
    share out the pool: every entry is on exactly one of them, an entry is marked
    as allocated exactly when it is watched, and [wp_present] tells whether one is. *)
Theorem watch_lists_partition s : session s -> exists l free, pool_ok s l free.
Proof.
  induction 1 as [s Ha|m s s' _ (l & free & H) C]; [by exists [], (seqZ 0 NR_WP); apply init_pool_ok|].
  destruct C as [e b s s' m' ok E|i s s' l1 l2 f H' En E|s s' fuel b m' E].
  - destruct (wp_add_ok _ _ _ _ _ _ _ _ _ H E) as (p & free' & -> & K). destruct ok; [exists (p :: l), free'; apply K | by exists l, (p :: free')].
  - exists (l1 ++ l2), (i :: f). unfold wp_del in E. destruct (_ || _); [done|]. destruct (i =? NR_WP); [done|].
    destruct (negb _); [done|]. injection E as <-. by apply free_wp_ok.
  - exists l, free. by eapply wp_check_ok.
Qed.

(** The loop as a fold over the list. *)
Fixpoint check_entries (l : list Z) (s : watch) : M machine (option (bool * watch)) :=
  match l with
  | [] => mret (Some (false, s))
  | i :: l =>
      changed ← wp_changed i s;
      match changed with
      | Some s => mret (Some (true, s))
      | None => check_entries l s
      end
  end.

(** Checking the watchpoints terminates: on lists that share out the pool, 32
    rounds are enough, and the loop looks at the entries in turn up to the first
    that has changed. *)
Theorem wp_check_terminates s l free fuel m :
  pool_ok s l free -> (32 <= fuel)%nat -> wp_check_changed fuel s m = check_entries l s m.
Proof.
  intros H Hf. assert (L : (length l <= fuel)%nat).
  { pose proof (Permutation_length (ok_parts _ _ _ H)) as K. rewrite length_app, length_seqZ in K. unfold NR_WP in K. lia. }
  unfold wp_check_changed. pose proof (ok_watched _ _ _ H) as C. clear H Hf. revert m L C. generalize (head s).
  revert fuel. induction l as [|i l IH]; intros fuel p m L C.
  - cbn in C. subst p. by destruct fuel.
  - destruct C as [-> C]. destruct fuel as [|fuel]; [cbn in L; lia|]. cbn [wp_check_loop check_entries].
    unfold mbind, M_bind. destruct (wp_changed i s m) as [[[s1|]|x|] m1]; [done| |done..].
    apply IH; [cbn in L; lia | exact C].
Qed.

End Commands.

(** ** Concrete sessions *)

#[local] Existing Instance riscv64_ref.

(** The state a program starts with. *)
Definition fresh : watch := mk_watch ∅ None None false.

(** A sequence of commands: watch an expression, or delete a number. *)
Inductive input := W (e : string) | D (i : Z).
Fixpoint run (l : list input) (s : watch) (m : machine) : option watch :=
  match l with
  | [] => Some s
  | W e :: l => match fst (wp_add e true s m) with Ret (s, _) => run l s m | _ => None end
  | D i :: l => match wp_del i s with Some (_, s) => run l s m | None => None end
  end.

Lemma watch_lists_partition_witness :
  exists s, fst (wp_add "$a0" true (init_wp_pool fresh) pmp_example_sr) = Ret (s, true) /\ exists l free, pool_ok s l free.
Proof.
  destruct (wp_add "$a0" true (init_wp_pool fresh) pmp_example_sr) as [o m] eqn:E.
  assert (K : exists s, o = Ret (s, true)).
  { apply (f_equal fst) in E. cbn [fst] in E. subst o. eexists. vm_compute. reflexivity. }
  destruct K as [s ->]. exists s. split; [done|].
  apply watch_lists_partition. apply (session_command pmp_example_sr (init_wp_pool fresh)).
  - by apply session_start.
  - exact (command_add pmp_example_sr "$a0" true (init_wp_pool fresh) s m true E).
Defined.

Lemma wp_check_terminates_witness :
  wp_check_changed 40 (init_wp_pool fresh) pmp_example_sr = (Ret (Some (false, init_wp_pool fresh)), pmp_example_sr).
Proof. by rewrite (wp_check_terminates (init_wp_pool fresh) [] (seqZ 0 NR_WP) 40 pmp_example_sr (init_pool_ok fresh ltac:(done)) ltac:(lia)). Defined.

(** Three watchpoints, of which the middle and then the oldest are deleted. *)
Definition deletions : list input := [W "1"; W "2"; W "3"; D 1; D 0].
(** ... and another one is entered. *)
Definition reentry : list input := (deletions ++ [W "4"])%list.

Lemma cycle_never_ends s m i j fuel :
  next_alloc (wp s i) = Some j -> next_alloc (wp s j) = Some i ->
  (forall k, k = i \/ k = j -> wp_changed k s m = (Ret None, m)) ->
  wp_check_loop fuel (Some i) s m = (Ret None, m) /\ wp_check_loop fuel (Some j) s m = (Ret None, m).
Proof.
  intros Hi Hj Hc. induction fuel as [|fuel [IHi IHj]]; [done|]. cbn [wp_check_loop]. unfold mbind, M_bind.
  rewrite !Hc by tauto. by rewrite Hi, Hj.
Qed.

