(* ===== verification/Plic.v ===== *)
(** * Plic: the interrupt controller ([device/intr.c]) of a build with one hart

    [plic_base] is the register window that a guest access goes through: a read
    is prepared in it by the handler and then loaded from it, a write is stored
    to it and then handled. Journals and threads are left out. *)
From S2P Require Import Prelude Config Machine Trap Clint Paddr.

Definition PLIC_NDEV : Z := 32.
Definition PLIC_NCTX : Z := 2.
Definition PLIC_NWORDS : Z := (PLIC_NDEV + 32) / 32.

Definition PLIC_PRIORITY_BASE : Z := 0x000000.
Definition PLIC_PENDING_BASE : Z := 0x001000.
Definition PLIC_ENABLE_BASE : Z := 0x002000.
Definition PLIC_ENABLE_STRIDE : Z := 0x80.
Definition PLIC_CONTEXT_BASE : Z := 0x200000.
Definition PLIC_CONTEXT_STRIDE : Z := 0x1000.

#[export] Instance array_zero : Zero (gmap Z Z) := (∅ : gmap Z Z).

Record plic := mk_plic {
  plic_base : gmap Z Z;
  plic_priority : gmap Z Z;
  plic_pending : gmap Z Z;
  plic_enable : gmap Z (gmap Z Z);
  plic_threshold : gmap Z Z;
  plic_claimed : gmap Z Z;
}.
#[export] Instance plic_fields : Fields plic := fun p =>
  mk_plic (plic_base p) (plic_priority p) (plic_pending p) (plic_enable p) (plic_threshold p) (plic_claimed p).
#[export] Instance set_plic_base : Setter plic_base := ltac:(build_setter plic_base).
#[export] Instance set_plic_priority : Setter plic_priority := ltac:(build_setter plic_priority).
#[export] Instance set_plic_pending : Setter plic_pending := ltac:(build_setter plic_pending).
#[export] Instance set_plic_enable : Setter plic_enable := ltac:(build_setter plic_enable).
#[export] Instance set_plic_threshold : Setter plic_threshold := ltac:(build_setter plic_threshold).
#[export] Instance set_plic_claimed : Setter plic_claimed := ltac:(build_setter plic_claimed).

(** The bit of a source in an array of words. *)
Definition source_bit (words : gmap Z Z) (i : Z) : bool := nz (aget words (i / 32) .& (1 << (i mod 32))).

(** A source that is pending, enabled and above a priority. *)
Definition source_above (p : plic) (ctx i prio : Z) : bool :=
  source_bit (plic_pending p) i && source_bit (aget (plic_enable p) ctx) i && (prio <? aget (plic_priority p) i).

Fixpoint irq_loop (n : nat) (i : Z) (p : plic) (ctx : Z) : bool :=
  match n with
  | O => false
  | S n => if source_above p ctx i (aget (plic_threshold p) ctx) then true else irq_loop n (i + 1) p ctx
  end.
Definition has_irq (p : plic) (ctx : Z) : bool := irq_loop (Z.to_nat PLIC_NDEV) 1 p ctx.

Fixpoint claim_loop (n : nat) (i : Z) (p : plic) (ctx best_id best_prio : Z) : Z :=
  match n with
  | O => best_id
  | S n =>
      if source_above p ctx i best_prio then claim_loop n (i + 1) p ctx i (aget (plic_priority p) i)
      else claim_loop n (i + 1) p ctx best_id best_prio
  end.
Definition best_source (p : plic) (ctx : Z) : Z :=
  claim_loop (Z.to_nat PLIC_NDEV) 1 p ctx 0 (aget (plic_threshold p) ctx).

Definition plic_claim (ctx : Z) (p : plic) : Z * plic :=
  let best_id := best_source p ctx in
  if 0 <? best_id then
    let p := p <| plic_pending ::= fun a => aset a (best_id / 32) (aget a (best_id / 32) .& wrap 32 (~~ (1 << (best_id mod 32)))) |> in
    (best_id, p <| plic_claimed ::= fun a => aset a ctx best_id |>)
  else (best_id, p).

(** All registers zero: [init_intr], and the start of a restore. *)
Definition plic_clear (p : plic) : plic :=
  p <| plic_priority := ∅ |> <| plic_pending := ∅ |> <| plic_enable := ∅ |> <| plic_threshold := ∅ |>
    <| plic_claimed := ∅ |>.
Definition init_intr (space : gmap Z Z) : plic := plic_clear (mk_plic space ∅ ∅ ∅ ∅ ∅).

(** The first [n] elements of an array copied into another. *)
Fixpoint copy_array (n : nat) (i : Z) (src dst : gmap Z Z) : gmap Z Z :=
  match n with
  | O => dst
  | S n => copy_array n (i + 1) src (aset dst i (aget src i))
  end.

(** [plic_enable[ctx][0] = enable[ctx]]. *)
Fixpoint copy_enable (n : nat) (ctx : Z) (enable : gmap Z Z) (dst : gmap Z (gmap Z Z)) : gmap Z (gmap Z Z) :=
  match n with
  | O => dst
  | S n => copy_enable n (ctx + 1) enable (aset dst ctx (aset (aget dst ctx) 0 (aget enable ctx)))
  end.

Definition is_zero_array (n : nat) (a : gmap Z Z) : bool := all_from n 0 (fun i => aget a i =? 0).
Definition nemu_plic_reset_state (p : plic) : bool :=
  is_zero_array (Z.to_nat (PLIC_NDEV + 1)) (plic_priority p)
  && is_zero_array (Z.to_nat PLIC_NWORDS) (plic_pending p)
  && all_from (Z.to_nat PLIC_NCTX) 0 (fun ctx =>
       negb (nz (aget (plic_threshold p) ctx) || nz (aget (plic_claimed p) ctx))
       && is_zero_array (Z.to_nat PLIC_NWORDS) (aget (plic_enable p) ctx)).

(** Whether the state can be put into a sample; what is printed is left out. *)
Definition plic_sample_state (p : plic) : bool :=
  is_zero_array (Z.to_nat PLIC_NWORDS) (plic_pending p)
  && is_zero_array (Z.to_nat PLIC_NCTX) (plic_claimed p)
  && negb (nz (aget (plic_priority p) 32) || nz (aget (aget (plic_enable p) 0) 1) || nz (aget (aget (plic_enable p) 1) 1)).

Section Plic.
Context {Cfg : Config}.

(** The line of a context: machine mode for context 0, supervisor mode for 1. *)
Definition plic_update_ctx (p : plic) (ctx : Z) (m : machine) : machine :=
  if ctx .& 1 =? 0 then mip_line (1 << 11) (has_irq p ctx) m
  else
    let m := m <| seip := has_irq p ctx |> in
    setCSR CSR_SIP (riscv_mip_value m .& CSR m CSR_MIDELEG .& word (riscv_supervisor_irq_mask (riscv_isa_extensions m))) m.
Fixpoint update_loop (n : nat) (ctx : Z) (p : plic) (m : machine) : machine :=
  match n with
  | O => m
  | S n => update_loop n (ctx + 1) p (plic_update_ctx p ctx m)
  end.
Definition plic_update_mip (p : plic) (m : machine) : machine := update_loop (Z.to_nat PLIC_NCTX) 0 p m.

(** The change of a register, and the lines after it. *)
Definition plic_changed (p : plic) (m : machine) : plic * machine := (p, plic_update_mip p m).

Definition plic_raise_irq (irq : Z) (p : plic) (m : machine) : plic * machine :=
  if (irq <? 1) || (PLIC_NDEV <? irq) then (p, m)
  else plic_changed (p <| plic_pending ::= fun a => aset a (irq / 32) (aget a (irq / 32) .| (1 << (irq mod 32))) |>) m.

Definition plic_restore_checkpoint (priority : gmap Z Z) (pending : Z) (enable threshold : gmap Z Z) (ndev nctx : Z)
    (p : plic) (m : machine) : plic * machine :=
  let p := plic_clear p in
  let ndev := if PLIC_NDEV <? ndev then PLIC_NDEV else ndev in
  let nctx := if PLIC_NCTX <? nctx then PLIC_NCTX else nctx in
  let p := p <| plic_priority ::= copy_array (Z.to_nat (ndev + 1)) 0 priority |> in
  let p := p <| plic_pending ::= fun a => aset a 0 (pending .& wrap 32 (~~ 1)) |> in
  let p := p <| plic_enable ::= copy_enable (Z.to_nat nctx) 0 enable |>
             <| plic_threshold ::= copy_array (Z.to_nat nctx) 0 threshold |> in
  plic_changed p m.

(** ** The registers *)

(** [*(uint32_t * )(plic_base + offset)] *)
Definition window (offset : Z) (p : plic) : Z := load_bytes (plic_base p) offset 4.
Definition set_window (offset v : Z) (p : plic) : plic := p <| plic_base ::= fun b => store_bytes b offset 4 v |>.

Definition priority_access (offset : Z) (is_write : bool) (p : plic) (m : machine) : plic * machine :=
  let src := (offset - PLIC_PRIORITY_BASE) / 4 in
  if src <=? PLIC_NDEV then
    if is_write then plic_changed (p <| plic_priority ::= fun a => aset a src (window offset p) |>) m
    else (set_window offset (aget (plic_priority p) src) p, m)
  else (p, m).

Definition pending_access (offset : Z) (is_write : bool) (p : plic) (m : machine) : plic * machine :=
  let w := (offset - PLIC_PENDING_BASE) / 4 in
  if is_write then
    let v := window offset p in
    let v := if w =? 0 then v .& wrap 32 (~~ 1) else v in
    plic_changed (p <| plic_pending ::= fun a => aset a w (aget a w .| v) |>) m
  else (set_window offset (aget (plic_pending p) w) p, m).

Definition enable_access (offset : Z) (is_write : bool) (p : plic) (m : machine) : plic * machine :=
  let ctx := (offset - PLIC_ENABLE_BASE) / PLIC_ENABLE_STRIDE in
  let w := ((offset - PLIC_ENABLE_BASE) mod PLIC_ENABLE_STRIDE) / 4 in
  if (ctx <? PLIC_NCTX) && (w <? PLIC_NWORDS) then
    if is_write
    then plic_changed (p <| plic_enable ::= fun a => aset a ctx (aset (aget a ctx) w (window offset p)) |>) m
    else (set_window offset (aget (aget (plic_enable p) ctx) w) p, m)
  else (p, m).

Definition threshold_access (offset ctx : Z) (is_write : bool) (p : plic) (m : machine) : plic * machine :=
  if is_write then plic_changed (p <| plic_threshold ::= fun a => aset a ctx (window offset p) |>) m
  else (set_window offset (aget (plic_threshold p) ctx) p, m).

Definition claim_access (offset ctx : Z) (is_write : bool) (p : plic) (m : machine) : plic * machine :=
  if is_write then
    let id := window offset p in
    plic_changed (if (1 <=? id) && (id <=? PLIC_NDEV) then p <| plic_claimed ::= fun a => aset a ctx 0 |> else p) m
  else
    let '(id, p) := plic_claim ctx p in
    plic_changed (set_window offset id p) m.

Definition context_access (offset : Z) (is_write : bool) (p : plic) (m : machine) : plic * machine :=
  let ctx := (offset - PLIC_CONTEXT_BASE) / PLIC_CONTEXT_STRIDE in
  let reg := (offset - PLIC_CONTEXT_BASE) mod PLIC_CONTEXT_STRIDE in
  if PLIC_NCTX <=? ctx then (p, m)
  else if reg =? 0x0 then threshold_access offset ctx is_write p m
  else if reg =? 0x4 then claim_access offset ctx is_write p m
  else (p, m).

Definition plic_io_handler (offset : Z) (is_write : bool) (p : plic) (m : machine) : plic * machine :=
  if offset <? PLIC_PRIORITY_BASE + (PLIC_NDEV + 1) * 4 then priority_access offset is_write p m
  else if (PLIC_PENDING_BASE <=? offset) && (offset <? PLIC_PENDING_BASE + PLIC_NWORDS * 4)
  then pending_access offset is_write p m
  else if (PLIC_ENABLE_BASE <=? offset) && (offset <? PLIC_ENABLE_BASE + PLIC_NCTX * PLIC_ENABLE_STRIDE)
  then enable_access offset is_write p m
  else if (PLIC_CONTEXT_BASE <=? offset) && (offset <? PLIC_CONTEXT_BASE + PLIC_NCTX * PLIC_CONTEXT_STRIDE)
  then context_access offset is_write p m
  else (p, m).

(** An access of [map_read] and [map_write] to the window: [len] bytes at an offset. *)
Definition plic_read (offset len : Z) (p : plic) (m : machine) : Z * (plic * machine) :=
  let '(p, m) := plic_io_handler offset false p m in
  (load_bytes (plic_base p) offset (Z.to_nat len), (p, m)).
Definition plic_write (offset len data : Z) (p : plic) (m : machine) : plic * machine :=
  let p := p <| plic_base ::= fun b => store_bytes b offset (Z.to_nat len) data |> in
  plic_io_handler offset true p m.

End Plic.
