(* ===== verification/PlicSpec.v ===== *)
(** * PlicSpec: the interrupt controller

    Claiming from a context hands out its deliverable sources in the order of
    priority and number, each once, and lowers the line behind the last; every
    access leaves the lines of the hart in agreement with the registers; a
    raised source with interrupts enabled is the one the hart takes. *)
From Stdlib Require Import Sorting.Sorted.
From S2P Require Import Prelude Config Machine Trap Clint Paddr Plic TrapSpec ClintSpec.

(** ** Sources *)

Definition in_range (i : Z) : Prop := 1 <= i <= PLIC_NDEV.
Definition live (p : plic) (ctx i : Z) : Prop :=
  in_range i /\ source_above p ctx i (aget (plic_threshold p) ctx) = true.

(** Higher priority first, lower number among equals. *)
Definition ahead (p : plic) (i j : Z) : Prop :=
  aget (plic_priority p) j < aget (plic_priority p) i \/
  (aget (plic_priority p) i = aget (plic_priority p) j /\ i < j).

Lemma source_above_iff p ctx i prio :
  source_above p ctx i prio = true <->
  source_bit (plic_pending p) i = true /\ source_bit (aget (plic_enable p) ctx) i = true /\ prio < aget (plic_priority p) i.
Proof. unfold source_above. rewrite !andb_true_iff, Z.ltb_lt. tauto. Qed.

Lemma irq_loop_iff n i p ctx :
  irq_loop n i p ctx = true <->
  exists j, i <= j < i + Z.of_nat n /\ source_above p ctx j (aget (plic_threshold p) ctx) = true.
Proof.
  revert i. induction n as [|n IH]; intros i; cbn [irq_loop]; [split; [done | intros (j & ? & _); lia]|].
  destruct (source_above p ctx i _) eqn:E.
  - split; [intros _; exists i; split; [lia | done] | done].
  - rewrite IH. split; intros (j & Hj & S); exists j; (split; [|done]); [lia|].
    destruct (Z.eq_dec j i) as [->|]; [congruence | lia].
Qed.

Lemma has_irq_iff p ctx : has_irq p ctx = true <-> exists i, live p ctx i.
Proof.
  unfold has_irq. rewrite irq_loop_iff. unfold live, in_range, PLIC_NDEV.
  split; intros (j & H1 & H2); exists j; (split; [lia | done]).
Qed.

Lemma has_irq_false p ctx : has_irq p ctx = false <-> forall i, ~ live p ctx i.
Proof.
  rewrite <-not_true_iff_false, has_irq_iff. split; [intros H i L; apply H; by exists i | by intros H [i L]; apply (H i)].
Qed.

(** What the loop has found before source [i]: nothing above the threshold, or
    the first of the sources seen so far. *)
Definition found (p : plic) (ctx i best prio : Z) : Prop :=
  (best = 0 /\ prio = aget (plic_threshold p) ctx /\ forall j, live p ctx j -> i <= j) \/
  (live p ctx best /\ best < i /\ prio = aget (plic_priority p) best /\
   forall j, live p ctx j -> j < i -> j = best \/ ahead p best j).

Lemma claim_loop_found n i p ctx best prio :
  1 <= i -> i + Z.of_nat n = PLIC_NDEV + 1 -> found p ctx i best prio ->
  found p ctx (PLIC_NDEV + 1) (claim_loop n i p ctx best prio)
    (let b := claim_loop n i p ctx best prio in
     if b =? 0 then aget (plic_threshold p) ctx else aget (plic_priority p) b).
Proof.
  revert i best prio. induction n as [|n IH]; intros i best prio Hi Hn F.
  - cbn [claim_loop]. replace (PLIC_NDEV + 1) with i by lia. cbv zeta.
    destruct F as [(-> & -> & F)|(L & Lt & -> & F)]; [by left|].
    assert (best <> 0) by (destruct L as [[] _]; lia). rewrite (proj2 (Z.eqb_neq best 0)) by done. by right.
  - cbn [claim_loop]. destruct (source_above p ctx i prio) eqn:E; apply IH; try lia.
    + apply source_above_iff in E as (E1 & E2 & E3).
      assert (Hr : in_range i) by (unfold in_range; lia).
      assert (T : aget (plic_threshold p) ctx <= prio).
      { destruct F as [(_ & -> & _)|((_ & L) & _ & -> & _)]; [lia|]. apply source_above_iff in L. lia. }
      right. split_and!; [|lia|done|].
      * split; [done|]. apply source_above_iff. split_and!; [done..|lia].
      * intros j Lj Hj. destruct (Z.eq_dec j i) as [->|]; [by left|]. right. left.
        destruct F as [(_ & _ & F)|(_ & _ & -> & F)]; [specialize (F j Lj); lia|].
        destruct (F j Lj ltac:(lia)) as [->|[?|[? _]]]; lia.
    + destruct F as [(-> & -> & F)|(L & Lt & -> & F)].
      * left. split_and!; [done..|]. intros j Lj. specialize (F j Lj).
        destruct (Z.eq_dec j i) as [->|]; [|lia]. destruct Lj as [_ Lj]. congruence.
      * right. split_and!; [done|lia|done|]. intros j Lj Hj.
        destruct (Z.eq_dec j i) as [->|]; [|apply F; [done|lia]]. right.
        destruct Lj as [_ Lj]. apply source_above_iff in Lj as (E1 & E2 & _).
        assert (aget (plic_priority p) i <= aget (plic_priority p) best).
        { apply Z.nlt_ge. intros K. revert E. apply not_false_iff_true. by apply source_above_iff. }
        destruct (Z.eq_dec (aget (plic_priority p) best) (aget (plic_priority p) i)); [right; lia | left; lia].
Qed.

(** The source a claim returns. *)
Lemma best_source_spec p ctx :
  let b := best_source p ctx in
  (b = 0 /\ forall i, ~ live p ctx i) \/
  (live p ctx b /\ forall i, live p ctx i -> i = b \/ ahead p b i).
Proof.
  cbv zeta. unfold best_source.
  pose proof (claim_loop_found (Z.to_nat PLIC_NDEV) 1 p ctx 0 (aget (plic_threshold p) ctx) ltac:(lia) eq_refl) as F.
  destruct F as [(E & _ & F)|(L & _ & _ & F)].
  - left. split_and!; [done..|]. intros j [[] _]. lia.
  - left. split; [done|]. intros j Lj. specialize (F j Lj). destruct Lj as [[] _]. lia.
  - right. split; [done|]. intros j Lj. apply F; [done|]. destruct Lj as [[] _]. lia.
Qed.

(** Clearing the pending bit of a source leaves the others. *)
Lemma source_bit_clear a i j :
  0 <= i -> 0 <= j ->
  source_bit (aset a (i / 32) (aget a (i / 32) .& wrap 32 (~~ (1 << (i mod 32))))) j
  = source_bit a j && negb (j =? i).
Proof.
  intros Hi Hj. unfold source_bit. rewrite aget_aset.
  pose proof (Z.mod_pos_bound i 32 ltac:(lia)). pose proof (Z.mod_pos_bound j 32 ltac:(lia)).
  pose proof (Z.div_mod i 32 ltac:(lia)). pose proof (Z.div_mod j 32 ltac:(lia)).
  destruct (Z.eqb_spec (i / 32) (j / 32)) as [E|E].
  - rewrite !nz_bit, E, Z.land_spec, testbit_wrap, Z.lnot_spec, testbit_shl1 by lia.
    replace (j mod 32 <? 32) with true by lia. cbn [andb]. do 2 f_equal. lia.
  - replace (j =? i) with false; [by rewrite andb_true_r|]. symmetry. apply Z.eqb_neq. intros ->. lia.
Qed.

Lemma source_bit_set a i j :
  0 <= i -> 0 <= j ->
  source_bit (aset a (i / 32) (aget a (i / 32) .| (1 << (i mod 32)))) j = source_bit a j || (j =? i).
Proof.
  intros Hi Hj. unfold source_bit. rewrite aget_aset.
  pose proof (Z.mod_pos_bound i 32 ltac:(lia)). pose proof (Z.mod_pos_bound j 32 ltac:(lia)).
  pose proof (Z.div_mod i 32 ltac:(lia)). pose proof (Z.div_mod j 32 ltac:(lia)).
  destruct (Z.eqb_spec (i / 32) (j / 32)) as [E|E].
  - rewrite !nz_bit, E, Z.lor_spec, testbit_shl1 by lia. f_equal. lia.
  - replace (j =? i) with false; [by rewrite orb_false_r|]. symmetry. apply Z.eqb_neq. intros ->. lia.
Qed.

(** ** Claims *)

Lemma above_clear p ctx b c i prio :
  1 <= b -> in_range i ->
  source_above ((p <| plic_pending ::= fun a => aset a (b / 32) (aget a (b / 32) .& wrap 32 (~~ (1 << (b mod 32)))) |>)
      <| plic_claimed ::= fun a => aset a ctx b |>) c i prio
  = source_above p c i prio && negb (i =? b).
Proof.
  intros Hb [R _]. unfold source_above. fields. rewrite source_bit_clear by lia.
  destruct (source_bit _ i), (i =? b); cbn; by rewrite ?andb_false_r, ?andb_true_r.
Qed.

Lemma plic_claim_spec ctx p :
  let '(b, p') := plic_claim ctx p in
  (b = 0 /\ p' = p /\ forall i, ~ live p ctx i) \/
  (live p ctx b /\ (forall i, live p ctx i -> i = b \/ ahead p b i) /\
   (forall c i, live p' c i <-> live p c i /\ i <> b) /\ plic_priority p' = plic_priority p).
Proof.
  unfold plic_claim. pose proof (best_source_spec p ctx) as [[-> N]|[L F]]; cbv zeta in *; [by left|].
  assert (B : 1 <= best_source p ctx) by (destruct L as [[] _]; lia).
  rewrite (proj2 (Z.ltb_lt 0 (best_source p ctx))) by lia. right. split_and!; [done..| |done].
  set (b := best_source p ctx) in *. clearbody b. intros c i. unfold live.
  split.
  - intros [R H]. fields_in H. rewrite above_clear in H by done. apply andb_true_iff in H as [H1 H2].
    split; [done|]. intros ->. lia.
  - intros [[R H] Hn]. split; [done|]. fields. rewrite above_clear, H by done. lia.
Qed.

#[export] Instance live_dec p ctx i : Decision (live p ctx i).
Proof. unfold live, in_range. apply _. Defined.
Definition lives (p : plic) (ctx : Z) : list Z := filter (live p ctx) (seqZ 1 PLIC_NDEV).

Lemma elem_of_lives p ctx i : i ∈ lives p ctx <-> live p ctx i.
Proof. unfold lives. rewrite list_elem_of_filter, elem_of_seqZ. unfold live, in_range. intuition lia. Qed.

Lemma lives_shrink p p' ctx b :
  live p ctx b -> (forall i, live p' ctx i <-> live p ctx i /\ i <> b) -> (length (lives p' ctx) < length (lives p ctx))%nat.
Proof.
  intros L H. assert (E : lives p' ctx = filter (fun i => i <> b) (lives p ctx)).
  { unfold lives. rewrite list_filter_filter. apply list_filter_iff. intros i. rewrite H. tauto. }
  rewrite E. apply (length_filter_lt _ _ b); [by apply elem_of_lives | by intros []].
Qed.

Section Lines.
Context {Cfg : Config}.

(** The line of a context at the hart. *)
Definition line (ctx : Z) (m : machine) : bool := if ctx =? 0 then Z.testbit (CSR m CSR_MIP) 11 else seip m.

(** The two rounds of the loop. *)
Lemma update_rounds p m :
  plic_update_mip p m =
  let m := mip_line (1 << 11) (has_irq p 0) m in
  let m := m <| seip := has_irq p 1 |> in
  setCSR CSR_SIP (riscv_mip_value m .& CSR m CSR_MIDELEG .& word (riscv_supervisor_irq_mask (riscv_isa_extensions m))) m.
Proof. done. Qed.

Lemma update_line p m ctx : 0 <= ctx < PLIC_NCTX -> line ctx (plic_update_mip p m) = has_irq p ctx.
Proof.
  intros H. unfold PLIC_NCTX in H. rewrite update_rounds.
  assert (ctx = 0 \/ ctx = 1) as [-> | ->] by lia; unfold line; cbn [Z.eqb]; cbv zeta; mach; [|done].
  by rewrite mip_line_testbit by lia.
Qed.

Definition claim_register (ctx : Z) : Z := PLIC_CONTEXT_BASE + ctx * PLIC_CONTEXT_STRIDE + 4.

(** Reading the claim register is a claim. *)
Lemma read_claim ctx p m :
  0 <= ctx < PLIC_NCTX ->
  plic_read (claim_register ctx) 4 p m =
  let '(id, p') := plic_claim ctx p in
  let p' := set_window (claim_register ctx) id p' in (wrap 32 id, (p', plic_update_mip p' m)).
Proof.
  intros H. unfold PLIC_NCTX in H.
  assert (E : plic_io_handler (claim_register ctx) false p m = claim_access (claim_register ctx) ctx false p m)
    by (assert (ctx = 0 \/ ctx = 1) as [-> | ->] by lia; done).
  unfold plic_read. rewrite E. unfold claim_access. destruct (plic_claim ctx p) as [id p']. unfold plic_changed.
  f_equal. unfold set_window. change (plic_base (upd _ ?f ?q)) with (f (plic_base q)). apply load_store_bytes.
Qed.

(** A handler that claims until there is nothing left. *)
Fixpoint drain (n : nat) (ctx : Z) (p : plic) (m : machine) : option (list Z * (plic * machine)) :=
  match n with
  | O => None
  | S n =>
      let '(id, (p, m)) := plic_read (claim_register ctx) 4 p m in
      if id =? 0 then Some ([], (p, m)) else '(l, s) ← drain n ctx p m; Some (id :: l, s)
  end.

Definition drained (ctx : Z) (p : plic) (r : option (list Z * (plic * machine))) : Prop :=
  exists l p' m', r = Some (l, (p', m')) /\ StronglySorted (ahead p) l /\
    (forall i, i ∈ l <-> live p ctx i) /\ (forall c i, live p' c i <-> live p c i /\ i ∉ l) /\
    line ctx m' = false.

Lemma drain_drained n ctx p m :
  0 <= ctx < PLIC_NCTX -> (length (lives p ctx) < n)%nat -> drained ctx p (drain n ctx p m).
Proof.
  intros Hc. revert p m. induction n as [|n IH]; intros p m Hn; [lia|]. cbn [drain].
  rewrite read_claim by done. pose proof (plic_claim_spec ctx p) as S. destruct (plic_claim ctx p) as [b p1].
  cbv zeta. set (p2 := set_window (claim_register ctx) b p1).
  assert (L2 : forall c i, live p2 c i <-> live p1 c i) by done.
  destruct S as [(-> & -> & N)|(L & F & S & P)].
  - exists [], p2, (plic_update_mip p2 m). split_and!; [done|constructor|..].
    + intros i. rewrite elem_of_nil. split; [done | by intros Li%N].
    + intros c i. rewrite L2, elem_of_nil. tauto.
    + rewrite update_line by done. apply has_irq_false. intros i. rewrite L2. apply N.
  - assert (B : 1 <= b <= 32) by (destruct L as [R _]; exact R).
    rewrite wrap_small by (unfold fits; lia). rewrite (proj2 (Z.eqb_neq b 0)) by lia.
    specialize (IH p2 (plic_update_mip p2 m)).
    pose proof (lives_shrink p p2 ctx b L (S ctx)) as Hl.
    destruct (IH ltac:(lia)) as (l & p' & m' & -> & Hs & He & Ha & Hline). cbn [mbind option_bind].
    assert (A : ahead p2 = ahead p) by (unfold ahead; change (plic_priority p2) with (plic_priority p1); by rewrite P).
    rewrite A in Hs. exists (b :: l), p', m'. split_and!; [done| | | |done].
    + constructor; [exact Hs|]. apply List.Forall_forall. intros i Hi%list_elem_of_In. apply He in Hi.
      rewrite L2, S in Hi. destruct Hi as [Hi Hne]. by destruct (F i Hi) as [->|?].
    + intros i. rewrite elem_of_cons, He, L2, S. split; [by intros [->|[? _]]|]. intros Hi.
      destruct (Z.eq_dec i b); [by left | by right].
    + intros c i. rewrite Ha, L2, S, not_elem_of_cons. tauto.
Qed.

(** C13: An interrupt handler that reads the claim register until it reads 0 gets
    the sources that are pending, enabled and above the threshold of its context,
    each once, by falling priority and rising number; 33 reads are enough. The
    line of the context is low afterwards, and no other source has changed. *)
Theorem plic_drain ctx p m : 0 <= ctx < PLIC_NCTX -> drained ctx p (drain 33 ctx p m).
Proof.
  intros H. apply drain_drained; [done|]. unfold lives.
  eapply Nat.le_lt_trans; [apply length_filter|]. rewrite length_seqZ. unfold PLIC_NDEV. lia.
Qed.

(** ** The lines agree with the registers *)

Record coherent (p : plic) (m : machine) : Prop := {
  co_lines : forall ctx, 0 <= ctx < PLIC_NCTX -> line ctx m = has_irq p ctx;
  co_sip : CSR m CSR_SIP = riscv_mip_value m .& CSR m CSR_MIDELEG .& word (riscv_supervisor_irq_mask (riscv_isa_extensions m));
}.

Lemma mip_value_SIP v m : riscv_mip_value (setCSR CSR_SIP v m) = riscv_mip_value m.
Proof.
  unfold riscv_mip_value, sstc_enabled, riscv_virtual_timer_pending, h_enabled.
  destruct CONFIG_RV64; by mach.
Qed.

Lemma update_coherent p m : coherent p (plic_update_mip p m).
Proof.
  split; [intros ctx; apply update_line|]. rewrite update_rounds. cbv zeta. rewrite mip_value_SIP. by mach.
Qed.

Lemma has_irq_base p f ctx : has_irq (p <| plic_base ::= f |>) ctx = has_irq p ctx.
Proof.
  unfold has_irq. generalize 1 (Z.to_nat PLIC_NDEV). intros i n. revert i.
  induction n as [|n IH]; intros i; [done|]. cbn [irq_loop]. by rewrite IH.
Qed.

(** What an access may do: change registers and bring the lines up to date, or
    change the window only. *)
Inductive settled (p : plic) (m : machine) : plic * machine -> Prop :=
  | settled_changed p' : settled p m (plic_changed p' m)
  | settled_window f : settled p m (p <| plic_base ::= f |>, m)
  | settled_same : settled p m (p, m).
#[local] Hint Constructors settled : core.

Lemma settled_coherent p m r : settled p m r -> coherent p m -> coherent r.1 r.2.
Proof.
  intros [p'|f|] C; [apply update_coherent| |done]. destruct C as [L S].
  split; [|done]. intros ctx H. cbn [fst snd]. rewrite has_irq_base. by apply L.
Qed.

Lemma handler_settled offset w p m : settled p m (plic_io_handler offset w p m).
Proof.
  unfold plic_io_handler, priority_access, pending_access, enable_access, context_access, threshold_access, claim_access.
  unfold set_window. cbv zeta. destruct (plic_claim _ p) as [id p'].
  repeat case_match; auto.
Qed.

(** What can happen to the controller of a running machine. *)
Inductive plic_event : plic * machine -> plic * machine -> Prop :=
  | ev_raise irq p m : plic_event (p, m) (plic_raise_irq irq p m)
  | ev_read offset len p m : plic_event (p, m) (plic_read offset len p m).2
  | ev_write offset len data p m : plic_event (p, m) (plic_write offset len data p m)
  | ev_restore priority pending enable threshold ndev nctx p m :
      plic_event (p, m) (plic_restore_checkpoint priority pending enable threshold ndev nctx p m).

(** C14: The interrupt lines of the hart agree with the registers of the controller
    whatever happens to it: after any sequence of raised sources, reads and writes
    of any width at any offset, and restored checkpoints, the machine line is high
    exactly when context 0 has a source pending, enabled and above its threshold,
    the supervisor line exactly when context 1 has one, and [sip] shows it. *)
Theorem plic_lines_coherent p m p' m' :
  coherent p m -> rtc plic_event (p, m) (p', m') -> coherent p' m'.
Proof.
  intros C R. change (coherent (p', m').1 (p', m').2). remember (p', m') as s' eqn:E. clear E.
  change p with (p, m).1 in C at 1. change m with (p, m).2 in C at 2. revert C.
  induction R as [|s1 s2 s3 S _ IH]; [done|]. intros C. apply IH. clear IH. destruct S; cbn [fst snd] in C.
  - unfold plic_raise_irq. destruct (_ || _); [done|]. apply update_coherent.
  - pose proof (handler_settled offset false p0 m0) as H. unfold plic_read.
    destruct (plic_io_handler _ _ _ _) as [p1 m1]. by apply (settled_coherent _ _ _ H).
  - unfold plic_write. cbv zeta. apply (settled_coherent _ _ _ (handler_settled _ _ _ _)).
    by apply (settled_coherent _ _ _ (settled_window p0 m0 _)).
  - apply update_coherent.
Qed.

(** ** From a source to the trap *)

Lemma raise_live irq p m :
  in_range irq -> source_bit (aget (plic_enable p) 0) irq = true -> aget (plic_threshold p) 0 < aget (plic_priority p) irq ->
  exists p', plic_raise_irq irq p m = plic_changed p' m /\ has_irq p' 0 = true.
Proof.
  intros R E T. unfold plic_raise_irq. assert (B : 1 <= irq <= 32) by exact R. unfold PLIC_NDEV.
  rewrite (proj2 (Z.ltb_ge irq 1)), (proj2 (Z.ltb_ge 32 irq)) by lia. cbn [orb].
  eexists. split; [done|]. apply has_irq_iff. exists irq. split; [done|].
  apply source_above_iff. fields. rewrite source_bit_set by lia. split_and!; [|done..].
  by rewrite Z.eqb_refl, orb_true_r.
Qed.

Lemma virtual_mask_11 m : Z.testbit (word (riscv_virtual_irq_mask (riscv_isa_extensions m))) 11 = false.
Proof.
  pose proof xlen_pos. unfold riscv_virtual_irq_mask, word. rewrite testbit_wrap by lia.
  destruct (riscv_h_gstage_preview_enabled _); by rewrite andb_false_r.
Qed.

Lemma external_taken m :
  interrupts_enabled m = true -> Z.testbit (CSR m CSR_MIP) 11 = true -> Z.testbit (CSR m CSR_MIE) 11 = true ->
  Z.testbit (CSR m CSR_MIDELEG) 11 = false ->
  (priv m < PRV_M \/ (priv m = PRV_M /\ get_mie (CSR m CSR_MSTATUS) <> 0)) -> isa_query_intr m = MCA_MAC_EXT_INT.
Proof.
  intros He Hp Hm Hd Ht. rewrite isa_query_intr_find by done. unfold interrupt_sources, interrupt_order.
  cbn [app List.find fst]. enough (takeable m 11 = true) as -> by done.
  unfold takeable. rewrite Z.land_spec, Hm, (mip_bit_machine m 11) by auto. cbn [andb].
  unfold can_take_interrupt. cbv zeta. rewrite Z.land_comm, !nz_bit, virtual_mask_11, Hd by lia.
  destruct Ht as [L|[-> L]]; [by rewrite (proj2 (Z.ltb_lt _ _) L)|]. by rewrite Z.eqb_refl, (proj2 (nz_true _) L), orb_true_r.
Qed.

(** From a device to the trap. Raising a source that the machine context has
    enabled above its threshold makes the hart take the machine external
    interrupt, if that is enabled and not delegated. *)
Theorem plic_raise_taken irq p m :
  in_range irq -> source_bit (aget (plic_enable p) 0) irq = true -> aget (plic_threshold p) 0 < aget (plic_priority p) irq ->
  interrupts_enabled m = true -> Z.testbit (CSR m CSR_MIE) 11 = true -> Z.testbit (CSR m CSR_MIDELEG) 11 = false ->
  (priv m < PRV_M \/ (priv m = PRV_M /\ get_mie (CSR m CSR_MSTATUS) <> 0)) ->
  isa_query_intr (plic_raise_irq irq p m).2 = MCA_MAC_EXT_INT.
Proof.
  intros R E T Hi Hm Hd Hp. destruct (raise_live irq p m R E T) as (p' & -> & H). unfold plic_changed. cbn [snd].
  pose proof (update_line p' m 0 ltac:(done)) as L. rewrite H in L. rewrite update_rounds in *. cbv zeta in *.
  unfold line in L. cbn [Z.eqb] in L. unfold mip_line in *. apply external_taken; [..|exact L| | |]; revert Hi Hm Hd Hp; unfold interrupts_enabled; mach; try done.
Qed.

End Lines.

(** ** Witnesses: sources 3, 7 and 10 are enabled, 10 at a higher priority *)

Definition example_plic : plic :=
  (init_intr ∅) <| plic_priority := aset (aset (aset ∅ 3 2) 7 2) 10 5 |>
    <| plic_enable := aset ∅ 0 (aset ∅ 0 0x488) |> <| plic_threshold := aset ∅ 0 1 |>.
Definition pending_plic : plic := example_plic <| plic_pending := aset ∅ 0 0x4088 |>.
(** The hart runs a user program with the external interrupt enabled. *)
Definition listening : machine := user_machine <| nemu_md_interrupts := true |>.

Lemma plic_drain_witness :
  exists p' m', drain (Cfg := riscv64_ref) 33 0 (pending_plic <| plic_pending := aset ∅ 0 0x4488 |>) listening = Some ([10; 3; 7], (p', m'))
    /\ line 0 m' = false.
Proof.
  set (p := pending_plic <| plic_pending := aset ∅ 0 0x4488 |>).
  destruct (plic_drain (Cfg := riscv64_ref) 0 p listening) as (l & p' & m' & E & _ & _ & _ & L); [by split|].
  exists p', m'. split; [|exact L]. rewrite E. do 2 f_equal.
  assert (K : option_map fst (drain (Cfg := riscv64_ref) 33 0 p listening) = Some [10; 3; 7]) by (vm_compute; reflexivity).
  rewrite E in K. by injection K.
Defined.

Lemma reset_coherent : coherent (Cfg := riscv64_ref) (init_intr ∅) machine_init.
Proof.
  split; [|vm_compute; reflexivity]. intros ctx H. unfold PLIC_NCTX in H.
  assert (ctx = 0 \/ ctx = 1) as [-> | ->] by lia; vm_compute; reflexivity.
Qed.

Lemma plic_lines_coherent_witness :
  let s := plic_write (Cfg := riscv64_ref) 0x2000 4 0x400 (init_intr ∅) machine_init in
  coherent (Cfg := riscv64_ref) s.1 s.2.
Proof.
  cbv zeta. eapply (plic_lines_coherent (Cfg := riscv64_ref)); [exact reset_coherent|].
  rewrite <-surjective_pairing. apply rtc_once. apply ev_write.
Defined.

Lemma plic_raise_taken_witness :
  isa_query_intr (Cfg := riscv64_ref) (plic_raise_irq (Cfg := riscv64_ref) 10 example_plic listening).2 = @MCA_MAC_EXT_INT riscv64_ref.
Proof.
  apply (plic_raise_taken (Cfg := riscv64_ref)); try (vm_compute; reflexivity); [by split|]. left. vm_compute. reflexivity.
Defined.
