(* ===== verification/Vme.v ===== *)
(** * Vme: the page tables that the guest kernel builds ([am/src/riscv/nemu/vme.c]
    of the abstract machine and [nanos-lite/src/mm.c]), for the 32-bit guest

    The kernel runs without translation, so that its pointers are physical
    addresses: its memory is the byte map of the simulated machine. *)
From S2P Require Import Prelude Paddr.

Definition PGSIZE : Z := 4096.

(** [PTE_*] of [arch/riscv.h]. *)
Definition PTE_V : Z := 0x01.
Definition PTE_R : Z := 0x02.
Definition PTE_W : Z := 0x04.
Definition PTE_X : Z := 0x08.
Definition PTE_U : Z := 0x10.
Definition PTE_A : Z := 0x40.
Definition PTE_D : Z := 0x80.

(** The memory of the guest and [pf], the first page not handed out. *)
Record kernel := mk_kernel { kmem : gmap Z Z; pf : Z }.
#[export] Instance kernel_fields : Fields kernel := fun s => mk_kernel (kmem s) (pf s).
#[export] Instance set_kmem : Setter kmem := ltac:(build_setter kmem).
#[export] Instance set_pf : Setter pf := ltac:(build_setter pf).

(** [PTE *]: element [i] of a table. *)
Definition get_pte (s : kernel) (table i : Z) : Z := load_bytes (kmem s) (table + 4 * i) 4.
Definition set_pte (table i v : Z) (s : kernel) : kernel := s <| kmem ::= fun b => store_bytes b (table + 4 * i) 4 v |>.

(** [memset] to zero and [memcpy]. *)
Fixpoint zero_bytes (n : nat) (p : Z) (b : gmap Z Z) : gmap Z Z :=
  match n with
  | O => b
  | S n => zero_bytes n (p + 1) (aset b p 0)
  end.
Fixpoint copy_bytes (n : nat) (dst src : Z) (b : gmap Z Z) : gmap Z Z :=
  match n with
  | O => b
  | S n => copy_bytes n (dst + 1) (src + 1) (aset b dst (aget b src))
  end.

(** ** Pages *)

Definition new_page (nr_page : Z) (s : kernel) : Z * kernel := (pf s, s <| pf := wrap 32 (pf s + nr_page * PGSIZE) |>).

(** [None] when the assertion on a null page fails. *)
Definition pg_alloc (n : Z) (s : kernel) : option (Z * kernel) :=
  let page_num := (n + PGSIZE - 1) / PGSIZE in
  let '(p, s) := new_page page_num s in
  if p =? 0 then None else Some (p, s <| kmem ::= zero_bytes (Z.to_nat n) p |>).

(** [init_mm] without the call of [vme_init]: the first page at or above the heap. *)
Definition init_pf (heap_start : Z) (mem : gmap Z Z) : kernel :=
  mk_kernel mem (wrap 32 (wrap 32 (heap_start + (PGSIZE - 1)) .& wrap 32 (~~ (PGSIZE - 1)))).

(** ** [map] *)

Definition VPN1 (va : Z) : Z := va >> 22.
Definition VPN0 (va : Z) : Z := (va >> 12) .& 0x3ff.

(** [pdir[vpn1] == NULL]: a new second-level table. *)
Definition map_table (pdir vpn1 : Z) (s : kernel) : option kernel :=
  if get_pte s pdir vpn1 =? 0 then
    '(l1, s) ← pg_alloc PGSIZE s; Some (set_pte pdir vpn1 ((l1 >> 2) .| PTE_V) s)
  else Some s.

(** [(pdir[vpn1] << 2) & ~0xfff] *)
Definition table_of (pde : Z) : Z := wrap 32 (pde << 2) .& wrap 32 (~~ 0xfff).

Definition leaf_pte (pa prot : Z) : Z :=
  let ppn1 := pa >> 22 in
  let ppn0 := (pa >> 12) .& 0x3ff in
  wrap 32 (ppn1 << 20) .| (ppn0 << 10) .| prot .| PTE_V.

Definition map (pdir va pa prot : Z) (s : kernel) : option kernel :=
  let vpn1 := VPN1 va in
  s ← map_table pdir vpn1 s;
  let pte1 := table_of (get_pte s pdir vpn1) in
  Some (set_pte pte1 (VPN0 va) (leaf_pte pa prot) s).

(** [n] pages from [va] to the pages from [pa]: the loops of [mm_brk], of the
    loader and of the user stack. *)
Fixpoint map_pages (n : nat) (i pdir va pa prot : Z) (s : kernel) : option kernel :=
  match n with
  | O => Some s
  | S n =>
      s ← map pdir (wrap 32 (va + i * PGSIZE)) (wrap 32 (pa + i * PGSIZE)) prot s;
      map_pages n (i + 1) pdir va pa prot s
  end.

(** ** [vme_init] *)

(** [NEMU_PADDR_SPACE]: the memory, the frame buffer and the devices; the linker
    places [_pmem_start]. *)
Definition PMEM_SIZE : Z := 128 * 1024 * 1024.
Definition MMIO_BASE : Z := 0x00000000.
Definition FB_ADDR : Z := MMIO_BASE + 0x1000000.
Definition segments (_pmem_start : Z) : list (Z * Z) :=
  [(_pmem_start, _pmem_start + PMEM_SIZE); (FB_ADDR, FB_ADDR + 0x200000); (MMIO_BASE, MMIO_BASE + 0x1000)].

Definition KERNEL_PROT : Z := PTE_A .| PTE_D .| PTE_R .| PTE_W .| PTE_U.

(** The loop over a segment, [n] pages at most. *)
Fixpoint map_segment (n : nat) (va bound pdir : Z) (s : kernel) : option kernel :=
  match n with
  | O => Some s
  | S n => if va <? bound then s ← map pdir va va KERNEL_PROT s; map_segment n (va + PGSIZE) bound pdir s else Some s
  end.
Definition segment_pages (seg : Z * Z) : nat := Z.to_nat ((snd seg - fst seg + PGSIZE - 1) / PGSIZE).
Fixpoint map_segments (l : list (Z * Z)) (pdir : Z) (s : kernel) : option kernel :=
  match l with
  | [] => Some s
  | seg :: l => s ← map_segment (segment_pages seg) (fst seg) (snd seg) pdir s; map_segments l pdir s
  end.

(** Returns [kas.ptr]. *)
Definition vme_init (_pmem_start : Z) (s : kernel) : option (Z * kernel) :=
  '(kas, s) ← pg_alloc PGSIZE s;
  s ← map_segments (segments _pmem_start) kas s;
  Some (kas, s).

(** [set_satp]: the value of [satp]. *)
Definition satp_value (pdir : Z) : Z := (1 << 31) .| (pdir >> 12).

(** ** Address spaces *)

Definition USER_START : Z := 0x40000000.
Definition USER_END : Z := 0x80000000.

(** A new directory with the kernel's entries. *)
Definition protect (kas : Z) (s : kernel) : option (Z * kernel) :=
  '(updir, s) ← pg_alloc PGSIZE s;
  Some (updir, s <| kmem ::= copy_bytes (Z.to_nat PGSIZE) updir kas |>).

(** The stack of a program: eight pages below the end of user space. *)
Definition map_ustack (pdir : Z) (s : kernel) : option (Z * kernel) :=
  let '(ustack, s) := new_page 8 s in
  s ← map_pages 8 0 pdir (USER_END - 8 * PGSIZE) ustack KERNEL_PROT s;
  Some (ustack, s).

(** [mm_brk] of the program with directory [pdir]; returns its new [max_brk]. *)
Definition mm_brk (pdir max_brk brk : Z) (s : kernel) : option (Z * kernel) :=
  let page_num := signed 32 (wrap 32 (brk + PGSIZE - 1) / PGSIZE) in
  if (page_num =? 0) || (signed 32 brk <? 0) then Some (max_brk, s)
  else
    let '(pg, s) := new_page page_num s in
    s ← map_pages (Z.to_nat page_num) 0 pdir max_brk pg KERNEL_PROT s;
    Some (wrap 32 (max_brk + page_num * PGSIZE), s).
