(* ===== verification/VmeSpec.v ===== *)
(** * VmeSpec: the page tables of the guest kernel

    The kernel keeps its tables apart: every second-level table belongs to one
    slot of one directory. [map] therefore changes one page of one address space;
    the simulator's own Sv32 walk finds what was mapped; programs cannot change
    each other's address space or the kernel's. *)
From S2P Require Import Prelude Config Hoare Machine Pmp PmpSpec Paddr Mmu MmuSpec Vme.

(** ** Arithmetic of pages *)

(** The address of a page below 4 GiB. *)
Record page (p : Z) : Prop := { page_aligned : p mod 4096 = 0; page_range : 0 < p < 2 ^ 32 }.

Lemma page_bit p i : page p -> 0 <= i < 12 -> Z.testbit p i = false.
Proof.
  intros [A _] Hi. rewrite (Z.div_mod p 4096), A, Z.add_0_r, Z.mul_comm by lia.
  change 4096 with (2 ^ 12). by rewrite Z.mul_pow2_bits_low by lia.
Qed.

Lemma page_apart p q a b i j :
  page p -> page q -> p <> q -> 0 <= i < 1024 -> 0 <= j < 1024 -> p + 4 * i <= a < p + 4 * i + 4 ->
  q + 4 * j <= b < q + 4 * j + 4 -> a <> b.
Proof.
  intros [A _] [B _] N Hi Hj Ha Hb. apply Z.mod_divide in A as [u ->], B as [v ->]; lia.
Qed.

(** Within a page or outside of it. *)
Lemma page_disjoint p q a : page p -> page q -> p <> q -> p <= a < p + 4096 -> ~ (q <= a < q + 4096).
Proof. intros [A _] [B _] N Ha Hb. apply Z.mod_divide in A as [u ->], B as [v ->]; lia. Qed.

(** A directory entry names its table. *)
Definition pde (t : Z) : Z := (t >> 2) .| PTE_V.

Lemma pde_fits t : page t -> fits 32 (pde t).
Proof.
  intros [_ [H0 H1]]. unfold pde. apply fits_lor; [lia| |split; vm_compute; congruence].
  apply fits_shiftr; [lia..|]. split; [lia|done].
Qed.

Lemma pde_nonzero t : pde t <> 0.
Proof. intros E. apply (f_equal (fun x => Z.testbit x 0)) in E. unfold pde in E. by rewrite Z.lor_spec, orb_true_r in E. Qed.

Lemma table_of_pde t : page t -> table_of (pde t) = t.
Proof.
  intros P. assert (F : fits 32 t) by (destruct P as [_ []]; split; [lia|done]).
  unfold table_of, pde. change 0xfff with (Z.ones 12). change PTE_V with (1 << 0).
  apply Z.bits_inj'. intros i Hi. rewrite Z.land_spec, !testbit_wrap, Z.lnot_spec, testbit_ones by lia.
  destruct (Z.ltb_spec i 32).
  - destruct (Z.ltb_spec i 12); [cbn; rewrite andb_false_r; symmetry; apply page_bit; [done|lia]|].
    rewrite Z.shiftl_spec, Z.lor_spec, Z.shiftr_spec, testbit_shl1 by lia.
    replace (i - 2 =? 0) with false by lia. cbn. rewrite andb_true_r, orb_false_r. f_equal. lia.
  - cbn. symmetry. by apply (testbit_high 32).
Qed.

Lemma pde_inj t u : page t -> page u -> pde t = pde u -> t = u.
Proof. intros P Q E. by rewrite <-(table_of_pde t P), E, table_of_pde. Qed.

(** ** Bytes *)

Lemma aget_zero_bytes n p b a :
  aget (zero_bytes n p b) a = if (p <=? a) && (a <? p + Z.of_nat n) then 0 else aget b a.
Proof.
  revert p b. induction n as [|n IH]; intros p b; cbn [zero_bytes].
  - destruct (Z.leb_spec p a), (Z.ltb_spec a (p + Z.of_nat 0)); cbn; done || lia.
  - rewrite IH, aget_aset. destruct (Z.leb_spec (p + 1) a), (Z.leb_spec p a), (Z.eqb_spec p a),
      (Z.ltb_spec a (p + 1 + Z.of_nat n)), (Z.ltb_spec a (p + Z.of_nat (S n))); cbn; done || lia.
Qed.

Lemma aget_copy_bytes n dst src b a :
  dst + Z.of_nat n <= src \/ src + Z.of_nat n <= dst ->
  aget (copy_bytes n dst src b) a = if (dst <=? a) && (a <? dst + Z.of_nat n) then aget b (src + (a - dst)) else aget b a.
Proof.
  revert dst src b. induction n as [|n IH]; intros dst src b D; cbn [copy_bytes].
  - destruct (Z.leb_spec dst a), (Z.ltb_spec a (dst + Z.of_nat 0)); cbn; done || lia.
  - rewrite IH by lia. rewrite !aget_aset.
    destruct (Z.leb_spec (dst + 1) a), (Z.leb_spec dst a), (Z.eqb_spec dst a), (Z.eqb_spec dst (src + 1 + (a - (dst + 1)))),
      (Z.ltb_spec a (dst + 1 + Z.of_nat n)), (Z.ltb_spec a (dst + Z.of_nat (S n))); cbn; try lia; try (f_equal; lia); done.
Qed.

(** Tables with the same bytes have the same entries. *)
Lemma get_pte_ext s s' t i :
  (forall a, t <= a < t + 4096 -> aget (kmem s') a = aget (kmem s) a) -> 0 <= i < 1024 -> get_pte s' t i = get_pte s t i.
Proof. intros H Hi. apply load_bytes_ext. intros b Hb. apply H. change (Z.of_nat 4) with 4 in Hb. lia. Qed.

Lemma get_set_pte s t i v : fits 32 v -> get_pte (set_pte t i v s) t i = v.
Proof. intros F. unfold get_pte, set_pte. fields. rewrite load_store_bytes. by apply wrap_small. Qed.

Lemma get_set_pte_ne s t i v t' i' :
  page t -> page t' -> 0 <= i < 1024 -> 0 <= i' < 1024 -> t <> t' \/ i <> i' ->
  get_pte (set_pte t i v s) t' i' = get_pte s t' i'.
Proof.
  intros P P' Hi Hi' N. unfold get_pte, set_pte. fields. apply load_bytes_ext. intros b Hb.
  change (Z.of_nat 4) with 4 in Hb. apply store_bytes_other. change (Z.of_nat 4) with 4. intros Hb'.
  destruct (Z.eq_dec t t') as [->|Nt]; [lia|]. by apply (page_apart t t' b b i i').
Qed.

Lemma get_pte_zero s t i :
  (forall a, t <= a < t + 4096 -> aget (kmem s) a = 0) -> 0 <= i < 1024 -> get_pte s t i = 0.
Proof.
  intros H Hi. unfold get_pte. rewrite (load_bytes_ext _ ∅); [by vm_compute|].
  intros b Hb. change (Z.of_nat 4) with 4 in Hb. rewrite H by lia. done.
Qed.

(** ** The layout of the tables *)

(** Where the heap of the kernel starts. *)
Section Heap.
Context (low : Z).

(** What a page is used for: a directory, or the table of a slot of a directory. *)
Inductive role := Directory | Table (d i : Z).

Definition user_slot (i : Z) : bool := (VPN1 USER_START <=? i) && (i <? VPN1 USER_END).
Definition slot (i : Z) : Prop := 0 <= i < 1024.

(** The directory whose table fills a slot: user space belongs to the program,
    all the rest to the kernel. *)
Definition owner (kas d i : Z) : Z := if user_slot i then d else kas.

(** A leaf as the kernel makes them: readable, accessed and dirty. *)
Definition good_leaf (pte : Z) : Prop :=
  Z.testbit pte 1 = true /\ Z.testbit pte 6 = true /\ Z.testbit pte 7 = true.

Record layout (R : gmap Z role) (kas : Z) (dirs : list Z) (s : kernel) : Prop := {
  ly_pf : page (pf s);
  ly_page p r : R !! p = Some r -> page p /\ p + 4096 <= pf s;
  ly_low : low <= pf s;
  ly_heap p r : R !! p = Some r -> low <= p;
  ly_dir d : d ∈ dirs <-> R !! d = Some Directory;
  ly_entry d i : d ∈ dirs -> slot i ->
    get_pte s d i = 0 \/ exists t, get_pte s d i = pde t /\ R !! t = Some (Table (owner kas d i) i);
  ly_leaf t d i j : R !! t = Some (Table d i) -> slot j -> Z.testbit (get_pte s t j) 0 = true -> good_leaf (get_pte s t j);
  ly_linked t d i : R !! t = Some (Table d i) -> slot i /\ exists d', d' ∈ dirs /\ get_pte s d' i = pde t;
  ly_bytes a : fits 8 (aget (kmem s) a);
}.

(** The leaf entry of an address. *)
Definition lookup_pte (s : kernel) (d va : Z) : option Z :=
  let e := get_pte s d (VPN1 va) in
  if e =? 0 then None
  else
    let pte := get_pte s (table_of e) (VPN0 va) in
    if Z.testbit pte 0 then Some pte else None.

Lemma vpn1_slot va : fits 32 va -> slot (VPN1 va).
Proof. intros F. apply (shiftr_fits_lt 10 22); [lia..|exact F]. Qed.
Lemma vpn0_slot va : slot (VPN0 va).
Proof. unfold VPN0. change 0x3ff with (Z.ones 10). by apply (wrap_fits 10). Qed.

(** Two addresses are on the same page. *)
Lemma same_page va va' : (va >> 12 =? va' >> 12) = (VPN1 va =? VPN1 va') && (VPN0 va =? VPN0 va').
Proof.
  unfold VPN1, VPN0. change 22 with (12 + 10). rewrite <-!(Z.shiftr_shiftr _ 12 10) by lia.
  generalize (va >> 12) (va' >> 12). intros x y. change 0x3ff with (Z.ones 10). rewrite !Z.land_ones, !Z.shiftr_div_pow2 by lia.
  change (2 ^ 10) with 1024. destruct (Z.eqb_spec x y) as [->|N]; [by rewrite !Z.eqb_refl|].
  destruct (Z.eqb_spec (x / 1024) (y / 1024)), (Z.eqb_spec (x mod 1024) (y mod 1024)); [|done..].
  exfalso. apply N. rewrite (Z.div_mod x 1024), (Z.div_mod y 1024) by lia. congruence.
Qed.

(** The new leaf. *)
Lemma leaf_pte_fits pa prot : fits 32 pa -> fits 8 prot -> fits 32 (leaf_pte pa prot).
Proof.
  intros Fa Fp. unfold leaf_pte. cbv zeta. repeat apply fits_lor; try lia; [by apply wrap_fits| | |split; vm_compute; congruence].
  - change 0x3ff with (Z.ones 10). pose proof (wrap_fits 10 (pa >> 12) ltac:(lia)) as [H0 H1]. unfold wrap in *.
    unfold fits. rewrite Z.shiftl_mul_pow2 by lia. split; [lia|]. change (2 ^ 10) with 1024 in *. lia.
  - apply (fits_le 8); [lia..|done].
Qed.

Lemma leaf_pte_bit pa prot i : 0 <= i < 10 -> Z.testbit (leaf_pte pa prot) i = Z.testbit prot i || (i =? 0).
Proof.
  intros Hi. unfold leaf_pte. cbv zeta. rewrite !Z.lor_spec, testbit_wrap, !Z.shiftl_spec by lia.
  rewrite (Z.testbit_neg_r (pa >> 22)), (Z.testbit_neg_r (_ .& 0x3ff)) by lia. rewrite andb_false_r. cbn [orb].
  change PTE_V with (1 << 0). by rewrite testbit_shl1 by lia.
Qed.

Section Layout.
Context (kas : Z).

Lemma layout_dir_page R dirs s d : layout R kas dirs s -> d ∈ dirs -> page d /\ d + 4096 <= pf s.
Proof. intros L Hd. eapply ly_page; [done|]. by apply (ly_dir R kas dirs s). Qed.

Lemma dir_role R dirs s d : layout R kas dirs s -> d ∈ dirs -> R !! d = Some Directory.
Proof. intros L Hd. by apply (ly_dir R kas dirs s L). Qed.

(** Two states that show the same mappings, entry by entry but for one slot. *)
Definition agree (dirs : list Z) (s s' : kernel) : Prop :=
  (forall d i, d ∈ dirs -> slot i -> get_pte s' d i = get_pte s d i) /\
  forall d va, d ∈ dirs -> fits 32 va -> lookup_pte s' d va = lookup_pte s d va.

Lemma agree_trans dirs s1 s2 s3 : agree dirs s1 s2 -> agree dirs s2 s3 -> agree dirs s1 s3.
Proof. intros [A1 A2] [B1 B2]. split; intros; [rewrite B1, A1 | rewrite B2, A2]; done. Qed.

(** The state with other contents in pages without a role. *)
Lemma layout_ext R dirs s s' :
  layout R kas dirs s -> page (pf s') -> pf s <= pf s' -> (forall a, fits 8 (aget (kmem s') a)) ->
  (forall p r a, R !! p = Some r -> p <= a < p + 4096 -> aget (kmem s') a = aget (kmem s) a) ->
  layout R kas dirs s' /\ agree dirs s s'.
Proof.
  intros L P Hp F E.
  assert (G : forall p r i, R !! p = Some r -> slot i -> get_pte s' p i = get_pte s p i)
    by (intros p r i Hr Hi; apply get_pte_ext; [intros a; by apply (E p r)|done]).
  assert (Gd : forall d i, d ∈ dirs -> slot i -> get_pte s' d i = get_pte s d i)
    by (intros d i Hd Hi; apply (G d Directory); [by apply (dir_role R dirs s)|done]).
  split; [split; try done|split; [done|]].
  - intros p r Hr. destruct (ly_page _ _ _ _ L p r Hr). split; [done|lia].
  - pose proof (ly_low _ _ _ _ L). lia.
  - apply (ly_heap _ _ _ _ L).
  - apply (ly_dir _ _ _ _ L).
  - intros d i Hd Hi. rewrite Gd by done. by apply (ly_entry _ _ _ _ L).
  - intros t d i j Ht Hj. rewrite (G t _ j Ht Hj). by eapply (ly_leaf R kas dirs s L).
  - intros t d i Ht. destruct (ly_linked R kas dirs s L t d i Ht) as (Hi & d' & Hd' & E'). split; [done|].
    exists d'. by rewrite Gd.
  - intros d va Hd Hv. unfold lookup_pte. rewrite Gd by (done || by apply vpn1_slot).
    destruct (ly_entry _ _ _ _ L d (VPN1 va) Hd (vpn1_slot va Hv)) as [->|(t & -> & Ht)]; [done|].
    rewrite table_of_pde by (by eapply (ly_page R kas dirs s L)). by rewrite (G t _ _ Ht (vpn0_slot va)).
Qed.

(** The slot of a directory that nothing else shares. *)
Definition own_slot (dirs : list Z) (d i : Z) : Prop :=
  owner kas d i = d /\ forall d', d' ∈ dirs -> d' <> d -> owner kas d' i <> d.

(** A new page of zeros. *)
Lemma pg_alloc_ok R dirs s :
  layout R kas dirs s -> pf s + 4096 < 2 ^ 32 ->
  exists s', pg_alloc PGSIZE s = Some (pf s, s') /\ pf s' = pf s + 4096 /\ R !! pf s = None /\ layout R kas dirs s' /\
    (forall a, pf s <= a < pf s + 4096 -> aget (kmem s') a = 0) /\ agree dirs s s'.
Proof.
  intros L B. pose proof (ly_pf _ _ _ _ L) as P. destruct P as [A [P0 P1]].
  unfold pg_alloc, new_page. change ((PGSIZE + PGSIZE - 1) / PGSIZE) with 1. cbv zeta.
  rewrite (proj2 (Z.eqb_neq (pf s) 0)) by lia. unfold PGSIZE in *.
  rewrite wrap_small by (lia || (split; lia)).
  eexists. split; [done|]. cbv beta.
  set (s' := upd kmem _ _). assert (Ep : pf s' = pf s + 4096) by (unfold s'; fields; lia).
  assert (Em : forall a, aget (kmem s') a = if (pf s <=? a) && (a <? pf s + 4096) then 0 else aget (kmem s) a).
  { intros a. unfold s'. fields. rewrite aget_zero_bytes. done. }
  clearbody s'.
  assert (N : R !! pf s = None).
  { destruct (R !! pf s) as [r|] eqn:E; [|done]. destruct (ly_page _ _ _ _ L _ _ E). lia. }
  assert (K : layout R kas dirs s' /\ agree dirs s s').
  { apply layout_ext; [done| |lia| |].
    - split; [|lia]. rewrite Ep, <-Z.add_mod_idemp_r, Z.add_0_r by lia. done.
    - intros a. rewrite Em. destruct (_ && _); [by split|]. by eapply ly_bytes.
    - intros p r a Hr Ha. destruct (ly_page _ _ _ _ L _ _ Hr). rewrite Em.
      destruct (Z.leb_spec (pf s) a); [|done]. lia. }
  split_and!; [done|done|apply K| |apply K].
  intros a Ha. rewrite Em. by destruct (Z.leb_spec (pf s) a), (Z.ltb_spec a (pf s + 4096)); try lia.
Qed.

(** Writing an entry of a page with a role. *)
Lemma set_pte_bytes R dirs s t i v :
  layout R kas dirs s -> forall a, fits 8 (aget (kmem (set_pte t i v s)) a).
Proof. intros L. unfold set_pte. fields. apply store_bytes_fits. by eapply ly_bytes. Qed.

Lemma get_set_role R dirs s t r i v t' r' i' :
  layout R kas dirs s -> R !! t = Some r -> R !! t' = Some r' -> slot i -> slot i' -> t <> t' \/ i <> i' ->
  get_pte (set_pte t i v s) t' i' = get_pte s t' i'.
Proof.
  intros L Ht Ht' Hi Hi' N. apply get_set_pte_ne; try done; by eapply ly_page.
Qed.

(** A new table in an empty slot of its owner changes no mapping. *)
Lemma link_table_ok R dirs s d i p :
  layout R kas dirs s -> d ∈ dirs -> slot i -> own_slot dirs d i -> get_pte s d i = 0 ->
  page p -> low <= p -> p + 4096 <= pf s -> R !! p = None -> (forall a, p <= a < p + 4096 -> aget (kmem s) a = 0) ->
  let s' := set_pte d i (pde p) s in
  layout (<[p := Table d i]> R) kas dirs s' /\ get_pte s' d i = pde p /\
  (forall d' j, d' ∈ dirs -> slot j -> d' <> d \/ j <> i -> get_pte s' d' j = get_pte s d' j) /\
  forall d' va, d' ∈ dirs -> fits 32 va -> lookup_pte s' d' va = lookup_pte s d' va.
Proof.
  intros L Hd Hi [Ho Hs] He Pp Hlow Hp Np Z0 s'.
  pose proof (dir_role R dirs s d L Hd) as Rd.
  assert (Pd : page d) by (by eapply (ly_page R kas dirs s L)).
  assert (Npd : p <> d) by congruence.
  assert (G : forall t r j, R !! t = Some r -> slot j -> t <> d \/ j <> i -> get_pte s' t j = get_pte s t j)
    by (intros t r j Ht Hj N; apply (get_set_role R dirs s d Directory i _ t r j); try done; naive_solver).
  assert (Gs : forall d' j, d' ∈ dirs -> slot j -> d' <> d \/ j <> i -> get_pte s' d' j = get_pte s d' j)
    by (intros d' j Hd'; apply (G d' Directory); by apply (dir_role R dirs s)).
  assert (Gd : get_pte s' d i = pde p) by (apply get_set_pte; by apply pde_fits).
  assert (Gp : forall j, slot j -> get_pte s' p j = 0).
  { intros j Hj. unfold s'. rewrite get_set_pte_ne by (done || by left; congruence). by apply get_pte_zero. }
  split_and!; [split|done|done|].
  - by apply (ly_pf R kas dirs s L).
  - intros q r. rewrite lookup_insert_Some. intros [[<- _]|[_ Hr]]; [done|]. by eapply (ly_page R kas dirs s L).
  - by apply (ly_low R kas dirs s L).
  - intros q r. rewrite lookup_insert_Some. intros [[<- _]|[_ Hr]]; [done|]. by eapply (ly_heap R kas dirs s L).
  - intros d'. rewrite lookup_insert_Some, (ly_dir R kas dirs s L). split; [|by intros [[_ ?]|[_ ?]]].
    intros H. right. split; [|done]. intros ->. by rewrite H in Np.
  - intros d' j Hd' Hj. destruct (decide (d' = d /\ j = i)) as [[-> ->]|N].
    + right. exists p. rewrite lookup_insert_eq, Ho. by split.
    + rewrite Gs by (done || naive_solver lia).
      destruct (ly_entry R kas dirs s L d' j Hd' Hj) as [E|(t & E & Ht)]; [by left|]. right. exists t. split; [done|].
      rewrite lookup_insert_ne; [done | by intros ->; rewrite Ht in Np].
  - intros t d' j k. rewrite lookup_insert_Some. intros [[<- _]|[_ Ht]] Hk.
    + rewrite (Gp k Hk). intros K. by rewrite Z.bits_0 in K.
    + rewrite (G t (Table d' j)); [by eapply (ly_leaf R kas dirs s L)|done..|]. left. intros ->. by rewrite Rd in Ht.
  - intros t d' j. rewrite lookup_insert_Some. intros [[<- [= <- <-]]|[_ Ht]]; [split; [done|]; by exists d|].
    destruct (ly_linked R kas dirs s L t d' j Ht) as (Hj & d0 & Hd0 & E). split; [done|]. exists d0. split; [done|].
    rewrite Gs; [done..|]. destruct (Z.eq_dec d0 d) as [->|]; [|by left]. right. intros ->.
    rewrite E in He. by apply pde_nonzero in He.
  - by apply (set_pte_bytes R dirs).
  - intros d' va Hd' Hv. unfold lookup_pte. pose proof (vpn1_slot va Hv) as Hs1.
    destruct (decide (d' = d /\ VPN1 va = i)) as [[-> ->]|N].
    + rewrite Gd, He, table_of_pde by done. rewrite (proj2 (Z.eqb_neq _ 0)) by apply pde_nonzero.
      rewrite Gp by apply vpn0_slot. done.
    + rewrite Gs by (done || naive_solver lia).
      destruct (ly_entry R kas dirs s L d' (VPN1 va) Hd' Hs1) as [->|(t & -> & Ht)]; [done|].
      rewrite table_of_pde by (by eapply (ly_page R kas dirs s L)).
      rewrite (G t _ _ Ht (vpn0_slot va)); [done|]. left. intros ->. by rewrite Rd in Ht.
Qed.

(** Writing a leaf changes the mapping of its page in the directory that owns it. *)
Lemma set_leaf_ok R dirs s d va t v :
  layout R kas dirs s -> d ∈ dirs -> fits 32 va -> own_slot dirs d (VPN1 va) ->
  get_pte s d (VPN1 va) = pde t -> R !! t = Some (Table d (VPN1 va)) ->
  fits 32 v -> Z.testbit v 0 = true -> good_leaf v ->
  let s' := set_pte t (VPN0 va) v s in
  layout R kas dirs s' /\
  (forall d' j, d' ∈ dirs -> slot j -> get_pte s' d' j = get_pte s d' j) /\
  forall d' va', d' ∈ dirs -> fits 32 va' ->
    lookup_pte s' d' va' = if (d =? d') && (va >> 12 =? va' >> 12) then Some v else lookup_pte s d' va'.
Proof.
  intros L Hd Hv [Ho Hs] He Rt Fv V0 Good s'. pose proof (vpn0_slot va) as Hj. pose proof (vpn1_slot va Hv) as Hi.
  assert (G : forall u r j, R !! u = Some r -> slot j -> t <> u \/ VPN0 va <> j -> get_pte s' u j = get_pte s u j)
    by (intros u r j Hu Hj' N; by apply (get_set_role R dirs s t (Table d (VPN1 va)) _ _ u r j)).
  assert (Gd : forall d' i, d' ∈ dirs -> slot i -> get_pte s' d' i = get_pte s d' i).
  { intros d' i Hd' Hi'. pose proof (dir_role R dirs s d' L Hd') as Rd. apply (G d' Directory); [done..|].
    left. intros ->. by rewrite Rd in Rt. }
  split; [split|split; [done|]].
  - by apply (ly_pf R kas dirs s L).
  - by eapply (ly_page R kas dirs s L).
  - by apply (ly_low R kas dirs s L).
  - by eapply (ly_heap R kas dirs s L).
  - by apply (ly_dir R kas dirs s L).
  - intros d' i Hd' Hi'. rewrite Gd by done. by apply (ly_entry R kas dirs s).
  - intros u d' i j Hu Hj'. destruct (decide (t = u /\ VPN0 va = j)) as [[<- <-]|N].
    + unfold s'. rewrite get_set_pte by done. done.
    + rewrite (G u (Table d' i)) by (done || naive_solver lia). by eapply (ly_leaf R kas dirs s L).
  - intros u d' i Hu. destruct (ly_linked R kas dirs s L u d' i Hu) as (Hi' & d0 & Hd0 & E). split; [done|].
    exists d0. by rewrite Gd.
  - by apply (set_pte_bytes R dirs).
  - intros d' va' Hd' Hv'. unfold lookup_pte. rewrite Gd by (done || by apply vpn1_slot).
    rewrite same_page. pose proof (vpn0_slot va') as Hj'.
    destruct (ly_entry R kas dirs s L d' (VPN1 va') Hd' (vpn1_slot va' Hv')) as [E|(u & E & Hu)].
    + rewrite E. cbn [Z.eqb]. destruct (Z.eqb_spec d d') as [<-|], (Z.eqb_spec (VPN1 va) (VPN1 va')) as [Ei|]; try done.
      exfalso. rewrite <-Ei, He in E. by apply pde_nonzero in E.
    + rewrite E, table_of_pde by (by eapply (ly_page R kas dirs s L)). rewrite (proj2 (Z.eqb_neq _ 0)) by apply pde_nonzero.
      destruct (decide (t = u)) as [<-|N].
      * rewrite Rt in Hu. injection Hu as Ed Ei. rewrite <-Ei in Ed.
        assert (d' = d) as -> by (destruct (Z.eq_dec d' d) as [|Nd]; [done|]; by destruct (Hs d' Hd' Nd)).
        rewrite Z.eqb_refl, Ei, Z.eqb_refl. cbn [andb].
        destruct (Z.eqb_spec (VPN0 va) (VPN0 va')) as [<-|N].
        { unfold s'. rewrite get_set_pte, V0 by done. done. }
        rewrite (G t (Table d (VPN1 va))) by (done || by right). done.
      * rewrite (G u _ _ Hu Hj') by (by left).
        destruct (Z.eqb_spec d d') as [<-|], (Z.eqb_spec (VPN1 va) (VPN1 va')) as [Ei|]; try done.
        exfalso. apply N. rewrite <-Ei, He in E. apply pde_inj in E; [done|by eapply (ly_page R kas dirs s L)..].
Qed.

(** [map] changes the mapping of one page in one directory. *)
Definition good_prot (prot : Z) : Prop := fits 8 prot /\ good_leaf prot.

Lemma map_ok R dirs s d va pa prot :
  layout R kas dirs s -> d ∈ dirs -> fits 32 va -> own_slot dirs d (VPN1 va) -> pf s + 4096 < 2 ^ 32 ->
  fits 32 pa -> good_prot prot ->
  exists R' s', map d va pa prot s = Some s' /\ layout R' kas dirs s' /\ pf s <= pf s' <= pf s + 4096 /\
    (forall d' j, d' ∈ dirs -> slot j -> d' <> d \/ j <> VPN1 va -> get_pte s' d' j = get_pte s d' j) /\
    (forall d' va', d' ∈ dirs -> fits 32 va' ->
       lookup_pte s' d' va' = if (d =? d') && (va >> 12 =? va' >> 12) then Some (leaf_pte pa prot) else lookup_pte s d' va').
Proof.
  intros L Hd Hv Own B Fa [Fp Good]. pose proof (vpn1_slot va Hv) as Hi.
  assert (T : exists R1 s1 t, map_table d (VPN1 va) s = Some s1 /\ layout R1 kas dirs s1 /\ pf s <= pf s1 <= pf s + 4096 /\
    get_pte s1 d (VPN1 va) = pde t /\ R1 !! t = Some (Table d (VPN1 va)) /\
    (forall d' j, d' ∈ dirs -> slot j -> d' <> d \/ j <> VPN1 va -> get_pte s1 d' j = get_pte s d' j) /\
    (forall d' va', d' ∈ dirs -> fits 32 va' -> lookup_pte s1 d' va' = lookup_pte s d' va')).
  { unfold map_table. destruct (Z.eqb_spec (get_pte s d (VPN1 va)) 0) as [E0|N0].
    - destruct (pg_alloc_ok R dirs s L B) as (s1 & -> & Ep & Np & L1 & Z1 & [A1 A2]).
      destruct (ly_page R kas dirs s L d _ (dir_role R dirs s d L Hd)) as [_ Bd].
      destruct (link_table_ok R dirs s1 d (VPN1 va) (pf s) L1 Hd Hi Own) as (L2 & E2 & G2 & K2); try done.
      + by rewrite A1.
      + by apply (ly_pf R kas dirs s).
      + by apply (ly_low R kas dirs s).
      + lia.
      + exists (<[pf s := Table d (VPN1 va)]> R), (set_pte d (VPN1 va) (pde (pf s)) s1), (pf s).
        split_and!; [done|done|cbn; change (pf (set_pte _ _ _ _)) with (pf s1); lia|change (pf (set_pte _ _ _ _)) with (pf s1); lia|done|by rewrite lookup_insert_eq| |].
        * intros d' j Hd' Hj N. by rewrite G2, A1.
        * intros d' va' Hd' Hv'. by rewrite K2, A2.
    - destruct (ly_entry R kas dirs s L d (VPN1 va) Hd Hi) as [|(t & E & Ht)]; [done|].
      exists R, s, t. destruct Own as [Ho _]. rewrite Ho in Ht. split_and!; try done; lia. }
  destruct T as (R1 & s1 & t & E1 & L1 & P1 & D1 & Rt & G1 & K1). unfold map. rewrite E1. cbn [mbind option_bind].
  rewrite D1, table_of_pde by (by eapply (ly_page R1 kas dirs s1 L1)).
  assert (V0 : forall i, 0 <= i < 8 -> Z.testbit prot i = true -> Z.testbit (leaf_pte pa prot) i = true)
    by (intros i Hi' H; by rewrite leaf_pte_bit, H by lia).
  destruct (set_leaf_ok R1 dirs s1 d va t (leaf_pte pa prot) L1 Hd Hv Own D1 Rt) as (L2 & G2 & K2).
  { by apply leaf_pte_fits. }
  { by rewrite leaf_pte_bit, orb_true_r by lia. }
  { destruct Good as (H1 & H6 & H7). split_and!; apply V0; done || lia. }
  exists R1, (set_pte t (VPN0 va) (leaf_pte pa prot) s1). split_and!; [done|done|apply P1|apply P1| |].
  - intros d' j Hd' Hj N. by rewrite G2, G1.
  - intros d' va' Hd' Hv'. by rewrite K2, K1.
Qed.

(** A page with entries for the right tables becomes a directory. *)
Lemma add_directory R dirs s p :
  layout R kas dirs s -> page p -> low <= p -> p + 4096 <= pf s -> R !! p = None ->
  (forall i, slot i -> get_pte s p i = 0 \/ exists t, get_pte s p i = pde t /\ R !! t = Some (Table (owner kas p i) i)) ->
  layout (<[p := Directory]> R) kas (p :: dirs) s.
Proof.
  intros L Pp Hlow Bp Np He. split.
  - by apply (ly_pf R kas dirs s L).
  - intros q r. rewrite lookup_insert_Some. intros [[<- _]|[_ Hr]]; [done|]. by eapply (ly_page R kas dirs s L).
  - by apply (ly_low R kas dirs s L).
  - intros q r. rewrite lookup_insert_Some. intros [[<- _]|[_ Hr]]; [done|]. by eapply (ly_heap R kas dirs s L).
  - intros d. rewrite elem_of_cons, lookup_insert_Some, (ly_dir R kas dirs s L). split.
    + intros [->|H]; [by left|]. destruct (Z.eq_dec p d); [by left | by right].
    + intros [[-> _]|[_ H]]; [by left | by right].
  - intros d i Hd Hi. assert (E : get_pte s d i = 0 \/ exists t, get_pte s d i = pde t /\ R !! t = Some (Table (owner kas d i) i)).
    { apply elem_of_cons in Hd as [->|Hd]; [by apply He | by apply (ly_entry R kas dirs s L)]. }
    destruct E as [E|(t & E & Ht)]; [by left|]. right. exists t. split; [done|].
    rewrite lookup_insert_ne; [done|]. intros ->. by rewrite Ht in Np.
  - intros t d i j. rewrite lookup_insert_Some. intros [[_ [=]]|[_ Ht]]. by eapply (ly_leaf R kas dirs s L).
  - intros t d i. rewrite lookup_insert_Some. intros [[_ [=]]|[_ Ht]].
    destruct (ly_linked R kas dirs s L t d i Ht) as (Hi & d' & Hd' & E). split; [done|]. exists d'. split; [by right|done].
  - by apply (ly_bytes R kas dirs s L).
Qed.

End Layout.

(** ** The kernel's own mappings *)

Lemma owner_kas kas i : owner kas kas i = kas.
Proof. unfold owner. by destruct (user_slot i). Qed.

Lemma own_kas kas i : own_slot kas [kas] kas i.
Proof. split; [apply owner_kas|]. intros d' ->%list_elem_of_singleton N. done. Qed.

Lemma shift12 x : x >> 12 = x / 4096.
Proof. by rewrite Z.shiftr_div_pow2. Qed.

(** The addresses of an aligned page. *)
Lemma on_page va va' : va mod 4096 = 0 -> (va >> 12 =? va' >> 12) = (va <=? va') && (va' <? va + 4096).
Proof.
  intros A. rewrite !shift12. apply Z.mod_divide in A as [k ->]; [|lia]. rewrite Z.div_mul by lia.
  pose proof (Z.div_mod va' 4096 ltac:(lia)). pose proof (Z.mod_pos_bound va' 4096 ltac:(lia)).
  destruct (Z.eqb_spec k (va' / 4096)), (Z.leb_spec (k * 4096) va'), (Z.ltb_spec va' (k * 4096 + 4096)); cbn; done || lia.
Qed.

Lemma leaf_pte_page pa pa' prot : pa >> 12 = pa' >> 12 -> leaf_pte pa prot = leaf_pte pa' prot.
Proof.
  intros E. unfold leaf_pte. change 22 with (12 + 10). rewrite <-!(Z.shiftr_shiftr _ 12 10), E by lia. done.
Qed.

Lemma kernel_prot_good : good_prot KERNEL_PROT.
Proof. by repeat split. Qed.

Lemma user_slot_range va : user_slot (VPN1 va) = (USER_START <=? va) && (va <? USER_END).
Proof.
  unfold user_slot, VPN1. rewrite !Z.shiftr_div_pow2 by lia. change (2 ^ 22) with 4194304.
  change (USER_START / 4194304) with 256. change (USER_END / 4194304) with 512. unfold USER_START, USER_END.
  pose proof (Z.div_mod va 4194304 ltac:(lia)). pose proof (Z.mod_pos_bound va 4194304 ltac:(lia)).
  destruct (Z.leb_spec 256 (va / 4194304)), (Z.ltb_spec (va / 4194304) 512),
    (Z.leb_spec 0x40000000 va), (Z.ltb_spec va 0x80000000); cbn; done || lia.
Qed.

Definition in_segment (seg : Z * Z) (va : Z) : bool := (fst seg <=? va) && (va <? snd seg).

(** Page-aligned, within 32 bits and out of user space. *)
Record kernel_segment (seg : Z * Z) : Prop := {
  ks_start : fst seg mod 4096 = 0;
  ks_end : snd seg mod 4096 = 0;
  ks_range : 0 <= fst seg <= snd seg /\ snd seg <= 2 ^ 32;
  ks_space : snd seg <= USER_START \/ USER_END <= fst seg;
}.

(** What mapping a set of addresses to themselves makes of the kernel's tables. *)
Definition identity_mapped (kas : Z) (here : Z -> bool) (s s' : kernel) : Prop :=
  (forall j, slot j -> user_slot j = true -> get_pte s' kas j = get_pte s kas j) /\
  forall va, fits 32 va -> lookup_pte s' kas va = if here va then Some (leaf_pte va KERNEL_PROT) else lookup_pte s kas va.

Lemma map_segment_ok kas n va bound R s :
  layout R kas [kas] s -> kernel_segment (va, bound) -> bound <= va + 4096 * Z.of_nat n -> pf s + 4096 * Z.of_nat n < 2 ^ 32 ->
  exists R' s', map_segment n va bound kas s = Some s' /\ layout R' kas [kas] s' /\
    pf s <= pf s' <= pf s + 4096 * Z.of_nat n /\ identity_mapped kas (in_segment (va, bound)) s s'.
Proof.
  revert va R s. induction n as [|n IH]; intros va R s L K Hn B; cbn [map_segment].
  - exists R, s. split_and!; [done|done|lia|lia|split; [done|]]. intros va' Hv'. unfold in_segment. cbn [fst snd].
    by destruct (Z.leb_spec va va'), (Z.ltb_spec va' bound); try lia.
  - destruct K as [K1 K2 [K3 K4] K5]. cbn [fst snd] in *. destruct (Z.ltb_spec va bound) as [Lt|Ge].
    + assert (Fv : fits 32 va) by (split; lia). assert (Hu : user_slot (VPN1 va) = false) by (rewrite user_slot_range; lia).
      destruct (map_ok kas R [kas] s kas va va KERNEL_PROT L) as (R1 & s1 & E1 & L1 & P1 & G1 & H1);
        [by left|done|apply own_kas|lia|done|apply kernel_prot_good|].
      assert (W : bound mod 4096 = 0 -> va + 4096 <= bound).
      { intros Hb. apply Z.mod_divide in K1 as [u ->], Hb as [w ->]; lia. }
      destruct (IH (va + PGSIZE) R1 s1 L1) as (R2 & s2 & E2 & L2 & P2 & G2 & H2).
      { split; cbn [fst snd]; unfold PGSIZE; [|done|split; [specialize (W K2)|]; lia|lia].
        rewrite <-Z.add_mod_idemp_r, Z.add_0_r by lia. done. }
      { unfold PGSIZE. lia. }
      { lia. }
      exists R2, s2. rewrite E1. cbn [mbind option_bind]. rewrite E2. split_and!; [done|done|lia|lia|split].
      * intros j Hj Hu'. rewrite G2, G1; [done|by left|done| |done..]. right. congruence.
      * intros va' Hv'. rewrite H2, H1, Z.eqb_refl, (on_page va va' K1) by (done || by left).
        cbn [andb]. unfold in_segment, PGSIZE. cbn [fst snd]. specialize (W K2).
        destruct (Z.leb_spec (va + 4096) va'), (Z.leb_spec va va'), (Z.ltb_spec va' (va + 4096)), (Z.ltb_spec va' bound);
          cbn [andb]; try done; try lia. f_equal. apply leaf_pte_page. apply Z.eqb_eq. rewrite on_page by done. lia.
    + exists R, s. split_and!; [done|done|lia|lia|split; [done|]]. intros va' Hv'. unfold in_segment. cbn [fst snd].
      by destruct (Z.leb_spec va va'), (Z.ltb_spec va' bound); try lia.
Qed.

Fixpoint total_pages (l : list (Z * Z)) : Z :=
  match l with [] => 0 | seg :: l => Z.of_nat (segment_pages seg) + total_pages l end.

Lemma map_segments_ok kas l R s :
  layout R kas [kas] s -> Forall kernel_segment l -> pf s + 4096 * total_pages l < 2 ^ 32 ->
  exists R' s', map_segments l kas s = Some s' /\ layout R' kas [kas] s' /\
    pf s <= pf s' <= pf s + 4096 * total_pages l /\
    identity_mapped kas (fun va => existsb (fun seg => in_segment seg va) l) s s'.
Proof.
  revert R s. induction l as [|[a b] l IH]; intros R s L F B; cbn [map_segments total_pages fst snd] in *.
  - exists R, s. split_and!; done || lia.
  - apply Forall_cons in F as [K F]. assert (T0 : 0 <= total_pages l) by (clear; induction l; cbn; lia).
    destruct (map_segment_ok kas (segment_pages (a, b)) a b R s L K) as (R1 & s1 & E1 & L1 & P1 & G1 & H1).
    { unfold segment_pages, PGSIZE. cbn [fst snd]. destruct K as [_ _ [? _] _]. cbn [fst snd] in *.
      rewrite Z2Nat.id by (apply Z.div_pos; lia).
      pose proof (Z.div_mod (b - a + 4096 - 1) 4096 ltac:(lia)). pose proof (Z.mod_pos_bound (b - a + 4096 - 1) 4096 ltac:(lia)). lia. }
    { lia. }
    destruct (IH R1 s1 L1 F ltac:(lia)) as (R2 & s2 & E2 & L2 & P2 & G2 & H2).
    exists R2, s2. rewrite E1. cbn [mbind option_bind]. split_and!; [done|done|lia|lia|split].
    + intros j Hj Hu. by rewrite G2, G1.
    + intros va Hv. rewrite H2, H1 by done. cbn [existsb]. by destruct (in_segment (a, b) va), (existsb _ l).
Qed.

(** The kernel before it has a page table. *)
Record fresh (s : kernel) : Prop := {
  fr_pf : page (pf s);
  fr_bytes a : fits 8 (aget (kmem s) a);
  fr_low : low <= pf s;
  fr_room : pf s + 4096 * 33282 < 2 ^ 32;
}.

(** The linker places the memory of the kernel above user space. *)
Definition pmem_placed (_pmem_start : Z) : Prop :=
  _pmem_start mod 4096 = 0 /\ USER_END <= _pmem_start /\ _pmem_start + PMEM_SIZE <= 2 ^ 32.

Definition kernel_space (_pmem_start va : Z) : bool := existsb (fun seg => in_segment seg va) (segments _pmem_start).

Lemma segments_ok pm : pmem_placed pm -> Forall kernel_segment (segments pm).
Proof.
  intros (A & B & C). unfold segments, PMEM_SIZE, USER_END, FB_ADDR, MMIO_BASE in *.
  repeat (apply Forall_cons; split); [..|by apply Forall_nil]; split; cbn [fst snd]; try done; try (split; lia); try (right; done);
    try (left; done).
  rewrite <-Z.add_mod_idemp_r by lia. by rewrite Z.add_0_r.
Qed.

Lemma segments_pages pm : total_pages (segments pm) = 33281.
Proof.
  unfold segments. cbn [total_pages]. unfold segment_pages. cbn [fst snd].
  rewrite !Z.add_simpl_l. replace (pm + PMEM_SIZE - pm) with PMEM_SIZE by lia. by vm_compute.
Qed.

Lemma vme_init_layout pm s :
  pmem_placed pm -> fresh s ->
  exists R kas s', vme_init pm s = Some (kas, s') /\ layout R kas [kas] s' /\ pf s' <= pf s + 4096 * 33282 /\
    (forall i, slot i -> user_slot i = true -> get_pte s' kas i = 0) /\
    forall va, fits 32 va -> lookup_pte s' kas va = if kernel_space pm va then Some (leaf_pte va KERNEL_PROT) else None.
Proof.
  intros Hpm [P F Lo B]. set (kas := pf s).
  assert (L0 : layout ∅ kas [] s).
  { split; try done; try (by intros ? ? ?%elem_of_nil). intros d. rewrite elem_of_nil. by split. }
  destruct (pg_alloc_ok kas ∅ [] s L0 ltac:(lia)) as (s1 & E1 & P1 & N1 & L1 & Z1 & _).
  assert (G1 : forall i, slot i -> get_pte s1 kas i = 0) by (intros i; by apply get_pte_zero).
  assert (L2 : layout (<[kas := Directory]> ∅) kas [kas] s1).
  { apply add_directory; try done; [unfold kas; lia|]. intros i Hi. left. by apply G1. }
  destruct (map_segments_ok kas (segments pm) _ s1 L2) as (R3 & s3 & E3 & L3 & B3 & G3 & H3).
  { by apply segments_ok. }
  { rewrite segments_pages. lia. }
  rewrite segments_pages in B3. exists R3, kas, s3. split_and!; [|done|unfold kas in *; lia| |].
  - unfold vme_init. rewrite E1. cbn [mbind option_bind]. fold kas. by rewrite E3.
  - intros i Hi Hu. rewrite G3 by done. by apply G1.
  - intros va Hv. rewrite H3 by done. unfold kernel_space. destruct (existsb _ _); [done|].
    unfold lookup_pte. by rewrite G1 by by apply vpn1_slot.
Qed.

(** ** The kernel and its programs *)

Record os := mk_os { os_kernel : kernel; os_kas : Z; os_dirs : list Z }.

(** What is a table of some address space. *)
Definition is_table (o : os) (p : Z) : Prop :=
  p ∈ os_dirs o ++ [os_kas o] \/
  exists d i, d ∈ os_dirs o ++ [os_kas o] /\ slot i /\ get_pte (os_kernel o) d i = pde p.

Inductive event := Protect | MapPage (d va pa prot : Z) | NewPage (n : Z) | Store (a v : Z) (n : nat).

(** The kernel makes an address space, maps a page of user space, hands out pages
    or lets anything be stored outside of its tables. It does not look whether
    there is memory left: that there is, is assumed. *)
Inductive os_step : os -> event -> os -> Prop :=
  | step_protect s kas ds d s' :
      pf s + 4096 < 2 ^ 32 -> protect kas s = Some (d, s') -> os_step (mk_os s kas ds) Protect (mk_os s' kas (d :: ds))
  | step_map s kas ds d va pa prot s' :
      d ∈ ds -> USER_START <= va < USER_END -> fits 32 pa -> good_prot prot -> pf s + 4096 < 2 ^ 32 ->
      map d va pa prot s = Some s' -> os_step (mk_os s kas ds) (MapPage d va pa prot) (mk_os s' kas ds)
  | step_new_page s kas ds n :
      0 <= n -> pf s + n * 4096 < 2 ^ 32 -> os_step (mk_os s kas ds) (NewPage n) (mk_os (snd (new_page n s)) kas ds)
  | step_store s kas ds a v n :
      (forall p, is_table (mk_os s kas ds) p -> a + Z.of_nat n <= p \/ p + 4096 <= a) ->
      os_step (mk_os s kas ds) (Store a v n) (mk_os (s <| kmem ::= fun b => store_bytes b a n v |>) kas ds).

Inductive reachable (_pmem_start : Z) : os -> Prop :=
  | reach_init s kas s' : fresh s -> vme_init _pmem_start s = Some (kas, s') -> reachable _pmem_start (mk_os s' kas [])
  | reach_step o e o' : reachable _pmem_start o -> os_step o e o' -> reachable _pmem_start o'.

Definition mapping (o : os) : Z -> Z -> option Z := lookup_pte (os_kernel o).

Record os_inv (_pmem_start : Z) (o : os) : Prop := {
  inv_layout : exists R, layout R (os_kas o) (os_dirs o ++ [os_kas o]) (os_kernel o);
  inv_fresh : os_kas o ∉ os_dirs o;
  inv_user i : slot i -> user_slot i = true -> get_pte (os_kernel o) (os_kas o) i = 0;
  inv_kernel d va : d ∈ os_dirs o ++ [os_kas o] -> fits 32 va -> user_slot (VPN1 va) = false ->
    mapping o d va = if kernel_space _pmem_start va then Some (leaf_pte va KERNEL_PROT) else None;
}.

(** The mappings after an event. *)
Definition mapping_after (e : event) (o : os) (d va : Z) : option Z :=
  match e with
  | MapPage d' va' pa prot => if (d' =? d) && (va' >> 12 =? va >> 12) then Some (leaf_pte pa prot) else mapping o d va
  | _ => mapping o d va
  end.
Definition isolated (o : os) (e : event) (o' : os) : Prop :=
  os_kas o' = os_kas o /\
  (forall d va, d ∈ os_dirs o ++ [os_kas o] -> fits 32 va -> mapping o' d va = mapping_after e o d va) /\
  (forall d va, d ∈ os_dirs o' -> (d ∉ os_dirs o) -> fits 32 va -> mapping o' d va = mapping o (os_kas o) va).

Lemma load_bytes_shift b b' a a' n :
  (forall k, 0 <= k < Z.of_nat n -> aget b' (a' + k) = aget b (a + k)) -> load_bytes b' a' n = load_bytes b a n.
Proof.
  revert a a'. induction n as [|n IH]; intros a a' H; [done|]. cbn [load_bytes].
  pose proof (H 0 ltac:(lia)) as H0. rewrite !Z.add_0_r in H0. rewrite H0. do 2 f_equal.
  apply IH. intros k Hk. rewrite <-!Z.add_assoc. apply H. lia.
Qed.

Lemma lookup_pte_entry s d d' va : get_pte s d (VPN1 va) = get_pte s d' (VPN1 va) -> lookup_pte s d va = lookup_pte s d' va.
Proof. intros E. unfold lookup_pte. by rewrite E. Qed.

(** A new address space has the kernel's mappings. *)
Lemma protect_ok R kas dirs s :
  layout R kas dirs s -> kas ∈ dirs -> (forall i, slot i -> user_slot i = true -> get_pte s kas i = 0) -> pf s + 4096 < 2 ^ 32 ->
  exists R' d s', protect kas s = Some (d, s') /\ layout R' kas (d :: dirs) s' /\ pf s' = pf s + 4096 /\ (d ∉ dirs) /\ agree dirs s s' /\
    forall va, fits 32 va -> lookup_pte s' d va = lookup_pte s kas va.
Proof.
  intros L Hk Hu B. destruct (pg_alloc_ok kas R dirs s L B) as (s1 & E1 & P1 & N1 & L1 & _ & A1).
  pose proof (ly_pf R kas dirs s L) as Pp. set (p := pf s) in *.
  pose proof (dir_role kas R dirs s kas L Hk) as Rk. destruct (ly_page R kas dirs s L kas _ Rk) as [Pk Bk].
  set (s2 := s1 <| kmem ::= copy_bytes (Z.to_nat PGSIZE) p kas |>).
  assert (Em : forall a, aget (kmem s2) a = if (p <=? a) && (a <? p + 4096) then aget (kmem s1) (kas + (a - p)) else aget (kmem s1) a)
    by (intros a; unfold s2; fields; apply aget_copy_bytes; change (Z.of_nat (Z.to_nat PGSIZE)) with 4096; fold p in Bk; lia).
  assert (Ep : pf s2 = pf s1) by done.
  assert (Eq : protect kas s = Some (p, s2)) by (unfold protect; by rewrite E1). clearbody s2.
  destruct (layout_ext kas R dirs s1 s2 L1) as [L2 A2].
  { rewrite Ep. by apply (ly_pf R kas dirs s1). }
  { lia. }
  { intros a. rewrite Em. destruct (_ && _); by apply (ly_bytes R kas dirs s1). }
  { intros q r a Hr Ha. destruct (ly_page R kas dirs s L q r Hr). rewrite Em. fold p in H0.
    destruct (Z.leb_spec p a); [|done]. lia. }
  pose proof (agree_trans dirs s s1 s2 A1 A2) as A.
  assert (Ec : forall i, slot i -> get_pte s2 p i = get_pte s2 kas i).
  { intros i Hi. unfold get_pte. apply load_bytes_shift. intros k Hk'. change (Z.of_nat 4) with 4 in Hk'.
    unfold slot in Hi. rewrite !Em. fold p in Bk.
    destruct (Z.leb_spec p (p + 4 * i + k)), (Z.ltb_spec (p + 4 * i + k) (p + 4096)), (Z.leb_spec p (kas + 4 * i + k)); try lia.
    cbn [andb]. f_equal. lia. }
  exists (<[p := Directory]> R), p, s2. split_and!; [done| |by rewrite Ep| |exact A|].
  - apply add_directory; [done|done|by apply (ly_low R kas dirs s)|lia|done|]. intros i Hi. rewrite Ec by done.
    destruct (ly_entry R kas dirs s2 L2 kas i Hk Hi) as [E|(t & E & Ht)]; [by left|].
    rewrite owner_kas in Ht. unfold owner. destruct (user_slot i) eqn:U.
    + left. rewrite (proj1 A) by done. by apply Hu.
    + right. by exists t.
  - intros Hp. apply (dir_role kas R dirs s p L) in Hp. by rewrite N1 in Hp.
  - intros va Hv. rewrite (lookup_pte_entry s2 p kas) by (by apply Ec, vpn1_slot). by apply A.
Qed.

Lemma new_page_ok R kas dirs s n :
  layout R kas dirs s -> 0 <= n -> pf s + n * 4096 < 2 ^ 32 ->
  layout R kas dirs (snd (new_page n s)) /\ agree dirs s (snd (new_page n s)).
Proof.
  intros L Hn B. destruct (ly_pf R kas dirs s L) as [Pa Pr].
  assert (Ep : pf (snd (new_page n s)) = pf s + n * 4096).
  { unfold new_page. cbn [snd]. fields. unfold PGSIZE. apply wrap_small; [lia|]. split; lia. }
  apply layout_ext; [done| |lia|by apply (ly_bytes R kas dirs s)|done].
  rewrite Ep. split; [|lia]. by rewrite Z.mod_add by lia.
Qed.

(** Every page with a role is a table of some address space. *)
Lemma role_is_table R o :
  layout R (os_kas o) (os_dirs o ++ [os_kas o]) (os_kernel o) -> forall p r, R !! p = Some r -> is_table o p.
Proof.
  intros L p [|d i] H; [left; by apply (ly_dir _ _ _ _ L)|]. right.
  destruct (ly_linked _ _ _ _ L p d i H) as (Hi & d' & Hd & E). by exists d', i.
Qed.

Lemma own_program kas ds d va :
  kas ∉ ds -> d ∈ ds -> USER_START <= va < USER_END -> own_slot kas (ds ++ [kas]) d (VPN1 va).
Proof.
  intros _ _ Hv. unfold own_slot, owner. rewrite user_slot_range.
  rewrite (proj2 (Z.leb_le _ _)), (proj2 (Z.ltb_lt _ _)) by lia. by split.
Qed.

Lemma init_inv pm s kas s' : pmem_placed pm -> fresh s -> vme_init pm s = Some (kas, s') -> os_inv pm (mk_os s' kas []).
Proof.
  intros Hp F E. destruct (vme_init_layout pm s Hp F) as (R & kas' & s1 & E' & L & _ & U & K).
  rewrite E in E'. injection E' as <- <-. split; cbn [os_kas os_dirs os_kernel app].
  - by exists R.
  - apply not_elem_of_nil.
  - done.
  - intros d va ->%list_elem_of_singleton Hv _. by apply K.
Qed.

(** An event that shows the same entries keeps the invariant. *)
Lemma agree_inv pm s s' kas ds R :
  os_inv pm (mk_os s kas ds) -> layout R kas (ds ++ [kas]) s' -> agree (ds ++ [kas]) s s' ->
  os_inv pm (mk_os s' kas ds) /\
  forall d va, d ∈ ds ++ [kas] -> fits 32 va -> mapping (mk_os s' kas ds) d va = mapping (mk_os s kas ds) d va.
Proof.
  intros [_ N U K] L [A1 A2]. unfold mapping in *. cbn [os_kas os_dirs os_kernel] in *.
  assert (Hk : kas ∈ ds ++ [kas]) by set_solver. split; [split; cbn [os_kas os_dirs os_kernel]|done].
  - by exists R.
  - done.
  - intros i Hi Hu. rewrite A1 by done. by apply U.
  - intros d va Hd Hv Hu. unfold mapping. cbn [os_kernel]. rewrite A2 by done. by apply K.
Qed.

Lemma step_inv pm o e o' : os_inv pm o -> os_step o e o' -> os_inv pm o' /\ isolated o e o'.
Proof.
  intros I S. pose proof I as [(R & L) N U K]. unfold isolated, mapping in *.
  destruct S as [s kas ds d s' B E|s kas ds d va pa prot s' Hd Hv Fa Hp B E|s kas ds n Hn B|s kas ds a v n H];
    cbn [os_kas os_dirs os_kernel mapping_after] in *.
  - assert (Hk : kas ∈ ds ++ [kas]) by set_solver.
    destruct (protect_ok R kas (ds ++ [kas]) s L Hk U B) as (R' & d' & s1 & E' & L' & _ & Nd & A & C).
    rewrite E in E'. injection E' as <- <-. pose proof A as [A1 A2].
    split; [split; cbn [os_kas os_dirs os_kernel app]|].
    + by exists R'.
    + rewrite not_elem_of_cons. split; [intros <-; by apply Nd|done].
    + intros i Hi Hu. rewrite A1 by done. by apply U.
    + intros d1 va Hd1 Hv Hu. unfold mapping. cbn [os_kernel]. apply elem_of_cons in Hd1 as [->|Hd1].
      * rewrite C by done. by apply K; [apply elem_of_app; right; left|..].
      * rewrite A2 by done. by apply K.
    + split_and!; [done|done|]. unfold mapping. cbn [os_kernel]. intros d1 va Hd1 Nd1 Hv. apply elem_of_cons in Hd1 as [->|]; [|done]. by rewrite C.
  - assert (Fv : fits 32 va) by (unfold USER_START, USER_END in Hv; split; lia).
    assert (Hd' : d ∈ ds ++ [kas]) by set_solver.
    destruct (map_ok kas R (ds ++ [kas]) s d va pa prot L Hd' Fv (own_program kas ds d va N Hd Hv) B Fa Hp)
      as (R' & s1 & E' & L' & _ & G & C). rewrite E in E'. injection E' as <-.
    assert (Nk : kas <> d) by (by intros ->).
    split; [split; cbn [os_kas os_dirs os_kernel]|split_and!; [done|done|by intros ? ? ? []]].
    + by exists R'.
    + done.
    + intros i Hi Hu. rewrite G; [by apply U|set_solver|done|by left].
    + intros d1 va' Hd1 Hv' Hu. unfold mapping. cbn [os_kernel]. rewrite C by done.
      rewrite same_page. assert (user_slot (VPN1 va) = true) by (rewrite user_slot_range; lia).
      destruct (Z.eqb_spec (VPN1 va) (VPN1 va')) as [Ei|]; [congruence|]. rewrite andb_false_r. by apply K.
  - destruct (new_page_ok R kas (ds ++ [kas]) s n L Hn B) as [L' A].
    destruct (agree_inv pm s _ kas ds R I L' A) as [I' M]. split; [done|]. split_and!; [done|exact M|done].
  - destruct (layout_ext kas R (ds ++ [kas]) s (s <| kmem ::= fun b => store_bytes b a n v |>) L) as [L' A].
    + by apply (ly_pf _ _ _ _ L).
    + done.
    + intros b. fields. apply store_bytes_fits. by apply (ly_bytes _ _ _ _ L).
    + intros p r b Hr Hb. fields. apply store_bytes_other.
      pose proof (H p (role_is_table R (mk_os s kas ds) L p r Hr)). lia.
    + destruct (agree_inv pm s _ kas ds R I L' A) as [I' M]. split; [done|]. split_and!; [done|exact M|done].
Qed.

Lemma reachable_inv pm o : pmem_placed pm -> reachable pm o -> os_inv pm o.
Proof.
  intros Hp. induction 1 as [s kas s' F E|o e o' _ IH S]; [by eapply init_inv | by eapply step_inv].
Qed.


(** The kernel is mapped to itself in every address space, at all times: its
    memory, the frame buffer and the devices at their own addresses, and nothing
    else outside of user space. *)
Theorem os_kernel_identity pm o d va :
  pmem_placed pm -> reachable pm o -> d ∈ os_dirs o ++ [os_kas o] -> fits 32 va -> user_slot (VPN1 va) = false ->
  mapping o d va = if kernel_space pm va then Some (leaf_pte va KERNEL_PROT) else None.
Proof. intros Hp H. apply (inv_kernel pm o (reachable_inv pm o Hp H)). Qed.

(** ** The simulator walks the kernel's tables *)

Lemma getf1_bit i x : 0 <= i -> getf i 1 x = b2z (Z.testbit x i).
Proof. intros. unfold getf. change (Z.ones 1) with 1. by apply land_bit. Qed.

Lemma getf1_eq i x b : 0 <= i -> (getf i 1 x =? b2z b) = eqb (Z.testbit x i) b.
Proof. intros. rewrite getf1_bit by done. by destruct (Z.testbit x i), b. Qed.

Lemma pde_bit t i : page t -> 0 <= i < 10 -> Z.testbit (pde t) i = (i =? 0).
Proof.
  intros P Hi. unfold pde. rewrite Z.lor_spec, Z.shiftr_spec by lia. rewrite (page_bit t (i + 2)) by (done || lia).
  change PTE_V with (1 << 0). by rewrite testbit_shl1 by lia.
Qed.

(** The table a pointer and [satp] name. *)
Lemma pde_target t : page t -> getf 10 22 (pde t) << 12 = t.
Proof.
  intros P. assert (F : fits 32 t) by (destruct P as [_ []]; split; [lia|done]).
  apply Z.bits_inj'. intros i Hi. rewrite Z.shiftl_spec by lia. destruct (Z.ltb_spec i 12).
  - rewrite Z.testbit_neg_r by lia. symmetry. apply page_bit; [done|lia].
  - rewrite getf_testbit by lia. unfold pde. rewrite Z.lor_spec, Z.shiftr_spec by lia.
    change PTE_V with (1 << 0). rewrite testbit_shl1 by lia. replace (i - 12 + 10 =? 0) with false by lia.
    replace (i - 12 + 10 + 2) with i by lia. rewrite orb_false_r.
    destruct (Z.ltb_spec (i - 12) 22); [done|]. symmetry. apply (testbit_high 32); [done|lia].
Qed.

Lemma satp_target d : page d -> getf 0 22 (satp_value d) << 12 = d /\ getf 31 1 (satp_value d) = 1.
Proof.
  intros P. assert (F : fits 32 d) by (destruct P as [_ []]; split; [lia|done]). unfold satp_value. split.
  - apply Z.bits_inj'. intros i Hi. rewrite Z.shiftl_spec by lia. destruct (Z.ltb_spec i 12).
    + rewrite Z.testbit_neg_r by lia. symmetry. apply page_bit; [done|lia].
    + rewrite getf_testbit, Z.lor_spec, testbit_shl1, Z.shiftr_spec by lia.
      replace (i - 12 + 0 + 12) with i by lia. destruct (Z.ltb_spec (i - 12) 22).
      * by replace (i - 12 + 0 =? 31) with false by lia.
      * symmetry. apply (testbit_high 32); [done|lia].
  - rewrite getf1_bit, Z.lor_spec, testbit_shl1 by lia. done.
Qed.

(** A mapping names a leaf as the kernel makes them. *)
Lemma mapping_leaf R kas dirs s d va pte :
  layout R kas dirs s -> d ∈ dirs -> fits 32 va -> lookup_pte s d va = Some pte ->
  exists t, get_pte s d (VPN1 va) = pde t /\ page t /\ R !! t = Some (Table (owner kas d (VPN1 va)) (VPN1 va)) /\
    get_pte s t (VPN0 va) = pte /\ Z.testbit pte 0 = true /\ good_leaf pte.
Proof.
  intros L Hd Hv. unfold lookup_pte.
  destruct (ly_entry R kas dirs s L d (VPN1 va) Hd (vpn1_slot va Hv)) as [->|(t & E & Ht)]; [done|].
  destruct (ly_page R kas dirs s L t _ Ht) as [Pt _]. rewrite E, table_of_pde by done.
  rewrite (proj2 (Z.eqb_neq _ 0)) by apply pde_nonzero. destruct (Z.testbit _ 0) eqn:V; [|done]. intros [= <-].
  exists t. split_and!; try done; by apply (ly_leaf R kas dirs s L t _ _ _ Ht (vpn0_slot va) V).
Qed.

Section Simulated.
Context {Cfg : Config} {CfgOk : ConfigOk Cfg} (Rv32 : CONFIG_RV64 = false).

(** A page-table entry that the walk may read. *)
Definition walkable (m : machine) (p : Z) : Prop := forall i, slot i -> ptw_ok m (p + 4 * i) 4 = true.

Lemma walk_step m0 p i :
  pmp_wf m0 -> page p -> slot i -> walkable m0 p -> forall {B} (k : Z -> M machine B) ty Q X,
  triple (calm m0) (k (load_bytes (mem m0) (p + 4 * i) 4)) Q X ->
  triple (calm m0)
    (denied ← ptw_denied (paddr_add p (i * 4)) 4;
     if denied : bool then fault (af_cause ty) 25 else pte ← paddr_read (paddr_add p (i * 4)) 4; k pte) Q X.
Proof.
  intros W [A [P0 P1]] Hi Hw B k ty Q X H. specialize (Hw i Hi). unfold slot in Hi.
  assert (E : paddr_add p (i * 4) = p + 4 * i).
  { unfold paddr_add. rewrite Z.mul_comm. apply wrap_small; [lia|]. split; [lia|].
    apply Z.mod_divide in A as [k' ->]; lia. }
  rewrite E. unfold ptw_ok in Hw. apply andb_true_iff in Hw as [Hr Hp]. apply negb_true_iff in Hp.
  unfold ptw_denied. rewrite Hr. cbn [negb].
  eapply triple_bind; [apply pmp_checkM_calm|]. intros den. cbn beta.
  intros s [Hs Hd]. rewrite Hd, Hp; [|done| |done].
  - revert s Hs Hd. cut (triple (calm m0) (pte ← paddr_read (p + 4 * i) 4; k pte) Q X); [by intros T s Hs _; apply T|].
    eapply triple_bind; [by apply pte_read_calm|]. intros pte. cbn beta. apply triple_pure. intros ->. exact H.
  - unfold access_ok, paddr_bits. rewrite Rv32. split; [lia|]. split; [lia|]. change (2 ^ (32 + 2)) with 17179869184.
    change (2 ^ 32) with 4294967296 in P1. lia.
Qed.

Lemma vpn1_field va : fits 32 va -> sv32_vpn va 1 = VPN1 va.
Proof. intros F. apply (wrap_small 10); [lia|]. by apply vpn1_slot. Qed.

(** A failed walk: the page fault of the access, and nothing mapped. *)
Definition unmapped (s : kernel) (d va : Z) (ty : mem_type) (m0 : machine) (_ : Z) (m : machine) : Prop :=
  calm m0 m /\ cause m = pf_cause ty /\ lookup_pte s d va = None.

Lemma page_fault {A} m0 ty code (Q : A -> machine -> Prop) s d va :
  lookup_pte s d va = None -> triple (calm m0) (fault (pf_cause ty) code) Q (unmapped s d va ty m0).
Proof. intros H. apply triple_fault. by intros m Hm Hc. Qed.

Lemma sv32_walk_finds R kas dirs s m0 d va ty :
  layout R kas dirs s -> d ∈ dirs -> fits 32 va -> mem m0 = kmem s -> pmp_wf m0 ->
  (forall p r, R !! p = Some r -> walkable m0 p) ->
  triple (calm m0) (sv32_walk va ty 1 d)
    (fun r m => calm m0 m /\ lookup_pte s d va = Some (snd r)) (unmapped s d va ty m0).
Proof.
  intros L Hd Hv Em W Hw. pose proof (dir_role kas R dirs s d L Hd) as Rd. destruct (ly_page R kas dirs s L d _ Rd) as [Pd _].
  cbn [sv32_walk]. rewrite vpn1_field by done. cbv zeta.
  apply walk_step; [done|done|by apply vpn1_slot|by apply (Hw d Directory)|].
  rewrite Em. change (load_bytes (kmem s) (d + 4 * VPN1 va) 4) with (get_pte s d (VPN1 va)).
  destruct (ly_entry R kas dirs s L d (VPN1 va) Hd (vpn1_slot va Hv)) as [E|(t & E & Ht)].
  { rewrite E. cbn. apply page_fault. unfold lookup_pte. by rewrite E. }
  destruct (ly_page R kas dirs s L t _ Ht) as [Pt _]. rewrite E.
  unfold pte_v, pte_w, pte_r, pte_x, pte_u, pte_a, pte_d. rewrite !getf1_bit, !pde_bit by (done || lia).
  cbn [b2z Z.eqb Pos.eqb andb orb]. rewrite pde_target by done.
  apply walk_step; [done|done|apply vpn0_slot|by apply (Hw t _ Ht)|].
  rewrite Em. change (load_bytes (kmem s) (t + 4 * sv32_vpn va 0) 4) with (get_pte s t (VPN0 va)).
  rewrite !getf1_bit by lia. destruct (Z.testbit (get_pte s t (VPN0 va)) 0) eqn:V.
  - destruct (ly_leaf R kas dirs s L t _ _ _ Ht (vpn0_slot va) V) as (G1 & _).
    rewrite G1. cbn [b2z Z.eqb Pos.eqb andb orb Nat.eqb negb]. rewrite andb_false_r. cbn [orb].
    apply triple_ret. intros m Hm. split; [done|]. cbn [snd]. unfold lookup_pte.
    rewrite E, table_of_pde, V by done. by rewrite (proj2 (Z.eqb_neq _ 0)) by apply pde_nonzero.
  - cbn [b2z Z.eqb orb]. apply page_fault. unfold lookup_pte.
    rewrite E, table_of_pde, V by done. by rewrite (proj2 (Z.eqb_neq _ 0)) by apply pde_nonzero.
Qed.

(** What the mappings of an address space promise an access: the address, if the
    page is mapped and the access permitted. *)
Definition promised (m : machine) (pte : option Z) (va : Z) (ty : mem_type) : option Z :=
  pte ← pte;
  match leaf_denied m ty pte with Some _ => None | None => Some ((getf 10 22 pte << 12) .| getf 0 12 va) end.

(** The simulator delivers it, or faults, and leaves the machine alone. *)
Definition delivers (m : machine) (promise : option Z) (ty : mem_type) (r : outcome Z * machine) : Prop :=
  match r with
  | (Ret pa, m') => promise = Some pa /\ calm m m'
  | (LongJmp _, m') => promise = None /\ cause m' = pf_cause ty /\ calm m m'
  | (Panic, _) => False
  end.

Lemma leaf_denied_same m0 m ty pte : calm m0 m -> leaf_denied m ty pte = leaf_denied m0 ty pte.
Proof.
  intros H. unfold leaf_denied, eff_priv, pmp_effective_priv_ls. rewrite !(calm_csr _ _ _ H).
  by destruct (calm_fields _ _ H) as (_ & _ & _ & -> & _).
Qed.

(** C30: The simulator and the kernel agree about the page tables. When [satp]
    names the directory of an address space, every access of the hart is
    translated to what the kernel has mapped, and faults with its page fault when
    nothing is mapped or the entry does not permit it. *)
Theorem kernel_tables_translate pm o d va ty m :
  pmem_placed pm -> reachable pm o -> d ∈ os_dirs o ++ [os_kas o] -> fits 32 va ->
  mem m = kmem (os_kernel o) -> CSR m CSR_SATP = satp_value d -> pmp_wf m ->
  (forall p, page p -> low <= p -> p + 4096 <= pf (os_kernel o) -> walkable m p) ->
  delivers m (promised m (mapping o d va) va ty) ty (isa_mmu_translate va ty m).
Proof.
  intros Hp H Hd Hv Em Es W Hw. destruct (inv_layout _ _ (reachable_inv pm o Hp H)) as (R & L).
  pose proof (dir_role _ R _ _ d L Hd) as Rd. destruct (ly_page R _ _ _ L d _ Rd) as [Pd _].
  destruct (satp_target d Pd) as [E1 E2].
  assert (E : isa_mmu_translate va ty m = sv32_translate va ty m).
  { unfold isa_mmu_translate, isa_mmu_translate_attrs, guest_access, satp_mode. rewrite Rv32. cbn [andb].
    unfold mbind, M_bind, get. rewrite Es, E2. cbn. by destruct (sv32_translate va ty m) as [[] ?]. }
  rewrite E. clear E.
  assert (T : triple (calm m) (sv32_translate va ty)
     (fun pa m' => promised m (mapping o d va) va ty = Some pa /\ calm m m')
     (fun _ m' => promised m (mapping o d va) va ty = None /\ cause m' = pf_cause ty /\ calm m m')).
  { unfold sv32_translate. apply triple_get_bind. intros m1 H1. unfold satp_ppn. rewrite Rv32, (calm_csr _ _ _ H1), Es, E1.
    eapply triple_bind.
    - eapply triple_conseq; [apply (sv32_walk_finds R _ _ _ m d va ty L Hd Hv Em W)|by intros ? ->|intros a m2 K; exact K|].
      + intros p r Hr. destruct (ly_page R _ _ _ L p r Hr). apply Hw; [done| |done]. by apply (ly_heap R _ _ _ L p r).
      + intros c m2 (K1 & K2 & K3). unfold mapping. by rewrite K3.
    - intros [pa pte]. apply triple_pure. cbn [snd]. intros K. unfold mapping. rewrite K. unfold promised. cbn [mbind option_bind].
      rewrite (leaf_denied_same m m1) by done.
      destruct (mapping_leaf R _ _ _ d va pte L Hd Hv K) as (_ & _ & _ & _ & _ & _ & G1 & G6 & G7).
      destruct (leaf_denied m ty pte); [apply triple_fault; by intros|].
      assert (A : ad_needed ty pte = false).
      { unfold ad_needed, pte_a, pte_d. rewrite !getf1_bit, G6, G7 by lia. cbn. by rewrite andb_false_r. }
      rewrite A. cbn [andb]. destruct CONFIG_RV_SVADE; (eapply triple_bind; [apply (triple_ret _ _ (fun _ => calm m)); by intros|]);
        intros u; apply triple_ret; by intros. }
  specialize (T m (calm_refl m)). unfold delivers. by destruct (sv32_translate va ty m) as [[] ?].
Qed.

End Simulated.

End Heap.

(** ** Witnesses: a heap at [0x80400000], and a hart whose PMP is open *)

Lemma leaf_pte_address pa prot : fits 32 pa -> fits 8 prot -> getf 10 22 (leaf_pte pa prot) = pa >> 12.
Proof.
  intros Fa Fp. unfold leaf_pte, getf. cbv zeta. change PTE_V with (1 << 0).
  replace ((pa >> 12) .& 0x3ff) with (wrap 10 (pa >> 12)) by done.
  apply Z.bits_inj'. intros i Hi. repeat bits_step; bits_finish; [| |symmetry; apply (testbit_high 32); [done|lia]..].
  all: rewrite testbit_1; replace (i + 10 - 0 =? 0) with false by lia; rewrite orb_false_r; f_equal; lia.
Qed.

Definition boot : kernel := mk_kernel ∅ 0x80400000.
Lemma boot_fresh : fresh 0x80400000 boot.
Proof. split; [split; vm_compute; done|intros a; by split|done|vm_compute; done]. Qed.

Lemma boot_placed : pmem_placed 0x80000000.
Proof. split_and!; vm_compute; congruence. Qed.

(** The kernel started: its directory, and a bound on the pages it has used. *)
Lemma booted : exists o, reachable 0x80400000 0x80000000 o /\ os_dirs o = [] /\ pf (os_kernel o) <= 0x90000000 /\ page (os_kas o).
Proof.
  destruct (vme_init_layout 0x80400000 0x80000000 boot boot_placed boot_fresh) as (R & kas & s & E & L & B & _).
  exists (mk_os s kas []). split_and!; [by eapply reach_init; [apply boot_fresh|]|done| |].
  - change (pf boot) with 0x80400000 in B. cbn. lia.
  - assert (H : R !! kas = Some Directory) by (apply (ly_dir _ _ _ _ _ L); by left). apply (ly_page _ _ _ _ _ L _ _ H).
Qed.

(** User mode with translation on; the first PMP region is everything below 4 GiB. *)
Definition open_csrs (satp : Z) : machine :=
  setCSR CSR_SATP satp (setCSR CSR_PMPCFG0 0x0f (setCSR CSR_PMPADDR0 0x3fffffff machine_init)).
Definition open_hart (o : os) : machine :=
  (pmp_rebuild_decoded (Cfg := riscv32_ref) (open_csrs (satp_value (os_kas o)))) <| priv := PRV_U |> <| mem := kmem (os_kernel o) |>.

Lemma open_csr satp c : CSR (open_csrs satp) c =
  if c .& 0xfff =? CSR_SATP then satp
  else if c .& 0xfff =? CSR_PMPCFG0 then 0x0f else if c .& 0xfff =? CSR_PMPADDR0 then 0x3fffffff else 0.
Proof. unfold open_csrs, CSR, setCSR. fields. rewrite !aget_aset, !(Z.eqb_sym _ (c .& 0xfff)). done. Qed.

Lemma open_rebuilt satp : let m := pmp_rebuild_decoded (Cfg := riscv32_ref) (open_csrs satp) in
  pmp_wf (Cfg := riscv32_ref) m /\ sr m = sr (open_csrs satp).
Proof.
  apply (pmp_rebuild_wf (Cfg := riscv32_ref)).
  - split; apply entries_cases; unfold pmp_addr, pmp_cfg; rewrite ?open_csr; vm_compute; (reflexivity || (split; [intros [=]|reflexivity])).
  - split; [vm_compute; split; [intros [=]|reflexivity]|].
    intros slot. change (pmp_wcache (open_csrs satp)) with (∅ : gmap Z pmp_wcache_entry).
    rewrite aget_empty. vm_compute. split; intros [=].
Qed.

Lemma open_hart_wf o : pmp_wf (Cfg := riscv32_ref) (open_hart o).
Proof.
  unfold open_hart. destruct (open_rebuilt (satp_value (os_kas o))) as [W _].
  revert W. generalize (pmp_rebuild_decoded (Cfg := riscv32_ref) (open_csrs (satp_value (os_kas o)))). intros b W.
  by apply (pmp_wf_ext (Cfg := riscv32_ref) b).
Qed.

Lemma open_hart_csr o c : CSR (open_hart o) c = CSR (open_csrs (satp_value (os_kas o))) c.
Proof.
  unfold open_hart. destruct (open_rebuilt (satp_value (os_kas o))) as [_ E].
  revert E. generalize (pmp_rebuild_decoded (Cfg := riscv32_ref) (open_csrs (satp_value (os_kas o)))). intros b E.
  unfold CSR. fields. by rewrite E.
Qed.

(** The region and the memory take in every aligned word of the heap. *)
Lemma open_hart_walkable o p : page p -> 0x80400000 <= p -> p + 4096 <= 0x90000000 -> walkable (Cfg := riscv32_ref) (open_hart o) p.
Proof.
  intros [A _] Lo Hi i Hs. unfold slot in Hs. apply Z.mod_divide in A as [k ->]; [|lia].
  set (a := k * 4096 + 4 * i). assert (Ha : 0x80400000 <= a /\ a + 4 <= 0x90000000) by (unfold a; lia).
  assert (H4 : a .& 3 = 0).
  { change 3 with (Z.ones 2). rewrite Z.land_ones by lia. unfold a. change (2 ^ 2) with 4.
    replace (k * 4096 + 4 * i) with ((k * 1024 + i) * 4) by lia. apply Z.mod_mul. lia. }
  clearbody a. unfold ptw_ok. apply andb_true_iff. split.
  - unfold ptw_memory_readable. change (4 - 1) with 3. rewrite H4. cbn [nz Z.eqb negb andb].
    unfold paddr_is_memory_span, paddr_add. cbn [Z.eqb]. rewrite wrap_small by (lia || (split; [lia|]; change (2 ^ 64) with 18446744073709551616; lia)).
    rewrite (proj2 (Z.ltb_ge _ _)) by lia. assert (S : span_in (in_pmem (Cfg := riscv32_ref)) a 4 = true).
    { unfold span_in, in_pmem, PMEM_LEFT, PMEM_RIGHT, paddr_add. cbn -[wrap].
      change (wrap 64 (2147483648 + (268435456 - 1))) with 2415919103.
      rewrite wrap_small by (lia || (split; [lia|]; change (2 ^ 64) with 18446744073709551616; lia)). lia. }
    by rewrite S.
  - apply negb_true_iff.
    assert (Ec : pmp_cfg (Cfg := riscv32_ref) (open_hart o) 0 = 15) by (unfold pmp_cfg; rewrite open_hart_csr, open_csr; reflexivity).
    assert (Ea : pmp_addr (open_hart o) 0 = 0x3fffffff) by (unfold pmp_addr; rewrite open_hart_csr, open_csr; reflexivity).
    assert (M : forall b, a <= b < a + 4 -> region_match (Cfg := riscv32_ref) (open_hart o) 0 (b >> 2) = true).
    { intros b Hb. unfold region_match. rewrite Ec, Ea. change (@PMP_G riscv32_ref) with 10. cbn -[Z.shiftr].
      rewrite Z.shiftr_shiftr, !Z.shiftr_div_pow2 by lia. change (2 ^ (2 + 10)) with 4096. change (1073741823 / 2 ^ 10) with 1048575.
      change (0 / 2 ^ 10) with 0. pose proof (Z.div_mod b 4096 ltac:(lia)). pose proof (Z.mod_pos_bound b 4096 ltac:(lia)).
      change (cfg_A 15 =? PMP_A_OFF) with false. change (cfg_A 15 =? PMP_A_TOR) with true. cbv iota. lia. }
    unfold pmp_spec, bytes_of. change (seqZ a 4) with [Z.of_nat 0 + a; Z.of_nat 1 + a; Z.of_nat 2 + a; Z.of_nat 3 + a]. unfold pmp_entries.
    cbn [List.find existsb forallb]. rewrite !M by lia. cbn [orb andb negb]. rewrite !M by lia. rewrite Ec. reflexivity.
Qed.

Lemma kernel_tables_translate_witness :
  exists o, reachable 0x80400000 0x80000000 o /\
    fst (isa_mmu_translate (Cfg := riscv32_ref) 0x80000123 MEM_TYPE_READ (open_hart o)) = Ret 0x80000123.
Proof.
  destruct booted as (o & Ho & Ed & Hb & Pk). exists o. split; [exact Ho|].
  assert (Hk : os_kas o ∈ os_dirs o ++ [os_kas o]) by (rewrite Ed; by left).
  assert (F : fits 32 0x80000123) by (split; vm_compute; congruence).
  pose proof (os_kernel_identity 0x80400000 0x80000000 o (os_kas o) 0x80000123 boot_placed Ho Hk F eq_refl) as E.
  change (kernel_space 0x80000000 0x80000123) with true in E. cbv iota in E.
  pose proof (kernel_tables_translate 0x80400000 (Cfg := riscv32_ref) eq_refl 0x80000000 o (os_kas o) 0x80000123 MEM_TYPE_READ
    (open_hart o) boot_placed Ho Hk F eq_refl) as T.
  rewrite E in T.
  assert (P : promised (open_hart o) (Some (leaf_pte 0x80000123 KERNEL_PROT)) 0x80000123 MEM_TYPE_READ = Some 0x80000123).
  { unfold promised, leaf_denied, eff_priv, pmp_effective_priv_ls. rewrite !open_hart_csr, !open_csr.
    change (priv (open_hart o)) with PRV_U. vm_compute. reflexivity. }
  rewrite P in T. assert (S : CSR (open_hart o) CSR_SATP = satp_value (os_kas o)) by (rewrite open_hart_csr, open_csr; reflexivity).
  specialize (T S (open_hart_wf o) (fun p Pp Lo Hi => open_hart_walkable o p Pp Lo (Z.le_trans _ _ _ Hi Hb))).
  revert T. generalize (isa_mmu_translate (Cfg := riscv32_ref) 0x80000123 MEM_TYPE_READ (open_hart o)).
  intros [[pa|c|] m'] T; cbn [delivers] in T; [|destruct T as [T _]; discriminate T|destruct T].
  destruct T as [T _]. injection T as <-. reflexivity.
Defined.

(** A program that has just been given its address space. *)
Lemma booted_program :
  exists s kas d, reachable 0x80400000 0x80000000 (mk_os s kas [d]) /\ pf s + 4096 < 2 ^ 32.
Proof.
  destruct booted as ([s kas ds] & Ho & Ed & Hb & Pk). cbn in Ed, Hb, Pk. subst ds.
  destruct (reachable_inv 0x80400000 0x80000000 _ boot_placed Ho) as [(R & L) N U K]. cbn [os_kas os_dirs os_kernel app] in *.
  assert (B : pf s + 4096 < 2 ^ 32) by (change (2 ^ 32) with 4294967296; lia).
  destruct (protect_ok 0x80400000 R kas [kas] s L ltac:(by left) U B) as (R' & d & s' & E & L' & P & _).
  exists s', kas, d. split; [by eapply reach_step; [exact Ho|by apply step_protect]|].
  rewrite P. change (2 ^ 32) with 4294967296. lia.
Qed.


Lemma os_kernel_identity_witness :
  exists o, reachable 0x80400000 0x80000000 o /\ mapping o (os_kas o) 0x10 = Some (leaf_pte 0x10 KERNEL_PROT).
Proof.
  destruct booted as (o & Ho & Ed & _). exists o. split; [exact Ho|].
  rewrite (os_kernel_identity 0x80400000 0x80000000 o (os_kas o) 0x10 boot_placed Ho).
  - reflexivity.
  - rewrite Ed. by left.
  - split; vm_compute; congruence.
  - reflexivity.
Defined.
