(* ===== verification/Mmio.v ===== *)
(** * Mmio: the device address map ([device/io/mmio.c], [map_inside] and
    [find_mapid_by_addr] of [device/map.h], [new_space] of [device/io/map.c])

    A map is the range of addresses of a device; its index in the list stands for
    its name, buffer and callback. *)
From S2P Require Import Prelude Config Paddr.

Definition NR_MAP : Z := 24.
Definition MMIO_MISS_SLOTS : Z := 64.

Record IOMap := mk_IOMap { low : Z; high : Z }.

(** A page in the cache of pages without devices. *)
Record miss := mk_miss { page : Z; epoch : Z }.
#[export] Instance miss_zero : Zero miss := mk_miss 0 0.

Record mmio := mk_mmio {
  maps : list IOMap;
  mmio_miss : gmap Z miss;
  mmio_epoch : Z;
  last_hit : Z;
  mmio_ram_overlap : bool;
}.
#[export] Instance mmio_fields : Fields mmio := fun s =>
  mk_mmio (maps s) (mmio_miss s) (mmio_epoch s) (last_hit s) (mmio_ram_overlap s).
#[export] Instance set_maps : Setter maps := ltac:(build_setter maps).
#[export] Instance set_mmio_miss : Setter mmio_miss := ltac:(build_setter mmio_miss).
#[export] Instance set_mmio_epoch : Setter mmio_epoch := ltac:(build_setter mmio_epoch).
#[export] Instance set_last_hit : Setter last_hit := ltac:(build_setter last_hit).
#[export] Instance set_mmio_ram_overlap : Setter mmio_ram_overlap := ltac:(build_setter mmio_ram_overlap).

Definition mmio_start : mmio := mk_mmio [] ∅ 1 (-1) false.

Definition nr_map (s : mmio) : Z := Z.of_nat (length (maps s)).

Definition map_inside (m : IOMap) (addr : Z) : bool := (low m <=? addr) && (addr <=? high m).

(** The index of the first map around an address, counted from [i]; -1 if there
    is none. The mark for the differential reference is left out. *)
Fixpoint find_mapid (l : list IOMap) (i addr : Z) : Z :=
  match l with
  | [] => -1
  | m :: l => if map_inside m addr then i else find_mapid l (i + 1) addr
  end.
Definition find_mapid_by_addr (s : mmio) (addr : Z) : Z := find_mapid (maps s) 0 addr.

Definition fetch_mmio_map (s : mmio) (addr : Z) : option IOMap :=
  let mapid := find_mapid_by_addr s addr in
  if mapid =? -1 then None else maps s !! Z.to_nat mapid.

(** The hint of the last hit: whether it is a map around the address. *)
Definition hint_hit (s : mmio) (addr : Z) : bool :=
  (0 <=? last_hit s) && (last_hit s <? nr_map s)
  && match maps s !! Z.to_nat (last_hit s) with Some m => map_inside m addr | None => false end.

Definition mmio_map_contains (addr : Z) (s : mmio) : bool * mmio :=
  let idx := (addr >> 12) .& (MMIO_MISS_SLOTS - 1) in
  let slot := aget (mmio_miss s) idx in
  if (epoch slot =? mmio_epoch s) && (page slot =? addr >> 12) then (false, s)
  else if hint_hit s addr then (true, s)
  else
    let i := find_mapid_by_addr s addr in
    if negb (i =? -1) then (true, s <| last_hit := i |>)
    else (false, s <| mmio_miss ::= fun a => aset a idx (mk_miss (addr >> 12) (mmio_epoch s)) |>).

(** [addr .. addr + len - 1] within one map. *)
Definition PADDR_MAX : Z := Z.ones 64.
Definition mmio_map_contains_span (s : mmio) (addr len : Z) : bool :=
  if (len =? 0) || (PADDR_MAX - addr <? len - 1) then false
  else
    let last := addr + len - 1 in
    existsb (fun m => (low m <=? addr) && (last <=? high m)) (maps s).

Definition mmio_map_overlaps (s : mmio) (addr len : Z) : bool :=
  if len =? 0 then false
  else if PADDR_MAX - addr <? len - 1 then true
  else
    let last := addr + len - 1 in
    existsb (fun m => (addr <=? high m) && (low m <=? last)) (maps s).

Section Mmio.
Context {Cfg : Config}.

Definition range_overlaps_ram (l r : Z) : bool :=
  ((l <=? PMEM_RIGHT) && (PMEM_LEFT <=? r))
  || (negb (CONFIG_SDRAM_SIZE =? 0) && (l <=? CONFIG_SDRAM_BASE + CONFIG_SDRAM_SIZE - 1) && (CONFIG_SDRAM_BASE <=? r))
  || ((l <=? CONFIG_SRAM_BASE + CONFIG_SRAM_SIZE - 1) && (CONFIG_SRAM_BASE <=? r)).

(** [None] when the assertion or a [panic] about an overlap ends the simulator. *)
Definition add_mmio_map (addr len : Z) (s : mmio) : option mmio :=
  if NR_MAP <=? nr_map s then None
  else
    let left := addr in
    let right := wrap 64 (addr + len - 1) in
    if in_pmem left || in_pmem right then None
    else if existsb (fun m => (left <=? high m) && (low m <=? right)) (maps s) then None
    else
      let s := s <| maps ::= fun l => l ++ [mk_IOMap addr right] |> in
      let s := if range_overlaps_ram left right then s <| mmio_ram_overlap := true |> else s in
      Some (s <| mmio_epoch ::= fun e => wrap 32 (e + 1) |>).

End Mmio.

(** ** Register spaces *)

Definition IO_SPACE_MAX : Z := 32 * 1024 * 1024.

(** [p_space - io_space] before and after, whole pages; [None] when the space is
    used up. *)
Definition new_space (size p_space : Z) : option (Z * Z) :=
  let size := (size + (4096 - 1)) .& ~~ 4095 in
  let next := p_space + size in
  if next <? IO_SPACE_MAX then Some (p_space, next) else None.
