(* ===== verification/MmioSpec.v ===== *)
(** * MmioSpec: the device address map

    Maps never share an address, so that the first map found is the only one; the
    queries on spans are exact; the cache of pages without devices is transparent
    as long as every map consists of whole pages, and hides a device otherwise. *)
From S2P Require Import Prelude Config Machine Paddr Mmio.

Lemma map_inside_iff m a : map_inside m a = true <-> low m <= a <= high m.
Proof. unfold map_inside. lia. Qed.

Definition inside_some (s : mmio) (a : Z) : bool := existsb (fun m => map_inside m a) (maps s).

Lemma inside_some_iff s a : inside_some s a = true <-> exists m, m ∈ maps s /\ map_inside m a = true.
Proof. unfold inside_some. rewrite existsb_exists. split; intros (m & H & I); exists m; (split; [|done]); by apply list_elem_of_In. Qed.

(** The search. *)
Lemma find_mapid_spec l i a :
  0 <= i ->
  (find_mapid l i a = -1 /\ existsb (fun m => map_inside m a) l = false) \/
  exists k m, find_mapid l i a = i + Z.of_nat k /\ l !! k = Some m /\ map_inside m a = true /\
    existsb (fun m => map_inside m a) l = true.
Proof.
  revert i. induction l as [|m l IH]; intros i Hi; [by left|]. cbn [find_mapid existsb].
  destruct (map_inside m a) eqn:E.
  - right. exists 0%nat, m. cbn [orb]. split_and!; [lia|done..].
  - destruct (IH (i + 1) ltac:(lia)) as [[-> H]|(k & m' & -> & Hk & Hm & H)]; [by left|].
    right. exists (S k), m'. split_and!; [lia|done..].
Qed.

Lemma find_mapid_found s a : negb (find_mapid_by_addr s a =? -1) = inside_some s a.
Proof.
  unfold find_mapid_by_addr, inside_some. destruct (find_mapid_spec (maps s) 0 a ltac:(lia)) as [[-> ->]|(k & m & -> & _ & _ & ->)]; [done|].
  destruct (Z.eqb_spec (0 + Z.of_nat k) (-1)); [lia|done].
Qed.

Lemma hint_sound s a : hint_hit s a = true -> inside_some s a = true.
Proof.
  unfold hint_hit. destruct (maps s !! _) as [m|] eqn:E; [|by rewrite andb_false_r].
  intros [_ H]%andb_true_iff. apply inside_some_iff. exists m. split; [by eapply list_elem_of_lookup_2|done].
Qed.

(** ** Spans *)

(** A span of bytes is taken for a device span exactly when it is not empty,
    does not run over the end of the address space and lies within one map. *)
Theorem contains_span_exact s addr len :
  fits 64 addr -> 0 <= len ->
  (mmio_map_contains_span s addr len = true <->
   0 < len /\ addr + len <= 2 ^ 64 /\ exists m, m ∈ maps s /\ forall a, addr <= a < addr + len -> map_inside m a = true).
Proof.
  intros [A0 A1] Hl. unfold mmio_map_contains_span. change PADDR_MAX with (2 ^ 64 - 1).
  destruct (Z.eqb_spec len 0) as [->|N]; cbn [orb]; [split; [done|lia]|].
  destruct (Z.ltb_spec (2 ^ 64 - 1 - addr) (len - 1)) as [L|L]; [split; [done|lia]|].
  rewrite existsb_exists. split.
  - intros (m & Hm & I). apply list_elem_of_In in Hm. split_and!; [lia..|]. exists m. split; [done|].
    intros a Ha. apply map_inside_iff. lia.
  - intros (_ & _ & m & Hm & I). exists m. split; [by apply list_elem_of_In|].
    pose proof (proj1 (map_inside_iff _ _) (I addr ltac:(lia))). pose proof (proj1 (map_inside_iff _ _) (I (addr + len - 1) ltac:(lia))). lia.
Qed.

(** ** The maps of a machine *)

Section MmioSpec.
Context {Cfg : Config}.

(** What the devices and the memory do with the map. *)
Inductive mmio_session : mmio -> Prop :=
  | ms_start : mmio_session mmio_start
  | ms_add s addr len s' :
      mmio_session s -> fits 64 addr -> fits 32 len -> add_mmio_map addr len s = Some s' -> mmio_session s'
  | ms_contains s addr : mmio_session s -> mmio_session (mmio_map_contains addr s).2.

Lemma contains_maps addr s : maps (mmio_map_contains addr s).2 = maps s /\ mmio_epoch (mmio_map_contains addr s).2 = mmio_epoch s.
Proof. unfold mmio_map_contains. by repeat case_match. Qed.

(** The outcome of a successful registration. *)
Lemma add_mmio_map_inv addr len s s' :
  add_mmio_map addr len s = Some s' ->
  let m := mk_IOMap addr (wrap 64 (addr + len - 1)) in
  nr_map s < NR_MAP /\ in_pmem (low m) = false /\ in_pmem (high m) = false /\
  (forall n, n ∈ maps s -> low m <= high n -> low n <= high m -> False) /\
  maps s' = maps s ++ [m] /\ mmio_epoch s' = wrap 32 (mmio_epoch s + 1) /\ mmio_miss s' = mmio_miss s.
Proof.
  unfold add_mmio_map. destruct (Z.leb_spec NR_MAP (nr_map s)) as [|L]; [done|].
  destruct (in_pmem addr) eqn:P1; [done|]. cbv zeta. destruct (in_pmem (wrap 64 _)) eqn:P2; [done|]. cbn [orb].
  destruct (existsb _ _) eqn:E; [done|]. intros [= <-]. cbn [low high]. split_and!; [done|done|done| | | |].
  - intros n Hn H1 H2. apply not_true_iff_false in E. apply E. apply existsb_exists. exists n.
    split; [by apply list_elem_of_In|lia].
  - by destruct (range_overlaps_ram _ _).
  - by destruct (range_overlaps_ram _ _).
  - by destruct (range_overlaps_ram _ _).
Qed.

Record mmio_wf (s : mmio) : Prop := {
  wf_count : nr_map s <= NR_MAP;
  wf_epoch : mmio_epoch s = 1 + nr_map s;
  wf_pmem m : m ∈ maps s -> in_pmem (low m) = false /\ in_pmem (high m) = false;
  wf_unique i j m n a : maps s !! i = Some m -> maps s !! j = Some n -> map_inside m a = true -> map_inside n a = true -> i = j;
}.

Lemma session_wf s : mmio_session s -> mmio_wf s.
Proof.
  induction 1 as [|s addr len s' _ [C E P U] Fa Fl A|s addr _ [C E P U]].
  - split; [done|done| |done]. intros m ?%elem_of_nil. done.
  - apply add_mmio_map_inv in A as (A1 & A2 & A3 & A4 & A5 & A6 & _). set (m := mk_IOMap _ _) in *.
    assert (En : nr_map s' = nr_map s + 1) by (unfold nr_map; rewrite A5, length_app; cbn [length]; lia).
    assert (N0 : 0 <= nr_map s) by (unfold nr_map; lia). unfold NR_MAP in *. split; rewrite ?En, ?A5.
    + unfold NR_MAP. lia.
    + rewrite A6, E, wrap_small by (lia || (split; lia)). lia.
    + intros n. rewrite elem_of_app, list_elem_of_singleton. intros [H | ->]; [by apply P | done].
    + assert (X : forall n a, n ∈ maps s -> map_inside n a = true -> map_inside m a = true -> False).
      { intros n a Hn I1 I2. apply map_inside_iff in I1, I2. apply (A4 n Hn); lia. }
      intros i j n n' a. rewrite !lookup_snoc_Some. intros [ [Li Hi] | [-> Ei] ] [ [Lj Hj] | [-> Ej] ] I1 I2; try subst n; try subst n'.
      * by apply (U i j n n' a).
      * exfalso. apply (X n a); [by eapply list_elem_of_lookup_2|done..].
      * exfalso. apply (X n' a); [by eapply list_elem_of_lookup_2|done..].
      * done.
  - destruct (contains_maps addr s) as [Em Ee]. split; unfold nr_map in *; rewrite ?Em, ?Ee; done.
Qed.

(** A bus access reaches one device. Whatever devices register and whatever is
    looked up, at most 24 maps are accepted, none begins or ends in main memory,
    and an access is dispatched to a map exactly when that map is around its
    address: the first map found is the only one. *)
Theorem mmio_dispatch_unique s :
  mmio_session s ->
  nr_map s <= NR_MAP /\ (forall m, m ∈ maps s -> in_pmem (low m) = false /\ in_pmem (high m) = false) /\
  forall a m, fetch_mmio_map s a = Some m <-> m ∈ maps s /\ map_inside m a = true.
Proof.
  intros [C _ P U]%session_wf. split_and!; [done|done|]. intros a m. unfold fetch_mmio_map, find_mapid_by_addr.
  destruct (find_mapid_spec (maps s) 0 a ltac:(lia)) as [[-> N]|(k & n & -> & Hk & I & _)].
  - cbn. split; [done|]. intros [Hm I]. exfalso. apply not_true_iff_false in N. apply N. apply inside_some_iff. by exists m.
  - destruct (Z.eqb_spec (0 + Z.of_nat k) (-1)); [lia|]. rewrite Z.add_0_l, Nat2Z.id, Hk. split.
    + intros [= <-]. split; [by eapply list_elem_of_lookup_2|done].
    + intros [Hm I']. apply list_elem_of_lookup_1 in Hm as [j Hj]. f_equal.
      rewrite (U k j n m a Hk Hj I I') in Hk. congruence.
Qed.

(** ** The cache of pages without devices *)

Definition whole_pages (m : IOMap) : Prop := low m mod 4096 = 0 /\ high m mod 4096 = 4095.

Lemma whole_pages_inside m a b : whole_pages m -> a >> 12 = b >> 12 -> map_inside m a = map_inside m b.
Proof.
  intros [L H] E. rewrite !Z.shiftr_div_pow2 in E by lia. change (2 ^ 12) with 4096 in E.
  pose proof (Z.div_mod a 4096 ltac:(lia)). pose proof (Z.div_mod b 4096 ltac:(lia)).
  pose proof (Z.mod_pos_bound a 4096 ltac:(lia)). pose proof (Z.mod_pos_bound b 4096 ltac:(lia)).
  pose proof (Z.div_mod (low m) 4096 ltac:(lia)). pose proof (Z.div_mod (high m) 4096 ltac:(lia)).
  unfold map_inside. rewrite E in *. lia.
Qed.

(** A cached page has no device. *)
Definition cache_ok (s : mmio) : Prop :=
  forall idx, let e := aget (mmio_miss s) idx in
    0 <= epoch e <= mmio_epoch s /\ (epoch e = mmio_epoch s -> forall a, a >> 12 = page e -> inside_some s a = false).

Lemma contains_exact_step addr s :
  cache_ok s -> Forall whole_pages (maps s) ->
  (mmio_map_contains addr s).1 = inside_some s addr /\ cache_ok (mmio_map_contains addr s).2.
Proof.
  intros C W. unfold mmio_map_contains. cbv zeta. set (idx := _ .& _).
  destruct (_ && _) eqn:Hit.
  - apply andb_true_iff in Hit as [E1%Z.eqb_eq E2%Z.eqb_eq]. split; [|done]. cbn [fst]. symmetry.
    by apply (proj2 (C idx) E1).
  - clear Hit. destruct (hint_hit s addr) eqn:Hh; [split; [by rewrite (hint_sound s addr Hh)|done]|].
    rewrite find_mapid_found. destruct (inside_some s addr) eqn:I; [by split|]. split; [done|]. cbn [snd].
    intros i. cbv zeta. fields. rewrite aget_aset. destruct (idx =? i); [|by apply C]. cbn [epoch page].
    split; [pose proof (proj1 (C idx)); lia|]. intros _ a Ha. rewrite <-I. unfold inside_some. fields.
    clear -W Ha. induction W as [|m l Wm _ IH]; [done|]. cbn [existsb]. by rewrite IH, (whole_pages_inside m a addr).
Qed.

Lemma session_cache_ok s : mmio_session s -> Forall whole_pages (maps s) -> cache_ok s.
Proof.
  induction 1 as [|s addr len s' S IH Fa Fl A|s addr S IH]; intros W.
  - intros idx. change (aget (mmio_miss mmio_start) idx) with (mk_miss 0 0). cbn [epoch mmio_epoch mmio_start]. split; lia.
  - pose proof (session_wf s S) as [C E _ _]. pose proof (add_mmio_map_inv _ _ _ _ A) as (A1 & _ & _ & _ & A5 & A6 & A7).
    assert (N0 : 0 <= nr_map s) by (unfold nr_map; lia). unfold NR_MAP in *.
    rewrite A5 in W. apply Forall_app in W as [W _]. intros idx. cbv zeta. rewrite A6, A7, E, wrap_small by (lia || (split; lia)).
    destruct (IH W idx) as [K _]. rewrite E in K. split; lia.
  - destruct (contains_maps addr s) as [Em _]. rewrite Em in W. apply contains_exact_step; [by apply IH|done].
Qed.

(** C35: When every device takes whole pages, the lookup that every access to the
    bus makes is exact, whatever the history of lookups and registrations: the
    cache of pages without devices and the hint of the last device never change
    its answer. *)
Theorem mmio_contains_exact addr s :
  mmio_session s -> Forall whole_pages (maps s) -> (mmio_map_contains addr s).1 = inside_some s addr.
Proof. intros S W. apply contains_exact_step; [by apply session_cache_ok|done]. Qed.

End MmioSpec.


(** ** Witnesses: the CLINT and the interrupt controller *)

Definition two_devices : mmio :=
  mk_mmio [mk_IOMap 0x2000000 0x20bffff; mk_IOMap 0xc000000 0xcffffff] ∅ 3 (-1) false.

Lemma two_devices_session : mmio_session (Cfg := riscv64_ref) two_devices.
Proof.
  apply (ms_add (mk_mmio [mk_IOMap 0x2000000 0x20bffff] ∅ 2 (-1) false) 0xc000000 0x1000000); [|split; vm_compute; congruence..|reflexivity].
  apply (ms_add mmio_start 0x2000000 0xc0000); [constructor|split; vm_compute; congruence..|reflexivity].
Qed.

Lemma mmio_dispatch_unique_witness : fetch_mmio_map two_devices 0xc001000 = Some (mk_IOMap 0xc000000 0xcffffff).
Proof.
  apply (mmio_dispatch_unique (Cfg := riscv64_ref) two_devices two_devices_session). split; [|reflexivity].
  right. left.
Defined.

Lemma mmio_contains_exact_witness :
  fst (mmio_map_contains 0xc000004 (snd (mmio_map_contains 0x2fffffc two_devices))) = true.
Proof.
  rewrite (mmio_contains_exact (Cfg := riscv64_ref)); [reflexivity|apply ms_contains, two_devices_session|].
  change (maps _) with (maps two_devices). repeat constructor.
Defined.

Lemma contains_span_exact_witness : mmio_map_contains_span two_devices 0xcfffffc 4 = true.
Proof.
  apply contains_span_exact; [split; vm_compute; congruence|lia|]. split; [lia|]. split; [vm_compute; congruence|].
  exists (mk_IOMap 0xc000000 0xcffffff). split; [right; left|]. intros a Ha. apply map_inside_iff. cbn [low high]. lia.
Defined.
