(* ===== verification/Ring.v ===== *)
(** * Ring: a bounded queue in an array

    The queues of the devices keep their bytes in an array between a head and a
    tail that go round; one place stays free. This file relates such an array to
    the list of what it holds. *)
From S2P Require Import Prelude.

Section Ring.
Context (N : Z).
Hypothesis N_pos : 0 < N.

Definition ring_next (i : Z) : Z := (i + 1) mod N.
Definition ring_count (h t : Z) : Z := (t - h) mod N.
(** What waits, the oldest first. *)
Definition ring_list (a : gmap Z Z) (h t : Z) : list Z := (fun k => aget a ((h + k) mod N)) <$> seqZ 0 (ring_count h t).

(** The remainders without division. *)
Lemma mod_once x : - N <= x < 2 * N -> x mod N = if x <? 0 then x + N else if x <? N then x else x - N.
Proof.
  intros H. destruct (Z.ltb_spec x 0); [|destruct (Z.ltb_spec x N)]; symmetry; apply (Z.mod_unique_pos _ _ (if x <? 0 then -1 else if x <? N then 0 else 1));
    destruct (Z.ltb_spec x 0), (Z.ltb_spec x N); lia.
Qed.

Lemma ring_next_eq i : 0 <= i < N -> ring_next i = if i + 1 <? N then i + 1 else 0.
Proof. intros H. unfold ring_next. rewrite mod_once by lia. destruct (Z.ltb_spec (i + 1) 0), (Z.ltb_spec (i + 1) N); lia. Qed.

Lemma ring_count_eq h t : 0 <= h < N -> 0 <= t < N -> ring_count h t = if t <? h then t - h + N else t - h.
Proof.
  intros H T. unfold ring_count. rewrite mod_once by lia.
  destruct (Z.ltb_spec (t - h) 0), (Z.ltb_spec (t - h) N), (Z.ltb_spec t h); lia.
Qed.

Ltac cases := repeat match goal with
  | |- context [?x <? ?y] => destruct (Z.ltb_spec x y)
  | H : context [?x <? ?y] |- _ => destruct (Z.ltb_spec x y)
  end; lia.

Lemma ring_count_range h t : 0 <= ring_count h t < N.
Proof. apply Z.mod_pos_bound. lia. Qed.

Lemma ring_next_range i : 0 <= ring_next i < N.
Proof. apply Z.mod_pos_bound. lia. Qed.

(** As the code computes it, with C's remainder. *)
Lemma ring_next_rem i : 0 <= i < N -> Z.rem (i + 1) N = ring_next i.
Proof. intros H. apply Z.rem_mod_nonneg; lia. Qed.

Lemma ring_count_rem h t : 0 <= h < N -> 0 <= t < N -> Z.rem (t - h + N) N = ring_count h t.
Proof.
  intros H T. rewrite Z.rem_mod_nonneg by lia. unfold ring_count. rewrite <-(Z.mul_1_l N) at 1. apply Z.mod_add. lia.
Qed.

Lemma ring_list_length a h t : Z.of_nat (length (ring_list a h t)) = ring_count h t.
Proof. pose proof (ring_count_range h t). unfold ring_list. rewrite length_fmap, length_seqZ. lia. Qed.

Lemma ring_empty a h : ring_list a h h = [].
Proof. unfold ring_list, ring_count. by rewrite Z.sub_diag, Z.mod_0_l by lia. Qed.

Lemma ring_empty_iff a h t : 0 <= h < N -> 0 <= t < N -> ring_list a h t = [] <-> h = t.
Proof.
  intros H T. split; [|intros ->; apply ring_empty]. intros E. pose proof (ring_list_length a h t) as L. rewrite E in L.
  cbn [length] in L. rewrite ring_count_eq in L by done. cases.
Qed.

(** The test of the code for a full queue. *)
Lemma ring_full_iff h t : 0 <= h < N -> 0 <= t < N -> ring_next t = h <-> ring_count h t = N - 1.
Proof. intros H T. rewrite ring_count_eq, ring_next_eq by done. split; intros E; cases. Qed.

Lemma ring_push a h t x :
  0 <= h < N -> 0 <= t < N -> ring_next t <> h ->
  ring_list (aset a t x) h (ring_next t) = ring_list a h t ++ [x].
Proof.
  intros H T F. unfold ring_list.
  assert (C : ring_count h (ring_next t) = ring_count h t + 1).
  { pose proof (ring_next_range t). rewrite !ring_count_eq by done. rewrite ring_next_eq in * by done. cases. }
  pose proof (ring_count_range h t) as R. pose proof (ring_count_range h (ring_next t)) as R'.
  rewrite C, seqZ_app, fmap_app by lia. f_equal.
  - apply list_fmap_ext. intros i k Hk. apply lookup_seqZ in Hk as [-> Hk]. apply aget_aset_ne. intros E.
    rewrite mod_once in E by lia. rewrite ring_count_eq in * by done. cases.
  - change (seqZ (0 + ring_count h t) 1) with [Z.of_nat 0 + (0 + ring_count h t)]. cbn [fmap list_fmap]. f_equal.
    replace ((h + (Z.of_nat 0 + (0 + ring_count h t))) mod N) with t; [apply aget_aset_eq|].
    rewrite mod_once by lia. rewrite ring_count_eq in * by done. cases.
Qed.

Lemma ring_pop a h t : 0 <= h < N -> 0 <= t < N -> h <> t -> ring_list a h t = aget a h :: ring_list a (ring_next h) t.
Proof.
  intros H T F. unfold ring_list. pose proof (ring_count_range h t) as R.
  assert (C : ring_count h t = ring_count (ring_next h) t + 1).
  { pose proof (ring_next_range h). rewrite !ring_count_eq by done. rewrite ring_next_eq in * by done. cases. }
  pose proof (ring_count_range (ring_next h) t) as R'. rewrite seqZ_cons by lia. cbn [fmap list_fmap].
  rewrite Z.add_0_r, (Z.mod_small h) by lia. f_equal. rewrite C, Z.add_1_r, Z.pred_succ.
  change (Z.succ 0) with (1 + 0). rewrite <-(fmap_add_seqZ 1 0), <-list_fmap_compose. apply list_fmap_ext. intros i k Hk.
  cbn. f_equal. unfold ring_next. rewrite Z.add_mod_idemp_l by lia. f_equal. lia.
Qed.

End Ring.
