(* ===== verification/Serial.v ===== *)
(** * Serial: the serial ports ([device/serial.c]), with the input queue, and
    their interrupt through the PLIC

    The build has [CONFIG_SERIAL_INPUT_FIFO]; journals and the terminal's modes
    are left out. What [read] will return on the host's standard input is a list
    in the state. *)
From S2P Require Import Prelude Config Machine Paddr Plic.

(** One answer of the host: bytes that are there, an interrupted call, no data
    for now, or the end of the file. *)
Inductive host_input := Bytes (l : list Z) | Interrupted | NoData | EndOfFile.

Definition SERIAL_RX_FIFO_SIZE : Z := 256.

Record uart := mk_uart {
  serial_rx_fifo : gmap Z Z;
  serial_rx_head : Z;
  serial_rx_tail : Z;
  serial_lf_to_cr : bool;
  raw_term_inited : bool;
  host_stdin : list host_input;
  serial_base : gmap Z Z;
  serial_us16550_base : gmap Z Z;
  fcr : Z; lcr : Z; mcr : Z; ier : Z; scr : Z; dll : Z; dlm : Z;
  tx_irq_pending : bool;
  litex_uart_space : gmap Z Z;
  litex_uart_ev_pending : Z;
  litex_uart_ev_enable : Z;
  serial_output : list Z;
}.
#[export] Instance uart_fields : Fields uart := fun u =>
  mk_uart (serial_rx_fifo u) (serial_rx_head u) (serial_rx_tail u) (serial_lf_to_cr u) (raw_term_inited u) (host_stdin u)
    (serial_base u) (serial_us16550_base u) (fcr u) (lcr u) (mcr u) (ier u) (scr u) (dll u) (dlm u) (tx_irq_pending u)
    (litex_uart_space u) (litex_uart_ev_pending u) (litex_uart_ev_enable u) (serial_output u).
#[export] Instance set_serial_rx_fifo : Setter serial_rx_fifo := ltac:(build_setter serial_rx_fifo).
#[export] Instance set_serial_rx_head : Setter serial_rx_head := ltac:(build_setter serial_rx_head).
#[export] Instance set_serial_rx_tail : Setter serial_rx_tail := ltac:(build_setter serial_rx_tail).
#[export] Instance set_raw_term_inited : Setter raw_term_inited := ltac:(build_setter raw_term_inited).
#[export] Instance set_host_stdin : Setter host_stdin := ltac:(build_setter host_stdin).
#[export] Instance set_serial_base : Setter serial_base := ltac:(build_setter serial_base).
#[export] Instance set_serial_us16550_base : Setter serial_us16550_base := ltac:(build_setter serial_us16550_base).
#[export] Instance set_fcr : Setter fcr := ltac:(build_setter fcr).
#[export] Instance set_lcr : Setter lcr := ltac:(build_setter lcr).
#[export] Instance set_mcr : Setter mcr := ltac:(build_setter mcr).
#[export] Instance set_ier : Setter ier := ltac:(build_setter ier).
#[export] Instance set_scr : Setter scr := ltac:(build_setter scr).
#[export] Instance set_dll : Setter dll := ltac:(build_setter dll).
#[export] Instance set_dlm : Setter dlm := ltac:(build_setter dlm).
#[export] Instance set_tx_irq_pending : Setter tx_irq_pending := ltac:(build_setter tx_irq_pending).
#[export] Instance set_litex_uart_space : Setter litex_uart_space := ltac:(build_setter litex_uart_space).
#[export] Instance set_litex_uart_ev_pending : Setter litex_uart_ev_pending := ltac:(build_setter litex_uart_ev_pending).
#[export] Instance set_litex_uart_ev_enable : Setter litex_uart_ev_enable := ltac:(build_setter litex_uart_ev_enable).
#[export] Instance set_serial_output : Setter serial_output := ltac:(build_setter serial_output).

(** ** The input queue *)

Definition serial_rx_count (u : uart) : Z :=
  Z.rem (serial_rx_tail u - serial_rx_head u + SERIAL_RX_FIFO_SIZE) SERIAL_RX_FIFO_SIZE.
Definition serial_rx_free (u : uart) : Z := SERIAL_RX_FIFO_SIZE - 1 - serial_rx_count u.

Definition serial_rx_enqueue (ch : Z) (u : uart) : uart :=
  let next := Z.rem (serial_rx_tail u + 1) SERIAL_RX_FIFO_SIZE in
  if next =? serial_rx_head u then u
  else (u <| serial_rx_fifo ::= fun a => aset a (serial_rx_tail u) ch |>) <| serial_rx_tail := next |>.

Definition serial_rx_dequeue (u : uart) : Z * uart :=
  if serial_rx_head u =? serial_rx_tail u then (-1, u)
  else
    let ch := aget (serial_rx_fifo u) (serial_rx_head u) in
    (ch, u <| serial_rx_head := Z.rem (serial_rx_head u + 1) SERIAL_RX_FIFO_SIZE |>).

(** The registers of the 16550 and their bits. *)
Definition UART_TX : Z := 0.
Definition UART_IER : Z := 1.
Definition UART_IER_THRI : Z := 0x02.
Definition UART_IER_RDI : Z := 0x01.
Definition UART_IIR : Z := 2.
Definition UART_IIR_NO_INT : Z := 0x01.
Definition UART_IIR_THRI : Z := 0x02.
Definition UART_IIR_RDI : Z := 0x04.
Definition UART_IIR_TYPE_BITS : Z := 0xc0.
Definition UART_FCR_ENABLE_FIFO : Z := 0x01.
Definition UART_LCR : Z := 3.
Definition UART_LCR_DLAB : Z := 0x80.
Definition UART_MCR : Z := 4.
Definition UART_MCR_LOOP : Z := 0x10.
Definition UART_MCR_OUT2 : Z := 0x08.
Definition UART_LSR : Z := 5.
Definition UART_LSR_TEMT : Z := 0x40.
Definition UART_LSR_THRE : Z := 0x20.
Definition UART_LSR_DR : Z := 0x01.
Definition UART_MSR : Z := 6.
Definition UART_MSR_DCD : Z := 0x80.
Definition UART_MSR_DSR : Z := 0x20.
Definition UART_MSR_CTS : Z := 0x10.
Definition UART_SCR : Z := 7.

Definition serial_putc (ch : Z) (u : uart) : uart := u <| serial_output ::= fun l => l ++ [wrap 8 ch] |>.

(** The serial port, the interrupt controller and the hart. *)
Record soc := mk_soc { uart_of : uart; plic_of : plic; hart_of : machine }.
#[export] Instance soc_fields : Fields soc := fun s => mk_soc (uart_of s) (plic_of s) (hart_of s).
#[export] Instance set_uart_of : Setter uart_of := ltac:(build_setter uart_of).

(** The bytes of [serial_poll_stdin] as the queue gets them. *)
Definition convert (u : uart) (ch : Z) : Z := if serial_lf_to_cr u && (ch =? 10) then 13 else ch.
Definition enqueue_all (l : list Z) (u : uart) : uart := foldl (fun u ch => serial_rx_enqueue (convert u ch) u) u l.

Definition nemu_uart_reset_state (u : uart) : bool :=
  forallb (fun '(i, b) => aget (serial_us16550_base u) i =? b)
    [(0, 0); (1, 0); (2, 1); (3, 0); (4, 8); (5, 0x60); (6, 0xb0); (7, 0)]
  && negb (nz (fcr u) || nz (lcr u) || nz (mcr u) || nz (ier u) || nz (scr u) || nz (dll u) || nz (dlm u) || tx_irq_pending u)
  && negb (nz (serial_rx_count u) || raw_term_inited u).

(** Whether the state can be put into a sample; what is printed is left out. *)
Definition serial_sample_state (u : uart) : bool := negb (nz (serial_rx_count u)) && negb (nz (lcr u .& 0x80)).

(** [init_serial], before anything is registered. *)
Definition init_serial (stdin : list host_input) (crlf : bool) : uart :=
  let base := aset (aset (aset (aset ∅ UART_IIR UART_IIR_NO_INT) UART_LSR (UART_LSR_TEMT .| UART_LSR_THRE))
                UART_MSR (UART_MSR_DCD .| UART_MSR_DSR .| UART_MSR_CTS)) UART_MCR UART_MCR_OUT2 in
  mk_uart ∅ 0 0 crlf false stdin ∅ base 0 0 0 0 0 0 0 false ∅ 0 0 [].

Section Serial.
Context {Cfg : Config}.
(** [CONFIG_SERIAL_PLIC_IRQ] *)
Context (UART_IRQ : Z).

Definition serial_raise_irq (s : soc) : soc :=
  let '(p, m) := plic_raise_irq UART_IRQ (plic_of s) (hart_of s) in mk_soc (uart_of s) p m.

Definition serial_update_irq (s : soc) : soc :=
  let u := uart_of s in
  let s := if nz (ier u .& UART_IER_RDI) && (0 <? serial_rx_count u) then serial_raise_irq s else s in
  if nz (ier u .& UART_IER_THRI) && tx_irq_pending u then serial_raise_irq s else s.

(** One turn of the loop of [serial_poll_stdin], and whether there is another. *)
Definition poll_turn (s : soc) : bool * soc :=
  let u := uart_of s in
  if serial_rx_free u <=? 0 then (false, s)
  else
    let max_read := Z.to_nat (if serial_rx_free u <? 64 then serial_rx_free u else 64) in
    match host_stdin u with
    | [] => (false, s)
    | Bytes l :: rest =>
        let buf := firstn max_read l in
        let left := skipn max_read l in
        let u := u <| host_stdin := match left with [] => rest | _ => Bytes left :: rest end |> in
        match buf with
        | [] => (false, s <| uart_of := u |>)
        | _ => (true, serial_update_irq (s <| uart_of := enqueue_all buf u |>))
        end
    | Interrupted :: rest => (true, s <| uart_of ::= fun u => u <| host_stdin := rest |> |>)
    | NoData :: rest | EndOfFile :: rest => (false, s <| uart_of ::= fun u => u <| host_stdin := rest |> |>)
    end.
(** The loop; the flag is lost when the fuel is not enough. *)
Fixpoint poll_loop (fuel : nat) (s : soc) : bool * soc :=
  match fuel with
  | O => (false, s)
  | S fuel => let '(more, s) := poll_turn s in if more : bool then poll_loop fuel s else (true, s)
  end.
Definition poll_fuel (u : uart) : nat := S (Z.to_nat (serial_rx_free u) + length (host_stdin u)).
Definition serial_ensure_host_stdin (u : uart) : uart := u <| raw_term_inited := true |>.
Definition serial_poll_stdin (s : soc) : soc :=
  let s := s <| uart_of ::= serial_ensure_host_stdin |> in
  snd (poll_loop (poll_fuel (uart_of s)) s).

(** Poll, then take a byte; 0 when there is none. *)
Definition receive (s : soc) : Z * soc :=
  let s := serial_poll_stdin s in
  let '(ch, u) := serial_rx_dequeue (uart_of s) in
  (if 0 <=? ch then wrap 8 ch else 0, s <| uart_of := u |>).

(** ** The 16550: the value left in the register window, and the new state *)

Definition uart_data (is_write : bool) (val : Z) (s : soc) : Z * soc :=
  let u := uart_of s in
  if is_write then
    if nz (lcr u .& UART_LCR_DLAB) then (val, s <| uart_of ::= fun u => u <| dll := val |> |>)
    else if nz (mcr u .& UART_MCR_LOOP) then (val, s)
    else (val, serial_update_irq (s <| uart_of ::= fun u => (serial_putc val u) <| tx_irq_pending := true |> |>))
  else if nz (lcr u .& UART_LCR_DLAB) then (dll u, s)
  else receive s.

Definition uart_ier (is_write : bool) (val : Z) (s : soc) : Z * soc :=
  let u := uart_of s in
  let dlab := nz (lcr u .& UART_LCR_DLAB) in
  if is_write then
    if negb dlab then (val, serial_update_irq (s <| uart_of ::= fun u => u <| ier := val .& 0x0f |> |>))
    else (val, s <| uart_of ::= fun u => u <| dlm := val |> |>)
  else (if dlab then dlm u else ier u, s).

Definition uart_iir (is_write : bool) (val : Z) (s : soc) : Z * soc :=
  if is_write then (val, s <| uart_of ::= fun u => u <| fcr := val |> |>)
  else
    let iir_type := if nz (fcr (uart_of s) .& UART_FCR_ENABLE_FIFO) then UART_IIR_TYPE_BITS else 0 in
    let s := serial_poll_stdin s in
    let u := uart_of s in
    if nz (ier u .& UART_IER_RDI) && (0 <? serial_rx_count u) then (UART_IIR_RDI .| iir_type, s)
    else if nz (ier u .& UART_IER_THRI) && tx_irq_pending u
    then (UART_IIR_THRI .| iir_type, s <| uart_of ::= fun u => u <| tx_irq_pending := false |> |>)
    else (UART_IIR_NO_INT .| iir_type, s).

Definition uart_lsr (is_write : bool) (val : Z) (s : soc) : Z * soc :=
  if is_write then (val, s)
  else
    let s := serial_poll_stdin s in
    let val := UART_LSR_TEMT .| UART_LSR_THRE in
    (if 0 <? serial_rx_count (uart_of s) then val .| UART_LSR_DR else val, s).

Definition uart_register (offset : Z) (is_write : bool) (val : Z) (s : soc) : Z * soc :=
  if offset =? UART_TX then uart_data is_write val s
  else if offset =? UART_IER then uart_ier is_write val s
  else if offset =? UART_IIR then uart_iir is_write val s
  else if offset =? UART_LCR then (val, if is_write then s <| uart_of ::= fun u => u <| lcr := val |> |> else s)
  else if offset =? UART_MCR then (val, if is_write then s <| uart_of ::= fun u => u <| mcr := val |> |> else s)
  else if offset =? UART_LSR then uart_lsr is_write val s
  else if offset =? UART_MSR then (if is_write then val else UART_MSR_DCD .| UART_MSR_DSR .| UART_MSR_CTS, s)
  else if offset =? UART_SCR then (val, if is_write then s <| uart_of ::= fun u => u <| scr := val |> |> else s)
  else (val, s).

Definition serial_io_handler_ns16550 (offset : Z) (is_write : bool) (s : soc) : soc :=
  let '(val, s) := uart_register offset is_write (aget (serial_us16550_base (uart_of s)) offset) s in
  s <| uart_of ::= fun u => u <| serial_us16550_base ::= fun b => aset b offset (wrap 8 val) |> |>.

(** A byte access of [map_read] and [map_write]. *)
Definition uart_read (offset : Z) (s : soc) : Z * soc :=
  let s := serial_io_handler_ns16550 offset false s in
  (aget (serial_us16550_base (uart_of s)) offset, s).
Definition uart_write (offset data : Z) (s : soc) : soc :=
  serial_io_handler_ns16550 offset true
    (s <| uart_of ::= fun u => u <| serial_us16550_base ::= fun b => aset b offset (wrap 8 data) |> |>).

(** ** The simple port and the LiteX port *)

Definition CH_OFFSET : Z := 0.
Definition serial_io_handler (offset len : Z) (is_write : bool) (u : uart) : option uart :=
  if negb (len =? 1) then None
  else if offset =? CH_OFFSET then
    if is_write then Some (serial_putc (aget (serial_base u) 0) u) else None
  else if (offset =? 1) || (offset =? 3) || (offset =? 5) then
    Some (if is_write then u else u <| serial_base ::= fun b => aset b 5 (1 << 5) |>)
  else None.

Definition LITEX_UART_RXTX : Z := 0x00.
Definition LITEX_UART_TXFULL : Z := 0x04.
Definition LITEX_UART_RXEMPTY : Z := 0x08.
Definition LITEX_UART_EV_STATUS : Z := 0x0c.
Definition LITEX_UART_EV_PENDING : Z := 0x10.
Definition LITEX_UART_EV_ENABLE : Z := 0x14.

Definition litex_uart_load32 (off : Z) (u : uart) : Z := load_bytes (litex_uart_space u) off 4.
Definition litex_uart_store32 (off val : Z) (u : uart) : uart := u <| litex_uart_space ::= fun b => store_bytes b off 4 val |>.

Definition litex_write (reg : Z) (u : uart) : uart :=
  let val := litex_uart_load32 reg u in
  if reg =? LITEX_UART_RXTX then serial_putc val u
  else if reg =? LITEX_UART_EV_PENDING then u <| litex_uart_ev_pending ::= fun p => p .& wrap 32 (~~ val) |>
  else if reg =? LITEX_UART_EV_ENABLE then u <| litex_uart_ev_enable := val |>
  else u.

Definition litex_read (reg : Z) (s : soc) : Z * soc :=
  if reg =? LITEX_UART_RXTX then receive s
  else if reg =? LITEX_UART_TXFULL then (0, s)
  else if reg =? LITEX_UART_RXEMPTY then
    let s := serial_poll_stdin s in (if 0 <? serial_rx_count (uart_of s) then 0 else 1, s)
  else if reg =? LITEX_UART_EV_STATUS then
    let s := serial_poll_stdin s in ((if 0 <? serial_rx_count (uart_of s) then 2 else 0) .| 1, s)
  else if reg =? LITEX_UART_EV_PENDING then (litex_uart_ev_pending (uart_of s), s)
  else if reg =? LITEX_UART_EV_ENABLE then (litex_uart_ev_enable (uart_of s), s)
  else (0, s).

Definition litex_uart_io_handler (offset : Z) (is_write : bool) (s : soc) : soc :=
  let reg := offset .& wrap 32 (~~ 3) in
  if is_write then s <| uart_of ::= litex_write reg |>
  else let '(val, s) := litex_read reg s in s <| uart_of ::= litex_uart_store32 reg val |>.

End Serial.
