(* ===== verification/SerialSpec.v ===== *)
(** * SerialSpec: the serial port

    The ring buffer is a bounded queue; the loop that fills it from the host ends
    and loses nothing; the guest receives what was typed, in order; a byte that
    arrives raises the interrupt of the port as far as the hart. *)
From S2P Require Import Prelude Config Machine Trap TrapSpec Clint ClintSpec Ring Paddr Plic PlicSpec Serial.

(** ** The ring buffer is a queue *)

Record ring_ok (u : uart) : Prop := {
  ring_head : 0 <= serial_rx_head u < 256;
  ring_tail : 0 <= serial_rx_tail u < 256;
}.

(** The bytes that wait, the oldest first. *)
Definition queue (u : uart) : list Z := ring_list 256 (serial_rx_fifo u) (serial_rx_head u) (serial_rx_tail u).

Lemma count_ring u : ring_ok u -> serial_rx_count u = ring_count 256 (serial_rx_head u) (serial_rx_tail u).
Proof. intros [H T]. by apply ring_count_rem. Qed.

Lemma count_range u : ring_ok u -> 0 <= serial_rx_count u < 256.
Proof. intros R. rewrite count_ring by done. by apply ring_count_range. Qed.

Lemma queue_length u : ring_ok u -> Z.of_nat (length (queue u)) = serial_rx_count u.
Proof. intros R. rewrite count_ring by done. by apply ring_list_length. Qed.

Lemma enqueue_ok u ch :
  ring_ok u ->
  ring_ok (serial_rx_enqueue ch u) /\
  queue (serial_rx_enqueue ch u) = if Z.of_nat (length (queue u)) <? 255 then queue u ++ [ch] else queue u.
Proof.
  intros R. pose proof R as [H T]. pose proof (count_range u R) as C. rewrite (queue_length u R), (count_ring u R).
  rewrite (count_ring u R) in C. pose proof (ring_full_iff 256 ltac:(done) _ _ H T) as F.
  unfold serial_rx_enqueue, SERIAL_RX_FIFO_SIZE. rewrite (ring_next_rem 256 ltac:(done) _ T). cbv zeta.
  destruct (Z.eqb_spec (ring_next 256 (serial_rx_tail u)) (serial_rx_head u)) as [E|E].
  - split; [done|]. by rewrite (proj2 (Z.ltb_ge _ _)) by (apply F in E; lia).
  - split; [split; fields; [done|by apply ring_next_range]|]. rewrite (proj2 (Z.ltb_lt _ _)) by (assert (ring_count 256 (serial_rx_head u) (serial_rx_tail u) <> 255) by (intros X; apply E, F, X); lia).
    unfold queue. fields. by apply ring_push.
Qed.

Lemma dequeue_ok u :
  ring_ok u ->
  match queue u with
  | [] => serial_rx_dequeue u = (-1, u)
  | c :: q => exists u', serial_rx_dequeue u = (c, u') /\ ring_ok u' /\ queue u' = q /\
      host_stdin u' = host_stdin u /\ serial_lf_to_cr u' = serial_lf_to_cr u
  end.
Proof.
  intros R. pose proof R as [H T]. unfold queue, serial_rx_dequeue, SERIAL_RX_FIFO_SIZE. rewrite (ring_next_rem 256 ltac:(done) _ H).
  destruct (Z.eqb_spec (serial_rx_head u) (serial_rx_tail u)) as [E|E].
  - by rewrite E, ring_empty.
  - rewrite ring_pop by done. eexists. split; [done|]. split; [split; fields; [by apply ring_next_range|done]|]. by fields.
Qed.

(** ** Nothing is lost between the host and the guest *)

Fixpoint flat (l : list host_input) : list Z :=
  match l with [] => [] | Bytes b :: l => b ++ flat l | _ :: l => flat l end.

(** Everything the guest has still to receive. *)
Definition flow (u : uart) : list Z := queue u ++ (convert u <$> flat (host_stdin u)).

Record port_ok (u : uart) : Prop := {
  port_ring : ring_ok u;
  port_bytes : Forall (fits 8) (flow u);
}.

(** The fields that queueing leaves alone. *)
Lemma enqueue_frame u ch :
  let u' := serial_rx_enqueue ch u in
  host_stdin u' = host_stdin u /\ serial_lf_to_cr u' = serial_lf_to_cr u /\ ier u' = ier u.
Proof. cbv zeta. unfold serial_rx_enqueue. by destruct (_ =? _). Qed.

Lemma convert_frame u u' ch : serial_lf_to_cr u' = serial_lf_to_cr u -> convert u' ch = convert u ch.
Proof. intros E. unfold convert. by rewrite E. Qed.

Lemma enqueue_all_ok l u :
  ring_ok u -> Z.of_nat (length l) <= serial_rx_free u ->
  let u' := enqueue_all l u in
  ring_ok u' /\ queue u' = queue u ++ (convert u <$> l) /\
  host_stdin u' = host_stdin u /\ serial_lf_to_cr u' = serial_lf_to_cr u /\ ier u' = ier u.
Proof.
  unfold serial_rx_free, SERIAL_RX_FIFO_SIZE. revert u. induction l as [|ch l IH]; intros u R L; [by rewrite app_nil_r|].
  change (enqueue_all (ch :: l) u) with (enqueue_all l (serial_rx_enqueue (convert u ch) u)).
  destruct (enqueue_ok u (convert u ch) R) as [R1 Q1]. destruct (enqueue_frame u (convert u ch)) as (F1 & F2 & F3).
  cbn [length] in L. rewrite (queue_length u R), (proj2 (Z.ltb_lt _ _)) in Q1 by lia.
  set (u1 := serial_rx_enqueue (convert u ch) u) in *.
  assert (C1 : serial_rx_count u1 = serial_rx_count u + 1).
  { rewrite <-(queue_length u1 R1), Q1, length_app. cbn [length]. rewrite <-(queue_length u R). lia. }
  destruct (IH u1 R1 ltac:(lia)) as (R2 & Q2 & G1 & G2 & G3). split_and!; [done| |congruence..].
  rewrite Q2, Q1, <-app_assoc. do 2 f_equal. cbn [fmap list_fmap]. f_equal. apply list_fmap_ext. intros _ x _. by apply convert_frame.
Qed.

Section SerialSpec.
Context {Cfg : Config} (UART_IRQ : Z).

Lemma raise_uart s : uart_of (serial_raise_irq UART_IRQ s) = uart_of s.
Proof. unfold serial_raise_irq. by destruct (plic_raise_irq _ _ _). Qed.

Lemma update_uart s : uart_of (serial_update_irq UART_IRQ s) = uart_of s.
Proof.
  unfold serial_update_irq. cbv zeta.
  destruct (nz (ier (uart_of s) .& UART_IER_RDI) && _), (nz (ier (uart_of s) .& UART_IER_THRI) && _); by rewrite ?raise_uart.
Qed.

(** The same bytes to come. *)
Definition kept (u u' : uart) : Prop := ring_ok u' /\ flow u' = flow u /\ ier u' = ier u.

Lemma kept_trans u1 u2 u3 : kept u1 u2 -> kept u2 u3 -> kept u1 u3.
Proof. intros (_ & F1 & I1) (R & F2 & I2). split_and!; [done|congruence..]. Qed.

Definition pending (u : uart) : nat := (Z.to_nat (serial_rx_free u) + length (host_stdin u))%nat.

Lemma poll_turn_ok s :
  ring_ok (uart_of s) ->
  let '(more, s') := poll_turn UART_IRQ s in
  kept (uart_of s) (uart_of s') /\ (more = true -> (pending (uart_of s') < pending (uart_of s))%nat).
Proof.
  intros R. unfold poll_turn. set (u := uart_of s) in *. cbv zeta. pose proof (count_range u R) as C.
  assert (Id : kept u u) by (by split_and!).
  destruct (Z.leb_spec (serial_rx_free u) 0) as [|Fr]; [by split|].
  assert (Same : forall v, queue (u <| host_stdin := v |>) = queue u) by done.
  assert (Rs : forall v, ring_ok (u <| host_stdin := v |>)) by (intros v; by destruct R).
  destruct (host_stdin u) as [|[l| | |] rest] eqn:E; [by split| | | |].
  - set (n := Z.to_nat (if serial_rx_free u <? 64 then serial_rx_free u else 64)).
    assert (N : (0 < n)%nat /\ Z.of_nat n <= serial_rx_free u) by (unfold n; destruct (Z.ltb_spec (serial_rx_free u) 64); lia).
    set (rest' := match skipn n l with [] => rest | _ :: _ => Bytes (skipn n l) :: rest end).
    assert (Fl : firstn n l ++ flat rest' = l ++ flat rest /\ (length rest' <= S (length rest))%nat).
    { unfold rest'. rewrite <-(firstn_skipn n l) at 3. destruct (skipn n l); cbn [flat length]; rewrite <-?app_assoc, ?app_nil_r; split; done || lia. }
    set (u1 := u <| host_stdin := rest' |>).
    destruct (firstn n l) as [|b buf] eqn:Eb.
    + split; [|done]. fields. split; [apply Rs|]. split; [|done]. unfold flow. change (queue u1) with (queue u).
      change (host_stdin u1) with rest'. rewrite E. destruct Fl as [Fl _]. cbn [app flat] in *. by rewrite Fl.
    + destruct (enqueue_all_ok (b :: buf) u1 (Rs _)) as (R2 & Q2 & H2 & L2 & I2).
      { change (serial_rx_free u1) with (serial_rx_free u). rewrite <-Eb, length_firstn. lia. }
      rewrite update_uart. fields. split.
      * split; [done|]. split; [|by rewrite I2]. unfold flow. rewrite Q2, H2, E, <-app_assoc. change (queue u1) with (queue u). f_equal.
        change (host_stdin u1) with rest'. cbn [flat]. destruct Fl as [<- _]. rewrite fmap_app. f_equal.
        apply list_fmap_ext. intros _ x _. by apply convert_frame.
      * intros _. unfold pending, serial_rx_free. rewrite H2, E. change (host_stdin u1) with rest'. cbn [length].
        assert (C2 : serial_rx_count (enqueue_all (b :: buf) u1) = serial_rx_count u + Z.of_nat (length (b :: buf))).
        { rewrite <-(queue_length _ R2), Q2, length_app, length_fmap. change (queue u1) with (queue u).
          rewrite <-(queue_length u R). lia. }
        rewrite C2. cbn [length]. unfold serial_rx_free in *. lia.
  - assert (P : forall v, serial_rx_free (u <| host_stdin := v |>) = serial_rx_free u) by done.
    split; [|intros _; unfold pending; fields; rewrite P, E; cbn [length]; lia]. fields. split; [apply Rs|]. split; [|done].
    unfold flow. rewrite Same, E. done.
  - split; [|done]. fields. split; [apply Rs|]. split; [|done]. unfold flow. rewrite Same, E. done.
  - split; [|done]. fields. split; [apply Rs|]. split; [|done]. unfold flow. rewrite Same, E. done.
Qed.

Lemma poll_loop_ok fuel s :
  ring_ok (uart_of s) -> (pending (uart_of s) < fuel)%nat ->
  fst (poll_loop UART_IRQ fuel s) = true /\ kept (uart_of s) (uart_of (snd (poll_loop UART_IRQ fuel s))).
Proof.
  revert s. induction fuel as [|fuel IH]; intros s R L; [lia|]. cbn [poll_loop].
  pose proof (poll_turn_ok s R) as T. destruct (poll_turn UART_IRQ s) as [[] s'].
  - destruct T as [K D]. specialize (D eq_refl). destruct (IH s' (proj1 K) ltac:(lia)) as [-> K'].
    split; [done|]. by eapply kept_trans.
  - split; [done|]. by destruct T.
Qed.

Lemma serial_poll_ok s :
  ring_ok (uart_of s) ->
  let s0 := s <| uart_of ::= serial_ensure_host_stdin |> in
  fst (poll_loop UART_IRQ (poll_fuel (uart_of s0)) s0) = true /\
  flow (uart_of (serial_poll_stdin UART_IRQ s)) = flow (uart_of s) /\ ring_ok (uart_of (serial_poll_stdin UART_IRQ s)).
Proof.
  intros R s0. assert (R0 : ring_ok (uart_of s0)) by (by destruct R).
  destruct (poll_loop_ok (poll_fuel (uart_of s0)) s0 R0) as (H1 & H2 & H3 & _); [unfold poll_fuel, pending; lia|].
  split; [done|]. split; [exact H3|exact H2].
Qed.

(** Reading the host's input ends, whatever the host answers, with at most as
    many calls as there are free places in the queue and answers to come, and
    loses, repeats or reorders nothing: what waits in the queue followed by what
    the host still has is the same as before. *)
Theorem serial_poll_terminates s :
  ring_ok (uart_of s) ->
  let s0 := s <| uart_of ::= serial_ensure_host_stdin |> in
  fst (poll_loop UART_IRQ (poll_fuel (uart_of s0)) s0) = true /\
  flow (uart_of (serial_poll_stdin UART_IRQ s)) = flow (uart_of s) /\ ring_ok (uart_of (serial_poll_stdin UART_IRQ s)).
Proof. apply serial_poll_ok. Qed.

Lemma poll_port s : port_ok (uart_of s) -> port_ok (uart_of (serial_poll_stdin UART_IRQ s)) /\
  flow (uart_of (serial_poll_stdin UART_IRQ s)) = flow (uart_of s).
Proof. intros [R B]. destruct (serial_poll_ok s R) as (_ & F & R'). split; [split; [done|by rewrite F]|done]. Qed.

(** Taking a byte. *)
Definition took (s : soc) : list Z := firstn 1 (queue (uart_of (serial_poll_stdin UART_IRQ s))).

Lemma receive_ok s :
  port_ok (uart_of s) ->
  let '(val, s') := receive UART_IRQ s in
  port_ok (uart_of s') /\ flow (uart_of s) = took s ++ flow (uart_of s') /\ (took s = [val] \/ took s = [] /\ val = 0).
Proof.
  intros P. destruct (poll_port s P) as [P1 F1]. unfold receive, took. cbv zeta.
  set (s1 := serial_poll_stdin UART_IRQ s) in *. pose proof P1 as [R1 B1].
  pose proof (dequeue_ok (uart_of s1) R1) as D. destruct (queue (uart_of s1)) as [|c q] eqn:Q.
  - rewrite D. fields. split_and!; [done|by rewrite <-F1|by right].
  - destruct D as (u' & -> & R' & Q' & H' & L'). fields.
    assert (F : flow (uart_of s1) = c :: flow u').
    { unfold flow. rewrite Q, Q', H'. cbn. do 2 f_equal. apply list_fmap_ext. intros _ x _. symmetry. by apply convert_frame. }
    rewrite F in B1. apply Forall_cons in B1 as [Bc B1]. cbn [firstn app].
    split_and!; [split; done|by rewrite <-F1, F|left].
    rewrite (proj2 (Z.leb_le 0 c)), wrap_small by (lia || done || apply Bc). done.
Qed.

(** ** What the guest can do to the ports *)

Inductive access := Read (offset : Z) | Write (offset data : Z) | LitexRead (offset : Z) | LitexWrite (offset : Z).

Definition perform (a : access) (s : soc) : soc :=
  match a with
  | Read offset => snd (uart_read UART_IRQ offset s)
  | Write offset data => uart_write UART_IRQ offset data s
  | LitexRead offset => litex_uart_io_handler UART_IRQ offset false s
  | LitexWrite offset => litex_uart_io_handler UART_IRQ offset true s
  end.

(** A read of the data register of a port. *)
Definition data_read (a : access) (s : soc) : bool :=
  match a with
  | Read offset => (offset =? UART_TX) && negb (nz (lcr (uart_of s) .& UART_LCR_DLAB))
  | LitexRead offset => offset .& wrap 32 (~~ 3) =? LITEX_UART_RXTX
  | _ => false
  end.

(** The value the guest gets from a read. *)
Definition answer (a : access) (s : soc) : Z :=
  match a with
  | Read offset => fst (uart_read UART_IRQ offset s)
  | LitexRead offset => litex_uart_load32 (offset .& wrap 32 (~~ 3)) (uart_of (perform a s))
  | _ => 0
  end.

(** What the guest receives: the value of a read of the data register when, after
    the poll of that read, something waits. *)
Definition received (a : access) (s : soc) : list Z :=
  if data_read a s && (0 <? serial_rx_count (uart_of (serial_poll_stdin UART_IRQ s))) then [answer a s] else [].
Fixpoint session (l : list access) (s : soc) : list Z * soc :=
  match l with
  | [] => ([], s)
  | a :: l => let '(bytes, s') := session l (perform a s) in (received a s ++ bytes, s')
  end.

(** The bytes an access takes from the queue. *)
Definition delivered (a : access) (s : soc) : list Z := if data_read a s then took s else [].

(** Updates of other fields. *)
Definition same_input (u u' : uart) : Prop :=
  serial_rx_fifo u' = serial_rx_fifo u /\ serial_rx_head u' = serial_rx_head u /\ serial_rx_tail u' = serial_rx_tail u /\
  serial_lf_to_cr u' = serial_lf_to_cr u /\ host_stdin u' = host_stdin u.

Lemma same_input_port u u' : same_input u u' -> port_ok u -> port_ok u' /\ flow u' = flow u.
Proof.
  intros (E1 & E2 & E3 & E4 & E5) [R B].
  assert (F : flow u' = flow u).
  { unfold flow, queue, serial_rx_count. rewrite E1, E2, E3, E5. f_equal. apply list_fmap_ext. intros _ x _. by apply convert_frame. }
  split; [|done]. split; [|by rewrite F]. destruct R. split; by rewrite ?E2, ?E3.
Qed.

(** An access that takes [bytes]. *)
Definition takes (s : soc) (bytes : list Z) (s' : soc) : Prop :=
  port_ok (uart_of s') /\ flow (uart_of s) = bytes ++ flow (uart_of s').

Lemma takes_same s s' : port_ok (uart_of s) -> same_input (uart_of s) (uart_of s') -> takes s [] s'.
Proof. intros P E. destruct (same_input_port _ _ E P) as [P' F]. split; [done|by rewrite F]. Qed.

Lemma takes_poll s s' : port_ok (uart_of s) -> same_input (uart_of (serial_poll_stdin UART_IRQ s)) (uart_of s') -> takes s [] s'.
Proof.
  intros P E. destruct (poll_port s P) as [P1 F1]. destruct (same_input_port _ _ E P1) as [P' F]. split; [done|by rewrite <-F1, F].
Qed.

Lemma takes_then s bytes s1 s2 : takes s bytes s1 -> same_input (uart_of s1) (uart_of s2) -> takes s bytes s2.
Proof. intros [P F] E. destruct (same_input_port _ _ E P) as [P' F']. split; [done|by rewrite F']. Qed.

Lemma same_refl u : same_input u u.
Proof. by split_and!. Qed.

Ltac same := rewrite ?update_uart; fields; first [apply same_refl | by split_and!].

Lemma register_takes offset (w : bool) val s :
  port_ok (uart_of s) ->
  takes s (if w then @nil Z else delivered (Read offset) s) (snd (uart_register UART_IRQ offset w val s)).
Proof.
  intros P. unfold uart_register, delivered, data_read.
  destruct (Z.eqb_spec offset UART_TX) as [->|]; cbn [andb].
  { unfold uart_data. cbv zeta. destruct w.
    - destruct (nz (lcr _ .& _)); [apply takes_same; [done|same]|].
      destruct (nz (mcr _ .& _)); [apply takes_same; [done|same]|]. apply takes_same; [done|]. cbn [snd]. same.
    - destruct (nz (lcr _ .& _)); cbn [negb]; [apply takes_same; [done|same]|].
      pose proof (receive_ok s P) as R. destruct (receive UART_IRQ s) as [v s']. by destruct R as (R1 & R2 & _). }
  assert (I : (if w then @nil Z else if false then took s else []) = []) by (by destruct w). rewrite I. clear I.
  destruct (offset =? UART_IER); [unfold uart_ier; cbv zeta; destruct w, (nz _); cbn [negb snd]; apply takes_same; done || same|].
  destruct (offset =? UART_IIR).
  { unfold uart_iir. cbv zeta. destruct w; [apply takes_same; [done|same]|].
    destruct (nz _ && _); [apply takes_poll; [done|same]|]. destruct (nz _ && _); apply takes_poll; done || same. }
  destruct (offset =? UART_LCR); [destruct w; apply takes_same; done || same|].
  destruct (offset =? UART_MCR); [destruct w; apply takes_same; done || same|].
  destruct (offset =? UART_LSR).
  { unfold uart_lsr. cbv zeta. destruct w; [apply takes_same; [done|same]|]. apply takes_poll; [done|same]. }
  destruct (offset =? UART_MSR); [apply takes_same; done || same|].
  destruct (offset =? UART_SCR); [destruct w; apply takes_same; done || same|]. apply takes_same; done || same.
Qed.

Lemma handler_takes offset (w : bool) s :
  port_ok (uart_of s) ->
  takes s (if w then [] else delivered (Read offset) s) (serial_io_handler_ns16550 UART_IRQ offset w s).
Proof.
  intros P. unfold serial_io_handler_ns16550.
  pose proof (register_takes offset w (aget (serial_us16550_base (uart_of s)) offset) s P) as T.
  destruct (uart_register _ _ _ _ _) as [v s']. cbn [snd] in T. apply (takes_then _ _ _ _ T). same.
Qed.

Lemma litex_takes offset s :
  port_ok (uart_of s) -> takes s (delivered (LitexRead offset) s) (litex_uart_io_handler UART_IRQ offset false s).
Proof.
  intros P. unfold litex_uart_io_handler, delivered, data_read. set (reg := offset .& wrap 32 (~~ 3)). cbv zeta.
  assert (T : takes s (if reg =? LITEX_UART_RXTX then took s else []) (snd (litex_read UART_IRQ reg s))).
  { unfold litex_read. destruct (reg =? LITEX_UART_RXTX).
    { pose proof (receive_ok s P) as R. destruct (receive UART_IRQ s) as [v s']. by destruct R as (R1 & R2 & _). }
    destruct (reg =? LITEX_UART_TXFULL); [apply takes_same; done || same|].
    destruct (reg =? LITEX_UART_RXEMPTY); [apply takes_poll; done || same|].
    destruct (reg =? LITEX_UART_EV_STATUS); [apply takes_poll; done || same|].
    destruct (reg =? LITEX_UART_EV_PENDING); [apply takes_same; done || same|].
    destruct (reg =? LITEX_UART_EV_ENABLE); apply takes_same; done || same. }
  destruct (litex_read _ _ _) as [v s']. cbn [snd] in T. apply (takes_then _ _ _ _ T). same.
Qed.

Lemma perform_takes a s : port_ok (uart_of s) -> takes s (delivered a s) (perform a s).
Proof.
  intros P. destruct a as [offset|offset data|offset|offset]; cbn [perform].
  - apply (handler_takes offset false s P).
  - unfold uart_write. match goal with |- takes _ _ (_ _ _ _ ?x) => set (s0 := x) end.
    assert (E : same_input (uart_of s) (uart_of s0)) by same.
    destruct (same_input_port _ _ E P) as [P0 F0]. destruct (handler_takes offset true s0 P0) as [P1 F1].
    split; [done|]. by rewrite <-F0.
  - by apply litex_takes.
  - apply takes_same; [done|]. unfold litex_uart_io_handler, litex_write. cbv zeta.
    destruct (_ =? LITEX_UART_RXTX); [same|]. destruct (_ =? LITEX_UART_EV_PENDING); [same|].
    destruct (_ =? LITEX_UART_EV_ENABLE); same.
Qed.

(** The value read is the byte taken. *)
Lemma receive_fits s : port_ok (uart_of s) -> fits 8 (fst (receive UART_IRQ s)).
Proof.
  intros P. pose proof (receive_ok s P) as R. destruct (receive UART_IRQ s) as [v s']. destruct R as (_ & F & [T|[T ->]]); [|by split].
  destruct P as [_ B]. rewrite F, T in B. by apply Forall_cons in B as [B _].
Qed.

Lemma data_answer a s : port_ok (uart_of s) -> data_read a s = true -> answer a s = fst (receive UART_IRQ s).
Proof.
  intros P. pose proof (receive_fits s P) as R. destruct a as [offset|offset data|offset|offset]; cbn [data_read answer perform]; try done.
  - intros [-> D]%andb_prop%(fun H => conj (proj1 (Z.eqb_eq _ _) (proj1 H)) (proj2 H)). apply negb_true_iff in D.
    unfold uart_read, serial_io_handler_ns16550, uart_register, uart_data. change (UART_TX =? UART_TX) with true. cbv zeta. cbn iota.
    rewrite D. destruct (receive UART_IRQ s) as [v s']. cbn [fst] in *. fields. rewrite aget_aset_eq. by apply wrap_small.
  - unfold litex_uart_io_handler, litex_read. cbv zeta. intros E. rewrite E. destruct (receive UART_IRQ s) as [v s']. cbn [fst] in *.
    unfold litex_uart_load32, litex_uart_store32. fields. rewrite load_store_bytes. apply wrap_small; [done|].
    by apply (fits_le 8).
Qed.

Lemma received_delivered a s : port_ok (uart_of s) -> received a s = delivered a s.
Proof.
  intros P. unfold received, delivered. destruct (data_read a s) eqn:D; cbn [andb]; [|done]. rewrite (data_answer a s P D).
  destruct (poll_port s P) as [[R1 _] _]. pose proof (queue_length _ R1) as L.
  pose proof (receive_ok s P) as R. destruct (receive UART_IRQ s) as [v s']. destruct R as (_ & _ & T). cbn [fst].
  unfold took in *. destruct (queue _) as [|c q]; cbn [length] in L.
  - by rewrite (proj2 (Z.ltb_ge _ _)) by lia.
  - rewrite (proj2 (Z.ltb_lt _ _)) by lia. by destruct T as [T|[T _]].
Qed.

(** C15: Whatever the guest does to the ports, and however the host's bytes come in,
    what the guest receives from the data registers of the two ports is what was
    typed, in that order: followed by what waits in the queue and what the host
    still has, it is what there was at the beginning. *)
Theorem serial_lossless l s :
  port_ok (uart_of s) ->
  let '(bytes, s') := session l s in
  flow (uart_of s) = bytes ++ flow (uart_of s') /\ port_ok (uart_of s').
Proof.
  revert s. induction l as [|a l IH]; intros s P; cbn [session]; [done|].
  destruct (perform_takes a s P) as [P1 F1]. specialize (IH _ P1). destruct (session l _) as [bytes s'].
  destruct IH as [F2 P2]. split; [|done]. by rewrite received_delivered, F1, F2, app_assoc by done.
Qed.

(** ** Input interrupts the hart *)

(** The port's source is enabled above the threshold for the machine context, and
    the hart takes the machine external interrupt. *)
Record asks (s : soc) : Prop := {
  asks_enable : source_bit (aget (plic_enable (plic_of s)) 0) UART_IRQ = true;
  asks_priority : aget (plic_threshold (plic_of s)) 0 < aget (plic_priority (plic_of s)) UART_IRQ;
  asks_interrupts : interrupts_enabled (hart_of s) = true;
  asks_mie : Z.testbit (CSR (hart_of s) CSR_MIE) 11 = true;
  asks_mideleg : Z.testbit (CSR (hart_of s) CSR_MIDELEG) 11 = false;
  asks_priv : priv (hart_of s) < PRV_M \/ (priv (hart_of s) = PRV_M /\ get_mie (CSR (hart_of s) CSR_MSTATUS) <> 0);
}.
Definition interrupted (s : soc) : Prop := asks s /\ isa_query_intr (hart_of s) = MCA_MAC_EXT_INT.

Hypothesis irq_range : in_range UART_IRQ.

Lemma raise_interrupts s : asks s -> interrupted (serial_raise_irq UART_IRQ s).
Proof.
  intros [E T Hi Hm Hd Hp]. unfold serial_raise_irq.
  destruct (raise_live UART_IRQ (plic_of s) (hart_of s) irq_range E T) as (p' & Ep & H).
  assert (K : plic_enable p' = plic_enable (plic_of s) /\ plic_threshold p' = plic_threshold (plic_of s) /\
    plic_priority p' = plic_priority (plic_of s)).
  { unfold plic_raise_irq, plic_changed in Ep. destruct (_ || _); injection Ep as <- _; done. }
  destruct K as (K1 & K2 & K3). rewrite Ep. unfold plic_changed. cbv beta iota.
  pose proof (update_line p' (hart_of s) 0 ltac:(done)) as L. rewrite H in L. rewrite update_rounds in *. cbv zeta in *.
  unfold line in L. cbn [Z.eqb] in L. unfold mip_line in *.
  split; [|apply external_taken; [..|exact L| | |]; cbn [hart_of]; revert Hi Hm Hd Hp; unfold interrupts_enabled; mach; done].
  split; cbn [hart_of plic_of]; rewrite ?K1, ?K2, ?K3; try done; revert Hi Hm Hd Hp; unfold interrupts_enabled; mach; done.
Qed.

Lemma update_interrupts s :
  asks s -> nz (ier (uart_of s) .& UART_IER_RDI) = true -> 0 < serial_rx_count (uart_of s) ->
  interrupted (serial_update_irq UART_IRQ s).
Proof.
  intros A I C. unfold serial_update_irq. cbv zeta. rewrite I, (proj2 (Z.ltb_lt _ _) C). cbn [andb].
  pose proof (raise_interrupts s A) as R. destruct (nz (ier (uart_of s) .& UART_IER_THRI) && _); [|done].
  apply raise_interrupts, R.
Qed.

(** Every turn keeps the interrupt, and one that gets bytes raises it. *)
Definition attentive (s : soc) : Prop := ring_ok (uart_of s) /\ nz (ier (uart_of s) .& UART_IER_RDI) = true.

Lemma bytes_interrupt u1 b buf s :
  ring_ok u1 -> nz (ier u1 .& UART_IER_RDI) = true -> Z.of_nat (length (b :: buf)) <= serial_rx_free u1 ->
  asks (s <| uart_of := u1 |>) -> interrupted (serial_update_irq UART_IRQ (s <| uart_of := enqueue_all (b :: buf) u1 |>)).
Proof.
  intros R I L A. destruct (enqueue_all_ok (b :: buf) u1 R L) as (R2 & Q2 & _ & _ & I2).
  pose proof (queue_length _ R2) as Q. rewrite Q2, length_app, length_fmap in Q. cbn [length] in Q.
  apply update_interrupts; fields; [by destruct A|by rewrite I2|lia].
Qed.

Lemma take_some (n : nat) c (l : list Z) : (0 < n)%nat -> exists l', firstn n (c :: l) = c :: l' /\ (length (c :: l') <= n)%nat.
Proof. intros H. destruct n as [|n]; [lia|]. exists (firstn n l). split; [done|]. cbn [length]. rewrite length_firstn. lia. Qed.

Lemma turn_raises s c l rest :
  attentive s -> asks s -> 0 < serial_rx_free (uart_of s) -> host_stdin (uart_of s) = Bytes (c :: l) :: rest ->
  exists s', poll_turn UART_IRQ s = (true, s') /\ interrupted s'.
Proof.
  intros [R I] A F E. unfold poll_turn. rewrite (proj2 (Z.leb_gt _ _) F), E. cbv zeta.
  set (n := Z.to_nat (if serial_rx_free (uart_of s) <? 64 then serial_rx_free (uart_of s) else 64)).
  assert (N : (0 < n)%nat /\ Z.of_nat n <= serial_rx_free (uart_of s))
    by (unfold n; destruct (Z.ltb_spec (serial_rx_free (uart_of s)) 64); lia).
  destruct (take_some n c l (proj1 N)) as (l' & -> & L). eexists. split; [done|].
  apply bytes_interrupt; [by destruct R|done| |by destruct A].
  change (serial_rx_free (upd host_stdin _ _)) with (serial_rx_free (uart_of s)). lia.
Qed.

Lemma turn_keeps s : attentive s -> interrupted s -> interrupted (snd (poll_turn UART_IRQ s)).
Proof.
  intros [R I] P. pose proof P as [A _]. unfold poll_turn. cbv zeta.
  assert (Ch : forall u, interrupted (s <| uart_of := u |>)) by (intros u; destruct P as [[] Q]; by split).
  destruct (Z.leb_spec (serial_rx_free (uart_of s)) 0) as [|F]; [done|].
  destruct (host_stdin (uart_of s)) as [|[l| | |] rest] eqn:E; [done| |apply Ch..].
  destruct l as [|c l]; [rewrite firstn_nil; apply Ch|].
  destruct (turn_raises s c l rest (conj R I) A F E) as (s' & T & P'). unfold poll_turn in T. cbv zeta in T.
  rewrite (proj2 (Z.leb_gt _ _) F), E in T. by rewrite T.
Qed.

Lemma turn_attentive s : attentive s -> attentive (snd (poll_turn UART_IRQ s)).
Proof.
  intros [R I]. pose proof (poll_turn_ok s R) as K. destruct (poll_turn UART_IRQ s) as [more s'].
  destruct K as [(R' & _ & I') _]. split; [done|]. cbn [snd]. by rewrite I'.
Qed.

Lemma loop_keeps fuel s : attentive s -> interrupted s -> interrupted (snd (poll_loop UART_IRQ fuel s)).
Proof.
  revert s. induction fuel as [|fuel IH]; intros s A P; [done|]. cbn [poll_loop].
  pose proof (turn_keeps s A P) as P1. pose proof (turn_attentive s A) as A1.
  destruct (poll_turn UART_IRQ s) as [[] s']; [by apply IH|done].
Qed.

(** C16: A byte that arrives while the port's receive interrupt is on, its source is
    enabled above the threshold and the hart takes external interrupts, makes the
    hart take the machine external interrupt when the input is polled, whatever
    else the host still answers. *)
Theorem serial_input_interrupts s c l rest :
  ring_ok (uart_of s) -> nz (ier (uart_of s) .& UART_IER_RDI) = true -> asks s ->
  0 < serial_rx_free (uart_of s) -> host_stdin (uart_of s) = Bytes (c :: l) :: rest ->
  isa_query_intr (hart_of (serial_poll_stdin UART_IRQ s)) = MCA_MAC_EXT_INT.
Proof.
  intros R I A F E. unfold serial_poll_stdin. cbv zeta. set (s0 := s <| uart_of ::= serial_ensure_host_stdin |>).
  assert (A0 : asks s0) by (by destruct A). assert (At : attentive s0) by (split; [by destruct R|done]).
  destruct (turn_raises s0 c l rest At A0 F E) as (s1 & T & P). pose proof (turn_attentive s0 At) as A1.
  unfold poll_fuel. cbn [poll_loop]. rewrite T in *. by destruct (loop_keeps (Z.to_nat (serial_rx_free (uart_of s0)) + length (host_stdin (uart_of s0))) s1 A1 P).
Qed.

End SerialSpec.

(** ** Witnesses: a line typed in two parts, the port of source 10 *)

Definition typed : list host_input := [Bytes [104; 105]; Interrupted; Bytes [10]; NoData].
Definition example_soc : soc :=
  mk_soc ((init_serial typed true) <| ier := 1 |>) example_plic listening.
Definition driver : list access := [Write UART_SCR 7; Read UART_LSR; Read UART_TX; LitexRead LITEX_UART_RXTX; Read UART_TX; Read UART_TX].

Lemma example_port : port_ok (uart_of example_soc).
Proof. split; [split; done|]. vm_compute. repeat constructor; done. Qed.

Lemma serial_poll_terminates_witness :
  fst (poll_loop (Cfg := riscv64_ref) 10 (poll_fuel (uart_of example_soc)) (example_soc <| uart_of ::= serial_ensure_host_stdin |>)) = true.
Proof. exact (proj1 (serial_poll_terminates (Cfg := riscv64_ref) 10 example_soc (port_ring _ example_port))). Defined.

Lemma serial_lossless_witness :
  fst (session (Cfg := riscv64_ref) 10 driver example_soc) = [104; 105; 13] /\
  flow (uart_of example_soc) = [104; 105; 13] ++ flow (uart_of (snd (session (Cfg := riscv64_ref) 10 driver example_soc))).
Proof.
  pose proof (serial_lossless (Cfg := riscv64_ref) 10 driver example_soc example_port) as H.
  assert (K : fst (session (Cfg := riscv64_ref) 10 driver example_soc) = [104; 105; 13]) by (vm_compute; reflexivity).
  revert H K. destruct (session 10 driver example_soc) as [bytes s']. cbn [fst snd]. intros [F _] ->. by split.
Defined.

Lemma serial_input_interrupts_witness :
  isa_query_intr (Cfg := riscv64_ref) (hart_of (serial_poll_stdin (Cfg := riscv64_ref) 10 example_soc)) = @MCA_MAC_EXT_INT riscv64_ref.
Proof.
  apply (serial_input_interrupts (Cfg := riscv64_ref) 10 ltac:(by split) example_soc 104 [105] [Interrupted; Bytes [10]; NoData]);
    try (vm_compute; reflexivity); [by split|].
  split; try (vm_compute; reflexivity). left. vm_compute. reflexivity.
Defined.
