(* ===== verification/Copies.v ===== *)
(** * Copies: bytes copied out of and into memories

    The lemmas on [copy_out] and [copy_in] that the devices with DMA share. *)
From S2P Require Import Prelude Config Machine Paddr.

Definition bytes_ok (l : list Z) : Prop := Forall (fits 8) l.
Definition content_ok (c : gmap Z Z) : Prop := forall b, fits 8 (aget c b).

(** ** Copies *)

Lemma copy_out_length c a n : length (copy_out c a n) = n.
Proof. revert a. induction n as [|n IH]; intros a; [done|]. cbn [copy_out length]. by rewrite IH. Qed.

Lemma copy_out_ok c a n : content_ok c -> bytes_ok (copy_out c a n).
Proof. intros C. revert a. induction n as [|n IH]; intros a; constructor; [apply C|apply IH]. Qed.

Lemma copy_in_other c a l b : ~ (a <= b < a + Z.of_nat (length l)) -> aget (copy_in c a l) b = aget c b.
Proof.
  revert c a. induction l as [|x l IH]; intros c a H; [done|]. cbn [copy_in length] in *.
  rewrite IH by lia. apply aget_aset_ne. lia.
Qed.

Lemma copy_in_at c a l (i : nat) x : l !! i = Some x -> aget (copy_in c a l) (a + Z.of_nat i) = x.
Proof.
  revert c a i. induction l as [|y l IH]; intros c a i H; [done|]. cbn [copy_in]. destruct i as [|i].
  - injection H as ->. rewrite Z.add_0_r, copy_in_other by lia. apply aget_aset_eq.
  - cbn in H. rewrite <-(IH (aset c a y) (a + 1) i H). f_equal. lia.
Qed.

Lemma copy_in_ok c a l : content_ok c -> bytes_ok l -> content_ok (copy_in c a l).
Proof.
  revert c a. induction l as [|x l IH]; intros c a C B; [done|]. apply Forall_cons in B as [Bx B]. cbn [copy_in].
  apply IH; [|done]. intros b. rewrite aget_aset. by destruct (a =? b).
Qed.

Lemma copy_out_app c a n m : copy_out c a (n + m) = copy_out c a n ++ copy_out c (a + Z.of_nat n) m.
Proof.
  revert a. induction n as [|n IH]; intros a; [by rewrite Z.add_0_r|]. cbn [copy_out app Nat.add]. rewrite IH. do 3 f_equal. lia.
Qed.

Lemma copy_in_app c a l l' : copy_in c a (l ++ l') = copy_in (copy_in c a l) (a + Z.of_nat (length l)) l'.
Proof.
  revert c a. induction l as [|x l IH]; intros c a; [by rewrite Z.add_0_r|]. cbn [copy_in app length]. rewrite IH. f_equal. lia.
Qed.

Lemma copy_out_ext c c' a n : (forall b, a <= b < a + Z.of_nat n -> aget c b = aget c' b) -> copy_out c a n = copy_out c' a n.
Proof.
  revert a. induction n as [|n IH]; intros a H; [done|]. cbn [copy_out]. rewrite (H a), (IH (a + 1)) by (lia || (intros; apply H; lia)). done.
Qed.

(** What was copied in is copied out. *)
Lemma copy_out_in c a l : copy_out (copy_in c a l) a (length l) = l.
Proof.
  revert c a. induction l as [|x l IH]; intros c a; [done|]. cbn [copy_in length copy_out]. rewrite IH. f_equal.
  rewrite copy_in_other by lia. apply aget_aset_eq.
Qed.

Lemma copy_out_other c a l b n :
  b + Z.of_nat n <= a \/ a + Z.of_nat (length l) <= b -> copy_out (copy_in c a l) b n = copy_out c b n.
Proof. intros H. apply copy_out_ext. intros x Hx. apply copy_in_other. lia. Qed.
