(* ===== verification/Disk.v ===== *)
(** * Disk: the virtio block device ([device/disk.c]) and the disk image behind it
      ([device/block-image.c])

    The device reads its requests from the memory of the guest and copies between
    that memory and the image. What [pread], [pwrite] and [fsync] will answer is a
    list in the state. Journals and debugging output are left out; a shift by the
    width of its type, which C leaves undefined, is [Panic]. *)
From S2P Require Import Prelude Config Machine Paddr Plic.

(** ** The disk image *)

Inductive NemuBlockMode := NEMU_BLOCK_VOLATILE | NEMU_BLOCK_READONLY | NEMU_BLOCK_PERSISTENT.
#[export] Instance NemuBlockMode_eq_dec : EqDecision NemuBlockMode.
Proof. solve_decision. Defined.

(** [image_data] is the copy of a volatile image; [image_file] is the file of the host. *)
Record NemuBlockImage := mk_image {
  image_open : bool;
  image_mode : NemuBlockMode;
  image_size : Z;
  image_data : option (gmap Z Z);
  image_file : gmap Z Z;
}.
#[export] Instance image_fields : Fields NemuBlockImage := fun i =>
  mk_image (image_open i) (image_mode i) (image_size i) (image_data i) (image_file i).
#[export] Instance set_image_open : Setter image_open := ltac:(build_setter image_open).
#[export] Instance set_image_mode : Setter image_mode := ltac:(build_setter image_mode).
#[export] Instance set_image_size : Setter image_size := ltac:(build_setter image_size).
#[export] Instance set_image_data : Setter image_data := ltac:(build_setter image_data).
#[export] Instance set_image_file : Setter image_file := ltac:(build_setter image_file).

(** The answers of the host: bytes transferred, an interrupted call, an error. *)
Inductive host_answer := Count (n : Z) | Retry | Error.

(** ** The registers of the device *)

Record virtio_blk := mk_blk {
  device_features_sel : Z;
  driver_features_sel : Z;
  driver_features : gmap Z Z;
  queue_sel : Z;
  queue_num : Z;
  queue_ready : Z;
  blk_status : Z;
  interrupt_status : Z;
  desc_addr : Z;
  driver_addr : Z;
  device_addr : Z;
  last_avail_idx : Z;
}.
#[export] Instance blk_fields : Fields virtio_blk := fun b =>
  mk_blk (device_features_sel b) (driver_features_sel b) (driver_features b) (queue_sel b) (queue_num b) (queue_ready b)
    (blk_status b) (interrupt_status b) (desc_addr b) (driver_addr b) (device_addr b) (last_avail_idx b).
#[export] Instance set_device_features_sel : Setter device_features_sel := ltac:(build_setter device_features_sel).
#[export] Instance set_driver_features_sel : Setter driver_features_sel := ltac:(build_setter driver_features_sel).
#[export] Instance set_driver_features : Setter driver_features := ltac:(build_setter driver_features).
#[export] Instance set_queue_sel : Setter queue_sel := ltac:(build_setter queue_sel).
#[export] Instance set_queue_num : Setter queue_num := ltac:(build_setter queue_num).
#[export] Instance set_queue_ready : Setter queue_ready := ltac:(build_setter queue_ready).
#[export] Instance set_blk_status : Setter blk_status := ltac:(build_setter blk_status).
#[export] Instance set_interrupt_status : Setter interrupt_status := ltac:(build_setter interrupt_status).
#[export] Instance set_desc_addr : Setter desc_addr := ltac:(build_setter desc_addr).
#[export] Instance set_driver_addr : Setter driver_addr := ltac:(build_setter driver_addr).
#[export] Instance set_device_addr : Setter device_addr := ltac:(build_setter device_addr).
#[export] Instance set_last_avail_idx : Setter last_avail_idx := ltac:(build_setter last_avail_idx).

(** [reset_regs] *)
Definition reset_regs : virtio_blk := mk_blk 0 0 ∅ 0 0 0 0 0 0 0 0 0.

(** The device, its image, the host, the interrupt controller and the hart. *)
Record disk := mk_disk {
  virtio_blk_base : gmap Z Z;
  blk : virtio_blk;
  disk_image : NemuBlockImage;
  host_io : list host_answer;
  disk_plic : plic;
  disk_hart : machine;
}.
#[export] Instance disk_fields : Fields disk := fun s =>
  mk_disk (virtio_blk_base s) (blk s) (disk_image s) (host_io s) (disk_plic s) (disk_hart s).
#[export] Instance set_virtio_blk_base : Setter virtio_blk_base := ltac:(build_setter virtio_blk_base).
#[export] Instance set_blk : Setter blk := ltac:(build_setter blk).
#[export] Instance set_disk_image : Setter disk_image := ltac:(build_setter disk_image).
#[export] Instance set_host_io : Setter host_io := ltac:(build_setter host_io).
#[export] Instance set_disk_plic : Setter disk_plic := ltac:(build_setter disk_plic).
#[export] Instance set_disk_hart : Setter disk_hart := ltac:(build_setter disk_hart).

Definition VIRTIO_BLK_SIZE : Z := 0x1000.
Definition VIRTIO_BLK_IRQ : Z := 1.
Definition VIRTIO_MMIO_MAGIC_VALUE : Z := 0x000.
Definition VIRTIO_MMIO_VERSION : Z := 0x004.
Definition VIRTIO_MMIO_DEVICE_ID : Z := 0x008.
Definition VIRTIO_MMIO_VENDOR_ID : Z := 0x00c.
Definition VIRTIO_MMIO_DEVICE_FEATURES : Z := 0x010.
Definition VIRTIO_MMIO_DEVICE_FEATURES_SEL : Z := 0x014.
Definition VIRTIO_MMIO_DRIVER_FEATURES : Z := 0x020.
Definition VIRTIO_MMIO_DRIVER_FEATURES_SEL : Z := 0x024.
Definition VIRTIO_MMIO_QUEUE_SEL : Z := 0x030.
Definition VIRTIO_MMIO_QUEUE_NUM_MAX : Z := 0x034.
Definition VIRTIO_MMIO_QUEUE_NUM : Z := 0x038.
Definition VIRTIO_MMIO_QUEUE_READY : Z := 0x044.
Definition VIRTIO_MMIO_QUEUE_NOTIFY : Z := 0x050.
Definition VIRTIO_MMIO_INTERRUPT_STATUS : Z := 0x060.
Definition VIRTIO_MMIO_INTERRUPT_ACK : Z := 0x064.
Definition VIRTIO_MMIO_STATUS : Z := 0x070.
Definition VIRTIO_MMIO_QUEUE_DESC_LOW : Z := 0x080.
Definition VIRTIO_MMIO_QUEUE_DESC_HIGH : Z := 0x084.
Definition VIRTIO_MMIO_DRIVER_DESC_LOW : Z := 0x090.
Definition VIRTIO_MMIO_DRIVER_DESC_HIGH : Z := 0x094.
Definition VIRTIO_MMIO_DEVICE_DESC_LOW : Z := 0x0a0.
Definition VIRTIO_MMIO_DEVICE_DESC_HIGH : Z := 0x0a4.
Definition VIRTIO_MMIO_CONFIG_CAPACITY_LOW : Z := 0x100.
Definition VIRTIO_MMIO_CONFIG_CAPACITY_HIGH : Z := 0x104.
Definition VIRTIO_MMIO_CONFIG_SIZE_MAX : Z := 0x108.
Definition VIRTIO_MMIO_CONFIG_SEG_MAX : Z := 0x10c.
Definition VIRTIO_BLK_F_SIZE_MAX : Z := 1 << 1.
Definition VIRTIO_BLK_F_SEG_MAX : Z := 1 << 2.
Definition VIRTIO_BLK_F_RO : Z := 1 << 5.
Definition VIRTIO_BLK_F_FLUSH : Z := 1 << 9.
Definition VIRTIO_BLK_FEATURES_LOW : Z := VIRTIO_BLK_F_SIZE_MAX .| VIRTIO_BLK_F_SEG_MAX.
Definition VIRTIO_BLK_MAX_SIZE : Z := 0x100000.
Definition VIRTIO_BLK_SEG_MAX : Z := 128.
Definition VIRTIO_CONFIG_S_DRIVER_OK : Z := 4.
Definition VRING_DESC_F_NEXT : Z := 1.
Definition VRING_DESC_F_WRITE : Z := 2.
Definition VIRTIO_BLK_T_IN : Z := 0.
Definition VIRTIO_BLK_T_OUT : Z := 1.
Definition VIRTIO_BLK_T_FLUSH : Z := 4.
Definition VIRTIO_BLK_T_GET_ID : Z := 8.
Definition VIRTIO_BLK_STATUS_OK : Z := 0.
Definition VIRTIO_BLK_STATUS_IOERR : Z := 1.
Definition VIRTIO_QUEUE_NUM_MAX : Z := 256.
Definition VIRTIO_SECTOR_SIZE : Z := 512.
(** [sizeof(buffer)] of [transfer_data]. *)
Definition TRANSFER_BUFFER : Z := 65536.

(** Little-endian values of the host's memory. *)
Fixpoint le (l : list Z) : Z := match l with [] => 0 | b :: l => b .| (le l << 8) end.
Fixpoint le_bytes (n : nat) (v : Z) : list Z := match n with O => [] | S n => wrap 8 v :: le_bytes n (v >> 8) end.

Record virtq_desc_t := mk_desc { desc_base : Z; desc_len : Z; desc_flags : Z; desc_next : Z }.
Definition parse_desc (l : list Z) : virtq_desc_t :=
  mk_desc (le (firstn 8 l)) (le (firstn 4 (skipn 8 l))) (le (firstn 2 (skipn 12 l))) (le (firstn 2 (skipn 14 l))).
Record virtio_blk_req_t := mk_req { req_type : Z; req_sector : Z }.
Definition parse_req (l : list Z) : virtio_blk_req_t := mk_req (le (firstn 4 l)) (le (firstn 8 (skipn 8 l))).

(** "NEMU-VIRTIO-BLK", filled up to 20 bytes *)
Definition identity : list Z :=
  [78; 69; 77; 85; 45; 86; 73; 82; 84; 73; 79; 45; 66; 76; 75; 0; 0; 0; 0; 0].
Definition identity_chunk (done chunk : Z) : list Z :=
  let part := firstn (Z.to_nat chunk) (skipn (Z.to_nat done) identity) in
  part ++ replicate (Z.to_nat chunk - length part) 0.

Section Disk.
Context {Cfg : Config}.

(** ** Transfers of the image ([block-image.c]) *)

(** One call of [pread], [pwrite] or [fsync] for [chunk] bytes. *)
Definition host_call (chunk : Z) : M disk host_answer :=
  s ← get;
  match host_io s with
  | [] => mret (Count chunk)
  | a :: rest => modify (fun s => s <| host_io := rest |>);; mret (match a with Count n => Count (Z.min n chunk) | _ => a end)
  end.

Definition transfer_fuel (size : Z) (s : disk) : nat := S (Z.to_nat size + length (host_io s)).

Fixpoint file_read (fuel : nat) (offset size done : Z) (bytes : list Z) : M disk (option (list Z)) :=
  if size <=? done then mret (Some bytes)
  else
    match fuel with
    | O => panic
    | S fuel =>
        let chunk := if size - done <? 65536 then size - done else 65536 in
        a ← host_call chunk;
        match a with
        | Retry => file_read fuel offset size done bytes
        | Error => mret None
        | Count n =>
            if n <=? 0 then mret None
            else
              s ← get;
              file_read fuel offset size (done + n) (bytes ++ copy_out (image_file (disk_image s)) (offset + done) (Z.to_nat n))
        end
    end.

Fixpoint file_write (fuel : nat) (offset : Z) (bytes : list Z) : M disk bool :=
  let size := Z.of_nat (length bytes) in
  if size <=? 0 then mret true
  else
    match fuel with
    | O => panic
    | S fuel =>
        let chunk := if size <? 65536 then size else 65536 in
        a ← host_call chunk;
        match a with
        | Retry => file_write fuel offset bytes
        | Error => mret false
        | Count n =>
            if n <=? 0 then mret false
            else
              modify (fun s => s <| disk_image ::= fun i => i <| image_file ::= fun f => copy_in f offset (firstn (Z.to_nat n) bytes) |> |>);;
              file_write fuel (offset + n) (skipn (Z.to_nat n) bytes)
        end
    end.

Definition valid_range (i : NemuBlockImage) (offset size : Z) : bool :=
  negb (negb (image_open i) || (image_size i <? offset) || (image_size i - offset <? size)).

Definition nemu_block_read (offset size : Z) : M disk (option (list Z)) :=
  s ← get;
  let i := disk_image s in
  if negb (valid_range i offset size) then mret None
  else if size =? 0 then mret (Some [])
  else
    match image_data i with
    | Some data => mret (Some (copy_out data offset (Z.to_nat size)))
    | None => file_read (transfer_fuel size s) offset size 0 []
    end.

Definition nemu_block_write (offset : Z) (bytes : list Z) : M disk bool :=
  s ← get;
  let i := disk_image s in
  let size := Z.of_nat (length bytes) in
  if negb (valid_range i offset size) then mret false
  else if bool_decide (image_mode i = NEMU_BLOCK_READONLY) then mret false
  else if size =? 0 then mret true
  else
    match image_data i with
    | Some data => modify (fun s => s <| disk_image ::= fun i => i <| image_data := Some (copy_in data offset bytes) |> |>);; mret true
    | None => file_write (transfer_fuel size s) offset bytes
    end.

Fixpoint flush_loop (fuel : nat) : M disk bool :=
  match fuel with
  | O => panic
  | S fuel => a ← host_call 0; match a with Retry => flush_loop fuel | Error => mret false | Count n => mret true end
  end.
Definition nemu_block_flush : M disk bool :=
  s ← get;
  if negb (image_open (disk_image s)) then mret false
  else if bool_decide (image_mode (disk_image s) <> NEMU_BLOCK_PERSISTENT) then mret true
  else flush_loop (transfer_fuel 0 s).

(** ** The memory of the guest *)

Definition on_hart {A} (c : M machine A) : M disk A :=
  fun s => let '(r, m) := c (disk_hart s) in (r, s <| disk_hart := m |>).
Definition guest_mem_read (addr len : Z) : M disk (option (list Z)) := on_hart (paddr_dma_read (wrap 64 addr) len).
Definition guest_mem_write (addr : Z) (bytes : list Z) : M disk bool := on_hart (paddr_dma_write (wrap 64 addr) bytes).

(** ** Requests *)

Definition enabled (s : disk) : bool := negb (image_size (disk_image s) =? 0).
Definition queue_limit (s : disk) : Z := if nz (queue_num (blk s)) then queue_num (blk s) else VIRTIO_QUEUE_NUM_MAX.

Definition read_desc (idx : Z) : M disk (option virtq_desc_t) :=
  s ← get;
  if queue_limit s <=? idx then mret None
  else bytes ← guest_mem_read (desc_addr (blk s) + idx * 16) 16; mret (option_map parse_desc bytes).

Definition write_used_elem (id len : Z) : M disk bool :=
  s ← get;
  let qnum := wrap 16 (queue_limit s) in
  let device := device_addr (blk s) in
  used ← guest_mem_read (device + 2) 2;
  match used with
  | None => mret false
  | Some bytes =>
      let used_idx := le bytes in
      let elem_addr := device + 4 + (used_idx mod qnum) * 8 in
      ok ← guest_mem_write elem_addr (le_bytes 4 id);
      if negb ok then mret false
      else
        ok ← guest_mem_write (elem_addr + 4) (le_bytes 4 len);
        if negb ok then mret false else guest_mem_write (device + 2) (le_bytes 2 (wrap 16 (used_idx + 1)))
  end.

Definition plic_raise_block_irq (irq : Z) (s : disk) : disk :=
  let '(p, m) := plic_raise_irq irq (disk_plic s) (disk_hart s) in (s <| disk_plic := p |>) <| disk_hart := m |>.

Definition finish_request (head used_len : Z) : M disk unit :=
  ok ← write_used_elem head used_len;
  when ok (modify (fun s => plic_raise_block_irq VIRTIO_BLK_IRQ (s <| blk ::= fun b => b <| interrupt_status ::= fun v => v .| 1 |> |>))).

(** One chunk of [transfer_data]: whether it succeeded and the length it adds to the used length. *)
Definition transfer_chunk (type address done chunk offset : Z) : M disk (bool * Z) :=
  if type =? VIRTIO_BLK_T_OUT then
    b ← guest_mem_read (address + done) chunk;
    match b with
    | None => mret (false, 0)
    | Some bytes => ok ← nemu_block_write offset bytes; mret (ok, 0)
    end
  else
    b ← (if type =? VIRTIO_BLK_T_IN then nemu_block_read offset chunk else mret (Some (identity_chunk done chunk)));
    match b with
    | None => mret (false, 0)
    | Some bytes => ok ← guest_mem_write (address + done) bytes; mret (ok, if ok : bool then chunk else 0)
    end.

Fixpoint transfer_loop (fuel : nat) (type address length done offset used : Z) : M disk (bool * Z * Z) :=
  if length <=? done then mret (true, offset, used)
  else
    match fuel with
    | O => panic
    | S fuel =>
        let chunk := if length - done <? TRANSFER_BUFFER then length - done else TRANSFER_BUFFER in
        '(ok, n) ← transfer_chunk type address done chunk offset;
        let used := wrap 32 (used + n) in
        if negb ok then mret (false, offset, used)
        else transfer_loop fuel type address length (done + chunk) (if type =? VIRTIO_BLK_T_GET_ID then offset else offset + chunk) used
    end.

(** Success, the new offset in the image and the new used length. *)
Definition transfer_data (type address length offset used : Z) : M disk (bool * Z * Z) :=
  s ← get;
  let size := image_size (disk_image s) in
  if (VIRTIO_BLK_MAX_SIZE <? length) || (negb (type =? VIRTIO_BLK_T_GET_ID) && ((size <? offset) || (size - offset <? length)))
  then mret (false, offset, used)
  else transfer_loop 16 type address length 0 offset used.

Definition supported (type : Z) : bool := (type =? VIRTIO_BLK_T_IN) || (type =? VIRTIO_BLK_T_OUT) || (type =? VIRTIO_BLK_T_GET_ID).

(** The descriptors behind the header: success, the used length and the address of
    the status byte if there is one. *)
Fixpoint chain_loop (guard : nat) (type idx : Z) (io_ok : bool) (disk_off used : Z) : M disk (bool * Z * option Z) :=
  match guard with
  | O => mret (io_ok, used, None)
  | S guard =>
      d ← read_desc idx;
      match d with
      | None => mret (false, used, None)
      | Some desc =>
          let write := nz (desc_flags desc .& VRING_DESC_F_WRITE) in
          if negb (nz (desc_flags desc .& VRING_DESC_F_NEXT))
          then mret (io_ok, used, if (1 <=? desc_len desc) && write then Some (desc_base desc) else None)
          else
            let writable := negb (type =? VIRTIO_BLK_T_OUT) in
            if io_ok && supported type && eqb write writable then
              '(ok, disk_off, used) ← transfer_data type (desc_base desc) (desc_len desc) disk_off used;
              chain_loop guard type (desc_next desc) ok disk_off used
            else chain_loop guard type (desc_next desc) false disk_off used
      end
  end.

(** The start of the transfer in the image, and whether the request can succeed. *)
Definition request_start (req : virtio_blk_req_t) (i : NemuBlockImage) : bool * Z :=
  let byte_off := wrap 64 (req_sector req * VIRTIO_SECTOR_SIZE) in
  let inside := (req_sector req <=? (2 ^ 64 - 1) / VIRTIO_SECTOR_SIZE) && (byte_off <? image_size i) in
  let io_ok := if inside then true else req_type req =? VIRTIO_BLK_T_GET_ID in
  let io_ok := if (req_type req =? VIRTIO_BLK_T_OUT) && bool_decide (image_mode i = NEMU_BLOCK_READONLY) then false else io_ok in
  let io_ok :=
    if req_type req =? VIRTIO_BLK_T_FLUSH then bool_decide (image_mode i = NEMU_BLOCK_PERSISTENT) && (req_sector req =? 0) else io_ok in
  (io_ok, if inside then byte_off else 0).

(** The flush at the end of a request. *)
Definition request_flush (type : Z) (io_ok have_status : bool) : M disk bool :=
  s ← get;
  if io_ok && have_status
     && ((type =? VIRTIO_BLK_T_FLUSH)
         || ((type =? VIRTIO_BLK_T_OUT) && bool_decide (image_mode (disk_image s) = NEMU_BLOCK_PERSISTENT)
             && negb (nz (aget (driver_features (blk s)) 0 .& VIRTIO_BLK_F_FLUSH))))
  then nemu_block_flush else mret io_ok.

Definition process_one (head : Z) : M disk unit :=
  d ← read_desc head;
  match d with
  | None => finish_request head 0
  | Some desc0 =>
      if (desc_len desc0 <? 16) || negb (nz (desc_flags desc0 .& VRING_DESC_F_NEXT)) || nz (desc_flags desc0 .& VRING_DESC_F_WRITE)
      then finish_request head 0
      else
        h ← guest_mem_read (desc_base desc0) 16;
        match h with
        | None => finish_request head 0
        | Some bytes =>
            let req := parse_req bytes in
            s ← get;
            let '(io_ok, disk_off) := request_start req (disk_image s) in
            '(io_ok, used_len, status_addr) ←
              chain_loop (Z.to_nat (queue_limit s - 1)) (req_type req) (desc_next desc0) io_ok disk_off 0;
            io_ok ← request_flush (req_type req) io_ok (bool_decide (is_Some status_addr));
            let status :=
              if negb io_ok || negb (supported (req_type req) || (req_type req =? VIRTIO_BLK_T_FLUSH))
              then VIRTIO_BLK_STATUS_IOERR else VIRTIO_BLK_STATUS_OK in
            written ← match status_addr with Some a => guest_mem_write a [status] | None => mret false end;
            finish_request head (if written : bool then wrap 32 (used_len + 1) else used_len)
        end
  end.

Fixpoint service_loop (fuel : nat) (qnum avail_idx : Z) : M disk unit :=
  s ← get;
  if last_avail_idx (blk s) =? avail_idx then mret tt
  else
    match fuel with
    | O => panic
    | S fuel =>
        h ← guest_mem_read (driver_addr (blk s) + 4 + (last_avail_idx (blk s) mod qnum) * 2) 2;
        match h with
        | None => mret tt
        | Some bytes =>
            let head := le bytes in
            when (head <? qnum) (process_one head);;
            modify (fun s => s <| blk ::= fun b => b <| last_avail_idx ::= fun i => wrap 16 (i + 1) |> |>);;
            service_loop fuel qnum avail_idx
        end
    end.

(** The index of the driver is read once, so its distance bounds the loop. *)
Definition service_queue : M disk unit :=
  s ← get;
  let b := blk s in
  if negb (enabled s) || nz (queue_sel b) || (queue_ready b =? 0) || negb (nz (blk_status b .& VIRTIO_CONFIG_S_DRIVER_OK))
     || (desc_addr b =? 0) || (driver_addr b =? 0) || (device_addr b =? 0)
  then mret tt
  else
    let qnum := wrap 16 (queue_limit s) in
    let qnum := if VIRTIO_QUEUE_NUM_MAX <? qnum then VIRTIO_QUEUE_NUM_MAX else qnum in
    a ← guest_mem_read (driver_addr b + 2) 2;
    match a with
    | None => mret tt
    | Some bytes => service_loop (Z.to_nat (wrap 16 (le bytes - last_avail_idx b))) qnum (le bytes)
    end.

(** ** The register window *)

Definition io_read_value (offset len : Z) (s : disk) : Z := load_bytes (virtio_blk_base s) offset (Z.to_nat len).
Definition io_write_value (offset len value : Z) (s : disk) : disk :=
  s <| virtio_blk_base ::= fun b => store_bytes b offset (Z.to_nat len) value |>.

Definition write_reg32 (reg offset len : Z) (s : disk) : Z :=
  let shift := (offset .& 3) * 8 in
  let mask := wrap 64 (((1 << (len * 8)) - 1) << shift) in
  let value := wrap 64 (io_read_value offset len s << shift) in
  wrap 32 ((reg .& wrap 64 (~~ mask)) .| (value .& mask)).

Definition write_reg64 (reg offset len : Z) (high : bool) (s : disk) : Z :=
  let shift := (offset .& 3) * 8 in
  let mask := wrap 64 (((1 << (len * 8)) - 1) << shift) in
  let part := if high then (reg >> 32) .& 0xffffffff else reg .& 0xffffffff in
  let value := wrap 64 (io_read_value offset len s << shift) in
  let part := (part .& wrap 64 (~~ mask)) .| (value .& mask) in
  if high then (reg .& 0xffffffff) .| wrap 64 (part << 32) else (reg .& wrap 64 (~~ 0xffffffff)) .| (part .& 0xffffffff).

Definition read_reg32 (base : Z) (s : disk) : Z :=
  let b := blk s in
  let i := disk_image s in
  if base =? VIRTIO_MMIO_MAGIC_VALUE then 0x74726976
  else if base =? VIRTIO_MMIO_VERSION then 2
  else if base =? VIRTIO_MMIO_DEVICE_ID then if enabled s then 2 else 0
  else if base =? VIRTIO_MMIO_VENDOR_ID then 0x554d4551
  else if base =? VIRTIO_MMIO_DEVICE_FEATURES then
    if device_features_sel b =? 1 then 1
    else VIRTIO_BLK_FEATURES_LOW
      .| (if bool_decide (image_mode i = NEMU_BLOCK_READONLY) then VIRTIO_BLK_F_RO else 0)
      .| (if bool_decide (image_mode i = NEMU_BLOCK_PERSISTENT) then VIRTIO_BLK_F_FLUSH else 0)
  else if base =? VIRTIO_MMIO_QUEUE_NUM_MAX then if enabled s && (queue_sel b =? 0) then VIRTIO_QUEUE_NUM_MAX else 0
  else if base =? VIRTIO_MMIO_QUEUE_READY then queue_ready b
  else if base =? VIRTIO_MMIO_INTERRUPT_STATUS then interrupt_status b
  else if base =? VIRTIO_MMIO_STATUS then blk_status b
  else if base =? VIRTIO_MMIO_CONFIG_CAPACITY_LOW then wrap 32 (image_size i / VIRTIO_SECTOR_SIZE)
  else if base =? VIRTIO_MMIO_CONFIG_CAPACITY_HIGH then wrap 32 ((image_size i / VIRTIO_SECTOR_SIZE) >> 32)
  else if base =? VIRTIO_MMIO_CONFIG_SIZE_MAX then VIRTIO_BLK_MAX_SIZE
  else if base =? VIRTIO_MMIO_CONFIG_SEG_MAX then VIRTIO_BLK_SEG_MAX
  else 0.

(** The write of a register that has no other effect. *)
Definition reg_write (base offset len : Z) (s : disk) (b : virtio_blk) : virtio_blk :=
  let w32 reg := write_reg32 reg offset len s in
  let w64 reg high := write_reg64 reg offset len high s in
  if base =? VIRTIO_MMIO_DEVICE_FEATURES_SEL then b <| device_features_sel ::= w32 |>
  else if base =? VIRTIO_MMIO_DRIVER_FEATURES then
    b <| driver_features ::= fun f => let k := driver_features_sel b .& 1 in aset f k (w32 (aget f k)) |>
  else if base =? VIRTIO_MMIO_DRIVER_FEATURES_SEL then b <| driver_features_sel ::= w32 |>
  else if base =? VIRTIO_MMIO_QUEUE_SEL then b <| queue_sel ::= w32 |>
  else if base =? VIRTIO_MMIO_QUEUE_NUM then
    b <| queue_num ::= fun r => let v := w32 r in if VIRTIO_QUEUE_NUM_MAX <? v then VIRTIO_QUEUE_NUM_MAX else v |>
  else if base =? VIRTIO_MMIO_QUEUE_READY then b <| queue_ready ::= fun r => w32 r .& 1 |>
  else if base =? VIRTIO_MMIO_INTERRUPT_ACK then b <| interrupt_status ::= fun r => r .& wrap 32 (~~ (io_read_value offset len s)) |>
  else if base =? VIRTIO_MMIO_STATUS then
    let b := b <| blk_status ::= w32 |> in if blk_status b =? 0 then reset_regs else b
  else if base =? VIRTIO_MMIO_QUEUE_DESC_LOW then b <| desc_addr ::= fun r => w64 r false |>
  else if base =? VIRTIO_MMIO_QUEUE_DESC_HIGH then b <| desc_addr ::= fun r => w64 r true |>
  else if base =? VIRTIO_MMIO_DRIVER_DESC_LOW then b <| driver_addr ::= fun r => w64 r false |>
  else if base =? VIRTIO_MMIO_DRIVER_DESC_HIGH then b <| driver_addr ::= fun r => w64 r true |>
  else if base =? VIRTIO_MMIO_DEVICE_DESC_LOW then b <| device_addr ::= fun r => w64 r false |>
  else if base =? VIRTIO_MMIO_DEVICE_DESC_HIGH then b <| device_addr ::= fun r => w64 r true |>
  else b.

(** The registers whose write goes through [write_reg32] or [write_reg64]. *)
Definition shifted_register (base : Z) : bool :=
  existsb (Z.eqb base)
    [VIRTIO_MMIO_DEVICE_FEATURES_SEL; VIRTIO_MMIO_DRIVER_FEATURES; VIRTIO_MMIO_DRIVER_FEATURES_SEL; VIRTIO_MMIO_QUEUE_SEL;
     VIRTIO_MMIO_QUEUE_NUM; VIRTIO_MMIO_QUEUE_READY; VIRTIO_MMIO_STATUS; VIRTIO_MMIO_QUEUE_DESC_LOW; VIRTIO_MMIO_QUEUE_DESC_HIGH;
     VIRTIO_MMIO_DRIVER_DESC_LOW; VIRTIO_MMIO_DRIVER_DESC_HIGH; VIRTIO_MMIO_DEVICE_DESC_LOW; VIRTIO_MMIO_DEVICE_DESC_HIGH].

Definition virtio_blk_io_handler (offset len : Z) (is_write : bool) : M disk unit :=
  let base := offset .& wrap 32 (~~ 3) in
  if is_write then
    if base =? VIRTIO_MMIO_QUEUE_NOTIFY then service_queue
    else if shifted_register base && (64 <=? len * 8) then panic
    else modify (fun s => s <| blk ::= reg_write base offset len s |>)
  else modify (fun s => io_write_value base 4 (read_reg32 base s) s).

(** An access of the bus: [map_read] and [map_write]. *)
Definition disk_read (offset len : Z) : M disk Z :=
  virtio_blk_io_handler offset len false;; gets (io_read_value offset len).
Definition disk_write (offset len data : Z) : M disk unit :=
  modify (io_write_value offset len data);; virtio_blk_io_handler offset len true.

End Disk.

(** [nemu_block_open] of a regular file and [init_disk], before the device is registered. *)
Definition nemu_block_open (mode : NemuBlockMode) (size : Z) (file : gmap Z Z) : NemuBlockImage :=
  mk_image true mode size (if bool_decide (mode = NEMU_BLOCK_VOLATILE) then Some file else None) file.
Definition init_disk (i : NemuBlockImage) (answers : list host_answer) (p : plic) (m : machine) : disk :=
  mk_disk ∅ reset_regs i answers p m.
Definition nemu_block_reset_state (s : disk) : bool :=
  let b := blk s in
  bool_decide (image_mode (disk_image s) = NEMU_BLOCK_VOLATILE)
  && negb (nz (device_features_sel b) || nz (driver_features_sel b) || nz (aget (driver_features b) 0) || nz (aget (driver_features b) 1)
           || nz (queue_sel b) || nz (queue_num b) || nz (queue_ready b) || nz (blk_status b) || nz (interrupt_status b)
           || nz (desc_addr b) || nz (driver_addr b) || nz (device_addr b) || nz (last_avail_idx b)).
