(* ===== verification/DiskSafe.v ===== *)
(** * DiskSafe: the limits of the virtio block device

    Whatever the guest writes into the registers and puts into its memory, the
    device ends every request, stays within the RAM of the guest and within the
    image, and changes the file of the host in persistent mode only. *)
From S2P Require Import Prelude Config Machine Hoare Clint Paddr Copies Plic PlicSpec Disk.

Lemma le_fits l : bytes_ok l -> fits (8 * Z.of_nat (length l)) (le l).
Proof.
  induction l as [|b l IH]; intros B; [by split|]. apply Forall_cons in B as [Bb B]. specialize (IH B). cbn [le length].
  replace (8 * Z.of_nat (S (length l))) with (8 * Z.of_nat (length l) + 8) by lia.
  apply fits_lor; [lia| |].
  - by apply (fits_le 8); [lia..|].
  - unfold fits in *. rewrite Z.shiftl_mul_pow2, Z.pow_add_r by lia. nia.
Qed.

Lemma le_bytes_ok n v : bytes_ok (le_bytes n v).
Proof. revert v. induction n as [|n IH]; intros v; constructor; [by apply wrap_fits|apply IH]. Qed.

Lemma identity_ok done chunk : bytes_ok (identity_chunk done chunk).
Proof.
  unfold identity_chunk. cbv zeta. apply Forall_app. split.
  - apply Forall_take, Forall_drop. unfold identity. repeat (constructor; [by split|]). constructor.
  - apply Forall_replicate. by split.
Qed.

Section DiskSafe.
Context {Cfg : Config}.

(** ** DMA *)

Definition ram_byte (b : Z) : bool := in_pmem b || in_sram b || in_sdram b.
Definition readable (a len : Z) : bool := (len <=? INT32_MAX) && paddr_is_memory_span a (wrap 32 len).
Definition writable (a len : Z) : bool := (len <=? INT32_MAX) && paddr_is_ram_span a len.

(** The hart up to the mark for the reference simulator. *)
Definition quiet (m m' : machine) : Prop := exists v, m' = m <| skip_ref := v |>.

Lemma touch_quiet a m : quiet m (touch_host a m).
Proof. unfold touch_host. destruct (in_pmem a); [exists (skip_ref m); by destruct m|by exists true]. Qed.

Lemma memory_region a len : paddr_is_memory_span a len = true ->
  in_rom a || in_sdram a || in_sram a || in_mrom a || in_flash a || in_pmem a = true.
Proof.
  unfold paddr_is_memory_span, span_in. destruct (len =? 0); [done|]. destruct (_ <? a); [done|].
  by destruct (in_rom a), (in_sdram a), (in_sram a), (in_mrom a), (in_flash a), (in_pmem a).
Qed.

Lemma ram_region a len : paddr_is_ram_span a len = true ->
  in_rom a || in_sdram a || in_sram a || in_mrom a || in_flash a || in_pmem a = true.
Proof.
  unfold paddr_is_ram_span, span_in. destruct (len <=? 0); [done|]. destruct (_ <? a); [done|].
  by destruct (in_rom a), (in_sdram a), (in_sram a), (in_mrom a), (in_flash a), (in_pmem a).
Qed.

(** A span of RAM lies in one region, so each of its bytes is RAM. *)
Lemma ram_span_byte a len b : fits 64 a -> 0 < len <= INT32_MAX -> paddr_is_ram_span a len = true -> a <= b < a + len -> ram_byte b = true.
Proof.
  intros Fa Hl H Hb. unfold paddr_is_ram_span in H. rewrite (proj2 (Z.leb_gt _ _)) in H by lia. unfold paddr_add in H.
  destruct (Z.ltb_spec (wrap 64 (a + (len - 1))) a) as [|G]; [done|].
  assert (E : wrap 64 (a + (len - 1)) = a + (len - 1)).
  { rewrite wrap_mod in * by done. unfold INT32_MAX, fits in *. Z.to_euclidean_division_equations. lia. }
  assert (I : forall f, (f = in_pmem \/ f = in_sram \/ f = in_sdram) -> span_in f a len = true -> f b = true).
  { intros f F S. unfold span_in, paddr_add in S. rewrite E in S. apply andb_prop in S as [S1 S2]. revert S1 S2.
    destruct F as [-> | [-> | ->]]; unfold in_pmem, in_sram, in_sdram, in_region; [..|destruct CONFIG_RAPTOR_PMEM_2G; [done|]]; lia. }
  unfold ram_byte. rewrite !orb_true_iff in H |- *. destruct H as [[H|H]|H]; apply I in H; auto.
Qed.
Lemma dma_read_eq a len m :
  0 <= len -> exists m', quiet m m' /\
  paddr_dma_read a len m = (Ret (if (len =? 0) || readable a len then Some (copy_out (mem m) a (Z.to_nat len)) else None), m').
Proof.
  intros L. unfold paddr_dma_read, readable. destruct (Z.eqb_spec len 0) as [->|]; cbn [orb].
  { exists m. split; [exists (skip_ref m); by destruct m|done]. }
  destruct ((len <=? INT32_MAX) && paddr_is_memory_span a (wrap 32 len)) eqn:E.
  - apply andb_prop in E as [_ E]. exists (touch_host a m). split; [apply touch_quiet|].
    rewrite (bind_ret _ _ _ _ _ (guest_to_host_region a m (memory_region _ _ E))). unfold gets.
    do 3 f_equal. unfold touch_host. by destruct (in_pmem a).
  - exists m. split; [exists (skip_ref m); by destruct m|done].
Qed.

Lemma dma_write_eq a l m :
  let ok := (Z.of_nat (length l) =? 0) || writable a (Z.of_nat (length l)) in
  exists m', quiet (if ok then m <| mem := copy_in (mem m) a l |> else m) m' /\ paddr_dma_write a l m = (Ret ok, m').
Proof.
  cbv zeta. unfold paddr_dma_write, writable. cbv zeta. destruct (Z.eqb_spec (Z.of_nat (length l)) 0) as [E|]; cbn [orb].
  { destruct l; [|done]. exists m. split; [|done]. exists (skip_ref m). by destruct m. }
  destruct ((Z.of_nat (length l) <=? INT32_MAX) && paddr_is_ram_span a (Z.of_nat (length l))) eqn:E.
  - apply andb_prop in E as [_ E]. exists ((touch_host a m) <| mem := copy_in (mem m) a l |>). split.
    + unfold touch_host. destruct (in_pmem a); [exists (skip_ref m)|exists true]; by destruct m.
    + rewrite (bind_ret _ _ _ _ _ (guest_to_host_region a m (ram_region _ _ E))).
      unfold mbind, M_bind, modify, mret, M_ret, touch_host. by destruct (in_pmem a).
  - exists m. split; [exists (skip_ref m); by destruct m|done].
Qed.

(** ** What the device may change *)

Record hart_confined (m m' : machine) : Prop := {
  hc_gpr : gpr m' = gpr m;
  hc_fpr : fpr m' = fpr m;
  hc_vreg : vreg m' = vreg m;
  hc_pc : pc m' = pc m;
  hc_priv : priv m' = priv m;
  hc_virt : virt m' = virt m;
  hc_csr : forall c, c .& 0xfff <> CSR_MIP .& 0xfff -> c .& 0xfff <> CSR_SIP .& 0xfff -> CSR m' c = CSR m c;
  hc_ram : forall b, ram_byte b = false -> aget (mem m') b = aget (mem m) b;
}.

Record image_confined (i i' : NemuBlockImage) : Prop := {
  ic_open : image_open i' = image_open i;
  ic_mode : image_mode i' = image_mode i;
  ic_size : image_size i' = image_size i;
  ic_file : image_mode i <> NEMU_BLOCK_PERSISTENT -> image_file i' = image_file i;
  ic_data : image_mode i <> NEMU_BLOCK_VOLATILE -> image_data i' = image_data i;
  ic_range : forall b, ~ (0 <= b < image_size i) ->
    aget (image_file i') b = aget (image_file i) b /\ aget (default ∅ (image_data i')) b = aget (default ∅ (image_data i)) b;
}.

Definition confined (s s' : disk) : Prop :=
  hart_confined (disk_hart s) (disk_hart s') /\ image_confined (disk_image s) (disk_image s').

Record image_wf (i : NemuBlockImage) : Prop := {
  iw_size : 0 <= image_size i;
  iw_data : image_mode i = NEMU_BLOCK_VOLATILE <-> is_Some (image_data i);
  iw_content : content_ok (default ∅ (image_data i));
  iw_file : content_ok (image_file i);
}.

Record disk_wf (s : disk) : Prop := {
  dw_mem : content_ok (mem (disk_hart s));
  dw_image : image_wf (disk_image s);
  dw_queue : 0 <= queue_num (blk s) <= 256;
  dw_last : fits 16 (last_avail_idx (blk s));
}.

(** The registers keep their values while a request is processed. *)
Definition same_regs (b b' : virtio_blk) : Prop := exists v, b' = b <| interrupt_status := v |>.

Definition inv (s0 s : disk) : Prop := disk_wf s /\ confined s0 s /\ same_regs (blk s0) (blk s).

Lemma hart_refl m : hart_confined m m.
Proof. by split. Qed.
Lemma hart_trans m1 m2 m3 : hart_confined m1 m2 -> hart_confined m2 m3 -> hart_confined m1 m3.
Proof.
  intros [? ? ? ? ? ? C1 R1] [? ? ? ? ? ? C2 R2]. split; try congruence.
  - intros c H1 H2. by rewrite C2, C1.
  - intros b H. by rewrite R2, R1.
Qed.
Lemma image_refl i : image_confined i i.
Proof. by split. Qed.
Lemma image_trans i1 i2 i3 : image_confined i1 i2 -> image_confined i2 i3 -> image_confined i1 i3.
Proof.
  intros [O1 M1 S1 F1 D1 R1] [O2 M2 S2 F2 D2 R2]. split; try congruence.
  - intros H. rewrite F2 by congruence. by apply F1.
  - intros H. rewrite D2 by congruence. by apply D1.
  - intros b H. destruct (R1 b H) as [E1 E2]. rewrite S1 in R2. destruct (R2 b H) as [E3 E4]. split; congruence.
Qed.
Lemma confined_trans s1 s2 s3 : confined s1 s2 -> confined s2 s3 -> confined s1 s3.
Proof. intros [H1 I1] [H2 I2]. split; [by eapply hart_trans|by eapply image_trans]. Qed.
Lemma inv_refl s : disk_wf s -> inv s s.
Proof. intros W. split; [done|]. split; [split; [apply hart_refl|apply image_refl]|]. exists (interrupt_status (blk s)). by destruct (blk s). Qed.

(** A step within the limits keeps the invariant. *)
Definition step (s s' : disk) : Prop := disk_wf s' /\ confined s s' /\ same_regs (blk s) (blk s').

Lemma inv_step s0 s s' : inv s0 s -> step s s' -> inv s0 s'.
Proof.
  intros (W & C & [v E]) (W' & C' & [v' E']). split; [done|]. split; [by eapply confined_trans|].
  exists v'. rewrite E', E. by destruct (blk s0).
Qed.

Lemma quiet_fields m m' : quiet m m' -> mem m' = mem m /\ hart_confined m m'.
Proof. intros [v ->]. split; [done|]. by split. Qed.

Lemma step_hart s m' : disk_wf s -> hart_confined (disk_hart s) m' -> content_ok (mem m') -> step s (s <| disk_hart := m' |>).
Proof.
  intros [M I Q L] H C. split; [by split|]. split; [split; [done|apply image_refl]|].
  exists (interrupt_status (blk s)). fields. by destruct (blk s).
Qed.

Lemma step_image s i' : disk_wf s -> image_confined (disk_image s) i' -> image_wf i' -> step s (s <| disk_image := i' |>).
Proof.
  intros [M I Q L] H C. split; [by split|]. split; [split; [apply hart_refl|done]|].
  exists (interrupt_status (blk s)). fields. by destruct (blk s).
Qed.

(** ** Total correctness within the limits *)

Definition no_jump : Z -> disk -> Prop := fun _ _ => False.
Definition safe {A} (F : A -> Prop) (c : M disk A) : Prop :=
  forall s0, triple (inv s0) c (fun a s => inv s0 s /\ F a) no_jump.

Lemma safe_ret {A} (F : A -> Prop) (a : A) : F a -> safe F (mret (M := M disk) a).
Proof. intros H s0. by apply triple_ret. Qed.

Lemma safe_bind {A B} (G : A -> Prop) (F : B -> Prop) c k : safe G c -> (forall a, G a -> safe F (k a)) -> safe F (mbind k c).
Proof.
  intros Hc Hk s0. eapply triple_bind; [apply Hc|]. intros a. apply triple_pure. intros Ga. by apply Hk.
Qed.

(** Reading the state: the continuation is safe from every state that is well formed. *)
Definition safe_at {A} (F : A -> Prop) (s : disk) (c : M disk A) : Prop :=
  forall s0, inv s0 s -> triple (fun s' => s' = s) c (fun a s' => inv s0 s' /\ F a) no_jump.

Lemma safe_at_of {A} (F : A -> Prop) s c : safe F c -> safe_at F s c.
Proof. intros H s0 I s' ->. by apply H. Qed.

Lemma safe_get {A} (F : A -> Prop) (k : disk -> M disk A) : (forall s, disk_wf s -> safe_at F s (k s)) -> safe F (mbind k get).
Proof. intros H s0. apply triple_get_bind. intros s I. apply H; [apply I|done]. Qed.

Lemma safe_step (f : disk -> disk) : (forall s, disk_wf s -> step s (f s)) -> safe (fun _ => True) (modify f).
Proof. intros H s0. apply triple_modify. intros s I. split; [|done]. eapply inv_step; [done|]. apply H, I. Qed.

Lemma safe_weaken {A} (F G : A -> Prop) c : safe F c -> (forall a, F a -> G a) -> safe G c.
Proof. intros H K s0. eapply triple_post; [apply H|]. intros a s [I Fa]. auto. Qed.

Lemma safe_if {A} (F : A -> Prop) (b : bool) c1 c2 : safe F c1 -> safe F c2 -> safe F (if b then c1 else c2).
Proof. by destruct b. Qed.

Lemma safe_guest_read addr len : 0 <= len ->
  safe (fun r => match r with Some l => bytes_ok l /\ length l = Z.to_nat len | None => True end) (guest_mem_read addr len).
Proof.
  intros L s0 s I. unfold guest_mem_read, on_hart. destruct (dma_read_eq (wrap 64 addr) len (disk_hart s) L) as (m' & Q & ->).
  destruct (quiet_fields _ _ Q) as [Em C]. pose proof I as ([M _ _ _] & _). split.
  - eapply inv_step; [done|]. apply step_hart; [apply I|done|by rewrite Em].
  - destruct (_ || _); [|done]. split; [by apply copy_out_ok|apply copy_out_length].
Qed.

Lemma safe_guest_write addr l : bytes_ok l -> safe (fun _ => True) (guest_mem_write addr l).
Proof.
  intros B s0 s I. unfold guest_mem_write, on_hart. destruct (dma_write_eq (wrap 64 addr) l (disk_hart s)) as (m' & Q & ->).
  destruct (quiet_fields _ _ Q) as [Em C]. pose proof I as ([M _ _ _] & _). split; [|done].
  eapply inv_step; [done|]. apply step_hart; [apply I| |].
  - eapply hart_trans; [|exact C]. destruct (Z.eqb_spec (Z.of_nat (length l)) 0) as [E|N]; cbn [orb].
    { destruct l; [|done]. by split. }
    destruct (writable _ _) eqn:W; [|apply hart_refl]. split; try done. intros b Hb. fields.
    apply copy_in_other. intros R. apply andb_prop in W as [W1 W2].
    apply Z.leb_le in W1. assert (L : 0 < Z.of_nat (length l) <= INT32_MAX) by lia.
    pose proof (ram_span_byte _ _ b (wrap_fits 64 addr ltac:(done)) L W2 R). congruence.
  - rewrite Em. destruct (_ || _); [|done]. by apply copy_in_ok.
Qed.

(** ** The image *)

Lemma step_io s rest : disk_wf s -> step s (s <| host_io := rest |>).
Proof.
  intros [M I Q L]. split; [by split|]. split; [split; [apply hart_refl|apply image_refl]|].
  exists (interrupt_status (blk s)). fields. by destruct (blk s).
Qed.

Lemma inv_io s0 s rest : inv s0 s -> inv s0 (s <| host_io := rest |>).
Proof. intros I. eapply inv_step; [done|]. apply step_io, I. Qed.

(** A call of the host uses up an answer, or succeeds. *)
Lemma host_call_eq chunk s :
  host_call chunk s = (Ret (Count chunk), s) \/
  exists a rest, host_call chunk s = (Ret a, s <| host_io := rest |>) /\ (length rest < length (host_io s))%nat /\
    match a with Count n => n <= chunk | _ => True end.
Proof.
  unfold host_call, get, mbind, M_bind. destruct (host_io s) as [|a rest]; [by left|]. right.
  eexists _, rest. split; [done|]. cbn [length]. split; [lia|]. destruct a; [lia|done..].
Qed.

Definition good_bytes (r : option (list Z)) : Prop := match r with Some l => bytes_ok l | None => True end.

Lemma file_read_safe fuel offset size done bytes s0 s :
  inv s0 s -> bytes_ok bytes -> (Z.to_nat (size - done) + length (host_io s) < fuel)%nat ->
  match file_read fuel offset size done bytes s with (Ret r, s') => inv s0 s' /\ good_bytes r | _ => False end.
Proof.
  revert done bytes s. induction fuel as [|fuel IH]; intros done bytes s I B L; [lia|]. cbn [file_read].
  destruct (Z.leb_spec size done); [by split|]. cbv zeta. set (chunk := if size - done <? 65536 then size - done else 65536).
  assert (Hc : 0 < chunk) by (unfold chunk; destruct (Z.ltb_spec (size - done) 65536); lia).
  assert (More : forall n s1, inv s0 s1 -> (Z.to_nat (size - (done + n)) + length (host_io s1) < fuel)%nat ->
    match file_read fuel offset size (done + n) (bytes ++ copy_out (image_file (disk_image s1)) (offset + done) (Z.to_nat n)) s1 with
    | (Ret r, s') => inv s0 s' /\ good_bytes r | _ => False end).
  { intros n s1 I1 L1. apply IH; [done| |done]. apply Forall_app. split; [done|]. apply copy_out_ok. apply I1. }
  destruct (host_call_eq chunk s) as [E|(a & rest & E & R & Hn)]; rewrite (bind_ret _ _ _ _ _ E).
  - rewrite (proj2 (Z.leb_gt _ _)) by lia. apply More; [done|lia].
  - destruct a as [n| |]; [|apply IH; [by apply inv_io|done|fields; lia]|split; [by apply inv_io|done]].
    destruct (Z.leb_spec n 0); [split; [by apply inv_io|done]|]. apply More; [by apply inv_io|fields; lia].
Qed.

Lemma file_write_safe fuel offset bytes s0 s :
  inv s0 s -> bytes_ok bytes -> image_mode (disk_image s) = NEMU_BLOCK_PERSISTENT ->
  0 <= offset /\ offset + Z.of_nat (length bytes) <= image_size (disk_image s) ->
  (length bytes + length (host_io s) < fuel)%nat ->
  match file_write fuel offset bytes s with (Ret _, s') => inv s0 s' | _ => False end.
Proof.
  revert offset bytes s. induction fuel as [|fuel IH]; intros offset bytes s I B Md Rg L; [lia|]. cbn [file_write].
  destruct (Z.leb_spec (Z.of_nat (length bytes)) 0); [done|]. cbv zeta.
  set (chunk := if Z.of_nat (length bytes) <? 65536 then Z.of_nat (length bytes) else 65536).
  assert (Hc : 0 < chunk) by (unfold chunk; destruct (Z.ltb_spec (Z.of_nat (length bytes)) 65536); lia).
  assert (Le : chunk <= Z.of_nat (length bytes)) by (unfold chunk; destruct (Z.ltb_spec (Z.of_nat (length bytes)) 65536); lia).
  clearbody chunk.
  assert (More : forall n s1, inv s0 s1 -> 0 < n <= Z.of_nat (length bytes) -> disk_image s1 = disk_image s ->
    (length bytes + length (host_io s1) < S fuel)%nat ->
    match (modify (fun s => s <| disk_image ::= fun i => i <| image_file ::= fun f => copy_in f offset (firstn (Z.to_nat n) bytes) |> |>);;
      file_write fuel (offset + n) (skipn (Z.to_nat n) bytes)) s1 with (Ret _, s') => inv s0 s' | _ => False end).
  { intros n s1 I1 Hn Ei L1. unfold mbind, M_bind, modify. pose proof I1 as (W1 & _). pose proof W1 as [_ [Sz Dt Ct Fl] _ _].
    rewrite <-Ei in Md, Rg. assert (Bf : bytes_ok (firstn (Z.to_nat n) bytes)) by by apply Forall_take.
    assert (Ln : Z.of_nat (length (firstn (Z.to_nat n) bytes)) = n) by (rewrite length_firstn; lia).
    apply IH; [|by apply Forall_drop|by fields|fields; rewrite length_skipn; lia|fields; rewrite length_skipn; lia].
    eapply inv_step; [done|]. apply step_image; [done| |].
    - split; try done. intros b Hb. fields. split; [|done]. apply copy_in_other. lia.
    - split; try done. fields. by apply copy_in_ok. }
  destruct (host_call_eq chunk s) as [E|(a & rest & E & R & Hn)]; rewrite (bind_ret _ _ _ _ _ E).
  - rewrite (proj2 (Z.leb_gt _ _)) by lia. apply More; [done|lia|done|lia].
  - destruct a as [n| |]; [|apply IH; [by apply inv_io|done..|fields; lia]|by apply inv_io].
    destruct (Z.leb_spec n 0); [by apply inv_io|]. apply More; [by apply inv_io|lia|done|fields; lia].
Qed.

Lemma flush_safe fuel s0 s : inv s0 s -> (length (host_io s) < fuel)%nat ->
  match flush_loop fuel s with (Ret _, s') => inv s0 s' | _ => False end.
Proof.
  revert s. induction fuel as [|fuel IH]; intros s I L; [lia|]. cbn [flush_loop].
  destruct (host_call_eq 0 s) as [E|(a & rest & E & R & Hn)]; rewrite (bind_ret _ _ _ _ _ E); [done|].
  destruct a; [by apply inv_io| |by apply inv_io]. apply IH; [by apply inv_io|fields; lia].
Qed.

Lemma safe_read offset size : safe good_bytes (nemu_block_read offset size).
Proof.
  intros s0. unfold nemu_block_read. apply triple_get_bind. intros s I s' ->. cbv zeta.
  destruct (negb _); [by split|]. destruct (size =? 0); [split; [done|constructor]|].
  pose proof I as ([_ [_ _ Ct _] _ _] & _). destruct (image_data (disk_image s)) as [data|].
  - split; [done|]. by apply copy_out_ok.
  - pose proof (file_read_safe (transfer_fuel size s) offset size 0 [] s0 s I ltac:(constructor)) as H.
    apply H. unfold transfer_fuel. lia.
Qed.

Lemma safe_write offset bytes : 0 <= offset -> bytes_ok bytes -> safe (fun _ => True) (nemu_block_write offset bytes).
Proof.
  intros Of B s0. unfold nemu_block_write. apply triple_get_bind. intros s I s' ->. cbv zeta.
  destruct (valid_range _ _ _) eqn:V; cbn [negb]; [|by split]. apply negb_true_iff in V. rewrite !orb_false_iff, !Z.ltb_ge in V.
  destruct V as [[_ V1] V2]. pose proof I as (W & _). pose proof W as [_ [Sz Dt Ct Fl] _ _].
  case_bool_decide as Ro; [by split|]. destruct (_ =? 0); [by split|]. destruct (image_data (disk_image s)) as [data|] eqn:D.
  - unfold mbind, M_bind, modify, mret, M_ret. split; [|done]. eapply inv_step; [done|].
    assert (Vo : image_mode (disk_image s) = NEMU_BLOCK_VOLATILE) by (apply Dt; by eexists).
    apply step_image; [done| |].
    + split; try done. intros b Hb. fields. split; [done|]. rewrite D. cbn [default]. apply copy_in_other. lia.
    + split; fields; [done|split; [by eexists|done]|by apply copy_in_ok|done].
  - assert (P : image_mode (disk_image s) = NEMU_BLOCK_PERSISTENT).
    { destruct (image_mode (disk_image s)); [|done..]. destruct (proj1 Dt eq_refl) as [? ?]. done. }
    pose proof (file_write_safe (transfer_fuel (Z.of_nat (length bytes)) s) offset bytes s0 s I B P ltac:(lia)) as H.
    destruct (file_write _ _ _ _) as [[] s'']; [split; [|done]| |]; apply H; unfold transfer_fuel; lia.
Qed.

Lemma safe_flush : safe (fun _ => True) nemu_block_flush.
Proof.
  intros s0. unfold nemu_block_flush. apply triple_get_bind. intros s I s' ->.
  destruct (negb _); [by split|]. case_bool_decide as Md; [by split|].
  pose proof (flush_safe (transfer_fuel 0 s) s0 s I) as H.
  destruct (flush_loop _ _) as [[] s'']; [split; [|done]| |]; apply H; unfold transfer_fuel; lia.
Qed.

(** ** Requests *)

Lemma raise_confined irq p m : hart_confined m (plic_raise_irq irq p m).2 /\ mem (plic_raise_irq irq p m).2 = mem m.
Proof.
  unfold plic_raise_irq. destruct (_ || _); [split; [apply hart_refl|done]|]. unfold plic_changed. cbn [snd].
  rewrite update_rounds. cbv zeta. unfold mip_line. split; [|by mach].
  split; mach; try done. intros c H1 H2. by mach.
Qed.

Lemma step_raise s : disk_wf s ->
  step s (plic_raise_block_irq VIRTIO_BLK_IRQ (s <| blk ::= fun b => b <| interrupt_status ::= fun v => v .| 1 |> |>)).
Proof.
  intros W. unfold plic_raise_block_irq. fields. pose proof (raise_confined VIRTIO_BLK_IRQ (disk_plic s) (disk_hart s)) as [H E].
  destruct (plic_raise_irq _ _ _) as [p m']. cbn [snd] in *. destruct W as [M I Q L].
  split; [split; fields; [by rewrite E|done..]|]. split; [split; fields; [done|apply image_refl]|]. by eexists.
Qed.

Lemma safe_when (b : bool) c : safe (fun _ => True) c -> safe (fun _ => True) (when b c).
Proof. intros H. destruct b; [exact H|by apply safe_ret]. Qed.

Lemma safe_used id len : safe (fun _ => True) (write_used_elem id len).
Proof.
  unfold write_used_elem. apply safe_get. intros s W. apply safe_at_of. cbv zeta.
  eapply safe_bind; [by apply safe_guest_read|]. intros [bytes|] H; [|by apply safe_ret].
  eapply safe_bind; [apply safe_guest_write, le_bytes_ok|]. intros [] _; cbn [negb]; [|by apply safe_ret].
  eapply safe_bind; [apply safe_guest_write, le_bytes_ok|]. intros [] _; cbn [negb]; [|by apply safe_ret].
  apply safe_guest_write, le_bytes_ok.
Qed.

Lemma safe_finish head len : safe (fun _ => True) (finish_request head len).
Proof.
  unfold finish_request. eapply safe_bind; [apply safe_used|]. intros ok _. apply safe_when, safe_step, step_raise.
Qed.

Lemma safe_chunk type address done chunk offset : 0 <= chunk -> 0 <= offset -> safe (fun _ => True) (transfer_chunk type address done chunk offset).
Proof.
  intros Hc Ho. unfold transfer_chunk. apply safe_if.
  - eapply safe_bind; [by apply safe_guest_read|]. intros [bytes|] H; [|by apply safe_ret].
    eapply safe_bind; [apply safe_write; [done|apply H]|]. intros ok _. by apply safe_ret.
  - eapply (safe_bind good_bytes).
    { apply safe_if; [apply safe_read|]. apply safe_ret, identity_ok. }
    intros [bytes|] H; [|by apply safe_ret]. eapply safe_bind; [by apply safe_guest_write|]. intros ok _. by apply safe_ret.
Qed.

(** The offset in the image never gets negative. *)
Definition offset_ok (r : bool * Z * Z) : Prop := 0 <= r.1.2.

Lemma safe_offset ok offset used : 0 <= offset -> safe offset_ok (mret (ok, offset, used)).
Proof. intros H. by apply safe_ret. Qed.

Lemma safe_loop fuel type address length done offset used :
  0 <= offset -> length - done <= 65536 * Z.of_nat fuel -> safe offset_ok (transfer_loop fuel type address length done offset used).
Proof.
  revert done offset used. induction fuel as [|fuel IH]; intros done offset used Ho L; cbn [transfer_loop].
  { rewrite (proj2 (Z.leb_le _ _)) by lia. by apply safe_offset. }
  destruct (Z.leb_spec length done); [by apply safe_offset|]. cbv zeta. unfold TRANSFER_BUFFER.
  set (chunk := if length - done <? 65536 then length - done else 65536).
  assert (Hc : 0 <= chunk /\ (chunk = length - done \/ chunk = 65536)) by (unfold chunk; destruct (Z.ltb_spec (length - done) 65536); lia).
  eapply safe_bind; [apply safe_chunk; lia|]. intros [[] n] _; cbn [negb]; [|by apply safe_offset].
  apply IH; [destruct (_ =? _); lia|lia].
Qed.

Lemma safe_transfer type address length offset used : 0 <= offset -> safe offset_ok (transfer_data type address length offset used).
Proof.
  intros Ho. unfold transfer_data. apply safe_get. intros s W. apply safe_at_of. cbv zeta. unfold VIRTIO_BLK_MAX_SIZE.
  destruct (Z.ltb_spec 0x100000 length); cbn [orb]; [by apply safe_offset|].
  apply safe_if; [by apply safe_offset|]. apply safe_loop; [done|lia].
Qed.

Lemma safe_desc idx : safe (fun _ => True) (read_desc idx).
Proof.
  unfold read_desc. apply safe_get. intros s W. apply safe_at_of. apply safe_if; [by apply safe_ret|].
  eapply safe_bind; [by apply safe_guest_read|]. intros r _. by apply safe_ret.
Qed.

Lemma safe_chain guard type idx io_ok off used : 0 <= off -> safe (fun _ => True) (chain_loop guard type idx io_ok off used).
Proof.
  revert idx io_ok off used. induction guard as [|guard IH]; intros idx io_ok off used Ho; cbn [chain_loop]; [by apply safe_ret|].
  eapply safe_bind; [apply safe_desc|]. intros [desc|] _; [|by apply safe_ret]. cbv zeta.
  apply safe_if; [by apply safe_ret|]. apply safe_if; [|by apply IH].
  eapply safe_bind; [by apply safe_transfer|]. intros [[ok off'] used'] H. by apply IH.
Qed.

Lemma safe_request_flush type io_ok have : safe (fun _ => True) (request_flush type io_ok have).
Proof.
  unfold request_flush. apply safe_get. intros s W. apply safe_at_of. apply safe_if; [apply safe_flush|by apply safe_ret].
Qed.

Lemma safe_one head : safe (fun _ => True) (process_one head).
Proof.
  unfold process_one. eapply safe_bind; [apply safe_desc|]. intros [desc0|] _; [|apply safe_finish].
  apply safe_if; [apply safe_finish|]. eapply safe_bind; [by apply safe_guest_read|]. intros [bytes|] _; [|apply safe_finish].
  apply safe_get. intros s W. apply safe_at_of. destruct (request_start _ _) as [io_ok off] eqn:E.
  assert (Ho : 0 <= off).
  { unfold request_start in E. injection E as _ <-. destruct (_ && _); [|done]. apply wrap_fits. done. }
  eapply safe_bind; [by apply safe_chain|]. intros [[ok used] addr] _.
  eapply safe_bind; [apply safe_request_flush|]. intros ok' _. cbv zeta.
  eapply (safe_bind (fun _ => True)).
  - destruct addr as [a|]; [|by apply safe_ret]. apply safe_guest_write. constructor; [by destruct (_ || _)|constructor].
  - intros w _. apply safe_finish.
Qed.

(** ** The queue *)

Definition within (s0 s : disk) : Prop := disk_wf s /\ confined s0 s.

Lemma within_refl s : disk_wf s -> within s s.
Proof. intros W. split; [done|]. split; [apply hart_refl|apply image_refl]. Qed.

Lemma within_inv s0 s s' : within s0 s -> inv s s' -> within s0 s'.
Proof. intros [_ C] (W & C' & _). split; [done|]. by eapply confined_trans. Qed.

Lemma within_run {A} (F : A -> Prop) c s0 s : safe F c -> within s0 s ->
  exists a s', c s = (Ret a, s') /\ within s0 s' /\ F a /\ same_regs (blk s) (blk s').
Proof.
  intros H W. pose proof (H s s (inv_refl s (proj1 W))) as T. destruct (c s) as [[a|code|] s']; [|done..].
  destruct T as [I Fa]. exists a, s'. split; [done|]. split; [by eapply within_inv|]. split; [done|apply I].
Qed.

(** The distance from the device's index to the driver's. *)
Definition distance (avail : Z) (s : disk) : nat := Z.to_nat (wrap 16 (avail - last_avail_idx (blk s))).

Lemma distance_step avail last : fits 16 avail -> fits 16 last -> last <> avail ->
  Z.to_nat (wrap 16 (avail - last)) = S (Z.to_nat (wrap 16 (avail - wrap 16 (last + 1)))).
Proof. unfold fits. rewrite !wrap_mod by done. intros. Z.to_euclidean_division_equations. lia. Qed.

Lemma distance_zero avail last : fits 16 avail -> fits 16 last -> Z.to_nat (wrap 16 (avail - last)) = 0%nat -> last = avail.
Proof. unfold fits. rewrite !wrap_mod by done. intros. Z.to_euclidean_division_equations. lia. Qed.

Definition next_avail (s : disk) : disk := s <| blk ::= fun b => b <| last_avail_idx ::= fun i => wrap 16 (i + 1) |> |>.

Lemma within_next s0 s : within s0 s -> within s0 (next_avail s).
Proof.
  intros [[M I Q L] [C1 C2]]. split; [|by split]. split; unfold next_avail; fields; [done..|]. by apply wrap_fits.
Qed.

Lemma service_loop_safe fuel qnum avail s0 s :
  fits 16 avail -> within s0 s -> (distance avail s <= fuel)%nat ->
  exists s', service_loop fuel qnum avail s = (Ret tt, s') /\ within s0 s'.
Proof.
  intros Fa. revert s. induction fuel as [|fuel IH]; intros s W L; cbn [service_loop]; unfold distance in L;
    rewrite (bind_ret get _ s s s eq_refl); pose proof (dw_last s (proj1 W)) as Fl;
    destruct (Z.eqb_spec (last_avail_idx (blk s)) avail) as [|N]; try (by exists s).
  { exfalso. apply N. apply distance_zero; [done..|lia]. }
  destruct (within_run _ _ s0 s (safe_guest_read (driver_addr (blk s) + 4 + (last_avail_idx (blk s) mod qnum) * 2) 2 ltac:(done)) W)
    as (r & s1 & E1 & W1 & _ & [v1 R1]). rewrite (bind_ret _ _ _ _ _ E1). destruct r as [bytes|]; [|by exists s1].
  cbv zeta.
  destruct (within_run _ _ s0 s1 (safe_when (le bytes <? qnum) _ (safe_one (le bytes))) W1) as ([] & s2 & E2 & W2 & _ & [v2 R2]).
  rewrite (bind_ret _ _ _ _ _ E2). rewrite (bind_ret (modify _) _ s2 tt (next_avail s2) eq_refl).
  apply IH; [by apply within_next|]. unfold distance, next_avail. fields. rewrite R2, R1. fields.
  rewrite (distance_step avail _ Fa Fl N) in L. lia.
Qed.

Lemma service_queue_safe s0 s : within s0 s -> exists s', service_queue s = (Ret tt, s') /\ within s0 s'.
Proof.
  intros W. unfold service_queue. rewrite (bind_ret get _ s s s eq_refl). cbv zeta.
  destruct (_ || _); [by exists s|].
  destruct (within_run _ _ s0 s (safe_guest_read (driver_addr (blk s) + 2) 2 ltac:(done)) W) as (r & s1 & E & W1 & H & [v R]).
  rewrite (bind_ret _ _ _ _ _ E). destruct r as [bytes|]; [|by exists s1]. destruct H as [B Lb].
  pose proof (le_fits bytes B) as F. rewrite Lb in F.
  apply service_loop_safe; [exact F|done|]. unfold distance. rewrite R. fields. done.
Qed.

(** ** The registers *)

Lemma write_reg32_fits reg offset len s : fits 32 (write_reg32 reg offset len s).
Proof. by apply wrap_fits. Qed.

Lemma reg_write_wf base offset len s b :
  0 <= queue_num b <= 256 -> fits 16 (last_avail_idx b) ->
  0 <= queue_num (reg_write base offset len s b) <= 256 /\ fits 16 (last_avail_idx (reg_write base offset len s b)).
Proof.
  intros Q L. pose proof (fun r => write_reg32_fits r offset len s) as F. unfold fits in F. unfold reg_write. cbv zeta.
  repeat (match goal with |- context [if ?x =? ?y then _ else _] => destruct (x =? y) end; [fields; try done|]).
  all: try done.
  unfold VIRTIO_QUEUE_NUM_MAX. split; [|done]. specialize (F (queue_num b)).
  destruct (Z.ltb_spec 256 (write_reg32 (queue_num b) offset len s)); lia.
Qed.

Lemma within_regs s0 s base offset len s' :
  within s0 s -> within s0 (s <| blk ::= reg_write base offset len s' |>).
Proof.
  intros [[M I Q L] [C1 C2]]. destruct (reg_write_wf base offset len s' (blk s) Q L) as [Q' L']. split; [|by split].
  by split.
Qed.

(** C18: the guest cannot get out of the limits of the device. Whatever it writes to
    whatever register of the device, in whatever order, and whatever it has put
    into its memory as a queue, every access ends; the device changes memory of the
    guest in RAM only and nothing else of the hart but the pending interrupts; the
    image keeps its size, is changed in its range only, and the file of the host
    in persistent mode only. *)
Theorem disk_confined s offset len data :
  disk_wf s -> len <= 4 ->
  (exists s', disk_write offset len data s = (Ret tt, s') /\ disk_wf s' /\ confined s s') /\
  (exists v s', disk_read offset len s = (Ret v, s') /\ disk_wf s' /\ confined s s').
Proof.
  intros W L.
  assert (Io : forall o l v, within s (io_write_value o l v s)) by (intros o l v; split; [by destruct W|split; [apply hart_refl|apply image_refl]]).
  split.
  - unfold disk_write. rewrite (bind_ret (modify _) _ s tt (io_write_value offset len data s) eq_refl).
    pose proof (Io offset len data) as W1. set (s1 := io_write_value offset len data s) in *. clearbody s1.
    unfold virtio_blk_io_handler. cbv zeta. destruct (_ =? VIRTIO_MMIO_QUEUE_NOTIFY).
    + by apply service_queue_safe.
    + rewrite (proj2 (Z.leb_gt _ _)), andb_false_r by lia. eexists. split; [done|]. by apply within_regs.
  - unfold disk_read, virtio_blk_io_handler. cbv zeta. eexists _, _. split; [done|]. apply Io.
Qed.

End DiskSafe.

(** ** Witness: three requests are announced whose descriptors are all zero *)

Definition careless_disk : disk :=
  (init_disk (nemu_block_open NEMU_BLOCK_PERSISTENT 1024 ∅) [] (init_intr ∅) (machine_init <| mem := store_bytes ∅ 0x80002002 2 3 |>))
    <| blk := mk_blk 0 0 ∅ 0 8 1 4 0 0x80001000 0x80002000 0x80003000 0 |>.

Lemma careless_wf : disk_wf careless_disk.
Proof.
  assert (Z : content_ok ∅) by (intros b; rewrite aget_empty; by split).
  split; [|split; [done| |exact Z..]|done|by split].
  - intros b. change (fits 8 (aget (store_bytes ∅ 0x80002002 2 3) b)). by apply store_bytes_fits.
  - split; [done|]. intros [? ?]. done.
Qed.

Lemma disk_confined_witness :
  exists s', disk_write (Cfg := riscv64_ref) VIRTIO_MMIO_QUEUE_NOTIFY 4 0 careless_disk = (Ret tt, s') /\
    last_avail_idx (blk s') = 3 /\ confined (Cfg := riscv64_ref) careless_disk s'.
Proof.
  destruct (disk_confined (Cfg := riscv64_ref) careless_disk VIRTIO_MMIO_QUEUE_NOTIFY 4 0 careless_wf ltac:(done)) as [(s' & E & W & C) _].
  exists s'. split; [done|]. split; [|done].
  replace s' with (snd (disk_write (Cfg := riscv64_ref) VIRTIO_MMIO_QUEUE_NOTIFY 4 0 careless_disk)) by (by rewrite E).
  vm_compute. reflexivity.
Defined.
