(* ===== verification/DiskSpec.v ===== *)
(** * DiskSpec: the requests of the virtio block device

    Requests do what they ask for, however the host splits and interrupts its
    transfers: what one request writes, a later one reads. *)
From S2P Require Import Prelude Config Machine Hoare Clint Paddr Copies Plic PlicSpec Disk DiskSafe.

Section DiskSpec.
Context {Cfg : Config}.

(** ** Changes of memory and image alone *)

(** The bytes of the image: the copy of a volatile one, the file of another. *)
Definition content (i : NemuBlockImage) : gmap Z Z := match image_data i with Some d => d | None => image_file i end.
Definition set_content (c : gmap Z Z) (i : NemuBlockImage) : NemuBlockImage :=
  match image_data i with Some _ => i <| image_data := Some c |> | None => i <| image_file := c |> end.

(** The host does not fail; it may be slow and interrupt. *)
Definition fair_answer (a : host_answer) : Prop := match a with Count n => 0 < n | Retry => True | Error => False end.
Definition fair (s : disk) : Prop := Forall fair_answer (host_io s).

Definition memory (s : disk) : gmap Z Z := mem (disk_hart s).
Record became (s : disk) (m : gmap Z Z) (i : NemuBlockImage) (s' : disk) : Prop := {
  bc_mem : memory s' = m;
  bc_image : disk_image s' = i;
  bc_blk : blk s' = blk s;
  bc_fair : fair s';
}.

Lemma run_modify {A} (f : disk -> disk) (k : M disk A) s : (modify f;; k) s = k (f s).
Proof. done. Qed.

Lemma became_refl s : fair s -> became s (memory s) (disk_image s) s.
Proof. by split. Qed.

Lemma became_trans s m i s' m' i' s'' : became s m i s' -> became s' m' i' s'' -> became s m' i' s''.
Proof. intros [? ? ? ?] [? ? ? ?]. split; congruence. Qed.

Lemma guest_read_ok addr len s :
  fair s -> 0 <= len ->
  exists s', guest_mem_read addr len s =
      (Ret (if (len =? 0) || readable (wrap 64 addr) len then Some (copy_out (memory s) (wrap 64 addr) (Z.to_nat len)) else None), s') /\
    became s (memory s) (disk_image s) s'.
Proof.
  intros F L. unfold guest_mem_read, on_hart. destruct (dma_read_eq (wrap 64 addr) len (disk_hart s) L) as (m' & Q & ->).
  eexists. split; [done|]. destruct (quiet_fields _ _ Q) as [E _]. split; [exact E|done..].
Qed.

Lemma guest_write_ok addr l s :
  fair s -> l = [] \/ writable (wrap 64 addr) (Z.of_nat (length l)) = true ->
  exists s', guest_mem_write addr l s = (Ret true, s') /\ became s (copy_in (memory s) (wrap 64 addr) l) (disk_image s) s'.
Proof.
  intros F W. unfold guest_mem_write, on_hart. destruct (dma_write_eq (wrap 64 addr) l (disk_hart s)) as (m' & Q & ->).
  assert (E : (Z.of_nat (length l) =? 0) || writable (wrap 64 addr) (Z.of_nat (length l)) = true).
  { destruct W as [-> | ->]; [done|]. apply orb_true_r. }
  rewrite E in *. eexists. split; [done|]. destruct (quiet_fields _ _ Q) as [Em _]. split; [|done..].
  unfold memory. fields. by rewrite Em.
Qed.

(** ** The image *)

Lemma fair_call chunk s : 0 < chunk -> fair s ->
  exists a s', host_call chunk s = (Ret a, s') /\ became s (memory s) (disk_image s) s' /\
    ((a = Count chunk /\ host_io s' = host_io s) \/
     ((length (host_io s') < length (host_io s))%nat /\ (a = Retry \/ exists n, a = Count n /\ 0 < n <= chunk))).
Proof.
  intros C F. unfold host_call, get, mbind, M_bind. unfold fair in F. destruct (host_io s) as [|a rest] eqn:E.
  - eexists _, s. split; [done|]. split; [apply became_refl; unfold fair; by rewrite E|]. left. by rewrite E.
  - apply Forall_cons in F as [Fa F]. eexists _, (s <| host_io := rest |>). split; [done|]. split; [by split|].
    right. fields. cbn [length]. split; [lia|]. destruct a as [n| |]; cbn in *; [right; exists (Z.min n chunk); split; [done|lia]|by left|done].
Qed.

Lemma file_read_ok fuel offset size done s :
  fair s -> 0 <= done <= size -> (Z.to_nat (size - done) + length (host_io s) < fuel)%nat ->
  exists s', file_read fuel offset size done (copy_out (image_file (disk_image s)) offset (Z.to_nat done)) s =
      (Ret (Some (copy_out (image_file (disk_image s)) offset (Z.to_nat size))), s') /\
    became s (memory s) (disk_image s) s'.
Proof.
  revert done s. induction fuel as [|fuel IH]; intros done s F D L; [lia|]. cbn [file_read].
  destruct (Z.leb_spec size done).
  { replace done with size by lia. exists s. split; [done|by apply became_refl]. }
  cbv zeta. set (chunk := if size - done <? 65536 then size - done else 65536).
  assert (Hc : 0 < chunk <= size - done) by (unfold chunk; destruct (Z.ltb_spec (size - done) 65536); lia). clearbody chunk.
  destruct (fair_call chunk s ltac:(lia) F) as (a & s1 & E & B1 & K). rewrite (bind_ret _ _ _ _ _ E). pose proof B1 as [Em Ei Eb F1].
  assert (More : forall n, 0 < n <= chunk -> (Z.to_nat (size - (done + n)) + length (host_io s1) < fuel)%nat ->
    exists s', (s0 ← get; file_read fuel offset size (done + n)
        (copy_out (image_file (disk_image s)) offset (Z.to_nat done) ++ copy_out (image_file (disk_image s0)) (offset + done) (Z.to_nat n))) s1
      = (Ret (Some (copy_out (image_file (disk_image s)) offset (Z.to_nat size))), s') /\ became s (memory s) (disk_image s) s').
  { intros n Hn Hl. rewrite (bind_ret get _ s1 s1 s1 eq_refl), Ei.
    replace (offset + done) with (offset + Z.of_nat (Z.to_nat done)) by lia. rewrite <-copy_out_app.
    replace (Z.to_nat done + Z.to_nat n)%nat with (Z.to_nat (done + n)) by lia. rewrite <-Ei.
    destruct (IH (done + n) s1 F1 ltac:(lia) Hl) as (s' & -> & B). exists s'. split; [done|].
    rewrite Em in B. rewrite Ei in B |- *. by eapply became_trans. }
  destruct K as [(-> & Eh)|(Eh & [-> | (n & -> & Hn)])].
  - rewrite (proj2 (Z.leb_gt _ _)) by lia. apply More; [lia|]. rewrite Eh. lia.
  - rewrite <-Ei. destruct (IH done s1 F1 ltac:(lia) ltac:(lia)) as (s' & -> & B). exists s'. split; [done|].
    rewrite Em in B. rewrite Ei in B |- *. by eapply became_trans.
  - rewrite (proj2 (Z.leb_gt _ _)) by lia. apply More; [lia|lia].
Qed.

Lemma copy_in_split c a n l : 0 <= n <= Z.of_nat (length l) ->
  copy_in (copy_in c a (firstn (Z.to_nat n) l)) (a + n) (skipn (Z.to_nat n) l) = copy_in c a l.
Proof.
  intros H. rewrite <-(firstn_skipn (Z.to_nat n) l) at 3. rewrite copy_in_app, length_firstn.
  replace (Z.of_nat (Z.to_nat n `min` length l)) with n by lia. done.
Qed.

Lemma file_write_ok fuel offset bytes s :
  fair s -> (length bytes + length (host_io s) < fuel)%nat ->
  exists s', file_write fuel offset bytes s = (Ret true, s') /\
    became s (memory s) ((disk_image s) <| image_file ::= fun f => copy_in f offset bytes |>) s'.
Proof.
  revert offset bytes s. induction fuel as [|fuel IH]; intros offset bytes s F L; [lia|]. cbn [file_write].
  destruct (Z.leb_spec (Z.of_nat (length bytes)) 0).
  { destruct bytes; [|cbn in *; lia]. exists s. split; [done|]. split; [done| |done..]. by destruct (disk_image s). }
  cbv zeta. set (chunk := if Z.of_nat (length bytes) <? 65536 then Z.of_nat (length bytes) else 65536).
  assert (Hc : 0 < chunk <= Z.of_nat (length bytes)) by (unfold chunk; destruct (Z.ltb_spec (Z.of_nat (length bytes)) 65536); lia).
  clearbody chunk.
  destruct (fair_call chunk s ltac:(lia) F) as (a & s1 & E & B1 & K). rewrite (bind_ret _ _ _ _ _ E). pose proof B1 as [Em Ei Eb F1].
  assert (More : forall n, 0 < n <= chunk -> (length bytes + length (host_io s1) < S fuel)%nat ->
    exists s', (modify (fun s => s <| disk_image ::= fun i => i <| image_file ::= fun f => copy_in f offset (firstn (Z.to_nat n) bytes) |> |>);;
        file_write fuel (offset + n) (skipn (Z.to_nat n) bytes)) s1 = (Ret true, s') /\
      became s (memory s) ((disk_image s) <| image_file ::= fun f => copy_in f offset bytes |>) s').
  { intros n Hn Hl. set (s2 := s1 <| disk_image ::= fun i => i <| image_file ::= fun f => copy_in f offset (firstn (Z.to_nat n) bytes) |> |>).
    rewrite run_modify. fold s2.
    destruct (IH (offset + n) (skipn (Z.to_nat n) bytes) s2 F1) as (s' & -> & B).
    { unfold s2. fields. rewrite length_skipn. lia. }
    exists s'. split; [done|]. destruct B as [M2 I2 B2 F2]. split; [by rewrite M2|rewrite I2|by rewrite B2|done].
    unfold s2. fields. rewrite Ei. destruct (disk_image s) as [o m z d f]. unfold upd, set_image_file. cbn. by rewrite copy_in_split by lia. }
  destruct K as [(-> & Eh)|(Eh & [-> | (n & -> & Hn)])].
  - rewrite (proj2 (Z.leb_gt _ _)) by lia. apply More; [lia|]. rewrite Eh. lia.
  - destruct (IH offset bytes s1 F1 ltac:(lia)) as (s' & -> & B). exists s'. split; [done|].
    rewrite Em, Ei in B. by eapply became_trans.
  - rewrite (proj2 (Z.leb_gt _ _)) by lia. apply More; [lia|lia].
Qed.

Lemma flush_loop_ok fuel s : fair s -> (length (host_io s) < fuel)%nat ->
  exists s', flush_loop fuel s = (Ret true, s') /\ became s (memory s) (disk_image s) s'.
Proof.
  revert s. induction fuel as [|fuel IH]; intros s F L; [lia|]. cbn [flush_loop].
  unfold host_call, get, mbind, M_bind. unfold fair in F. destruct (host_io s) as [|a rest] eqn:E.
  { exists s. split; [done|]. apply became_refl. unfold fair. by rewrite E. }
  apply Forall_cons in F as [Fa F]. cbn [length] in L. set (s1 := s <| host_io := rest |>).
  assert (F1 : fair s1) by (unfold fair, s1; by fields). assert (L1 : (length (host_io s1) < fuel)%nat) by (unfold s1; fields; lia).
  destruct a as [n| |]; [|destruct (IH s1 F1 L1) as (s' & Er & B)|done].
  - exists s1. split; [done|]. by split.
  - exists s'. split; [exact Er|]. destruct B. by split.
Qed.

Definition in_image (i : NemuBlockImage) (offset size : Z) : Prop :=
  image_open i = true /\ 0 <= offset /\ 0 <= size /\ offset + size <= image_size i.

Lemma in_image_valid i offset size : in_image i offset size -> valid_range i offset size = true.
Proof. intros (O & H1 & H2 & H3). unfold valid_range. rewrite O, !(proj2 (Z.ltb_ge _ _)) by lia. done. Qed.

Lemma block_read_ok offset size s :
  fair s -> in_image (disk_image s) offset size ->
  exists s', nemu_block_read offset size s = (Ret (Some (copy_out (content (disk_image s)) offset (Z.to_nat size))), s') /\
    became s (memory s) (disk_image s) s'.
Proof.
  intros F V. unfold nemu_block_read. rewrite (bind_ret get _ s s s eq_refl). cbv zeta.
  rewrite (in_image_valid _ _ _ V). cbn [negb]. destruct V as (_ & H1 & H2 & H3).
  destruct (Z.eqb_spec size 0) as [->|]; [exists s; split; [done|by apply became_refl]|].
  unfold content. destruct (image_data (disk_image s)); [exists s; split; [done|by apply became_refl]|].
  apply (file_read_ok _ offset size 0 s F); [lia|]. unfold transfer_fuel. lia.
Qed.

Lemma block_write_ok offset bytes s :
  fair s -> in_image (disk_image s) offset (Z.of_nat (length bytes)) -> image_mode (disk_image s) <> NEMU_BLOCK_READONLY ->
  exists s', nemu_block_write offset bytes s = (Ret true, s') /\
    became s (memory s) (set_content (copy_in (content (disk_image s)) offset bytes) (disk_image s)) s'.
Proof.
  intros F V R. unfold nemu_block_write. rewrite (bind_ret get _ s s s eq_refl). cbv zeta.
  rewrite (in_image_valid _ _ _ V), bool_decide_eq_false_2 by done. cbn [negb]. unfold content, set_content.
  destruct (Z.eqb_spec (Z.of_nat (length bytes)) 0) as [E|].
  { destruct bytes; [|done]. exists s. split; [done|]. split; [done| |done..].
    by destruct (disk_image s) as [? ? ? [d|] ?]. }
  destruct (image_data (disk_image s)) as [d|] eqn:D.
  - eexists. split; [done|]. split; [done| |done..]. fields. done.
  - destruct (file_write_ok (transfer_fuel (Z.of_nat (length bytes)) s) offset bytes s F) as (s' & E & B).
    { unfold transfer_fuel. lia. }
    exists s'. split; [done|]. destruct B as [? I ? ?]. split; [done| |done..]. rewrite I. by destruct (disk_image s).
Qed.

Lemma content_set c i : content (set_content c i) = c.
Proof. unfold content, set_content. destruct (image_data i) eqn:D; fields; by rewrite ?D. Qed.

Lemma set_content_set c c' i : set_content c' (set_content c i) = set_content c' i.
Proof. unfold set_content. destruct (image_data i) eqn:D; fields; rewrite ?D; by destruct i. Qed.

Lemma set_content_same i : set_content (content i) i = i.
Proof. unfold content, set_content. destruct i as [? ? ? [d|] f]; done. Qed.

Lemma set_content_none off m a i : set_content (copy_in (content i) off (copy_out m a (Z.to_nat 0))) i = i.
Proof. apply set_content_same. Qed.

Lemma set_content_fields c i : image_open (set_content c i) = image_open i /\ image_mode (set_content c i) = image_mode i /\
  image_size (set_content c i) = image_size i.
Proof. unfold set_content. by destruct (image_data i). Qed.

Lemma in_image_set c i offset size : in_image i offset size -> in_image (set_content c i) offset size.
Proof. unfold in_image. destruct (set_content_fields c i) as (-> & _ & ->). done. Qed.

(** ** Spans *)

Definition interval (f : Z -> bool) : Prop := forall x y z, x <= y <= z -> f x = true -> f z = true -> f y = true.

Lemma span_part f a len d l :
  interval f -> 0 <= a -> a + len <= 2 ^ 64 -> 0 <= d -> 0 < l -> d + l <= len ->
  span_in f a len = true -> span_in f (a + d) l = true.
Proof.
  intros I A E D L Le S. unfold span_in, paddr_add in *. apply andb_prop in S as [S1 S2].
  rewrite wrap_small in S2 by (lia || (unfold fits; lia)). rewrite wrap_small by (lia || (unfold fits; lia)).
  rewrite (I a (a + d) (a + (len - 1))), (I a (a + d + (l - 1)) (a + (len - 1))) by (done || lia). done.
Qed.

Lemma regions_interval :
  interval in_pmem /\ interval in_rom /\ interval in_sram /\ interval in_mrom /\ interval in_flash /\ interval in_sdram.
Proof.
  unfold interval, in_pmem, in_rom, in_sram, in_mrom, in_flash, in_sdram, in_region.
  split_and!; intros x y z H; try lia; [destruct CONFIG_RAPTOR_MEMORY_MAP|destruct CONFIG_RAPTOR_PMEM_2G]; done || lia.
Qed.

Lemma no_overflow a len : 0 <= a -> 0 < len -> a + len <= 2 ^ 64 -> (paddr_add a (len - 1) <? a) = false.
Proof. intros. unfold paddr_add. rewrite wrap_small by (lia || (unfold fits; lia)). apply Z.ltb_ge. lia. Qed.

Lemma writable_part a len d l :
  0 <= a -> a + len <= 2 ^ 64 -> 0 <= d -> 0 < l -> d + l <= len -> writable a len = true -> writable (a + d) l = true.
Proof.
  intros A E D L Le W. destruct regions_interval as (I1 & _ & I2 & _ & _ & I3).
  apply andb_prop in W as [W1 W2]. apply Z.leb_le in W1. unfold writable, paddr_is_ram_span in *.
  rewrite (proj2 (Z.leb_le _ _)) by lia. rewrite (proj2 (Z.leb_gt _ _)) in W2 by lia. rewrite (proj2 (Z.leb_gt _ _)) by lia.
  rewrite no_overflow in W2 by lia. rewrite no_overflow by lia. cbn [andb]. rewrite !orb_true_iff in *.
  pose proof (span_part in_pmem a len d l I1 A E D L Le). pose proof (span_part in_sram a len d l I2 A E D L Le).
  pose proof (span_part in_sdram a len d l I3 A E D L Le). tauto.
Qed.

Lemma readable_part a len d l :
  0 <= a -> a + len <= 2 ^ 64 -> 0 <= d -> 0 < l -> d + l <= len -> readable a len = true -> readable (a + d) l = true.
Proof.
  intros A E D L Le W. destruct regions_interval as (I1 & I2 & I3 & I4 & I5 & I6).
  apply andb_prop in W as [W1 W2]. apply Z.leb_le in W1. assert (Hi : INT32_MAX < 2 ^ 32) by done.
  unfold readable, paddr_is_memory_span in *. rewrite (wrap_small 32 len) in W2 by (lia || (unfold fits; lia)).
  rewrite (proj2 (Z.leb_le _ _)) by lia. rewrite (wrap_small 32 l) by (lia || (unfold fits; lia)).
  rewrite (proj2 (Z.eqb_neq _ _)) in W2 by lia. rewrite (proj2 (Z.eqb_neq _ _)) by lia.
  rewrite no_overflow in W2 by lia. rewrite no_overflow by lia. cbn [andb]. rewrite !orb_true_iff in *.
  pose proof (span_part in_pmem a len d l I1 A E D L Le). pose proof (span_part in_rom a len d l I2 A E D L Le).
  pose proof (span_part in_sram a len d l I3 A E D L Le). pose proof (span_part in_mrom a len d l I4 A E D L Le).
  pose proof (span_part in_flash a len d l I5 A E D L Le). pose proof (span_part in_sdram a len d l I6 A E D L Le). tauto.
Qed.

(** ** Transfers *)

(** A buffer of the guest in the memory it can be used in. *)
Definition buffer (ok : Z -> Z -> bool) (a n : Z) : Prop :=
  0 <= a /\ 0 <= n <= VIRTIO_BLK_MAX_SIZE /\ a + n <= 2 ^ 64 /\ (0 < n -> ok a n = true).

Lemma buffer_part a n d l :
  buffer writable a n -> 0 <= d -> 0 < l -> d + l <= n -> wrap 64 (a + d) = a + d /\ writable (a + d) l = true.
Proof.
  intros (A & N & E & W) D L Le. split; [|apply (writable_part a n); [lia..|apply W; lia]]. apply wrap_small; [done|]. unfold fits. lia.
Qed.

Lemma buffer_part_read a n d l :
  buffer readable a n -> 0 <= d -> 0 < l -> d + l <= n -> wrap 64 (a + d) = a + d /\ readable (a + d) l = true.
Proof.
  intros (A & N & E & W) D L Le. split; [|apply (readable_part a n); [lia..|apply W; lia]]. apply wrap_small; [done|]. unfold fits. lia.
Qed.

Lemma chunk_range n done : done < n ->
  let chunk := if n - done <? TRANSFER_BUFFER then n - done else TRANSFER_BUFFER in
  0 < chunk /\ done + chunk <= n /\ (chunk = n - done \/ chunk = 65536).
Proof. unfold TRANSFER_BUFFER. intros H. cbv zeta. destruct (Z.ltb_spec (n - done) 65536); lia. Qed.

Lemma in_image_part i off size d l : in_image i off size -> 0 <= d -> 0 <= l -> d + l <= size -> in_image i (off + d) l.
Proof. intros (O & A & B & C) D L Le. split_and!; [done|lia..]. Qed.

Lemma copy_both m a c off n k : 0 <= k <= n ->
  copy_in (copy_in m a (copy_out c off (Z.to_nat k))) (a + k) (copy_out c (off + k) (Z.to_nat (n - k))) =
  copy_in m a (copy_out c off (Z.to_nat n)).
Proof.
  intros H. replace (Z.to_nat n) with (Z.to_nat k + Z.to_nat (n - k))%nat by lia.
  rewrite copy_out_app, copy_in_app, copy_out_length. rewrite Z2Nat.id by lia. done.
Qed.

Lemma loop_in fuel a n done off used s :
  fair s -> buffer writable a n -> 0 <= done <= n -> n - done <= 65536 * Z.of_nat fuel ->
  in_image (disk_image s) off (n - done) -> 0 <= used /\ used + (n - done) < 2 ^ 32 ->
  exists s', transfer_loop fuel VIRTIO_BLK_T_IN a n done off used s = (Ret (true, off + (n - done), used + (n - done)), s') /\
    became s (copy_in (memory s) (a + done) (copy_out (content (disk_image s)) off (Z.to_nat (n - done)))) (disk_image s) s'.
Proof.
  revert done off used s. induction fuel as [|fuel IH]; intros done off used s F Bf D Fu V U; cbn [transfer_loop].
  - rewrite (proj2 (Z.leb_le _ _)) by lia. replace (n - done) with 0 by lia. rewrite !Z.add_0_r. exists s.
    split; [done|by apply became_refl].
  - destruct (Z.leb_spec n done).
    { replace (n - done) with 0 by lia. rewrite !Z.add_0_r. exists s. split; [done|by apply became_refl]. }
    pose proof (chunk_range n done ltac:(lia)) as Hc. cbv zeta in *. set (chunk := if n - done <? TRANSFER_BUFFER then _ else _) in *.
    clearbody chunk. destruct Hc as (C1 & C2 & C3). unfold transfer_chunk. change (VIRTIO_BLK_T_IN =? VIRTIO_BLK_T_OUT) with false.
    change (VIRTIO_BLK_T_IN =? VIRTIO_BLK_T_IN) with true. change (VIRTIO_BLK_T_IN =? VIRTIO_BLK_T_GET_ID) with false. cbn iota.
    destruct (buffer_part a n done chunk Bf ltac:(lia) C1 C2) as [Ea Wa].
    destruct (block_read_ok off chunk s F) as (s1 & E1 & B1).
    { destruct V as (O & V1 & V2 & V3). split_and!; [done|lia..]. }
    destruct (guest_write_ok (a + done) (copy_out (content (disk_image s)) off (Z.to_nat chunk)) s1 (bc_fair _ _ _ _ B1)) as (s2 & E2 & B2).
    { right. rewrite copy_out_length, Z2Nat.id, Ea by lia. done. }
    pose proof B1 as [M1 I1 K1 _]. rewrite M1, I1, Ea in B2. pose proof (became_trans _ _ _ _ _ _ _ B1 B2) as B. clear B1 B2 M1 I1 K1.
    destruct (IH (done + chunk) (off + chunk) (used + chunk) s2 (bc_fair _ _ _ _ B) Bf ltac:(lia) ltac:(lia)) as (s3 & E3 & B3).
    { rewrite (bc_image _ _ _ _ B). apply (in_image_part _ off (n - done)); [done|lia..]. }
    { lia. }
    exists s3. split.
    + rewrite (bind_ret _ _ s (true, chunk) s2).
      * cbn [negb]. rewrite (wrap_small 32) by (lia || (unfold fits; lia)). rewrite E3. do 3 f_equal; [f_equal|]; lia.
      * rewrite (bind_ret _ _ _ _ _ E1). by rewrite (bind_ret _ _ _ _ _ E2).
    + rewrite (bc_mem _ _ _ _ B), (bc_image _ _ _ _ B) in B3. pose proof (became_trans _ _ _ _ _ _ _ B B3) as B4.
      rewrite Z.add_assoc, Z.sub_add_distr, copy_both in B4 by lia. done.
Qed.

Lemma loop_out fuel a n done off used s :
  fair s -> buffer readable a n -> 0 <= done <= n -> n - done <= 65536 * Z.of_nat fuel ->
  in_image (disk_image s) off (n - done) -> image_mode (disk_image s) <> NEMU_BLOCK_READONLY -> fits 32 used ->
  exists s', transfer_loop fuel VIRTIO_BLK_T_OUT a n done off used s = (Ret (true, off + (n - done), used), s') /\
    became s (memory s)
      (set_content (copy_in (content (disk_image s)) off (copy_out (memory s) (a + done) (Z.to_nat (n - done)))) (disk_image s)) s'.
Proof.
  revert done off s. induction fuel as [|fuel IH]; intros done off s F Bf D Fu V Md U; cbn [transfer_loop].
  - rewrite (proj2 (Z.leb_le _ _)) by lia. replace (n - done) with 0 by lia. rewrite !Z.add_0_r. exists s.
    split; [done|]. rewrite set_content_none. by apply became_refl.
  - destruct (Z.leb_spec n done).
    { replace (n - done) with 0 by lia. rewrite !Z.add_0_r. exists s. split; [done|].
      rewrite set_content_none. by apply became_refl. }
    pose proof (chunk_range n done ltac:(lia)) as Hc. cbv zeta in *. set (chunk := if n - done <? TRANSFER_BUFFER then _ else _) in *.
    clearbody chunk. destruct Hc as (C1 & C2 & C3). unfold transfer_chunk. change (VIRTIO_BLK_T_OUT =? VIRTIO_BLK_T_OUT) with true.
    change (VIRTIO_BLK_T_OUT =? VIRTIO_BLK_T_GET_ID) with false. cbn iota.
    destruct (buffer_part_read a n done chunk Bf ltac:(lia) C1 C2) as [Ea Wa].
    destruct (guest_read_ok (a + done) chunk s F ltac:(lia)) as (s1 & E1 & B1).
    rewrite Ea, Wa, orb_true_r in E1. pose proof B1 as [M1 I1 K1 F1]. set (bytes := copy_out (memory s) (a + done) (Z.to_nat chunk)) in *.
    destruct (block_write_ok off bytes s1 F1) as (s2 & E2 & B2).
    { unfold bytes. rewrite copy_out_length, Z2Nat.id, I1 by lia. destruct V as (O & V1 & V2 & V3). split_and!; [done|lia..]. }
    { by rewrite I1. }
    rewrite M1, I1 in B2. pose proof (became_trans _ _ _ _ _ _ _ B1 B2) as B. clear B1 B2 M1 I1 K1 F1.
    destruct (IH (done + chunk) (off + chunk) s2 (bc_fair _ _ _ _ B) Bf ltac:(lia) ltac:(lia)) as (s3 & E3 & B3).
    { rewrite (bc_image _ _ _ _ B). apply in_image_set, (in_image_part _ off (n - done)); [done|lia..]. }
    { rewrite (bc_image _ _ _ _ B). by destruct (set_content_fields (copy_in (content (disk_image s)) off bytes) (disk_image s)) as (_ & -> & _). }
    { done. }
    exists s3. split.
    + rewrite (bind_ret _ _ s (true, 0) s2).
      * cbn [negb]. rewrite Z.add_0_r, (wrap_small 32) by done. rewrite E3. do 3 f_equal. f_equal. lia.
      * rewrite (bind_ret _ _ _ _ _ E1). by rewrite (bind_ret _ _ _ _ _ E2).
    + rewrite (bc_mem _ _ _ _ B), (bc_image _ _ _ _ B), content_set, set_content_set in B3.
      pose proof (became_trans _ _ _ _ _ _ _ B B3) as B4. unfold bytes in B4.
      rewrite Z.add_assoc, Z.sub_add_distr, copy_both in B4 by lia. done.
Qed.

Lemma transfer_bounds type i off n :
  type <> VIRTIO_BLK_T_GET_ID -> in_image i off n -> n <= VIRTIO_BLK_MAX_SIZE ->
  (VIRTIO_BLK_MAX_SIZE <? n) || (negb (type =? VIRTIO_BLK_T_GET_ID) && ((image_size i <? off) || (image_size i - off <? n))) = false.
Proof.
  intros T (O & V1 & V2 & V3) N. rewrite (proj2 (Z.ltb_ge _ _)) by done. rewrite (proj2 (Z.eqb_neq _ _)) by done.
  rewrite !(proj2 (Z.ltb_ge _ _)) by lia. done.
Qed.

Lemma transfer_in a n off used s :
  fair s -> buffer writable a n -> in_image (disk_image s) off n -> 0 <= used /\ used + n < 2 ^ 32 ->
  exists s', transfer_data VIRTIO_BLK_T_IN a n off used s = (Ret (true, off + n, used + n), s') /\
    became s (copy_in (memory s) a (copy_out (content (disk_image s)) off (Z.to_nat n))) (disk_image s) s'.
Proof.
  intros F Bf V U. unfold transfer_data. rewrite (bind_ret get _ s s s eq_refl). cbv zeta.
  destruct Bf as (A & N & E & W). rewrite (transfer_bounds _ (disk_image s) off n) by (done || lia). unfold VIRTIO_BLK_MAX_SIZE in N.
  destruct (loop_in 16 a n 0 off used s F (conj A (conj N (conj E W))) ltac:(lia) ltac:(lia)) as (s' & El & B); rewrite ?Z.sub_0_r; [done..|].
  rewrite ?Z.sub_0_r, ?Z.add_0_r in *. by exists s'.
Qed.

Lemma transfer_out a n off used s :
  fair s -> buffer readable a n -> in_image (disk_image s) off n -> image_mode (disk_image s) <> NEMU_BLOCK_READONLY -> fits 32 used ->
  exists s', transfer_data VIRTIO_BLK_T_OUT a n off used s = (Ret (true, off + n, used), s') /\
    became s (memory s) (set_content (copy_in (content (disk_image s)) off (copy_out (memory s) a (Z.to_nat n))) (disk_image s)) s'.
Proof.
  intros F Bf V Md U. unfold transfer_data. rewrite (bind_ret get _ s s s eq_refl). cbv zeta.
  destruct Bf as (A & N & E & W). rewrite (transfer_bounds _ (disk_image s) off n) by (done || lia). unfold VIRTIO_BLK_MAX_SIZE in N.
  destruct (loop_out 16 a n 0 off used s F (conj A (conj N (conj E W))) ltac:(lia) ltac:(lia)) as (s' & El & B); rewrite ?Z.sub_0_r; [done..|].
  rewrite ?Z.sub_0_r, ?Z.add_0_r in *. by exists s'.
Qed.

(** ** Chains of descriptors *)

Definition has (flags flag : Z) : bool := nz (flags .& flag).

(** A descriptor of the table, in a memory. *)
Definition desc_in (s : disk) (c : gmap Z Z) (idx : Z) (d : virtq_desc_t) : Prop :=
  0 <= idx < queue_limit s /\ fits 64 (desc_addr (blk s) + idx * 16) /\ readable (desc_addr (blk s) + idx * 16) 16 = true /\
  parse_desc (copy_out c (desc_addr (blk s) + idx * 16) 16) = d.

(** Buffers that are linked from [idx], to be written or read by the device, and
    the status byte behind them. *)
Fixpoint chain (s : disk) (c : gmap Z Z) (w : bool) (idx : Z) (segs : list (Z * Z)) (st : Z) : Prop :=
  exists d, desc_in s c idx d /\
  match segs with
  | [] => has (desc_flags d) VRING_DESC_F_NEXT = false /\ has (desc_flags d) VRING_DESC_F_WRITE = true /\ 1 <= desc_len d /\ desc_base d = st
  | (a, n) :: segs =>
      has (desc_flags d) VRING_DESC_F_NEXT = true /\ has (desc_flags d) VRING_DESC_F_WRITE = w /\ desc_base d = a /\ desc_len d = n /\
      chain s c w (desc_next d) segs st
  end.

(** Memory that does not touch the table. *)
Definition off_table (s : disk) (a n : Z) : Prop := a + n <= desc_addr (blk s) \/ desc_addr (blk s) + 16 * queue_limit s <= a.

Lemma desc_in_ext s c c' idx d :
  desc_in s c idx d ->
  (forall b, desc_addr (blk s) <= b < desc_addr (blk s) + 16 * queue_limit s -> aget c' b = aget c b) -> desc_in s c' idx d.
Proof.
  intros (I & Ft & R & P) H. split; [done|]. split; [done|]. split; [done|]. rewrite <-P. f_equal. apply copy_out_ext. intros b Hb. apply H. lia.
Qed.

Lemma queue_chain_ext s c c' w idx segs st :
  chain s c w idx segs st ->
  (forall b, desc_addr (blk s) <= b < desc_addr (blk s) + 16 * queue_limit s -> aget c' b = aget c b) -> chain s c' w idx segs st.
Proof.
  intros H E. revert idx H. induction segs as [|[a n] segs IH]; intros idx (d & D & H); exists d; (split; [by eapply desc_in_ext|]).
  - done.
  - destruct H as (H1 & H2 & H3 & H4 & H5). split_and!; auto.
Qed.

Lemma chain_blk s s' c w idx segs st : blk s' = blk s -> chain s c w idx segs st -> chain s' c w idx segs st.
Proof.
  intros E. revert idx. induction segs as [|[a n] segs IH]; intros idx (d & D & H); exists d;
    (split; [by unfold desc_in, queue_limit in *; rewrite E|]); [done|].
  destruct H as (H1 & H2 & H3 & H4 & H5). split_and!; auto.
Qed.

Lemma read_desc_ok s c idx d : fair s -> memory s = c -> desc_in s c idx d ->
  exists s', read_desc idx s = (Ret (Some d), s') /\ became s (memory s) (disk_image s) s'.
Proof.
  intros F <- (I & Ft & R & P). unfold read_desc. rewrite (bind_ret get _ s s s eq_refl). rewrite (proj2 (Z.leb_gt _ _)) by lia.
  destruct (guest_read_ok (desc_addr (blk s) + idx * 16) 16 s F ltac:(done)) as (s' & E & B). exists s'. split; [|done].
  rewrite (bind_ret _ _ _ _ _ E). rewrite wrap_small, R, orb_true_r by done. cbn [option_map]. change (Z.to_nat 16) with 16%nat.
  by rewrite P.
Qed.

Fixpoint total (segs : list (Z * Z)) : Z := match segs with [] => 0 | (_, n) :: segs => n + total segs end.
(** The bytes of the buffers in order, and the buffers filled from the image. *)
Fixpoint gather (c : gmap Z Z) (segs : list (Z * Z)) : list Z :=
  match segs with [] => [] | (a, n) :: segs => copy_out c a (Z.to_nat n) ++ gather c segs end.
Fixpoint scatter (c : gmap Z Z) (segs : list (Z * Z)) (image : gmap Z Z) (off : Z) : gmap Z Z :=
  match segs with [] => c | (a, n) :: segs => scatter (copy_in c a (copy_out image off (Z.to_nat n))) segs image (off + n) end.

Definition buffers (ok : Z -> Z -> bool) (s : disk) (segs : list (Z * Z)) : Prop :=
  Forall (fun '(a, n) => buffer ok a n /\ off_table s a n) segs.

Lemma total_nonneg ok s segs : buffers ok s segs -> 0 <= total segs.
Proof. induction 1 as [|[a n] segs [(_ & N & _) _] _ IH]; cbn [total]; lia. Qed.

Lemma buffers_blk ok s s' segs : blk s' = blk s -> buffers ok s segs -> buffers ok s' segs.
Proof. intros E H. eapply Forall_impl; [exact H|]. intros [a n] [B T]. split; [done|]. unfold off_table, queue_limit in *. by rewrite E. Qed.

Lemma gather_length ok s c segs : buffers ok s segs -> Z.of_nat (length (gather c segs)) = total segs.
Proof.
  induction 1 as [|[a n] segs [(_ & N & _) _] _ IH]; [done|]. cbn [gather total]. rewrite length_app, copy_out_length. lia.
Qed.

(** One step of the loop over a data descriptor and over the status descriptor. *)
Lemma chain_loop_data guard type s c w idx a n segs st off used :
  fair s -> memory s = c -> chain s c w idx ((a, n) :: segs) st -> supported type = true -> w = negb (type =? VIRTIO_BLK_T_OUT) ->
  exists s1 next, became s (memory s) (disk_image s) s1 /\ chain s c w next segs st /\
    chain_loop (S guard) type idx true off used s =
      ('(ok, off, used) ← transfer_data type a n off used; chain_loop guard type next ok off used) s1.
Proof.
  intros F M (d & D & H1 & H2 & <- & <- & Hc) Sp ->. destruct (read_desc_ok s c idx d F M D) as (s1 & E & B).
  exists s1, (desc_next d). split; [done|]. split; [done|]. cbn [chain_loop]. rewrite (bind_ret _ _ _ _ _ E). cbv zeta.
  unfold has in *. rewrite H1, H2, Sp. cbn [negb andb]. by rewrite eqb_reflx.
Qed.

Lemma chain_loop_status guard type s c w idx st off used :
  fair s -> memory s = c -> chain s c w idx [] st ->
  exists s1, became s (memory s) (disk_image s) s1 /\ chain_loop (S guard) type idx true off used s = (Ret (true, used, Some st), s1).
Proof.
  intros F M (d & D & H1 & H2 & H3 & <-). destruct (read_desc_ok s c idx d F M D) as (s1 & E & B). exists s1. split; [done|].
  cbn [chain_loop]. rewrite (bind_ret _ _ _ _ _ E). cbv zeta. unfold has in *. rewrite H1, H2, (proj2 (Z.leb_le _ _)) by done. done.
Qed.

Lemma chain_in guard segs idx st off used s :
  fair s -> chain s (memory s) true idx segs st -> (length segs < guard)%nat -> buffers writable s segs ->
  in_image (disk_image s) off (total segs) -> 0 <= used /\ used + total segs < 2 ^ 32 ->
  exists s', chain_loop guard VIRTIO_BLK_T_IN idx true off used s = (Ret (true, used + total segs, Some st), s') /\
    became s (scatter (memory s) segs (content (disk_image s)) off) (disk_image s) s'.
Proof.
  revert guard idx off used s. induction segs as [|[a n] segs IH]; intros guard idx off used s F C G Bf V U;
    (destruct guard as [|guard]; [cbn in G; lia|]); cbn [total scatter length] in *.
  - destruct (chain_loop_status guard VIRTIO_BLK_T_IN s _ _ idx st off used F eq_refl C) as (s' & B & ->). exists s'. by rewrite Z.add_0_r.
  - apply Forall_cons in Bf as [[Ba To] Bf]. pose proof (total_nonneg _ _ _ Bf) as T0.
    destruct (chain_loop_data guard VIRTIO_BLK_T_IN s _ _ idx a n segs st off used F eq_refl C eq_refl eq_refl) as (s1 & next & B1 & C1 & ->).
    pose proof B1 as [M1 I1 K1 F1]. pose proof Ba as (A0 & N0 & _).
    destruct (transfer_in a n off used s1 F1 Ba) as (s2 & E2 & B2).
    { rewrite I1. destruct V as (O & V1 & V2 & V3). split_and!; [done|lia..]. }
    { lia. }
    rewrite M1, I1 in B2. pose proof (became_trans _ _ _ _ _ _ _ B1 B2) as B. rewrite (bind_ret _ _ _ _ _ E2).
    pose proof B as [M2 I2 K2 F2].
    destruct (IH guard next (off + n) (used + n) s2 F2) as (s3 & E3 & B3).
    + rewrite M2. apply (chain_blk s); [done|]. apply (queue_chain_ext _ (memory s)); [done|]. intros b Hb. apply copy_in_other.
      rewrite copy_out_length. destruct To; lia.
    + lia.
    + by apply (buffers_blk _ s).
    + rewrite I2. apply (in_image_part _ off (n + total segs)); [done|lia..].
    + lia.
    + exists s3. rewrite E3. split; [do 3 f_equal; f_equal; lia|]. rewrite M2, I2 in B3. by eapply became_trans.
Qed.

Lemma chain_out guard segs idx st off used s :
  fair s -> chain s (memory s) false idx segs st -> (length segs < guard)%nat -> buffers readable s segs ->
  in_image (disk_image s) off (total segs) -> image_mode (disk_image s) <> NEMU_BLOCK_READONLY -> fits 32 used ->
  exists s', chain_loop guard VIRTIO_BLK_T_OUT idx true off used s = (Ret (true, used, Some st), s') /\
    became s (memory s) (set_content (copy_in (content (disk_image s)) off (gather (memory s) segs)) (disk_image s)) s'.
Proof.
  revert guard idx off s. induction segs as [|[a n] segs IH]; intros guard idx off s F C G Bf V Md U;
    (destruct guard as [|guard]; [cbn in G; lia|]); cbn [total gather length] in *.
  - destruct (chain_loop_status guard VIRTIO_BLK_T_OUT s _ _ idx st off used F eq_refl C) as (s' & B & ->). exists s'.
    split; [done|]. cbn [copy_in]. by rewrite set_content_same.
  - apply Forall_cons in Bf as [[Ba To] Bf]. pose proof (total_nonneg _ _ _ Bf) as T0.
    destruct (chain_loop_data guard VIRTIO_BLK_T_OUT s _ _ idx a n segs st off used F eq_refl C eq_refl eq_refl) as (s1 & next & B1 & C1 & ->).
    pose proof B1 as [M1 I1 K1 F1]. pose proof Ba as (A0 & N0 & _).
    destruct (transfer_out a n off used s1 F1 Ba) as (s2 & E2 & B2).
    { rewrite I1. destruct V as (O & V1 & V2 & V3). split_and!; [done|lia..]. }
    { by rewrite I1. }
    { done. }
    rewrite M1, I1 in B2. pose proof (became_trans _ _ _ _ _ _ _ B1 B2) as B. rewrite (bind_ret _ _ _ _ _ E2).
    pose proof B as [M2 I2 K2 F2]. set (c1 := copy_in (content (disk_image s)) off (copy_out (memory s) a (Z.to_nat n))) in *.
    destruct (set_content_fields c1 (disk_image s)) as (_ & Em & _).
    destruct (IH guard next (off + n) s2 F2) as (s3 & E3 & B3).
    + rewrite M2. by apply (chain_blk s).
    + lia.
    + by apply (buffers_blk _ s).
    + rewrite I2. apply in_image_set, (in_image_part _ off (n + total segs)); [done|lia..].
    + by rewrite I2, Em.
    + done.
    + exists s3. rewrite E3. split; [done|]. rewrite M2, I2, content_set, set_content_set in B3. unfold c1 in B3.
      rewrite copy_in_app, copy_out_length, Z2Nat.id by lia. by eapply became_trans.
Qed.

(** ** The used ring *)

Lemma writable_readable a n : 0 < n -> writable a n = true -> readable a n = true.
Proof.
  intros N W. apply andb_prop in W as [W1 W2]. apply Z.leb_le in W1. unfold readable, paddr_is_memory_span, paddr_is_ram_span in *.
  assert (Hi : INT32_MAX < 2 ^ 32) by done. rewrite (wrap_small 32 n) by (lia || (unfold fits; lia)).
  rewrite (proj2 (Z.leb_le _ _)) by lia. rewrite (proj2 (Z.leb_gt _ _)) in W2 by lia. rewrite (proj2 (Z.eqb_neq _ _)) by lia.
  destruct (_ <? a); [done|]. cbn [andb]. rewrite !orb_true_iff in *. destruct W2 as [[W2|W2]|W2]; auto 7.
Qed.

Lemma le_le_bytes n v : le (le_bytes n v) = wrap (8 * Z.of_nat n) v.
Proof.
  revert v. induction n as [|n IH]; intros v; [unfold wrap; by rewrite Z.land_0_r|]. cbn [le_bytes le]. rewrite IH.
  replace (8 * Z.of_nat (S n)) with (8 * Z.of_nat n + 8) by lia. bits.
Qed.

Lemma le_bytes_length n v : length (le_bytes n v) = n.
Proof. revert v. induction n as [|n IH]; intros v; [done|]. cbn [le_bytes length]. by rewrite IH. Qed.

Definition used_idx (s : disk) (c : gmap Z Z) : Z := le (copy_out c (device_addr (blk s) + 2) 2).
Definition used_slot (s : disk) (c : gmap Z Z) : Z := device_addr (blk s) + 4 + (used_idx s c mod queue_limit s) * 8.
(** Memory with a completed request. *)
Definition with_used (s : disk) (head len : Z) (c : gmap Z Z) : gmap Z Z :=
  copy_in (copy_in (copy_in c (used_slot s c) (le_bytes 4 head)) (used_slot s c + 4) (le_bytes 4 len))
    (device_addr (blk s) + 2) (le_bytes 2 (wrap 16 (used_idx s c + 1))).

Record ring_ready (s : disk) : Prop := {
  rr_queue : 0 <= queue_num (blk s) <= 256;
  rr_addr : 0 <= device_addr (blk s) /\ device_addr (blk s) + 4 + 8 * queue_limit s <= 2 ^ 64;
  rr_ram : writable (device_addr (blk s) + 2) (2 + 8 * queue_limit s) = true;
}.

Lemma limit_range s : 0 <= queue_num (blk s) <= 256 -> 0 < queue_limit s <= 256.
Proof. intros H. unfold queue_limit, VIRTIO_QUEUE_NUM_MAX. destruct (nz _) eqn:E; [|lia]. apply nz_true in E. lia. Qed.

Lemma ring_part s d l : ring_ready s -> 0 <= d -> 0 < l -> d + l <= 2 + 8 * queue_limit s ->
  wrap 64 (device_addr (blk s) + 2 + d) = device_addr (blk s) + 2 + d /\ writable (device_addr (blk s) + 2 + d) l = true.
Proof.
  intros [Q A W] D L Le. pose proof (limit_range s Q). split; [apply wrap_small; [done|]; unfold fits; lia|].
  apply (writable_part _ (2 + 8 * queue_limit s)); [lia..|done].
Qed.

Lemma slot_part s c l d : ring_ready s -> 0 <= d -> 0 < l -> d + l <= 8 ->
  wrap 64 (used_slot s c + d) = used_slot s c + d /\ writable (used_slot s c + d) l = true.
Proof.
  intros R D L Le. pose proof (limit_range s (rr_queue s R)) as Q. unfold used_slot.
  pose proof (Z.mod_pos_bound (used_idx s c) (queue_limit s) ltac:(lia)) as B. set (k := used_idx s c mod queue_limit s) in *.
  replace (device_addr (blk s) + 4 + k * 8 + d) with (device_addr (blk s) + 2 + (2 + k * 8 + d)) by lia.
  apply ring_part; [done|lia..].
Qed.

Lemma used_ok head len s :
  fair s -> ring_ready s ->
  exists s', write_used_elem head len s = (Ret true, s') /\ became s (with_used s head len (memory s)) (disk_image s) s'.
Proof.
  intros F R. pose proof (limit_range s (rr_queue s R)) as Q. unfold write_used_elem. rewrite (bind_ret get _ s s s eq_refl). cbv zeta.
  rewrite (wrap_small 16 (queue_limit s)) by (done || (unfold fits; lia)).
  destruct (ring_part s 0 2 R ltac:(done) ltac:(done) ltac:(lia)) as [Ea Wa]. rewrite Z.add_0_r in *.
  destruct (guest_read_ok (device_addr (blk s) + 2) 2 s F ltac:(done)) as (s1 & E1 & B1).
  rewrite Ea, (writable_readable _ 2 ltac:(done) Wa), orb_true_r in E1. rewrite (bind_ret _ _ _ _ _ E1).
  change (Z.to_nat 2) with 2%nat. fold (used_idx s (memory s)). fold (used_slot s (memory s)).
  pose proof (slot_part s (memory s) 4 0 R ltac:(done) ltac:(done) ltac:(done)) as [E0 W0]. rewrite Z.add_0_r in E0, W0.
  pose proof (slot_part s (memory s) 4 4 R ltac:(done) ltac:(done) ltac:(done)) as [E4 W4].
  pose proof B1 as [M1 I1 K1 F1].
  destruct (guest_write_ok (used_slot s (memory s)) (le_bytes 4 head) s1 F1) as (s2 & E2 & B2).
  { right. by rewrite le_bytes_length, E0. }
  rewrite M1, I1, E0 in B2. pose proof (became_trans _ _ _ _ _ _ _ B1 B2) as B3. pose proof B3 as [M3 I3 K3 F3].
  rewrite (bind_ret _ _ _ _ _ E2). cbn [negb].
  destruct (guest_write_ok (used_slot s (memory s) + 4) (le_bytes 4 len) s2 F3) as (s4 & E5 & B4).
  { right. by rewrite le_bytes_length, E4. }
  rewrite M3, I3, E4 in B4. pose proof (became_trans _ _ _ _ _ _ _ B3 B4) as B5. pose proof B5 as [M5 I5 K5 F5].
  rewrite (bind_ret _ _ _ _ _ E5). cbn [negb].
  destruct (guest_write_ok (device_addr (blk s) + 2) (le_bytes 2 (wrap 16 (used_idx s (memory s) + 1))) s4 F5) as (s6 & E6 & B6).
  { right. by rewrite le_bytes_length, Ea. }
  rewrite M5, I5, Ea in B6. exists s6. split; [exact E6|]. exact (became_trans _ _ _ _ _ _ _ B5 B6).
Qed.

(** The state after a completed request. *)
Record finished (s : disk) (c : gmap Z Z) (i : NemuBlockImage) (s' : disk) : Prop := {
  fi_mem : memory s' = c;
  fi_image : disk_image s' = i;
  fi_blk : blk s' = (blk s) <| interrupt_status ::= fun v => v .| 1 |>;
  fi_fair : fair s';
}.

Lemma finish_ok head len s :
  fair s -> ring_ready s ->
  exists s', finish_request head len s = (Ret tt, s') /\ finished s (with_used s head len (memory s)) (disk_image s) s'.
Proof.
  intros F R. destruct (used_ok head len s F R) as (s1 & E & [M I K F1]). unfold finish_request. rewrite (bind_ret _ _ _ _ _ E).
  cbn [when]. unfold modify. eexists. split; [done|]. unfold plic_raise_block_irq. fields.
  pose proof (raise_confined VIRTIO_BLK_IRQ (disk_plic s1) (disk_hart s1)) as [_ Em]. destruct (plic_raise_irq _ _ _) as [p m'].
  cbn [snd] in Em. split; unfold memory; fields; [by rewrite Em|done|by rewrite K|exact F1].
Qed.

(** ** Requests *)

Definition header_in (s : disk) (c : gmap Z Z) (d0 : virtq_desc_t) (type sector : Z) : Prop :=
  16 <= desc_len d0 /\ has (desc_flags d0) VRING_DESC_F_NEXT = true /\ has (desc_flags d0) VRING_DESC_F_WRITE = false /\
  fits 64 (desc_base d0) /\ readable (desc_base d0) 16 = true /\ parse_req (copy_out c (desc_base d0) 16) = mk_req type sector.

(** What a driver has to put into memory: a header, buffers and a status byte, linked
    from the head, and a used ring. *)
Record request (s : disk) (head type sector : Z) (segs : list (Z * Z)) (st : Z) : Prop := {
  rq_chain : exists d0, desc_in s (memory s) head d0 /\ header_in s (memory s) d0 type sector /\
    chain s (memory s) (negb (type =? VIRTIO_BLK_T_OUT)) (desc_next d0) segs st;
  rq_buffers : buffers (if type =? VIRTIO_BLK_T_OUT then readable else writable) s segs;
  rq_short : Z.of_nat (length segs) < queue_limit s - 1;
  rq_sector : 0 <= sector /\ sector * 512 < image_size (disk_image s) < 2 ^ 64;
  rq_range : in_image (disk_image s) (sector * 512) (total segs);
  rq_total : total segs < 2 ^ 32 - 1;
  rq_status : fits 64 st /\ writable st 1 = true;
  rq_ring : ring_ready s;
}.

Lemma request_start_ok i type sector :
  0 <= sector -> sector * 512 < image_size i < 2 ^ 64 ->
  type = VIRTIO_BLK_T_IN \/ (type = VIRTIO_BLK_T_OUT /\ image_mode i <> NEMU_BLOCK_READONLY) ->
  request_start (mk_req type sector) i = (true, sector * 512).
Proof.
  intros S0 S1 T. unfold request_start, VIRTIO_SECTOR_SIZE. cbn [req_sector req_type]. cbv zeta.
  rewrite (wrap_small 64) by (done || (unfold fits; lia)). rewrite (proj2 (Z.ltb_lt _ _)) by lia.
  rewrite (proj2 (Z.leb_le _ _)) by (apply Z.div_le_lower_bound; lia). cbn [andb].
  destruct T as [-> | [-> Md]]; [done|]. by rewrite (bool_decide_eq_false_2 (image_mode i = NEMU_BLOCK_READONLY)).
Qed.

Lemma flush_ok type s :
  fair s -> image_open (disk_image s) = true ->
  exists s', request_flush type true true s = (Ret true, s') /\ became s (memory s) (disk_image s) s'.
Proof.
  intros F O. unfold request_flush. rewrite (bind_ret get _ s s s eq_refl). cbn [andb].
  destruct (_ || _); [|exists s; split; [done|by apply became_refl]].
  unfold nemu_block_flush. rewrite (bind_ret get _ s s s eq_refl), O. cbn [negb].
  case_bool_decide; [exists s; split; [done|by apply became_refl]|].
  apply flush_loop_ok; [done|]. unfold transfer_fuel. lia.
Qed.

(** The common part: a request whose transfers went well is completed with status 0. *)
Lemma process_ok s head type sector segs st used c i :
  request s head type sector segs st -> fair s ->
  type = VIRTIO_BLK_T_IN \/ (type = VIRTIO_BLK_T_OUT /\ image_mode (disk_image s) <> NEMU_BLOCK_READONLY) ->
  fits 32 (used + 1) -> image_open i = true ->
  (forall s1 next, became s (memory s) (disk_image s) s1 -> chain s1 (memory s1) (negb (type =? VIRTIO_BLK_T_OUT)) next segs st ->
    exists s2, chain_loop (Z.to_nat (queue_limit s - 1)) type next true (sector * 512) 0 s1 = (Ret (true, used, Some st), s2) /\
      became s1 c i s2) ->
  exists s', process_one head s = (Ret tt, s') /\ finished s (with_used s head (used + 1) (copy_in c st [0])) i s'.
Proof.
  intros Rq F T U O Hloop. pose proof Rq as [(d0 & D & (Hl & Hn & Hw & Fb & Rb & P) & C) Bf Sh Sc Rg Tl [Fs Ws] Rr].
  unfold process_one. destruct (read_desc_ok s (memory s) head d0 F eq_refl D) as (s1 & E1 & B1). rewrite (bind_ret _ _ _ _ _ E1).
  unfold has in *. rewrite Hn, Hw, (proj2 (Z.ltb_ge _ _)) by lia. cbn [negb orb].
  destruct (guest_read_ok (desc_base d0) 16 s1 (bc_fair _ _ _ _ B1) ltac:(done)) as (s2 & E2 & B2).
  pose proof B1 as [M1 I1 K1 _]. rewrite wrap_small, Rb, orb_true_r in E2 by done. rewrite (bind_ret _ _ _ _ _ E2).
  rewrite M1, I1 in B2. pose proof (became_trans _ _ _ _ _ _ _ B1 B2) as B. pose proof B as [M2 I2 K2 F2].
  rewrite M1. change (Z.to_nat 16) with 16%nat. rewrite P. rewrite (bind_ret get _ s2 s2 s2 eq_refl). cbn [req_type req_sector].
  rewrite I2, (request_start_ok _ _ _ (proj1 Sc) (proj2 Sc) T).
  assert (Lm : queue_limit s2 = queue_limit s) by (unfold queue_limit; by rewrite K2). rewrite Lm.
  destruct (Hloop s2 (desc_next d0) B) as (s3 & E3 & B3); [rewrite M2; by apply (chain_blk s)|]. rewrite (bind_ret _ _ _ _ _ E3).
  pose proof (became_trans _ _ _ _ _ _ _ B B3) as B4. pose proof B4 as [M4 I4 K4 F4].
  rewrite bool_decide_eq_true_2 by by eexists.
  destruct (flush_ok type s3 F4) as (s5 & E5 & B5); [by rewrite I4|]. rewrite (bind_ret _ _ _ _ _ E5). cbv zeta.
  pose proof B5 as [M5 I5 K5 F5].
  assert (St : (if negb true || negb (supported type || (type =? VIRTIO_BLK_T_FLUSH)) then VIRTIO_BLK_STATUS_IOERR else VIRTIO_BLK_STATUS_OK) = 0).
  { by destruct T as [-> | [-> _]]. }
  rewrite St. destruct (guest_write_ok st [0] s5 F5) as (s6 & E6 & B6); [right; by rewrite wrap_small|].
  rewrite (bind_ret _ _ _ _ _ E6). rewrite wrap_small in B6 by done. rewrite (wrap_small 32) by done.
  rewrite M5, I5, M4, I4 in B6. rewrite M4, I4 in B5. pose proof (became_trans _ _ _ _ _ _ _ (became_trans _ _ _ _ _ _ _ B4 B5) B6) as B7.
  pose proof B7 as [M7 I7 K7 F7].
  assert (R7 : ring_ready s6) by (destruct Rr; split; unfold queue_limit in *; by rewrite K7).
  destruct (finish_ok head (used + 1) s6 F7 R7) as (s' & E' & Fi). exists s'. split; [exact E'|]. destruct Fi as [G1 G2 G3 G4].
  split; [|congruence..|done]. rewrite G1, M7. unfold with_used, used_slot, used_idx, queue_limit. by rewrite K7.
Qed.

Lemma process_in s head sector segs st :
  request s head VIRTIO_BLK_T_IN sector segs st -> fair s ->
  exists s', process_one head s = (Ret tt, s') /\
    finished s (with_used s head (total segs + 1)
      (copy_in (scatter (memory s) segs (content (disk_image s)) (sector * 512)) st [0])) (disk_image s) s'.
Proof.
  intros Rq F. pose proof Rq as [_ Bf Sh Sc Rg Tl _ _]. pose proof (total_nonneg _ _ _ Bf) as T0.
  apply (process_ok s head VIRTIO_BLK_T_IN sector segs st); [done..|by left|unfold fits; lia|apply Rg|].
  intros s1 next [M I K F1] C. destruct (chain_in (Z.to_nat (queue_limit s - 1)) segs next st (sector * 512) 0 s1 F1 C) as (s2 & E & B).
  - lia.
  - by apply (buffers_blk _ s).
  - by rewrite I.
  - lia.
  - exists s2. rewrite E, Z.add_0_l. by rewrite <-M, <-I.
Qed.

Lemma process_out s head sector segs st :
  request s head VIRTIO_BLK_T_OUT sector segs st -> fair s -> image_mode (disk_image s) <> NEMU_BLOCK_READONLY ->
  exists s', process_one head s = (Ret tt, s') /\
    finished s (with_used s head 1 (copy_in (memory s) st [0]))
      (set_content (copy_in (content (disk_image s)) (sector * 512) (gather (memory s) segs)) (disk_image s)) s'.
Proof.
  intros Rq F Md. pose proof Rq as [_ Bf Sh Sc Rg Tl _ _].
  apply (process_ok s head VIRTIO_BLK_T_OUT sector segs st 0); [done..|by right|done| |].
  { destruct (set_content_fields (copy_in (content (disk_image s)) (sector * 512) (gather (memory s) segs)) (disk_image s)) as (-> & _). apply Rg. }
  intros s1 next [M I K F1] C. destruct (chain_out (Z.to_nat (queue_limit s - 1)) segs next st (sector * 512) 0 s1 F1 C) as (s2 & E & B).
  - lia.
  - by apply (buffers_blk _ s).
  - by rewrite I.
  - by rewrite I.
  - done.
  - exists s2. rewrite E. by rewrite <-M, <-I.
Qed.

(** ** What the guest sees *)

Definition apart (a n b m : Z) : Prop := a + n <= b \/ b + m <= a.
Fixpoint separate (segs : list (Z * Z)) : Prop :=
  match segs with [] => True | (a, n) :: segs => Forall (fun '(b, m) => apart a n b m) segs /\ separate segs end.
Definition lengths_ok (segs : list (Z * Z)) : Prop := Forall (fun '(_, n) => 0 <= n) segs.

Lemma buffers_lengths ok s segs : buffers ok s segs -> lengths_ok segs.
Proof. intros H. eapply Forall_impl; [exact H|]. intros [a n] [(_ & N & _) _]. lia. Qed.

Lemma scatter_other c segs img off a n :
  0 <= n -> lengths_ok segs -> Forall (fun '(b, m) => apart a n b m) segs ->
  copy_out (scatter c segs img off) a (Z.to_nat n) = copy_out c a (Z.to_nat n).
Proof.
  intros N. revert c off. induction segs as [|[b m] segs IH]; intros c off L A; [done|].
  apply Forall_cons in L as [Lm L]. apply Forall_cons in A as [Am A]. cbn [scatter]. rewrite IH by done.
  apply copy_out_other. rewrite copy_out_length. destruct Am; lia.
Qed.

Lemma copy_out_fit c a img off n : copy_out (copy_in c a (copy_out img off n)) a n = copy_out img off n.
Proof. pose proof (copy_out_in c a (copy_out img off n)) as H. by rewrite copy_out_length in H. Qed.

Lemma gather_scatter c segs img off :
  lengths_ok segs -> separate segs -> gather (scatter c segs img off) segs = copy_out img off (Z.to_nat (total segs)).
Proof.
  revert c off. induction segs as [|[a n] segs IH]; intros c off L S; [done|].
  apply Forall_cons in L as [Ln L]. destruct S as [Sa S]. cbn [gather scatter total]. rewrite scatter_other, IH by done.
  assert (T : 0 <= total segs) by (clear -L; induction L as [|[b m] l H _ IH]; cbn [total]; lia).
  rewrite copy_out_fit, Z2Nat.inj_add, copy_out_app, Z2Nat.id by done. done.
Qed.

Lemma gather_ext c c' segs :
  (forall a n, (a, n) ∈ segs -> copy_out c a (Z.to_nat n) = copy_out c' a (Z.to_nat n)) -> gather c segs = gather c' segs.
Proof.
  induction segs as [|[a n] segs IH]; intros H; [done|]. cbn [gather]. rewrite (H a n) by left. f_equal. apply IH.
  intros b m Hb. apply H. by right.
Qed.

Definition off_ring (s : disk) (a n : Z) : Prop := apart a n (device_addr (blk s) + 2) (2 + 8 * queue_limit s).

Lemma slot_in_ring s c : ring_ready s ->
  device_addr (blk s) + 4 <= used_slot s c /\ used_slot s c + 8 <= device_addr (blk s) + 4 + 8 * queue_limit s.
Proof.
  intros R. pose proof (limit_range s (rr_queue s R)) as Q. unfold used_slot.
  pose proof (Z.mod_pos_bound (used_idx s c) (queue_limit s) ltac:(lia)). lia.
Qed.

Lemma with_used_other s head len c a (n : nat) : ring_ready s -> off_ring s a (Z.of_nat n) ->
  copy_out (with_used s head len c) a n = copy_out c a n.
Proof.
  intros R A. pose proof (slot_in_ring s c R) as [S1 S2]. pose proof (limit_range s (rr_queue s R)) as Q. unfold with_used.
  unfold off_ring, apart in A. rewrite !copy_out_other by (rewrite le_bytes_length; lia). done.
Qed.

(** The request is in the used ring and the interrupt is pending in the device. *)
Definition completed (s : disk) (head len : Z) (s' : disk) : Prop :=
  used_idx s (memory s') = wrap 16 (used_idx s (memory s) + 1) /\
  copy_out (memory s') (used_slot s (memory s)) 8 = le_bytes 4 head ++ le_bytes 4 len /\
  nz (interrupt_status (blk s') .& 1) = true.

Lemma with_used_idx s head len c : ring_ready s -> used_idx s (with_used s head len c) = wrap 16 (used_idx s c + 1).
Proof.
  intros R. unfold used_idx at 1, with_used. pose proof (copy_out_in (copy_in (copy_in c (used_slot s c) (le_bytes 4 head))
    (used_slot s c + 4) (le_bytes 4 len)) (device_addr (blk s) + 2) (le_bytes 2 (wrap 16 (used_idx s c + 1)))) as H.
  rewrite le_bytes_length in H. rewrite H, le_le_bytes. by apply wrap_wrap.
Qed.

Lemma with_used_elem s head len c : ring_ready s ->
  copy_out (with_used s head len c) (used_slot s c) 8 = le_bytes 4 head ++ le_bytes 4 len.
Proof.
  intros R. pose proof (slot_in_ring s c R) as [S1 S2]. unfold with_used. rewrite copy_out_other by (rewrite le_bytes_length; lia).
  change 8%nat with (4 + 4)%nat. rewrite copy_out_app. f_equal.
  - rewrite copy_out_other by (rewrite le_bytes_length; lia). apply (copy_out_in _ _ (le_bytes 4 head)).
  - apply (copy_out_in _ _ (le_bytes 4 len)).
Qed.

Lemma finished_completed s head len c i s' :
  ring_ready s -> used_idx s c = used_idx s (memory s) -> finished s (with_used s head len c) i s' -> completed s head len s'.
Proof.
  intros R U [M I B _]. unfold completed. rewrite M, with_used_idx, U by done. split; [done|]. split.
  - assert (E : used_slot s (memory s) = used_slot s c) by (unfold used_slot; by rewrite U). rewrite E. by apply with_used_elem.
  - rewrite B. fields. apply nz_true. rewrite Z.land_lor_distr_l. intros E%Z.lor_eq_0_iff. by destruct E.
Qed.

(** Buffers and a status byte that do not touch each other or the used ring. *)
Record clear (s : disk) (segs : list (Z * Z)) (st : Z) : Prop := {
  cl_separate : separate segs;
  cl_status : Forall (fun '(a, n) => apart a n st 1 /\ off_ring s a n) segs;
  cl_ring : off_ring s st 1;
}.

Lemma status_byte s head len c st : ring_ready s -> off_ring s st 1 ->
  aget (with_used s head len (copy_in c st [0])) st = 0.
Proof.
  intros R O. pose proof (with_used_other s head len (copy_in c st [0]) st 1 R O) as H. cbn [copy_out] in H. injection H as H.
  etransitivity; [exact H|]. apply aget_aset_eq.
Qed.

Lemma status_idx s c st : off_ring s st 1 -> 0 < queue_limit s -> used_idx s (copy_in c st [0]) = used_idx s c.
Proof. intros [O|O] Q; unfold used_idx; rewrite copy_out_other by (cbn [length]; lia); done. Qed.

Lemma scatter_idx s c segs img off st :
  lengths_ok segs -> Forall (fun '(a, n) => apart a n st 1 /\ off_ring s a n) segs -> 0 < queue_limit s ->
  used_idx s (scatter c segs img off) = used_idx s c.
Proof.
  intros L A Q. unfold used_idx. f_equal. apply (scatter_other c segs img off _ 2); [done..|].
  eapply Forall_impl; [exact A|]. intros [a n] [_ O]. unfold off_ring, apart in *. lia.
Qed.

Lemma write_effect s head sector segs st :
  request s head VIRTIO_BLK_T_OUT sector segs st -> fair s -> image_mode (disk_image s) <> NEMU_BLOCK_READONLY -> off_ring s st 1 ->
  exists s', process_one head s = (Ret tt, s') /\ completed s head 1 s' /\ aget (memory s') st = 0 /\
    disk_image s' = set_content (copy_in (content (disk_image s)) (sector * 512) (gather (memory s) segs)) (disk_image s).
Proof.
  intros Rq F Md Os. pose proof (rq_ring _ _ _ _ _ _ Rq) as R. pose proof (limit_range s (rr_queue s R)) as Q.
  destruct (process_out s head sector segs st Rq F Md) as (s' & E & Fi). exists s'. split; [done|].
  split; [eapply finished_completed; [done| |exact Fi]; apply status_idx; [done|lia]|].
  destruct Fi as [M I _ _]. split; [|done]. rewrite M. by apply status_byte.
Qed.

Lemma read_effect s head sector segs st :
  request s head VIRTIO_BLK_T_IN sector segs st -> fair s -> clear s segs st ->
  exists s', process_one head s = (Ret tt, s') /\ completed s head (total segs + 1) s' /\ aget (memory s') st = 0 /\
    gather (memory s') segs = copy_out (content (disk_image s)) (sector * 512) (Z.to_nat (total segs)).
Proof.
  intros Rq F [Se Ss Sr]. pose proof (rq_ring _ _ _ _ _ _ Rq) as R. pose proof (limit_range s (rr_queue s R)) as Q.
  pose proof (buffers_lengths _ _ _ (rq_buffers _ _ _ _ _ _ Rq)) as L.
  destruct (process_in s head sector segs st Rq F) as (s' & E & Fi). exists s'. split; [done|].
  split; [eapply finished_completed; [done| |exact Fi]; rewrite status_idx by (done || lia); eapply scatter_idx; [done..|lia]|].
  destruct Fi as [M I _ _]. rewrite M. split; [by apply status_byte|].
  rewrite <-(gather_scatter (memory s) segs (content (disk_image s)) (sector * 512) L Se). apply gather_ext. intros a n Hi.
  pose proof (proj1 (Forall_forall _ _) Ss _ Hi) as [A1 A2]. pose proof (proj1 (Forall_forall _ _) L _ Hi) as Ln. cbn in Ln.
  rewrite with_used_other; [|done|by rewrite Z2Nat.id]. apply copy_out_other. cbn [length]. unfold apart in A1. lia.
Qed.

(** C17: what is written is read. A write request is completed without error and
    changes the range it names in the image and nothing else of it. Whatever the
    guest does to its memory and to the device then, as long as the image stays, a
    request to read the same range is completed without error and delivers, in
    its own buffers, the bytes that were written; however the requests split the
    range into buffers, and however the host splits and interrupts the transfers. *)
Theorem disk_write_then_read s1 h1 sector segs1 st1 :
  request s1 h1 VIRTIO_BLK_T_OUT sector segs1 st1 -> fair s1 -> image_mode (disk_image s1) <> NEMU_BLOCK_READONLY -> off_ring s1 st1 1 ->
  exists s1', process_one h1 s1 = (Ret tt, s1') /\ completed s1 h1 1 s1' /\ aget (memory s1') st1 = 0 /\
    (forall b, ~ (sector * 512 <= b < sector * 512 + total segs1) ->
       aget (content (disk_image s1')) b = aget (content (disk_image s1)) b) /\
    forall s2 h2 segs2 st2,
      disk_image s2 = disk_image s1' -> request s2 h2 VIRTIO_BLK_T_IN sector segs2 st2 -> fair s2 -> clear s2 segs2 st2 ->
      total segs2 = total segs1 ->
      exists s2', process_one h2 s2 = (Ret tt, s2') /\ completed s2 h2 (total segs2 + 1) s2' /\ aget (memory s2') st2 = 0 /\
        gather (memory s2') segs2 = gather (memory s1) segs1.
Proof.
  intros Rq F Md Os. destruct (write_effect s1 h1 sector segs1 st1 Rq F Md Os) as (s1' & E & Cp & St & Im).
  pose proof (gather_length _ _ (memory s1) _ (rq_buffers _ _ _ _ _ _ Rq)) as Lg.
  exists s1'. split; [done|]. split; [done|]. split; [done|]. split.
  - intros b Hb. rewrite Im, content_set. apply copy_in_other. lia.
  - intros s2 h2 segs2 st2 E2 Rq2 F2 Cl T. destruct (read_effect s2 h2 sector segs2 st2 Rq2 F2 Cl) as (s2' & Er & Cr & Sr & G).
    exists s2'. split; [done|]. split; [done|]. split; [done|]. rewrite G, E2, Im, content_set, T.
    replace (Z.to_nat (total segs1)) with (length (gather (memory s1) segs1)) by lia. apply copy_out_in.
Qed.

End DiskSpec.

(** ** Witnesses: four bytes are written to sector 1 and read back in two pieces *)

Definition put_desc (i addr len flags next : Z) (m : gmap Z Z) : gmap Z Z :=
  let a := 0x80001000 + 16 * i in
  store_bytes (store_bytes (store_bytes (store_bytes m a 8 addr) (a + 8) 4 len) (a + 12) 2 flags) (a + 14) 2 next.
Definition put_header (a type sector : Z) (m : gmap Z Z) : gmap Z Z := store_bytes (store_bytes m a 4 type) (a + 8) 8 sector.

Definition driver_memory : gmap Z Z :=
  put_desc 0 0x80004000 16 1 1 (put_desc 1 0x80005000 4 1 2 (put_desc 2 0x80006000 1 2 0
  (put_desc 3 0x80004010 16 1 4 (put_desc 4 0x80005100 1 3 5 (put_desc 5 0x80005200 3 3 6 (put_desc 6 0x80006001 1 2 0
  (put_header 0x80004000 VIRTIO_BLK_T_OUT 1 (put_header 0x80004010 VIRTIO_BLK_T_IN 1
  (store_bytes ∅ 0x80005000 4 0x04030201))))))))).

(** The host transfers two bytes, is interrupted, and then goes on. *)
Definition slow_host : list host_answer := [Count 2; Retry; Count 1].
Definition example_regs : virtio_blk := mk_blk 0 0 ∅ 0 8 1 4 0 0x80001000 0x80002000 0x80003000 0.
Definition example_disk : disk :=
  (init_disk (nemu_block_open NEMU_BLOCK_PERSISTENT 1024 ∅) slow_host (init_intr ∅) (machine_init <| mem := driver_memory |>))
    <| blk := example_regs |>.

Ltac closed := vm_compute; repeat split; first [reflexivity | discriminate | done].
Ltac descriptor d := exists d; split; [split; [closed|split; [closed|split; [closed|vm_compute; reflexivity]]]|].
Ltac place := split; [split; [closed|split; [closed|split; [closed|intros _; closed]]]|vm_compute; first [left; discriminate | right; discriminate]].

Ltac each t := repeat (apply Forall_cons; split; [t|]); by apply Forall_nil.

Lemma example_ring : ring_ready (Cfg := riscv64_ref) example_disk.
Proof. split; closed. Qed.

Lemma example_write : request (Cfg := riscv64_ref) example_disk 0 VIRTIO_BLK_T_OUT 1 [(0x80005000, 4)] 0x80006000.
Proof.
  split; [|each place|closed|closed|closed|closed|closed|exact example_ring].
  descriptor (mk_desc 0x80004000 16 1 1). split; [split_and!; try closed; vm_compute; reflexivity|].
  descriptor (mk_desc 0x80005000 4 1 2). split; [closed|]. split; [closed|]. split; [closed|]. split; [closed|].
  descriptor (mk_desc 0x80006000 1 2 0). split_and!; closed.
Qed.

Definition later (i : NemuBlockImage) : disk := (example_disk <| disk_image := i |>) <| host_io := [] |>.

Lemma example_read i : image_open i = true -> image_size i = 1024 ->
  request (Cfg := riscv64_ref) (later i) 3 VIRTIO_BLK_T_IN 1 [(0x80005100, 1); (0x80005200, 3)] 0x80006001.
Proof.
  intros O Z. split; [|each place|closed| | |closed|closed|split; closed].
  - descriptor (mk_desc 0x80004010 16 1 4). split; [split_and!; try closed; vm_compute; reflexivity|].
    descriptor (mk_desc 0x80005100 1 3 5). split; [closed|]. split; [closed|]. split; [closed|]. split; [closed|].
    descriptor (mk_desc 0x80005200 3 3 6). split; [closed|]. split; [closed|]. split; [closed|]. split; [closed|].
    descriptor (mk_desc 0x80006001 1 2 0). split_and!; closed.
  - split; [done|]. change (disk_image (later i)) with i. by rewrite Z.
  - unfold in_image. change (disk_image (later i)) with i. by rewrite O, Z.
Qed.

Lemma disk_write_then_read_witness :
  exists s1' s2', process_one (Cfg := riscv64_ref) 0 example_disk = (Ret tt, s1') /\
    process_one (Cfg := riscv64_ref) 3 (later (disk_image s1')) = (Ret tt, s2') /\
    gather (memory s2') [(0x80005100, 1); (0x80005200, 3)] = [1; 2; 3; 4].
Proof.
  destruct (disk_write_then_read (Cfg := riscv64_ref) example_disk 0 1 [(0x80005000, 4)] 0x80006000 example_write)
    as (s1' & E & _ & _ & _ & H); [each done|vm_compute; discriminate|vm_compute; right; discriminate|].
  assert (I : image_open (disk_image s1') = true /\ image_size (disk_image s1') = 1024).
  { replace s1' with (snd (process_one (Cfg := riscv64_ref) 0 example_disk)) by (by rewrite E). split; vm_compute; reflexivity. }
  destruct (H (later (disk_image s1')) 3 [(0x80005100, 1); (0x80005200, 3)] 0x80006001 eq_refl (example_read _ (proj1 I) (proj2 I)))
    as (s2' & E2 & _ & _ & G).
  - constructor.
  - split; [split; [each ltac:(left; vm_compute; discriminate)|split; [each idtac|done]]
      |each ltac:(split; [left; vm_compute; discriminate|right; vm_compute; discriminate])|right; vm_compute; discriminate].
  - vm_compute. reflexivity.
  - exists s1', s2'. split; [done|]. split; [done|]. rewrite G. vm_compute. reflexivity.
Defined.
