(* ===== verification/Sdcard.v ===== *)
(** * Sdcard: the SD card ([device/sdcard.c]) behind its two controllers, the SDHCI
      and the LiteX SPI

    The image is read when the simulator starts and is not changed. Logging is left out. *)
From S2P Require Import Prelude Config Machine Paddr.

Definition SDHCI_DMA_ADDRESS : Z := 0x00.
Definition SDHCI_ARGUMENT : Z := 0x08.
Definition SDHCI_CMD_AND_MODE : Z := 0x0c.
Definition SDHCI_RESPONSE0 : Z := 0x10.
Definition SDHCI_PRESENT_STATE : Z := 0x24.
Definition SDHCI_SOFTWARE_RESET : Z := 0x2f.
Definition SDHCI_INT_STAT : Z := 0x30.
Definition SDHCI_CMD_READ_SINGLE_BLOCK : Z := 17.
Definition SDHCI_BLOCK_SIZE : Z := 512.
Definition LITEX_SPI_CONTROL : Z := 0x00.
Definition LITEX_SPI_STATUS : Z := 0x04.
Definition LITEX_SPI_MOSI : Z := 0x08.
Definition LITEX_SPI_MISO : Z := 0x0c.
Definition LITEX_SPI_CS : Z := 0x10.
Definition LITEX_SPI_CLKDIV : Z := 0x18.
Definition SD_BLOCK_SIZE : Z := 512.
Definition SPI_RXQ_CAP : Z := 1024.

(** [spi] *)
Record spi_regs := mk_spi {
  spi_control : Z;
  spi_status : Z;
  spi_mosi : Z;
  spi_miso : Z;
  spi_cs : Z;
  spi_clkdiv : Z;
  cmd_buf : gmap Z Z;
  cmd_len : Z;
  rxq : gmap Z Z;
  rxq_head : Z;
  rxq_tail : Z;
}.
#[export] Instance spi_fields : Fields spi_regs := fun s =>
  mk_spi (spi_control s) (spi_status s) (spi_mosi s) (spi_miso s) (spi_cs s) (spi_clkdiv s) (cmd_buf s) (cmd_len s)
    (rxq s) (rxq_head s) (rxq_tail s).
#[export] Instance set_spi_control : Setter spi_control := ltac:(build_setter spi_control).
#[export] Instance set_spi_status : Setter spi_status := ltac:(build_setter spi_status).
#[export] Instance set_spi_mosi : Setter spi_mosi := ltac:(build_setter spi_mosi).
#[export] Instance set_spi_miso : Setter spi_miso := ltac:(build_setter spi_miso).
#[export] Instance set_spi_cs : Setter spi_cs := ltac:(build_setter spi_cs).
#[export] Instance set_spi_clkdiv : Setter spi_clkdiv := ltac:(build_setter spi_clkdiv).
#[export] Instance set_cmd_buf : Setter cmd_buf := ltac:(build_setter cmd_buf).
#[export] Instance set_cmd_len : Setter cmd_len := ltac:(build_setter cmd_len).
#[export] Instance set_rxq : Setter rxq := ltac:(build_setter rxq).
#[export] Instance set_rxq_head : Setter rxq_head := ltac:(build_setter rxq_head).
#[export] Instance set_rxq_tail : Setter rxq_tail := ltac:(build_setter rxq_tail).

Record sdcard := mk_sdcard {
  sdcard_image : option (gmap Z Z);
  sdcard_image_size : Z;
  sdhci_space : gmap Z Z;
  sdhci_int_stat : Z;
  spi_space : gmap Z Z;
  spi : spi_regs;
}.
#[export] Instance sdcard_fields : Fields sdcard := fun s =>
  mk_sdcard (sdcard_image s) (sdcard_image_size s) (sdhci_space s) (sdhci_int_stat s) (spi_space s) (spi s).
#[export] Instance set_sdcard_image : Setter sdcard_image := ltac:(build_setter sdcard_image).
#[export] Instance set_sdcard_image_size : Setter sdcard_image_size := ltac:(build_setter sdcard_image_size).
#[export] Instance set_sdhci_space : Setter sdhci_space := ltac:(build_setter sdhci_space).
#[export] Instance set_sdhci_int_stat : Setter sdhci_int_stat := ltac:(build_setter sdhci_int_stat).
#[export] Instance set_spi_space : Setter spi_space := ltac:(build_setter spi_space).
#[export] Instance set_spi : Setter spi := ltac:(build_setter spi).

(** The block both controllers read: bytes of the image, then zeros. *)
Definition read_block (offset : Z) (s : sdcard) : list Z :=
  match sdcard_image s with
  | None => replicate 512 0
  | Some image =>
      if offset <? sdcard_image_size s then
        let remain := sdcard_image_size s - offset in
        let ncopy := Z.to_nat (if remain <? SDHCI_BLOCK_SIZE then remain else SDHCI_BLOCK_SIZE) in
        copy_out image offset ncopy ++ replicate (512 - ncopy) 0
      else replicate 512 0
  end.

(** ** The LiteX SPI controller and the card's command interpreter *)

Definition spi_rxq_empty (s : spi_regs) : bool := rxq_head s =? rxq_tail s.

Definition spi_rxq_push (b : Z) (s : spi_regs) : spi_regs :=
  let next := (rxq_tail s + 1) mod SPI_RXQ_CAP in
  if next =? rxq_head s then s else (s <| rxq ::= fun a => aset a (rxq_tail s) b |>) <| rxq_tail := next |>.

Definition spi_rxq_pop (s : spi_regs) : Z * spi_regs :=
  (aget (rxq s) (rxq_head s), s <| rxq_head := (rxq_head s + 1) mod SPI_RXQ_CAP |>).

Definition spi_rxq_push_all (l : list Z) (s : spi_regs) : spi_regs := foldl (fun s b => spi_rxq_push b s) s l.

Definition spi_enqueue_cmd17_payload (byte_addr : Z) (card : sdcard) (s : spi_regs) : spi_regs :=
  spi_rxq_push 0xff (spi_rxq_push 0xff (spi_rxq_push_all (read_block byte_addr card) (spi_rxq_push 0xfe s))).

Definition spi_handle_sd_command (card : sdcard) (s : spi_regs) : spi_regs :=
  let cmd i := aget (cmd_buf s) i in
  let idx := cmd 0 .& 0x3f in
  let arg := wrap 32 (cmd 1 << 24) .| (cmd 2 << 16) .| (cmd 3 << 8) .| cmd 4 in
  if idx =? 0 then spi_rxq_push 0x01 s
  else if idx =? 8 then spi_rxq_push_all [0x01; 0x00; 0x00; 0x01; 0xaa] s
  else if idx =? 55 then spi_rxq_push 0x01 s
  else if idx =? 41 then spi_rxq_push 0x00 s
  else if idx =? 17 then spi_enqueue_cmd17_payload (wrap 32 (arg * SD_BLOCK_SIZE)) card (spi_rxq_push 0x00 s)
  else spi_rxq_push 0x00 s.

Definition cmd_push (tx : Z) (s : spi_regs) : spi_regs :=
  (s <| cmd_buf ::= fun b => aset b (cmd_len s) tx |>) <| cmd_len ::= fun n => n + 1 |>.

Definition spi_transfer (tx : Z) (card : sdcard) (s : spi_regs) : Z * spi_regs :=
  if negb (nz (spi_cs s .& 1)) then (0xff, s <| cmd_len := 0 |>)
  else if negb (spi_rxq_empty s) then spi_rxq_pop s
  else if cmd_len s =? 0 then (0xff, if tx .& 0xc0 =? 0x40 then cmd_push tx s else s)
  else
    let s := cmd_push tx s in
    (0xff, if cmd_len s =? 6 then (spi_handle_sd_command card s) <| cmd_len := 0 |> else s).

Definition spi_load_reg (off : Z) (s : sdcard) : Z := load_bytes (spi_space s) off 4.
Definition spi_store_reg (off val : Z) (s : sdcard) : sdcard := s <| spi_space ::= fun b => store_bytes b off 4 val |>.

Definition spi_do_control_write (control : Z) (s : sdcard) : sdcard :=
  let r := (spi s) <| spi_control := control |> <| spi_status ::= fun v => v .& wrap 32 (~~ 1) |> in
  if control .& 1 =? 0 then s <| spi := r |>
  else
    let '(rx, r) := spi_transfer (spi_mosi r .& 0xff) s r in
    let r := r <| spi_miso ::= fun v => (v .& wrap 32 (~~ 0xff)) .| rx |> <| spi_status ::= fun v => v .| 1 |> in
    spi_store_reg LITEX_SPI_MISO (spi_miso r) (spi_store_reg LITEX_SPI_STATUS (spi_status r) (s <| spi := r |>)).

(** Whether a write has the byte that starts a transfer. *)
Definition ctrl_start_byte (offset len : Z) : bool :=
  existsb (fun i => let bo := offset + i in (bo .& wrap 32 (~~ 3) =? LITEX_SPI_CONTROL) && (bo .& 3 =? 0)) (seqZ 0 len).

Definition spi_write_reg (reg val : Z) (r : spi_regs) : spi_regs :=
  if reg =? LITEX_SPI_CONTROL then r <| spi_control := val |>
  else if reg =? LITEX_SPI_STATUS then r <| spi_status := val |>
  else if reg =? LITEX_SPI_MOSI then r <| spi_mosi := val |>
  else if reg =? LITEX_SPI_MISO then r <| spi_miso := val |>
  else if reg =? LITEX_SPI_CS then r <| spi_cs := val |>
  else if reg =? LITEX_SPI_CLKDIV then r <| spi_clkdiv := val |>
  else r.

Definition spi_read_reg (reg : Z) (r : spi_regs) : Z :=
  if reg =? LITEX_SPI_CONTROL then spi_control r
  else if reg =? LITEX_SPI_STATUS then spi_status r
  else if reg =? LITEX_SPI_MOSI then spi_mosi r
  else if reg =? LITEX_SPI_MISO then spi_miso r
  else if reg =? LITEX_SPI_CS then spi_cs r
  else if reg =? LITEX_SPI_CLKDIV then spi_clkdiv r
  else 0.

Definition litex_spi_io_handler (offset len : Z) (is_write : bool) (s : sdcard) : sdcard :=
  let reg := offset .& wrap 32 (~~ 3) in
  if is_write then
    let s := s <| spi ::= spi_write_reg reg (spi_load_reg reg s) |> in
    if ctrl_start_byte offset len then spi_do_control_write (spi_control (spi s)) s else s
  else spi_store_reg reg (spi_read_reg reg (spi s)) s.

(** An access of the bus: [map_read] and [map_write]. *)
Definition spi_read (offset len : Z) (s : sdcard) : Z * sdcard :=
  let s := litex_spi_io_handler offset len false s in (load_bytes (spi_space s) offset (Z.to_nat len), s).
Definition spi_write (offset len data : Z) (s : sdcard) : sdcard :=
  litex_spi_io_handler offset len true (s <| spi_space ::= fun b => store_bytes b offset (Z.to_nat len) data |>).

(** [init_sdcard] and [init_litex_spi_sd], with the image that was loaded. *)
Definition init_sdcard (image : option (gmap Z Z)) (size : Z) : sdcard :=
  mk_sdcard image size ∅ 0 ∅ (mk_spi 0 1 0xff 0xff 0 0 ∅ 0 ∅ 0 0).

(** ** The SDHCI *)

Definition sdhci_load32 (offset : Z) (s : sdcard) : Z := load_bytes (sdhci_space s) offset 4.
Definition sdhci_store32 (offset value : Z) (s : sdcard) : sdcard := s <| sdhci_space ::= fun b => store_bytes b offset 4 value |>.
Definition overlaps (offset len reg size : Z) : bool := (offset <? reg + size) && (reg <? offset + len).

Section Sdhci.
Context {Cfg : Config}.

Definition dma_read_block (s : sdcard) (m : machine) : outcome bool * machine :=
  paddr_dma_write (sdhci_load32 SDHCI_DMA_ADDRESS s) (read_block (sdhci_load32 SDHCI_ARGUMENT s) s) m.

Definition complete_command (s : sdcard) : sdcard :=
  let s := s <| sdhci_int_stat ::= fun v => v .| 1 |> in sdhci_store32 SDHCI_INT_STAT (sdhci_int_stat s) s.

Definition process_command (s : sdcard) (m : machine) : sdcard * machine :=
  let cmd_idx := (sdhci_load32 SDHCI_CMD_AND_MODE s >> 24) .& 0x3f in
  let s' := if cmd_idx =? 3 then sdhci_store32 SDHCI_RESPONSE0 (1 << 16) s else s in
  let m := if cmd_idx =? SDHCI_CMD_READ_SINGLE_BLOCK then (dma_read_block s m).2 else m in
  (complete_command s', m).

Definition reset_present (s : sdcard) : sdcard :=
  sdhci_store32 SDHCI_PRESENT_STATE 0 (s <| sdhci_space ::= fun b => aset b SDHCI_SOFTWARE_RESET 0 |>).

Definition prepare_sdhci_read (s : sdcard) : sdcard := sdhci_store32 SDHCI_INT_STAT (sdhci_int_stat s) (reset_present s).

Definition sdhci_io_handler (offset len : Z) (is_write : bool) (s : sdcard) (m : machine) : sdcard * machine :=
  if negb is_write then (prepare_sdhci_read s, m)
  else
    let s :=
      if overlaps offset len SDHCI_INT_STAT 4 then
        let s := s <| sdhci_int_stat ::= fun v => v .& wrap 32 (~~ (sdhci_load32 SDHCI_INT_STAT s)) |> in
        sdhci_store32 SDHCI_INT_STAT (sdhci_int_stat s) s
      else s in
    let s := reset_present s in
    if overlaps offset len SDHCI_CMD_AND_MODE 4 then process_command s m else (s, m).

Definition sdhci_write (offset len data : Z) (s : sdcard) (m : machine) : sdcard * machine :=
  sdhci_io_handler offset len true (s <| sdhci_space ::= fun b => store_bytes b offset (Z.to_nat len) data |>) m.
Definition sdhci_read (offset len : Z) (s : sdcard) : Z * sdcard :=
  let s := prepare_sdhci_read s in (load_bytes (sdhci_space s) offset (Z.to_nat len), s).

End Sdhci.
