(* ===== verification/SdcardSpec.v ===== *)
(** * SdcardSpec: the SD card

    Behind the LiteX controller the queue, the command buffer and the registers
    implement a card that collects six bytes, answers, and sends its answer a
    byte per transfer; so a driver that sends the read command receives the block. *)
From S2P Require Import Prelude Config Machine Paddr Ring Copies Sdcard.

(** ** The card *)

(** The bytes it has still to send, and the command it has received so far. *)
Definition card := (list Z * list Z)%type.

Definition argument (c1 c2 c3 c4 : Z) : Z := ((c1 * 256 + c2) * 256 + c3) * 256 + c4.
Definition reply (sd : sdcard) (cmd : list Z) : list Z :=
  match cmd with
  | [c0; c1; c2; c3; c4; _] =>
      let idx := c0 mod 64 in
      if idx =? 0 then [1]
      else if idx =? 8 then [1; 0; 0; 1; 0xaa]
      else if idx =? 55 then [1]
      else if idx =? 17 then [0; 0xfe] ++ read_block ((argument c1 c2 c3 c4 * 512) mod 2 ^ 32) sd ++ [0xff; 0xff]
      else [0]
  | _ => []
  end.

Definition card_step (sd : sdcard) (selected : bool) (tx : Z) (c : card) : Z * card :=
  let '(pending, command) := c in
  if negb selected then (0xff, (pending, []))
  else
    match pending with
    | b :: pending => (b, (pending, command))
    | [] =>
        match command with
        | [] => (0xff, ([], if (64 <=? tx) && (tx <? 128) then [tx] else []))
        | _ => let command := command ++ [tx] in (0xff, if (length command =? 6)%nat then (reply sd command, []) else ([], command))
        end
    end.

(** ** The controller implements it *)

Record spi_card (r : spi_regs) (c : card) : Prop := {
  sc_head : 0 <= rxq_head r < 1024;
  sc_tail : 0 <= rxq_tail r < 1024;
  sc_pending : ring_list 1024 (rxq r) (rxq_head r) (rxq_tail r) = c.1;
  sc_len : 0 <= cmd_len r < 6;
  sc_command : copy_out (cmd_buf r) 0 (Z.to_nat (cmd_len r)) = c.2;
  sc_bytes : bytes_ok c.2;
  sc_answer : bytes_ok c.1;
}.

Lemma read_block_length offset sd : length (read_block offset sd) = 512%nat.
Proof.
  unfold read_block. destruct (sdcard_image sd); [|apply length_replicate]. destruct (Z.ltb_spec offset (sdcard_image_size sd)); [|apply length_replicate].
  cbv zeta. unfold SDHCI_BLOCK_SIZE. rewrite length_app, copy_out_length, length_replicate.
  destruct (Z.ltb_spec (sdcard_image_size sd - offset) 512); lia.
Qed.

(** Pushing onto a queue with room. *)
Definition holds (r : spi_regs) (l : list Z) : Prop :=
  0 <= rxq_head r < 1024 /\ 0 <= rxq_tail r < 1024 /\ ring_list 1024 (rxq r) (rxq_head r) (rxq_tail r) = l.
Definition same_cmd (r r' : spi_regs) : Prop :=
  spi_control r' = spi_control r /\ spi_status r' = spi_status r /\ spi_mosi r' = spi_mosi r /\ spi_miso r' = spi_miso r /\
  spi_cs r' = spi_cs r /\ spi_clkdiv r' = spi_clkdiv r /\ cmd_buf r' = cmd_buf r /\ cmd_len r' = cmd_len r.

Lemma push_ok b r l : holds r l -> (length l < 1023)%nat -> holds (spi_rxq_push b r) (l ++ [b]) /\ same_cmd r (spi_rxq_push b r).
Proof.
  intros (H & T & E) L. unfold spi_rxq_push, SPI_RXQ_CAP. fold (ring_next 1024 (rxq_tail r)). cbv zeta.
  assert (N : ring_next 1024 (rxq_tail r) <> rxq_head r).
  { intros F. apply (ring_full_iff 1024 ltac:(done)) in F; [|done..].
    rewrite <-(ring_list_length 1024 ltac:(done) (rxq r)), E in F. lia. }
  rewrite (proj2 (Z.eqb_neq _ _) N). split; [|by split_and!]. split_and!; fields; try lia.
  - apply (ring_next_range 1024); done.
  - apply (ring_next_range 1024); done.
  - rewrite ring_push by done. by rewrite E.
Qed.

Lemma same_cmd_trans r1 r2 r3 : same_cmd r1 r2 -> same_cmd r2 r3 -> same_cmd r1 r3.
Proof. unfold same_cmd. intros (?&?&?&?&?&?&?&?) (?&?&?&?&?&?&?&?). split_and!; congruence. Qed.

Lemma push_all_ok bs r l : holds r l -> (length l + length bs <= 1023)%nat ->
  holds (spi_rxq_push_all bs r) (l ++ bs) /\ same_cmd r (spi_rxq_push_all bs r).
Proof.
  revert r l. induction bs as [|b bs IH]; intros r l H L; [rewrite app_nil_r; split; [done|by split_and!]|].
  cbn [length] in L. change (spi_rxq_push_all (b :: bs) r) with (spi_rxq_push_all bs (spi_rxq_push b r)).
  destruct (push_ok b r l H ltac:(lia)) as [H1 S1]. destruct (IH _ _ H1) as [H2 S2]; [rewrite length_app; cbn [length]; lia|].
  rewrite <-app_assoc in H2. split; [done|by eapply same_cmd_trans].
Qed.

Lemma push_many bs r : holds r [] -> (length bs <= 1023)%nat -> holds (spi_rxq_push_all bs r) bs /\ same_cmd r (spi_rxq_push_all bs r).
Proof. intros H L. by apply (push_all_ok bs r []). Qed.
Lemma push_one b r : holds r [] -> holds (spi_rxq_push b r) [b] /\ same_cmd r (spi_rxq_push b r).
Proof. intros H. apply (push_ok b r [] H). cbn. lia. Qed.

(** The head of a command, and its argument. *)
Lemma start_bits tx : fits 8 tx -> (tx .& 0xc0 =? 0x40) = (64 <=? tx) && (tx <? 128).
Proof.
  intros F. assert (A : forallb (fun t => eqb (t .& 0xc0 =? 0x40) ((64 <=? t) && (t <? 128))) (seqZ 0 256) = true) by (vm_compute; reflexivity).
  rewrite forallb_forall in A. apply eqb_prop, A. apply list_elem_of_In, elem_of_seqZ. unfold fits in F. lia.
Qed.

Lemma lor_add a b n : 0 <= n -> fits n b -> (a << n) .| b = a * 2 ^ n + b.
Proof.
  intros N F. assert (D : (a << n) .& b = 0).
  { apply Z.bits_inj'. intros k Hk. rewrite Z.land_spec, Z.shiftl_spec, Z.testbit_0_l by done. destruct (Z.ltb_spec k n).
    - by rewrite (Z.testbit_neg_r a) by lia.
    - by rewrite (testbit_high n b k F), andb_false_r by lia. }
  rewrite <-Z.lxor_lor, <-Z.add_nocarry_lxor by done. by rewrite Z.shiftl_mul_pow2.
Qed.

Lemma argument_bits c1 c2 c3 c4 : fits 8 c1 -> fits 8 c2 -> fits 8 c3 -> fits 8 c4 ->
  wrap 32 (c1 << 24) .| (c2 << 16) .| (c3 << 8) .| c4 = argument c1 c2 c3 c4.
Proof.
  intros F1 F2 F3 F4. transitivity ((((((c1 << 8) .| c2) << 8) .| c3) << 8) .| c4).
  - rewrite wrap_small; [|done|unfold fits in *; rewrite Z.shiftl_mul_pow2 by done; lia].
    rewrite !Z.shiftl_lor, !Z.shiftl_shiftl by done. done.
  - unfold argument. by rewrite !(lor_add _ _ 8) by done.
Qed.

Lemma low_bits c : c .& 0x3f = c mod 64.
Proof. exact (Z.land_ones c 6 ltac:(done)). Qed.

(** The whole command is there: its answer goes into the empty queue. *)
Lemma command_ok sd r c0 c1 c2 c3 c4 c5 :
  holds r [] -> copy_out (cmd_buf r) 0 6 = [c0; c1; c2; c3; c4; c5] -> bytes_ok [c0; c1; c2; c3; c4; c5] ->
  holds (spi_handle_sd_command sd r) (reply sd [c0; c1; c2; c3; c4; c5]) /\ same_cmd r (spi_handle_sd_command sd r).
Proof.
  intros H C B. cbn in C. injection C as E0 E1 E2 E3 E4 _.
  change (0 + 1 + 1 + 1 + 1) with 4 in *. change (0 + 1 + 1 + 1) with 3 in *. change (0 + 1 + 1) with 2 in *. change (0 + 1) with 1 in *.
  unfold bytes_ok in B. rewrite !Forall_cons in B. destruct B as (B0 & B1 & B2 & B3 & B4 & _).
  unfold spi_handle_sd_command, reply. cbv zeta. rewrite E0, E1, E2, E3, E4, low_bits, argument_bits by done.
  set (idx := c0 mod 64). destruct (idx =? 0); [by apply push_one|].
  destruct (idx =? 8); [by apply push_many; [|cbn; lia]|]. destruct (idx =? 55); [by apply push_one|].
  destruct (Z.eqb_spec idx 41) as [->|]; [by apply push_one|]. destruct (idx =? 17); [|by apply push_one].
  unfold spi_enqueue_cmd17_payload, SD_BLOCK_SIZE. rewrite <-wrap_mod by done.
  set (block := read_block _ sd). pose proof (read_block_length (wrap 32 (argument c1 c2 c3 c4 * 512)) sd : length block = 512%nat) as L.
  clearbody block.
  assert (P : forall r', spi_rxq_push 255 (spi_rxq_push 255 (spi_rxq_push_all block (spi_rxq_push 254 (spi_rxq_push 0 r')))) =
    spi_rxq_push_all ([0; 254] ++ block ++ [255; 255]) r').
  { intros r'. unfold spi_rxq_push_all. by rewrite !foldl_app. }
  rewrite P. apply push_many; [done|]. rewrite !length_app, L. cbn. lia.
Qed.

(** The image holds bytes, and so do the answers. *)
Definition image_ok (sd : sdcard) : Prop := content_ok (default ∅ (sdcard_image sd)).

Lemma zeros_ok n : bytes_ok (replicate n 0).
Proof. apply Forall_replicate. by split. Qed.

Lemma read_block_ok offset sd : image_ok sd -> bytes_ok (read_block offset sd).
Proof.
  intros I. unfold read_block, image_ok in *. destruct (sdcard_image sd); [|apply zeros_ok].
  destruct (offset <? _); [|apply zeros_ok]. cbv zeta. apply Forall_app. split; [by apply copy_out_ok|apply zeros_ok].
Qed.

Lemma bytes_dec l : forallb (fun b => (0 <=? b) && (b <? 256)) l = true -> bytes_ok l.
Proof. intros H. apply Forall_forall. intros b Hb%list_elem_of_In. rewrite forallb_forall in H. specialize (H b Hb). unfold fits. lia. Qed.

Lemma reply_ok sd cmd : image_ok sd -> bytes_ok (reply sd cmd).
Proof.
  intros I. unfold reply. destruct cmd as [|c0 [|c1 [|c2 [|c3 [|c4 [|c5 [|]]]]]]]; try (by apply Forall_nil). cbv zeta.
  repeat (destruct (_ =? _); [first [by apply bytes_dec|idtac]|]); [|by apply bytes_dec].
  apply Forall_app. split; [by apply bytes_dec|]. apply Forall_app. split; [by apply read_block_ok|by apply bytes_dec].
Qed.

(** A transfer is a step of the card. *)
Lemma transfer_refines sd r c tx :
  image_ok sd -> spi_card r c -> fits 8 tx ->
  (spi_transfer tx sd r).1 = (card_step sd (nz (spi_cs r .& 1)) tx c).1 /\
  spi_card (spi_transfer tx sd r).2 (card_step sd (nz (spi_cs r .& 1)) tx c).2 /\
  spi_cs (spi_transfer tx sd r).2 = spi_cs r /\ spi_mosi (spi_transfer tx sd r).2 = spi_mosi r /\ spi_miso (spi_transfer tx sd r).2 = spi_miso r.
Proof.
  intros Im [H T P L C B An] F. destruct c as [pending command]. cbn [fst snd] in *. unfold spi_transfer, card_step.
  destruct (nz (spi_cs r .& 1)); cbn [negb].
  2: { split; [done|]. split; [|done]. split; fields; try done. apply Forall_nil. done. }
  unfold spi_rxq_empty. destruct (Z.eqb_spec (rxq_head r) (rxq_tail r)) as [E|E]; cbn [negb].
  - rewrite E, ring_empty in P by done. subst pending. destruct (Z.eqb_spec (cmd_len r) 0) as [Z|N].
    + rewrite Z in *. cbn in C. subst command. rewrite start_bits by done. destruct ((64 <=? tx) && (tx <? 128)); cbn [fst snd].
      * split; [done|]. split; [|done]. unfold cmd_push. split; fields; rewrite ?Z; try done.
        -- by rewrite E, ring_empty.
        -- change (Z.to_nat (0 + 1)) with 1%nat. cbn [copy_out]. by rewrite aget_aset_eq.
        -- apply Forall_cons. split; [done|]. by apply Forall_nil.
      * split; [done|]. split; [|done]. split; rewrite ?Z; try done. by rewrite E, ring_empty.
    + destruct command as [|c0 command]; [pose proof (copy_out_length (cmd_buf r) 0 (Z.to_nat (cmd_len r))) as X; rewrite C in X; cbn in X; lia|].
      set (cmd := c0 :: command) in *. pose proof (copy_out_length (cmd_buf r) 0 (Z.to_nat (cmd_len r))) as Lc. rewrite C in Lc.
      assert (Cp : copy_out (cmd_buf (cmd_push tx r)) 0 (Z.to_nat (cmd_len r + 1)) = cmd ++ [tx]).
      { unfold cmd_push. fields. replace (Z.to_nat (cmd_len r + 1)) with (Z.to_nat (cmd_len r) + 1)%nat by lia. rewrite copy_out_app. f_equal.
        - rewrite <-C. apply copy_out_ext. intros b Hb. apply aget_aset_ne. lia.
        - cbn. rewrite Z.add_0_l, Z2Nat.id, aget_aset_eq by lia. done. }
      assert (Bc : bytes_ok (cmd ++ [tx])) by (apply Forall_app; split; [done|]; apply Forall_cons; split; [done|by apply Forall_nil]).
      assert (Ho : holds (cmd_push tx r) []) by (unfold cmd_push; split_and!; fields; try lia; by rewrite E, ring_empty).
      assert (Ln : cmd_len (cmd_push tx r) = cmd_len r + 1) by (unfold cmd_push; by fields).
      assert (Lq : (length (cmd ++ [tx]) =? 6)%nat = (cmd_len r + 1 =? 6)).
      { rewrite length_app, Lc. cbn [length]. destruct (Z.eqb_spec (cmd_len r + 1) 6); [apply Nat.eqb_eq|apply Nat.eqb_neq]; lia. }
      cbv zeta. rewrite Lq, Ln. clear Lq. destruct (Z.eqb_spec (cmd_len r + 1) 6) as [S|S]; cbn [fst snd].
      * rewrite S in Cp. destruct (cmd ++ [tx]) as [|d0 [|d1 [|d2 [|d3 [|d4 [|d5 [|]]]]]]] eqn:D; try (apply (f_equal length) in Cp; discriminate).
        destruct (command_ok sd (cmd_push tx r) d0 d1 d2 d3 d4 d5 Ho Cp Bc) as [(H1 & T1 & R1) (S1 & S2 & S3 & S4 & S5 & _)].
        split; [done|]. split; [split; fields; try done; first [by apply Forall_nil|by apply reply_ok]|]. fields. unfold cmd_push in *. fields_in S5. fields_in S3. fields_in S4. done.
      * split; [done|]. split; [|done]. split; cbn [fst snd]; [apply Ho..| | | |]; rewrite ?Ln; [lia|done|done|done].
  - rewrite ring_pop in P by done. subst pending. cbn [fst snd]. split; [done|]. split; [|done].
    apply Forall_cons in An as [_ An]. split; fields; try done; apply (ring_next_range 1024); done.
Qed.

(** ** Through the registers *)

(** One byte of a driver: MOSI is written, the transfer is started, MISO is read. *)
Definition exchange1 (tx : Z) (s : sdcard) : Z * sdcard :=
  let s := spi_write LITEX_SPI_CONTROL 4 1 (spi_write LITEX_SPI_MOSI 4 tx s) in
  let '(v, s) := spi_read LITEX_SPI_MISO 4 s in (v .& 0xff, s).
Fixpoint exchange (l : list Z) (s : sdcard) : list Z * sdcard :=
  match l with
  | [] => ([], s)
  | tx :: l => let '(rx, s) := exchange1 tx s in let '(rxs, s) := exchange l s in (rx :: rxs, s)
  end.

Fixpoint talk (sd : sdcard) (selected : bool) (l : list Z) (c : card) : list Z * card :=
  match l with
  | [] => ([], c)
  | tx :: l => let '(rx, c) := card_step sd selected tx c in let '(rxs, c) := talk sd selected l c in (rx :: rxs, c)
  end.

(** The image and the chip select stay. *)
Definition same_card (s s' : sdcard) : Prop :=
  sdcard_image s' = sdcard_image s /\ sdcard_image_size s' = sdcard_image_size s /\ spi_cs (spi s') = spi_cs (spi s).

Lemma card_step_ext s s' sel tx c : same_card s s' -> card_step s' sel tx c = card_step s sel tx c.
Proof.
  intros (E1 & E2 & _). assert (R : forall cmd, reply s' cmd = reply s cmd) by (intros cmd; unfold reply, read_block; by rewrite E1, E2).
  unfold card_step. destruct c as [[|b p] [|c0 c]]; by rewrite ?R.
Qed.

Lemma write_plain reg data s :
  reg .& wrap 32 (~~ 3) = reg -> ctrl_start_byte reg 4 = false ->
  spi_write reg 4 data s =
    (s <| spi_space ::= fun b => store_bytes b reg 4 data |>) <| spi ::= spi_write_reg reg (wrap 32 data) |>.
Proof.
  intros R C. unfold spi_write, litex_spi_io_handler. cbv zeta. rewrite R, C. unfold spi_load_reg. fields.
  change (Z.to_nat 4) with 4%nat. by rewrite load_store_bytes.
Qed.

Lemma same_spi r r' c : rxq_head r' = rxq_head r -> rxq_tail r' = rxq_tail r -> rxq r' = rxq r ->
  cmd_len r' = cmd_len r -> cmd_buf r' = cmd_buf r -> spi_card r c -> spi_card r' c.
Proof. intros E1 E2 E3 E4 E5 [H T P L C B]. by split; rewrite ?E1, ?E2, ?E3, ?E4, ?E5. Qed.

Lemma card_step_byte sd sel tx c : bytes_ok c.1 -> fits 8 (card_step sd sel tx c).1.
Proof.
  intros B. destruct c as [[|b p] cmd]; unfold card_step; destruct sel; cbn [negb fst snd] in *; try (by split); [by destruct cmd|].
  by apply Forall_cons in B as [Bb _].
Qed.

(** Starting a transfer. *)
Lemma start_ok s :
  spi_write LITEX_SPI_CONTROL 4 1 s = spi_do_control_write 1
    ((s <| spi_space ::= fun b => store_bytes b LITEX_SPI_CONTROL 4 1 |>) <| spi ::= fun r => r <| spi_control := 1 |> |>).
Proof.
  unfold spi_write, litex_spi_io_handler. cbv zeta. change (LITEX_SPI_CONTROL .& wrap 32 (~~ 3)) with LITEX_SPI_CONTROL.
  change (ctrl_start_byte LITEX_SPI_CONTROL 4) with true. cbn iota. unfold spi_load_reg. fields. change (Z.to_nat 4) with 4%nat.
  by rewrite load_store_bytes.
Qed.

Lemma miso_read s : spi_read LITEX_SPI_MISO 4 s =
  (wrap 32 (spi_miso (spi s)), spi_store_reg LITEX_SPI_MISO (spi_miso (spi s)) s).
Proof.
  unfold spi_read, litex_spi_io_handler. cbv zeta. change (LITEX_SPI_MISO .& wrap 32 (~~ 3)) with LITEX_SPI_MISO. cbn iota.
  change (spi_read_reg LITEX_SPI_MISO (spi s)) with (spi_miso (spi s)). unfold spi_store_reg. fields.
  change (Z.to_nat 4) with 4%nat. by rewrite load_store_bytes.
Qed.

Lemma miso_byte v rx : fits 8 rx -> wrap 32 ((v .& wrap 32 (~~ 0xff)) .| rx) .& 0xff = rx.
Proof. intros F. change 0xff with (Z.ones 8). bits. Qed.

Lemma exchange1_ok tx s c :
  image_ok s -> spi_card (spi s) c -> fits 8 tx ->
  let step := card_step s (nz (spi_cs (spi s) .& 1)) tx c in
  (exchange1 tx s).1 = step.1 /\ spi_card (spi (exchange1 tx s).2) step.2 /\ same_card s (exchange1 tx s).2.
Proof.
  intros Im Sc F. cbv zeta. unfold exchange1. rewrite (write_plain LITEX_SPI_MOSI) by done.
  rewrite (wrap_small 32 tx) by (done || (apply (fits_le 8); done)).
  set (s1 := upd spi _ _). assert (E1 : same_card s s1) by (unfold s1; by split_and!).
  assert (S1 : spi_card (spi s1) c) by (unfold s1; fields; apply (same_spi (spi s)); reflexivity || exact Sc).
  rewrite start_ok. unfold spi_do_control_write. cbv zeta. change (1 .& 1 =? 0) with false. cbn iota. fields.
  set (s2 := s1 <| spi_space ::= fun b => store_bytes b LITEX_SPI_CONTROL 4 1 |> <| spi ::= fun r => r <| spi_control := 1 |> |>).
  set (r2 := (spi s1) <| spi_control := 1 |> <| spi_control := 1 |> <| spi_status ::= fun v => v .& wrap 32 (~~ 1) |>).
  assert (S2 : spi_card r2 c) by (apply (same_spi (spi s1)); reflexivity || exact S1).
  assert (Tx : spi_mosi (spi s1) .& 255 = tx) by (change (wrap 8 tx = tx); by apply wrap_small).
  rewrite Tx. assert (E2 : same_card s s2) by (unfold s2; by split_and!).
  assert (I2 : image_ok s2) by (unfold image_ok; by destruct E2 as (-> & _)).
  pose proof (transfer_refines s2 r2 c tx I2 S2 F) as T. change (spi_cs r2) with (spi_cs (spi s)) in T.
  rewrite (card_step_ext s s2 _ _ _ E2) in T. pose proof (card_step_byte s (nz (spi_cs (spi s) .& 1)) tx c (sc_answer _ _ Sc)) as By.
  destruct (spi_transfer tx s2 r2) as [rx r]. cbn [fst snd] in T. destruct T as (T1 & T2 & T3 & _). rewrite <-T1 in By |- *.
  rewrite miso_read. unfold spi_store_reg. fields. rewrite miso_byte by done. split; [done|]. split.
  - apply (same_spi r); reflexivity || exact T2.
  - split_and!; [done|done|exact T3].
Qed.

Lemma same_card_trans s1 s2 s3 : same_card s1 s2 -> same_card s2 s3 -> same_card s1 s3.
Proof. intros (A1 & A2 & A3) (B1 & B2 & B3). split_and!; congruence. Qed.

Lemma talk_ext s s' sel l c : same_card s s' -> talk s' sel l c = talk s sel l c.
Proof.
  intros E. revert c. induction l as [|tx l IH]; intros c; [done|]. cbn [talk]. rewrite (card_step_ext s s') by done.
  destruct (card_step s sel tx c) as [rx c']. by rewrite IH.
Qed.

Lemma exchange_ok l s c :
  image_ok s -> spi_card (spi s) c -> bytes_ok l ->
  (exchange l s).1 = (talk s (nz (spi_cs (spi s) .& 1)) l c).1 /\
  spi_card (spi (exchange l s).2) (talk s (nz (spi_cs (spi s) .& 1)) l c).2 /\ same_card s (exchange l s).2.
Proof.
  revert s c. induction l as [|tx l IH]; intros s c Im Sc B; [by split_and!|]. apply Forall_cons in B as [Bt B]. cbn [exchange talk].
  pose proof (exchange1_ok tx s c Im Sc Bt) as T. cbv zeta in T. destruct (exchange1 tx s) as [rx s1].
  destruct (card_step s _ tx c) as [rx' c1]. cbn [fst snd] in T. destruct T as (-> & S1 & E1).
  assert (I1 : image_ok s1) by (unfold image_ok; by destruct E1 as (-> & _)). specialize (IH s1 c1 I1 S1 B).
  rewrite (talk_ext s s1) in IH by done. pose proof E1 as (_ & _ & Cs). rewrite Cs in IH.
  destruct (exchange l s1) as [rxs s2]. destruct (talk s _ l c1) as [rxs' c2]. cbn [fst snd] in *. destruct IH as (-> & S2 & E2).
  split; [done|]. split; [done|]. by eapply same_card_trans.
Qed.

(** ** A block is read *)

Lemma talk_app sd sel l1 l2 c : talk sd sel (l1 ++ l2) c =
  ((talk sd sel l1 c).1 ++ (talk sd sel l2 (talk sd sel l1 c).2).1, (talk sd sel l2 (talk sd sel l1 c).2).2).
Proof.
  revert c. induction l1 as [|tx l1 IH]; intros c; cbn [talk app fst snd]; [by destruct (talk sd sel l2 c)|].
  destruct (card_step sd sel tx c) as [rx c']. rewrite IH. by destruct (talk sd sel l1 c').
Qed.

Lemma talk_drain sd tx p : talk sd true (replicate (length p) tx) (p, []) = (p, ([], [])).
Proof. induction p as [|b p IH]; [done|]. cbn [length replicate talk card_step negb]. by rewrite IH. Qed.

(** C19: a driver that sends the command to read a block and then reads as many bytes
    as the answer has gets the response, the token, the block of the image and the
    checksum; the card is ready for the next command. The position of the block is
    taken modulo 2^32, a finding: block 2^23 is read as block 0. *)
Theorem spi_read_block s a3 a2 a1 a0 crc :
  image_ok s -> spi_card (spi s) ([], []) -> spi_cs (spi s) .& 1 <> 0 -> bytes_ok [a3; a2; a1; a0; crc] ->
  let (rx, s') := exchange ([0x51; a3; a2; a1; a0; crc] ++ replicate 516 0xff) s in
  rx = replicate 6 0xff ++ [0; 0xfe] ++ read_block ((argument a3 a2 a1 a0 * 512) mod 2 ^ 32) s ++ [0xff; 0xff] /\
  spi_card (spi s') ([], []) /\ same_card s s'.
Proof.
  intros Im Sc Cs B. unfold bytes_ok in B. rewrite !Forall_cons in B. destruct B as (B3 & B2 & B1 & B0 & Bc & _).
  assert (Bl : bytes_ok ([0x51; a3; a2; a1; a0; crc] ++ replicate 516 0xff)).
  { apply Forall_app. split; [|apply Forall_replicate; by split].
    apply Forall_cons; split; [by split|]. repeat (apply Forall_cons; split; [done|]). by apply Forall_nil. }
  pose proof (exchange_ok _ s ([], []) Im Sc Bl) as E. rewrite (proj2 (nz_true _) Cs) in E. rewrite talk_app in E.
  set (block := read_block ((argument a3 a2 a1 a0 * 512) mod 2 ^ 32) s).
  assert (C : talk s true [0x51; a3; a2; a1; a0; crc] ([], []) = (replicate 6 0xff, ([0; 0xfe] ++ block ++ [0xff; 0xff], []))) by done.
  rewrite C in E. cbn [fst snd] in E. pose proof (read_block_length ((argument a3 a2 a1 a0 * 512) mod 2 ^ 32) s : length block = 512%nat) as L.
  set (resp := [0; 0xfe] ++ block ++ [0xff; 0xff]) in *.
  assert (D : talk s true (replicate 516 0xff) (resp, []) = (resp, ([], []))).
  { assert (Lr : length resp = 516%nat) by (unfold resp; rewrite !length_app, L; done). rewrite <-Lr. apply talk_drain. }
  rewrite D in E. destruct (exchange _ s) as [rx s1]. cbn [fst snd] in E. by destruct E as (-> & S1 & E1).
Qed.

(** ** Witness: block 1 of a card of two blocks *)

Definition two_blocks : gmap Z Z := copy_in ∅ 512 [1; 2; 3].
Definition example_card : sdcard := spi_write LITEX_SPI_CS 4 1 (init_sdcard (Some two_blocks) 1024).

Lemma spi_read_block_witness :
  firstn 11 (exchange ([0x51; 0; 0; 0; 1; 0xff] ++ replicate 516 0xff) example_card).1 =
    [0xff; 0xff; 0xff; 0xff; 0xff; 0xff; 0; 0xfe; 1; 2; 3].
Proof.
  assert (Im : image_ok example_card).
  { apply copy_in_ok; [intros b; rewrite aget_empty; by split|]. repeat (apply Forall_cons; split; [by split|]). by apply Forall_nil. }
  assert (Sc : spi_card (spi example_card) ([], [])) by (split; try done; try (by apply Forall_nil); vm_compute; by split).
  pose proof (spi_read_block example_card 0 0 0 1 0xff Im Sc ltac:(done) ltac:(repeat (apply Forall_cons; split; [by split|]); by apply Forall_nil)) as H.
  destruct (exchange _ example_card) as [rx s']. destruct H as (-> & _). vm_compute. reflexivity.
Defined.
