(* ===== verification/Klib.v ===== *)
(** * Klib: the C library of the guest ([abstract-machine/klib]: [string.c], [stdio.c],
      [stdlib.c])

    As the guest is compiled for RV64: [char] is unsigned, [long] has 64 bits. The
    functions of [string.c] work on a memory of bytes; strings that are only read by
    [stdio.c] and [atoi] are lists without their terminator. An access behind the
    end of a string and an overflow of [int] are [None]. *)
From S2P Require Import Prelude.

(** ** [string.c] *)

Section Memory.
Implicit Types (m : gmap Z Z).

(** A loop that stops at a terminator runs out of fuel where C would run on. *)
Fixpoint strlen_loop (fuel : nat) m (s i : Z) : option Z :=
  match fuel with
  | O => None
  | S fuel => if aget m (s + i) =? 0 then Some i else strlen_loop fuel m s (i + 1)
  end.
Definition strlen (fuel : nat) m (s : Z) : option Z := strlen_loop fuel m s 0.

(** The copying loop of [strcpy] and [strcat]. *)
Fixpoint strcpy_loop (fuel : nat) (dst src i : Z) m : option (gmap Z Z) :=
  match fuel with
  | O => None
  | S fuel =>
      if aget m (src + i) =? 0 then Some (aset m (dst + i) 0)
      else strcpy_loop fuel dst src (i + 1) (aset m (dst + i) (aget m (src + i)))
  end.
Definition strcpy (fuel : nat) (dst src : Z) m : option (Z * gmap Z Z) :=
  option_map (fun m => (dst, m)) (strcpy_loop fuel dst src 0 m).

Definition strcat (fuel : nat) (dst src : Z) m : option (Z * gmap Z Z) :=
  match strlen_loop fuel m dst 0 with
  | None => None
  | Some i => option_map (fun m => (dst, m)) (strcpy_loop fuel (dst + i) src 0 m)
  end.

Fixpoint fill (n : nat) (dst i c : Z) m : gmap Z Z :=
  match n with O => m | S n => fill n dst (i + 1) c (aset m (dst + i) c) end.

Fixpoint strncpy_loop (n : nat) (dst src i : Z) m : gmap Z Z :=
  match n with
  | O => m
  | S n' =>
      if aget m (src + i) =? 0 then fill n dst i 0 m
      else strncpy_loop n' dst src (i + 1) (aset m (dst + i) (aget m (src + i)))
  end.
Definition strncpy (dst src n : Z) m : Z * gmap Z Z := (dst + n, strncpy_loop (Z.to_nat n) dst src 0 m).

Fixpoint strcmp_loop (fuel : nat) m (s1 s2 i : Z) : option Z :=
  match fuel with
  | O => None
  | S fuel =>
      let a := aget m (s1 + i) in
      let b := aget m (s2 + i) in
      if negb (a =? 0) && negb (b =? 0) then
        if negb (a =? b) then Some (a - b) else strcmp_loop fuel m s1 s2 (i + 1)
      else Some (a - b)
  end.
Definition strcmp (fuel : nat) m (s1 s2 : Z) : option Z := strcmp_loop fuel m s1 s2 0.

Fixpoint strncmp_loop (n : nat) m (s1 s2 i : Z) : Z :=
  match n with
  | O => 0
  | S n =>
      let a := aget m (s1 + i) in
      let b := aget m (s2 + i) in
      if negb (a =? 0) && negb (b =? 0) then if negb (a =? b) then a - b else strncmp_loop n m s1 s2 (i + 1) else a - b
  end.
Definition strncmp m (s1 s2 n : Z) : Z := strncmp_loop (Z.to_nat n) m s1 s2 0.

Definition memset (s c n : Z) m : Z * gmap Z Z := (s, fill (Z.to_nat n) s 0 (wrap 8 c) m).

Fixpoint memcpy_loop (n : nat) (out inp i : Z) m : gmap Z Z :=
  match n with O => m | S n => memcpy_loop n out inp (i + 1) (aset m (out + i) (aget m (inp + i))) end.
Definition memcpy (out inp n : Z) m : Z * gmap Z Z := (out, memcpy_loop (Z.to_nat n) out inp 0 m).

(** The loop of [memmove] from the [int] [n - 1] down to 0. *)
Fixpoint memmove_loop (n : nat) (dst src : Z) m : gmap Z Z :=
  match n with O => m | S n' => memmove_loop n' dst src (aset m (dst + Z.of_nat n') (aget m (src + Z.of_nat n'))) end.
Definition memmove (dst src n : Z) m : Z * gmap Z Z :=
  if dst <? src then (dst, (memcpy dst src n m).2)
  else if src <? dst then (dst, memmove_loop (Z.to_nat (signed 32 (wrap 32 (n - 1)) + 1)) dst src m)
  else (dst, m).

Fixpoint memcmp_loop (n : nat) m (s1 s2 i : Z) : Z :=
  match n with
  | O => 0
  | S n =>
      let a := aget m (s1 + i) in
      let b := aget m (s2 + i) in
      if negb (a =? b) then a - b else memcmp_loop n m s1 s2 (i + 1)
  end.
Definition memcmp m (s1 s2 n : Z) : Z := memcmp_loop (Z.to_nat n) m s1 s2 0.

End Memory.

(** ** [stdlib.c] *)

Definition INT_MAX : Z := 2 ^ 31 - 1.

(** [rand] and [srand]: the result and the new [next]. *)
Definition rand (next : Z) : Z * Z :=
  let next := wrap 64 (next * 1103515245 + 12345) in (wrap 32 (next / 65536) mod 32768, next).
Definition srand (seed : Z) : Z := wrap 32 seed.
Definition abs (x : Z) : option Z := if x <? 0 then if x =? - 2 ^ 31 then None else Some (- x) else Some x.

Definition is_digit (c : Z) : bool := (48 <=? c) && (c <=? 57).

Fixpoint atoi_digits (l : list Z) (x : Z) : option Z :=
  match l with
  | c :: l' => if is_digit c then if INT_MAX <? x * 10 + c then None else atoi_digits l' (x * 10 + c - 48) else Some x
  | [] => Some x
  end.
Fixpoint skip_spaces (l : list Z) : list Z := match l with c :: l' => if c =? 32 then skip_spaces l' else l | [] => [] end.
Definition atoi (l : list Z) : option Z := atoi_digits (skip_spaces l) 0.

(** [malloc] bumps its static [addr], 0 before the first call; [free] does nothing. *)
Definition malloc (heap_start size addr : Z) : Z * Z :=
  let p := if addr =? 0 then heap_start else addr in
  let size := wrap 64 (size + 0xff - 1) .& wrap 64 (~~ 0xff) in (p, p + size).
Definition free (ptr addr : Z) : Z := addr.

(** ** [stdio.c] *)

(** An argument of a variadic call: a slot of 64 bits, or a string. *)
Inductive argument := Slot (v : Z) | Text (l : list Z).

Definition digit_char (d : Z) : Z := if d <? 10 then 48 + d else 97 + d - 10.

(** The digits as the loop stores them, the least significant first; [text] has room for 31. *)
Fixpoint digit_loop (room : nat) (value base : Z) : list Z :=
  match room with
  | O => []
  | S room => digit_char (value mod base) :: (if value / base =? 0 then [] else digit_loop room (value / base) base)
  end.
Definition number_text (value base : Z) : list Z := rev (digit_loop 31 value base).

Record directive := mk_directive { zero_pad : bool; left_align : bool; width : Z; long_count : nat }.

Fixpoint parse_width (l : list Z) (w : Z) : option (Z * list Z) :=
  match l with
  | c :: l' => if is_digit c then if INT_MAX <? w * 10 + (c - 48) then None else parse_width l' (w * 10 + (c - 48)) else Some (w, l)
  | [] => Some (w, [])
  end.
Fixpoint parse_longs (l : list Z) (n : nat) : nat * list Z :=
  match l with c :: l' => if c =? 108 then parse_longs l' (S n) else (n, l) | [] => (n, []) end.

Definition parse_directive (l : list Z) : option (directive * list Z) :=
  let '(zero, l) := match l with 48 :: l' => (true, l') | _ => (false, l) end in
  let '(minus, l) := match l with 45 :: l' => (true, l') | _ => (false, l) end in
  match parse_width l 0 with
  | None => None
  | Some (w, l) => let '(n, l) := parse_longs l 0 in Some (mk_directive (zero && negb minus) minus w n, l)
  end.

(** The sign, if any, and the text of a conversion, with the arguments left. *)
Definition convert (d : directive) (c : Z) (args : list argument) : option (list Z * list Z * list argument) :=
  let bits := if (long_count d =? 0)%nat then 32 else 64 in
  if (c =? 117) || (c =? 120) then
    match args with Slot v :: args => Some ([], number_text (wrap bits v) (if c =? 117 then 10 else 16), args) | _ => None end
  else if c =? 112 then match args with Slot v :: args => Some ([], number_text (wrap 64 v) 16, args) | _ => None end
  else if (c =? 100) || (c =? 105) then
    match args with
    | Slot v :: args =>
        let number := signed bits (wrap bits v) in
        if number <? 0 then Some ([45], number_text (wrap bits (- (number + 1)) + 1) 10, args) else Some ([], number_text number 10, args)
    | _ => None
    end
  else if c =? 115 then match args with Text l :: args => Some ([], l, args) | _ => None end
  else if c =? 99 then match args with Slot v :: args => Some ([], [wrap 8 v], args) | _ => None end
  else Some ([], [c], args).

Definition emit (d : directive) (sign text : list Z) : list Z :=
  let padding := Z.to_nat (width d - Z.of_nat (length text) - Z.of_nat (length sign)) in
  (if negb (left_align d) && negb (zero_pad d) then replicate padding 32 else []) ++ sign ++
  (if negb (left_align d) && zero_pad d then replicate padding 48 else []) ++ text ++
  (if left_align d then replicate padding 32 else []).

(** What is stored in [out] before the terminator; a format that ends inside a
    directive is read behind its end. *)
Fixpoint vsprintf (fuel : nat) (fmt : list Z) (args : list argument) : option (list Z) :=
  match fuel with
  | O => None
  | S fuel =>
      match fmt with
      | [] => Some []
      | 37 :: 37 :: fmt => option_map (cons 37) (vsprintf fuel fmt args)
      | 37 :: fmt =>
          match parse_directive fmt with
          | Some (d, c :: fmt) =>
              match convert d c args with
              | Some (sign, text, args) => option_map (app (emit d sign text)) (vsprintf fuel fmt args)
              | None => None
              end
          | _ => None
          end
      | c :: fmt => option_map (cons c) (vsprintf fuel fmt args)
      end
  end.
(** [sprintf]: the text and the number of characters written. *)
Definition sprintf (fmt : list Z) (args : list argument) : option (list Z * Z) :=
  option_map (fun l => (l, Z.of_nat (length l))) (vsprintf (S (length fmt)) fmt args).
