(* ===== verification/KlibSpec.v ===== *)
(** * KlibSpec: the C library of the guest

    [memmove] copies between overlapping buffers, [strcmp] orders strings, printed
    numbers are read back, and [malloc] hands out overlapping blocks for one size in 256. *)
From S2P Require Import Prelude Klib.

Ltac compare_all := repeat match goal with
  | |- context [?x <=? ?y] => destruct (Z.leb_spec x y)
  | |- context [?x <? ?y] => destruct (Z.ltb_spec x y)
  | |- context [?x =? ?y] => destruct (Z.eqb_spec x y)
  end; cbn [andb orb negb]; try (exfalso; lia).

(** ** [memmove] *)

Lemma memcpy_loop_at n out inp i m b :
  out < inp ->
  aget (memcpy_loop n out inp i m) b =
    if (out + i <=? b) && (b <? out + i + Z.of_nat n) then aget m (inp + (b - out)) else aget m b.
Proof.
  intros L. revert i m. induction n as [|n IH]; intros i m; cbn [memcpy_loop]; [by compare_all|].
  rewrite IH, !aget_aset. compare_all; try done. f_equal. lia.
Qed.

Lemma memmove_loop_at n dst src m b :
  src < dst ->
  aget (memmove_loop n dst src m) b = if (dst <=? b) && (b <? dst + Z.of_nat n) then aget m (src + (b - dst)) else aget m b.
Proof.
  intros L. revert m. induction n as [|n IH]; intros m; cbn [memmove_loop]; [by compare_all|].
  rewrite IH, !aget_aset. compare_all; try done. f_equal. lia.
Qed.

(** C33: [memmove] copies as if through a buffer: however the two blocks overlap,
    every byte of the destination gets the byte its source had before the call, and
    no other byte changes. *)
Theorem memmove_simultaneous dst src n m b :
  0 <= n <= 2 ^ 31 ->
  aget (memmove dst src n m).2 b = if (dst <=? b) && (b <? dst + n) then aget m (src + (b - dst)) else aget m b.
Proof.
  intros H. unfold memmove. destruct (Z.ltb_spec dst src) as [L|G]; [|destruct (Z.ltb_spec src dst) as [L|E]]; cbn [snd memcpy].
  - rewrite memcpy_loop_at by done. by rewrite Z.add_0_r, Z2Nat.id by lia.
  - rewrite memmove_loop_at, signed_small, Z.sub_add, Z2Nat.id by lia. done.
  - assert (src = dst) as -> by lia. replace (dst + (b - dst)) with b by lia. by destruct (_ && _).
Qed.

(** A block moved up by one byte over itself. *)
Lemma memmove_simultaneous_witness :
  0 <= 3 <= 2 ^ 31 /\
  let m := aset (aset (aset ∅ 100 1) 101 2) 102 3 in
  aget (memmove 101 100 3 m).2 103 = aget m 102 /\ aget m 102 = 3.
Proof.
  split; [lia|]. cbv zeta. split; [|reflexivity].
  exact (memmove_simultaneous 101 100 3 (aset (aset (aset ∅ 100 1) 101 2) 102 3) 103 ltac:(lia)).
Defined.

(** ** [strcmp] *)

(** A string in memory. *)
Definition cstring (m : gmap Z Z) (s : Z) (l : list Z) : Prop :=
  Forall (fun c => 0 < c < 256) l /\ (forall i c, l !! i = Some c -> aget m (s + Z.of_nat i) = c) /\ aget m (s + Z.of_nat (length l)) = 0.

Lemma cstring_tail m s c l : cstring m s (c :: l) -> 0 < c < 256 /\ aget m s = c /\ cstring m (s + 1) l.
Proof.
  intros (F & A & Z). apply Forall_cons in F as [Fc F]. split; [done|]. split.
  - rewrite <-(Z.add_0_r s). exact (A 0%nat c eq_refl).
  - split; [done|]. split.
    + intros i d Hi. rewrite <-(A (S i) d Hi). f_equal. lia.
    + rewrite <-Z. cbn [length]. f_equal. lia.
Qed.

Lemma cstring_nil m s : cstring m s [] -> aget m s = 0.
Proof. intros (_ & _ & Z). by rewrite <-Z, Z.add_0_r. Qed.

Lemma cstring_cons m s c l : 0 < c < 256 -> aget m s = c -> cstring m (s + 1) l -> cstring m s (c :: l).
Proof.
  intros Hc Ha (F & A & Z). split; [by apply Forall_cons; split|]. split.
  - intros [|i] d Hi; [injection Hi as <-; by rewrite Z.add_0_r|]. rewrite <-(A i d Hi). f_equal. lia.
  - rewrite <-Z. cbn [length]. f_equal. lia.
Qed.

Lemma cstring_ext m m' s l :
  cstring m s l -> (forall b, s <= b <= s + Z.of_nat (length l) -> aget m' b = aget m b) -> cstring m' s l.
Proof.
  intros (F & A & Z) E. split; [done|]. split; [|rewrite E; [done|lia]].
  intros i c Hi. rewrite E; [by apply A|]. apply lookup_lt_Some in Hi. lia.
Qed.

Lemma strlen_loop_ok fuel m s i l :
  cstring m (s + i) l -> (length l < fuel)%nat -> strlen_loop fuel m s i = Some (i + Z.of_nat (length l)).
Proof.
  revert i l. induction fuel as [|fuel IH]; intros i l C L; [lia|]. cbn [strlen_loop]. destruct l as [|c l].
  - rewrite (cstring_nil _ _ C). cbn. by rewrite Z.add_0_r.
  - destruct (cstring_tail _ _ _ _ C) as (Hc & -> & T). rewrite (proj2 (Z.eqb_neq _ 0)) by lia. rewrite <-Z.add_assoc in T.
    rewrite (IH _ _ T) by (cbn [length] in L; lia). f_equal. cbn [length]. lia.
Qed.

(** A string copied to a place it does not overlap. *)
Lemma strcpy_loop_ok fuel dst src i l m :
  cstring m (src + i) l -> (length l < fuel)%nat ->
  (dst + i + Z.of_nat (length l) < src + i \/ src + i + Z.of_nat (length l) < dst + i) ->
  exists m', strcpy_loop fuel dst src i m = Some m' /\ cstring m' (dst + i) l /\
    forall b, ~ (dst + i <= b <= dst + i + Z.of_nat (length l)) -> aget m' b = aget m b.
Proof.
  revert i l m. induction fuel as [|fuel IH]; intros i l m C L D; [lia|]. cbn [strcpy_loop]. destruct l as [|c l]; cbn [length] in *.
  - rewrite (cstring_nil _ _ C). cbn. eexists. split; [done|]. split.
    + split; [done|]. split; [done|]. cbn. by rewrite Z.add_0_r, aget_aset, Z.eqb_refl.
    + intros b Hb. rewrite aget_aset. compare_all; lia || done.
  - destruct (cstring_tail _ _ _ _ C) as (Hc & -> & T). rewrite (proj2 (Z.eqb_neq _ 0)) by lia. rewrite <-Z.add_assoc in T.
    destruct (IH (i + 1) l (aset m (dst + i) c)) as (m' & E & Cp & O); [|lia|lia|].
    { apply (cstring_ext m); [done|]. intros b Hb. rewrite aget_aset. compare_all; done. }
    exists m'. split; [done|]. split.
    + apply cstring_cons; [done| |by rewrite <-Z.add_assoc]. rewrite O by lia. rewrite aget_aset. by rewrite Z.eqb_refl.
    + intros b Hb. rewrite O by lia. rewrite aget_aset. compare_all; done.
Qed.

(** [strcat] makes the concatenation, when the result does not reach the second string. *)
Theorem strcat_concatenates m dst src l1 l2 fuel :
  cstring m dst l1 -> cstring m src l2 -> (length l1 < fuel)%nat -> (length l2 < fuel)%nat ->
  (dst + Z.of_nat (length l1 + length l2) < src \/ src + Z.of_nat (length l2) < dst) ->
  exists m', strcat fuel dst src m = Some (dst, m') /\ cstring m' dst (l1 ++ l2) /\ cstring m' src l2.
Proof.
  intros C1 C2 L1 L2 D. unfold strcat. rewrite (strlen_loop_ok fuel m dst 0 l1) by (by rewrite ?Z.add_0_r).
  destruct (strcpy_loop_ok fuel (dst + (0 + Z.of_nat (length l1))) src 0 l2 m) as (m' & -> & Cp & O); [by rewrite Z.add_0_r|done|lia|].
  exists m'. split; [done|]. split; [|apply (cstring_ext m); [done|intros b Hb; apply O; lia]].
  assert (P : forall b, dst <= b < dst + Z.of_nat (length l1) -> aget m' b = aget m b) by (intros b Hb; apply O; lia).
  replace (dst + (0 + Z.of_nat (length l1)) + 0) with (dst + Z.of_nat (length l1)) in Cp by lia.
  clear O D L1 L2 C2. revert dst C1 Cp P. induction l1 as [|c l1 IH]; intros dst C1 Cp P; cbn [app length] in *.
  - by rewrite Z.add_0_r in Cp.
  - destruct (cstring_tail _ _ _ _ C1) as (Hc & Ha & T). apply cstring_cons; [done|rewrite P; [done|lia]|].
    apply IH; [done| |intros b Hb; apply P; lia]. by replace (dst + 1 + Z.of_nat (length l1)) with (dst + Z.of_nat (S (length l1))) by lia.
Qed.

(** The order of strings by their first difference, as unsigned bytes. *)
Fixpoint string_order (l1 l2 : list Z) : comparison :=
  match l1, l2 with
  | [], [] => Eq
  | [], _ => Lt
  | _, [] => Gt
  | a :: l1, b :: l2 => match a ?= b with Eq => string_order l1 l2 | c => c end
  end.

Lemma strcmp_loop_ok fuel m s1 s2 i l1 l2 :
  cstring m (s1 + i) l1 -> cstring m (s2 + i) l2 -> (length l1 < fuel)%nat ->
  exists v, strcmp_loop fuel m s1 s2 i = Some v /\ (v ?= 0) = string_order l1 l2.
Proof.
  revert i l1 l2. induction fuel as [|fuel IH]; intros i l1 l2 C1 C2 L; [lia|]. cbn [strcmp_loop]. cbv zeta.
  destruct l1 as [|a l1], l2 as [|b l2]; cbn [string_order].
  - rewrite (cstring_nil _ _ C1), (cstring_nil _ _ C2). cbn. by eexists.
  - destruct (cstring_tail _ _ _ _ C2) as (Hb & -> & _). rewrite (cstring_nil _ _ C1). cbn [Z.eqb negb andb].
    eexists. split; [done|]. apply Z.compare_lt_iff. lia.
  - destruct (cstring_tail _ _ _ _ C1) as (Ha & -> & _). rewrite (cstring_nil _ _ C2). cbn [Z.eqb negb]. rewrite andb_false_r.
    eexists. split; [done|]. apply Z.compare_gt_iff. lia.
  - destruct (cstring_tail _ _ _ _ C1) as (Ha & -> & T1). destruct (cstring_tail _ _ _ _ C2) as (Hb & -> & T2).
    rewrite !(proj2 (Z.eqb_neq _ 0)) by lia. cbn [negb andb]. destruct (Z.eqb_spec a b) as [->|N]; cbn [negb].
    + rewrite Z.compare_refl. rewrite <-Z.add_assoc in T1, T2. apply IH; [done..|cbn [length] in L; lia].
    + eexists. split; [done|]. rewrite <-Z.compare_sub. by destruct (Z.compare_spec a b).
Qed.

(** On two strings [strcmp] ends and its sign is the order of the strings as
    unsigned bytes: zero exactly for equal strings. *)
Theorem strcmp_orders m s1 s2 l1 l2 fuel :
  cstring m s1 l1 -> cstring m s2 l2 -> (length l1 < fuel)%nat ->
  exists v, strcmp fuel m s1 s2 = Some v /\ (v ?= 0) = string_order l1 l2 /\ (v = 0 <-> l1 = l2).
Proof.
  intros C1 C2 L. destruct (strcmp_loop_ok fuel m s1 s2 0 l1 l2) as (v & E & O); [by rewrite Z.add_0_r..|done|].
  exists v. split; [done|]. split; [done|]. rewrite <-Z.compare_eq_iff, O. clear. revert l2.
  induction l1 as [|a l1 IH]; intros [|b l2]; cbn [string_order]; try (split; discriminate); [done|].
  destruct (Z.compare_spec a b) as [->|N|N].
  - rewrite IH. split; [by intros ->|by intros [= ->]].
  - split; [done|]. intros [= -> _]. lia.
  - split; [done|]. intros [= -> _]. lia.
Qed.

Lemma strcmp_orders_witness :
  let m := aset (aset ∅ 100 255) 200 65 in
  cstring m 100 [255] /\ cstring m 200 [65] /\
  exists v, strcmp 2 m 100 200 = Some v /\ (v ?= 0) = Gt /\ (v = 0 <-> [255] = [65]).
Proof.
  cbv zeta.
  assert (C1 : cstring (aset (aset ∅ 100 255) 200 65) 100 [255]) by (split; [by repeat constructor|]; split; [intros [|[|i]] c [= <-]|]; reflexivity).
  assert (C2 : cstring (aset (aset ∅ 100 255) 200 65) 200 [65]) by (split; [by repeat constructor|]; split; [intros [|[|i]] c [= <-]|]; reflexivity).
  split; [exact C1|]. split; [exact C2|].
  exact (strcmp_orders (aset (aset ∅ 100 255) 200 65) 100 200 [255] [65] 2 C1 C2 ltac:(cbn; lia)).
Defined.

(** ** [malloc] *)

Lemma malloc_round size : 0 <= size < 2 ^ 64 - 255 -> wrap 64 (size + 0xff - 1) .& wrap 64 (~~ 0xff) = (size + 254) / 256 * 256.
Proof.
  intros H. rewrite (wrap_small 64) by (done || (unfold fits; lia)).
  assert (E : forall x, 0 <= x < 2 ^ 64 -> x .& wrap 64 (~~ 255) = (x >> 8) << 8).
  { intros x Hx. change 255 with (Z.ones 8). assert (F : fits 64 x) by exact Hx. bits. }
  rewrite E by lia. rewrite Z.shiftl_mul_pow2, Z.shiftr_div_pow2 by done. change (2 ^ 8) with 256.
  by replace (size + 255 - 1) with (size + 254) by lia.
Qed.

(** A finding: the rounding of [malloc] adds 254 where it needs 255, so that
    the next block lies behind a block of [size] bytes exactly when [size] is not
    one more than a multiple of 256; after such a block it overlaps the last byte,
    and a block of one byte and its successor are the same. *)
Theorem malloc_overlaps heap_start size addr :
  0 < heap_start -> 0 <= addr -> 0 < size < 2 ^ 64 - 255 ->
  let '(p, addr1) := malloc heap_start size addr in
  let '(q, _) := malloc heap_start size addr1 in
  p = (if addr =? 0 then heap_start else addr) /\ (p + size <= q <-> size mod 256 <> 1) /\ (size mod 256 = 1 -> q = p + size - 1).
Proof.
  intros Hh Ha H. unfold malloc. rewrite malloc_round by lia. cbv zeta. cbn [fst snd]. split; [done|].
  assert (P : 0 < (if addr =? 0 then heap_start else addr)) by (destruct (Z.eqb_spec addr 0); lia).
  set (p := if addr =? 0 then heap_start else addr) in *. assert (D : 0 <= (size + 254) / 256) by (apply Z.div_pos; lia).
  rewrite (proj2 (Z.eqb_neq (p + _) 0)) by lia. clear D. Z.to_euclidean_division_equations. lia.
Qed.

(** 257 bytes at [0x80001000] get 256. *)
Lemma malloc_overlaps_witness :
  malloc 0x80001000 257 0 = (0x80001000, 0x80001100) /\ 257 mod 256 = 1 /\
  let '(p, addr1) := malloc 0x80001000 257 0 in
  let '(q, _) := malloc 0x80001000 257 addr1 in
  p = 0x80001000 /\ (p + 257 <= q <-> 257 mod 256 <> 1) /\ (257 mod 256 = 1 -> q = p + 257 - 1).
Proof.
  split; [reflexivity|]. split; [reflexivity|].
  exact (malloc_overlaps 0x80001000 257 0 ltac:(lia) ltac:(lia) ltac:(lia)).
Defined.

(** ** Printed numbers *)

(** A reader of numbers: spaces, a sign, digits. *)
Fixpoint read_digits (l : list Z) (x : Z) : Z :=
  match l with c :: l' => if is_digit c then read_digits l' (x * 10 + (c - 48)) else x | [] => x end.
Definition read_int (l : list Z) : Z :=
  match skip_spaces l with 45 :: l => - read_digits l 0 | l => read_digits l 0 end.

Lemma digit_char_10 d : 0 <= d < 10 -> digit_char d = 48 + d.
Proof. intros H. unfold digit_char. by rewrite (proj2 (Z.ltb_lt _ _)) by lia. Qed.

Lemma is_digit_char d : 0 <= d < 10 -> is_digit (48 + d) = true.
Proof. intros H. unfold is_digit. by rewrite !(proj2 (Z.leb_le _ _)) by lia. Qed.

Lemma digit_loop_step room v :
  0 <= v < 10 ^ Z.of_nat (S room) ->
  rev (digit_loop (S room) v 10) = (if v / 10 =? 0 then [] else rev (digit_loop room (v / 10) 10)) ++ [48 + v mod 10] /\
  0 <= v mod 10 < 10 /\ 0 <= v / 10 < 10 ^ Z.of_nat room /\ v = 10 * (v / 10) + v mod 10.
Proof.
  intros H. pose proof (Z.mod_pos_bound v 10 ltac:(lia)) as M. pose proof (Z.div_mod v 10 ltac:(lia)) as D.
  split; [|split; [done|split; [split|exact D]]].
  - cbn [digit_loop rev]. rewrite digit_char_10 by done. by destruct (v / 10 =? 0).
  - apply Z.div_pos; lia.
  - apply Z.div_lt_upper_bound; [lia|]. rewrite Nat2Z.inj_succ, Z.pow_succ_r in H by lia. lia.
Qed.

(** Reading the digits of [v] behind [x] gives their number. *)
Definition behind (x v : Z) (room : nat) : Z := x * 10 ^ Z.of_nat (length (digit_loop room v 10)) + v.

Lemma behind_step x v room : 0 <= v < 10 ^ Z.of_nat (S room) ->
  behind x v (S room) = (if v / 10 =? 0 then x else behind x (v / 10) room) * 10 + v mod 10.
Proof.
  intros H. destruct (digit_loop_step room v H) as (_ & M & D & E). unfold behind. cbn [digit_loop length].
  destruct (Z.eqb_spec (v / 10) 0) as [Z|Z]; cbn [length].
  - change (Z.of_nat 1) with 1. lia.
  - rewrite Nat2Z.inj_succ, Z.pow_succ_r by lia. lia.
Qed.

Lemma read_digits_text room v x rest : 0 <= v < 10 ^ Z.of_nat (S room) ->
  read_digits (rev (digit_loop (S room) v 10) ++ rest) x = read_digits rest (behind x v (S room)).
Proof.
  revert v x rest. induction room as [|room IH]; intros v x rest H; rewrite behind_step by done;
    destruct (digit_loop_step _ v H) as (-> & M & D & E); rewrite <-app_assoc; destruct (Z.eqb_spec (v / 10) 0) as [Z|Z]; cbn [app].
  1, 3: cbn [read_digits]; rewrite is_digit_char by done; f_equal; lia.
  - change (10 ^ Z.of_nat 0) with 1 in D. lia.
  - rewrite IH by done. cbn [read_digits]. rewrite is_digit_char by done. f_equal. lia.
Qed.

Lemma parse_width_text room v x rest : 0 <= v < 10 ^ Z.of_nat (S room) -> 0 <= x -> behind x v (S room) <= INT_MAX ->
  parse_width (rev (digit_loop (S room) v 10) ++ rest) x = parse_width rest (behind x v (S room)).
Proof.
  revert v x rest. induction room as [|room IH]; intros v x rest H X; rewrite behind_step by done;
    destruct (digit_loop_step _ v H) as (-> & M & D & E); rewrite <-app_assoc; destruct (Z.eqb_spec (v / 10) 0) as [Z|Z]; cbn [app]; intros B.
  1, 3: cbn [parse_width]; rewrite is_digit_char by done; rewrite (proj2 (Z.ltb_ge _ _)) by lia; f_equal; lia.
  - change (10 ^ Z.of_nat 0) with 1 in D. lia.
  - assert (P : 0 <= behind x (v / 10) (S room)) by (unfold behind; apply Z.add_nonneg_nonneg; [apply Z.mul_nonneg_nonneg; [done|apply Z.pow_nonneg; lia]|lia]).
    rewrite IH by (done || lia). cbn [parse_width]. rewrite is_digit_char by done.
    rewrite (proj2 (Z.ltb_ge _ _)) by lia. f_equal. lia.
Qed.

Lemma atoi_text room v x rest : 0 <= v < 10 ^ Z.of_nat (S room) -> 0 <= x -> behind x v (S room) <= INT_MAX ->
  atoi_digits (rev (digit_loop (S room) v 10) ++ rest) x =
    if behind x v (S room) <=? INT_MAX - 48 then atoi_digits rest (behind x v (S room)) else None.
Proof.
  revert v x rest. induction room as [|room IH]; intros v x rest H X; rewrite behind_step by done;
    destruct (digit_loop_step _ v H) as (-> & M & D & E); rewrite <-app_assoc; destruct (Z.eqb_spec (v / 10) 0) as [Z|Z]; cbn [app]; intros B.
  1, 3: cbn [atoi_digits]; rewrite is_digit_char by done; compare_all; try done; f_equal; lia.
  - change (10 ^ Z.of_nat 0) with 1 in D. lia.
  - assert (P : 0 <= behind x (v / 10) (S room)) by (unfold behind; apply Z.add_nonneg_nonneg; [apply Z.mul_nonneg_nonneg; [done|apply Z.pow_nonneg; lia]|lia]).
    unfold INT_MAX in *. rewrite IH by (done || lia). rewrite (proj2 (Z.leb_le (behind x (v / 10) (S room)) _)) by lia. cbn [atoi_digits].
    rewrite is_digit_char by done. unfold INT_MAX. compare_all; try done; f_equal; lia.
Qed.

Lemma behind_zero v room : behind 0 v room = v.
Proof. unfold behind. lia. Qed.

(** The room for the digits of an [int]. *)
Lemma room_31 v : 0 <= v <= 2 ^ 31 -> 0 <= v < 10 ^ Z.of_nat 31.
Proof. intros H. change (10 ^ Z.of_nat 31) with 10000000000000000000000000000000; lia. Qed.

(** The text starts with a digit, not a zero unless the number is zero. *)
Lemma text_head room v : 0 <= v < 10 ^ Z.of_nat (S room) ->
  exists d l, rev (digit_loop (S room) v 10) = (48 + d) :: l /\ 0 <= d < 10 /\ (0 < v -> 0 < d).
Proof.
  revert v. induction room as [|room IH]; intros v H; destruct (digit_loop_step _ v H) as (-> & M & D & E);
    destruct (Z.eqb_spec (v / 10) 0) as [Z|Z]; cbn [app].
  1, 3: exists (v mod 10), []; split; [done|lia].
  - change (10 ^ Z.of_nat 0) with 1 in D. lia.
  - destruct (IH (v / 10) D) as (d & l & -> & Hd & Pd). exists d, (l ++ [48 + v mod 10]). split; [done|]. split; [done|]. intros _. apply Pd. lia.
Qed.

(** ** What [sprintf] writes for [%d] *)

Lemma vsprintf_directive fuel c l args : c <> 37 ->
  vsprintf (S fuel) (37 :: c :: l) args =
    match parse_directive (c :: l) with
    | Some (d, c :: fmt) =>
        match convert d c args with
        | Some (sign, text, args) => option_map (app (emit d sign text)) (vsprintf fuel fmt args)
        | None => None
        end
    | _ => None
    end.
Proof. intros N. destruct c as [|p|p]; [done| |done]. do 6 (try destruct p as [p|p|]); done. Qed.

Lemma no_zero_flag c (l : list Z) : c <> 48 -> match c :: l with 48 :: l' => (true, l') | _ => (false, c :: l) end = (false, c :: l).
Proof. intros N. destruct c as [|p|p]; [done| |done]. do 6 (try destruct p as [p|p|]); done. Qed.

Lemma no_minus_flag c (l : list Z) : c <> 45 -> match c :: l with 45 :: l' => (true, l') | _ => (false, c :: l) end = (false, c :: l).
Proof. intros N. destruct c as [|p|p]; [done| |done]. do 6 (try destruct p as [p|p|]); done. Qed.

(** The text of a directive, behind its [%]. *)
Definition directive_text (zero minus : bool) (w : Z) : list Z :=
  (if zero then [48] else []) ++ (if minus then [45] else []) ++ (if w =? 0 then [] else number_text w 10) ++ [100].

(** The width and the conversion, as they follow the flags. *)
Lemma width_text w : 0 <= w <= INT_MAX ->
  exists c l, (if w =? 0 then [] else number_text w 10) ++ [100] = c :: l /\ 48 < c <= 100 /\ parse_width (c :: l) 0 = Some (w, [100]).
Proof.
  intros H. unfold number_text. destruct (Z.eqb_spec w 0) as [->|N]; [exists 100, []; done|].
  assert (B : 0 <= w < 10 ^ Z.of_nat 31) by (apply room_31; unfold INT_MAX in H; lia).
  destruct (text_head 30 w B) as (d & l & E & Hd & P). exists (48 + d), (l ++ [100]). specialize (P ltac:(lia)).
  split; [by rewrite E|]. split; [lia|].
  transitivity (parse_width (rev (digit_loop 31 w 10) ++ [100]) 0); [by rewrite E|].
  rewrite parse_width_text, behind_zero; [done|done|done|]. rewrite behind_zero. lia.
Qed.

Lemma parse_directive_text zero minus w : 0 <= w <= INT_MAX ->
  parse_directive (directive_text zero minus w) = Some (mk_directive (zero && negb minus) minus w 0, [100]).
Proof.
  intros H. unfold directive_text, parse_directive. destruct (width_text w H) as (c & l & E & B & P).
  rewrite E. destruct zero, minus; cbn [app]; rewrite ?no_zero_flag, ?no_minus_flag by lia; by rewrite P.
Qed.

(** What is written: at most one of the three paddings is there. *)
Lemma emit_shape d sign text : 0 <= width d ->
  exists a b c, emit d sign text = replicate a 32 ++ sign ++ replicate b 48 ++ text ++ replicate c 32 /\
    Z.of_nat (length (emit d sign text)) = Z.max (width d) (Z.of_nat (length sign + length text)) /\
    (left_align d = true -> a = 0%nat).
Proof.
  intros H. unfold emit. set (n := Z.to_nat _).
  destruct (left_align d), (zero_pad d); cbn [negb andb];
    [exists 0%nat, 0%nat, n|exists 0%nat, 0%nat, n|exists 0%nat, n, 0%nat|exists n, 0%nat, 0%nat];
    (split; [done|]); (split; [|done]); cbn [replicate app]; rewrite ?length_app, ?length_replicate; cbn [length]; lia.
Qed.

Lemma skip_spaces_replicate a l : skip_spaces (replicate a 32 ++ l) = skip_spaces l.
Proof. by induction a. Qed.

Lemma read_zeros b l : read_digits (replicate b 48 ++ l) 0 = read_digits l 0.
Proof. by induction b. Qed.

Lemma atoi_zeros b l : atoi_digits (replicate b 48 ++ l) 0 = atoi_digits l 0.
Proof. by induction b. Qed.

Lemma read_spaces c x : read_digits (replicate c 32) x = x.
Proof. by destruct c. Qed.

Lemma atoi_spaces c x : atoi_digits (replicate c 32) x = Some x.
Proof. by destruct c. Qed.

Lemma digits_head b v rest : 0 <= v <= 2 ^ 31 -> exists d l, replicate b 48 ++ number_text v 10 ++ rest = (48 + d) :: l /\ 0 <= d < 10.
Proof.
  intros H. destruct b as [|b]; [|by exists 0, (replicate b 48 ++ number_text v 10 ++ rest)].
  destruct (text_head 30 v) as (d & l & E & B & _); [by apply room_31|].
  exists d, (l ++ rest). split; [|done]. unfold number_text. by rewrite E.
Qed.

Lemma skip_spaces_digits d l : 0 <= d < 10 -> skip_spaces ((48 + d) :: l) = (48 + d) :: l.
Proof. intros H. cbn [skip_spaces]. by rewrite (proj2 (Z.eqb_neq _ 32)) by lia. Qed.

Lemma read_int_digits d l : 0 <= d < 10 -> read_int ((48 + d) :: l) = read_digits ((48 + d) :: l) 0.
Proof.
  intros H. unfold read_int. rewrite skip_spaces_digits by done.
  assert (N : 48 + d <> 45) by lia. revert N. generalize (48 + d). intros c N.
  destruct c as [|p|p]; [done| |done]. do 6 (try destruct p as [p|p|]); done.
Qed.

Lemma read_number b v c : 0 <= v <= 2 ^ 31 -> read_digits (replicate b 48 ++ number_text v 10 ++ replicate c 32) 0 = v.
Proof.
  intros H. rewrite read_zeros. unfold number_text.
  rewrite read_digits_text by (by apply room_31).
  by rewrite behind_zero, read_spaces.
Qed.

Lemma atoi_number b v c : 0 <= v <= INT_MAX ->
  atoi_digits (replicate b 48 ++ number_text v 10 ++ replicate c 32) 0 = if v <=? INT_MAX - 48 then Some v else None.
Proof.
  intros H. unfold INT_MAX in H. rewrite atoi_zeros. unfold number_text.
  rewrite atoi_text; rewrite ?behind_zero; unfold INT_MAX; [|change (10 ^ Z.of_nat 31) with 10000000000000000000000000000000; lia|lia..].
  by rewrite atoi_spaces.
Qed.

(** C32: [sprintf] of [%d] under any flags and any width prints the [int] it is
    given: the text is padded to the width, a reader of numbers gets the [int] back,
    and so does [atoi] for a number that is not negative, unless it is one of the
    last 48, where the sum [x * 10 + c - '0'] overflows before its subtraction. *)
Theorem sprintf_reads_back zero minus w v :
  0 <= w <= INT_MAX ->
  let n := signed 32 (wrap 32 v) in
  exists text, sprintf (37 :: directive_text zero minus w) [Slot v] = Some (text, Z.of_nat (length text)) /\
    Z.of_nat (length text) = Z.max w (Z.of_nat ((if n <? 0 then 1 else 0) + length (number_text (Z.abs n) 10))) /\
    read_int text = n /\
    (0 <= n -> atoi text = if n <=? INT_MAX - 48 then Some n else None).
Proof.
  intros H n. pose proof (signed_range 32 (wrap 32 v) ltac:(lia)) as R. fold n in R.
  pose proof (parse_directive_text zero minus w H) as P.
  destruct (directive_text zero minus w) as [|c0 l0] eqn:T; [by destruct zero, minus; unfold directive_text in T; destruct (w =? 0)|].
  assert (N0 : c0 <> 37).
  { unfold directive_text in T. destruct (width_text w H) as (c & l & E & B & _). rewrite E in T. destruct zero, minus; cbn [app] in T; injection T; lia. }
  set (d := mk_directive (zero && negb minus) minus w 0) in *.
  set (sign := if n <? 0 then [45] else []).
  assert (C : convert d 100 [Slot v] = Some (sign, number_text (Z.abs n) 10, [])).
  { unfold convert. cbn. fold n. unfold sign. destruct (Z.ltb_spec n 0) as [L|G]; [|by rewrite Z.abs_eq].
    rewrite wrap_small by (unfold fits; lia). by replace (- (n + 1) + 1) with (Z.abs n) by lia. }
  exists (emit d sign (number_text (Z.abs n) 10)).
  unfold sprintf. rewrite vsprintf_directive, P, C by done. cbn [length vsprintf option_map]. rewrite app_nil_r. split; [done|].
  destruct (emit_shape d sign (number_text (Z.abs n) 10)) as (a & b & c & E & L & _); [cbn; lia|].
  rewrite L. split; [cbn [width d]; unfold sign; by destruct (n <? 0)|]. rewrite E. clear E L. unfold read_int, atoi. rewrite !skip_spaces_replicate.
  destruct (digits_head b (Z.abs n) (replicate c 32)) as (e & l & Eh & Be); [lia|]. unfold sign. destruct (Z.ltb_spec n 0) as [Ln|Gn]; cbn [app].
  - split; [|lia]. cbn [skip_spaces Z.eqb Pos.eqb]. rewrite read_number; lia.
  - rewrite Eh. split.
    + change (read_int ((48 + e) :: l) = n) || fold (read_int ((48 + e) :: l)). rewrite read_int_digits by done. rewrite <-Eh, read_number; lia.
    + intros _. rewrite skip_spaces_digits by done. rewrite <-Eh, atoi_number by (unfold INT_MAX; lia). by rewrite Z.abs_eq.
Qed.

(** [sprintf(out, "%06d", -42)] writes [-00042]. *)
Lemma sprintf_reads_back_witness :
  0 <= 6 <= INT_MAX /\ 37 :: directive_text true false 6 = [37; 48; 54; 100] /\ signed 32 (wrap 32 (-42)) = -42 /\
  exists text, sprintf (37 :: directive_text true false 6) [Slot (-42)] = Some (text, Z.of_nat (length text)) /\
    Z.of_nat (length text) = 6 /\ read_int text = -42 /\ (0 <= -42 -> atoi text = Some (-42)).
Proof.
  assert (H : 0 <= 6 <= INT_MAX) by (unfold INT_MAX; lia).
  split; [exact H|]. split; [reflexivity|]. split; [reflexivity|].
  destruct (sprintf_reads_back true false 6 (-42) H) as (text & E & L & R & A). exists text.
  split; [exact E|]. split; [exact L|]. split; [exact R|exact A].
Defined.
