(* ===== verification/Fs.v ===== *)
(** * Fs: the file system of the guest kernel ([nanos-lite]: [fs.c], [ramdisk.c], [device.c])

    Files are ranges of a disk in memory; the table of the regular files is
    generated when the disk is built and a parameter of [init_fs]. [user_mem] is the
    memory of the programs. The kernel has one program here: [yield] is left out.
    A failed assertion and what C leaves undefined are [Panic]. *)
From Stdlib Require Import String Ascii.
From S2P Require Import Prelude Config Machine Paddr Klib.

(** The characters of a string. *)
Definition chars (s : string) : list Z := map (fun c => Z.of_nat (nat_of_ascii c)) (list_ascii_of_string s).
Arguments chars s%_string_scope.

Inductive ReadFn := invalid_read | events_read | dispinfo_read | ramdisk_read.
Inductive WriteFn := invalid_write | serial_write | fb_write | ramdisk_write.

Record Finfo := mk_file {
  name : list Z;
  size : Z;
  disk_offset : Z;
  read : ReadFn;
  write : WriteFn;
  open_offset : Z;
}.
#[export] Instance file_fields : Fields Finfo := fun f =>
  mk_file (name f) (size f) (disk_offset f) (read f) (write f) (open_offset f).
#[export] Instance set_size : Setter size := ltac:(build_setter size).
#[export] Instance set_open_offset : Setter open_offset := ltac:(build_setter open_offset).

(** The kernel with what it drives: the console, the keys to come, the areas drawn. *)
Record kernel := mk_kernel {
  file_table : list Finfo;
  ramdisk : gmap Z Z;
  user_mem : gmap Z Z;
  console : list Z;
  keys : list (bool * Z);
  drawn : list (Z * Z * list Z);
}.
#[export] Instance kernel_fields : Fields kernel := fun k =>
  mk_kernel (file_table k) (ramdisk k) (user_mem k) (console k) (keys k) (drawn k).
#[export] Instance set_file_table : Setter file_table := ltac:(build_setter file_table).
#[export] Instance set_ramdisk : Setter ramdisk := ltac:(build_setter ramdisk).
#[export] Instance set_user_mem : Setter user_mem := ltac:(build_setter user_mem).
#[export] Instance set_console : Setter console := ltac:(build_setter console).
#[export] Instance set_keys : Setter keys := ltac:(build_setter keys).
#[export] Instance set_drawn : Setter drawn := ltac:(build_setter drawn).

Definition SEEK_SET : Z := 0.
Definition SEEK_CUR : Z := 1.
Definition SEEK_END : Z := 2.
Definition FD_FB : nat := 5.

(** [AM_KEYS], from key code 1 on. *)
Definition AM_KEYS : list string :=
  ["ESCAPE"; "F1"; "F2"; "F3"; "F4"; "F5"; "F6"; "F7"; "F8"; "F9"; "F10"; "F11"; "F12";
   "GRAVE"; "1"; "2"; "3"; "4"; "5"; "6"; "7"; "8"; "9"; "0"; "MINUS"; "EQUALS"; "BACKSPACE";
   "TAB"; "Q"; "W"; "E"; "R"; "T"; "Y"; "U"; "I"; "O"; "P"; "LEFTBRACKET"; "RIGHTBRACKET"; "BACKSLASH";
   "CAPSLOCK"; "A"; "S"; "D"; "F"; "G"; "H"; "J"; "K"; "L"; "SEMICOLON"; "APOSTROPHE"; "RETURN";
   "LSHIFT"; "Z"; "X"; "C"; "V"; "B"; "N"; "M"; "COMMA"; "PERIOD"; "SLASH"; "RSHIFT";
   "LCTRL"; "APPLICATION"; "LALT"; "SPACE"; "RALT"; "RCTRL";
   "UP"; "DOWN"; "LEFT"; "RIGHT"; "INSERT"; "DELETE"; "HOME"; "END"; "PAGEUP"; "PAGEDOWN"]%string.
Definition keyname (keycode : Z) : option (list Z) := chars <$> ("NONE"%string :: AM_KEYS) !! Z.to_nat keycode.

Section Fs.
(** The size of the disk, and of the screen. *)
Context (RAMDISK_SIZE screen_width screen_height : Z).

Definition store (buf : Z) (bytes : list Z) : M kernel unit := modify (fun k => k <| user_mem ::= fun m => copy_in m buf bytes |>).

(** ** Devices *)

Definition read_events (buf : Z) : M kernel Z :=
  k ← get;
  match keys k with
  | [] => mret 0
  | (keydown, keycode) :: rest =>
      modify (fun k => k <| keys := rest |>);;
      if keycode =? 0 then mret 0
      else
        match keyname keycode with
        | None => panic
        | Some key =>
            match sprintf (chars "%s %s") [Text (chars (if keydown : bool then "kd" else "ku")); Text key] with
            | None => panic
            | Some (text, n) => store buf (text ++ [0]);; mret n
            end
        end
  end.

Definition read_dispinfo (buf : Z) : M kernel Z :=
  match sprintf (chars "WIDTH: %d" ++ [10] ++ chars "HEIGHT: %d") [Slot screen_width; Slot screen_height] with
  | None => panic
  | Some (text, ret) => store buf (text ++ [0]);; mret (ret + 1)
  end.

Definition write_serial (buf len : Z) : M kernel Z :=
  modify (fun k => k <| console ::= fun l => l ++ copy_out (user_mem k) buf (Z.to_nat len) |>);; mret 0.

(** The area drawn is a line of [len] pixels. *)
Definition write_fb (buf offset len : Z) : M kernel Z :=
  if screen_width =? 0 then panic
  else
    let x := signed 32 (wrap 32 (offset mod screen_width)) in
    let y := signed 32 (wrap 32 (offset / screen_width)) in
    modify (fun k => k <| drawn ::= fun l => l ++ [(x, y, copy_out (user_mem k) buf (4 * Z.to_nat len))] |>);; mret len.

(** ** The disk *)

Definition in_ramdisk (offset len : Z) : bool := wrap 64 (offset + len) <=? RAMDISK_SIZE.

Definition read_ramdisk (buf offset len : Z) : M kernel Z :=
  if negb (in_ramdisk offset len) then panic
  else k ← get; store buf (copy_out (ramdisk k) offset (Z.to_nat len));; mret len.

Definition write_ramdisk (buf offset len : Z) : M kernel Z :=
  if negb (in_ramdisk offset len) then panic
  else modify (fun k => k <| ramdisk ::= fun d => copy_in d offset (copy_out (user_mem k) buf (Z.to_nat len)) |>);; mret len.

Definition call_read (f : ReadFn) (buf offset len : Z) : M kernel Z :=
  match f with
  | invalid_read => panic
  | events_read => read_events buf
  | dispinfo_read => read_dispinfo buf
  | ramdisk_read => read_ramdisk buf offset len
  end.
Definition call_write (f : WriteFn) (buf offset len : Z) : M kernel Z :=
  match f with
  | invalid_write => panic
  | serial_write => write_serial buf len
  | fb_write => write_fb buf offset len
  | ramdisk_write => write_ramdisk buf offset len
  end.

(** ** Files *)

(** The entry of an open file; [fd] is asserted to be in the table. *)
Definition entry (fd : Z) : M kernel Finfo :=
  k ← get;
  if (0 <=? fd) && (fd <? Z.of_nat (length (file_table k))) then
    match file_table k !! Z.to_nat fd with Some f => mret f | None => panic end
  else panic.

Definition set_offset (fd : nat) (offset : Z) : M kernel unit :=
  modify (fun k => k <| file_table ::= alter (fun f => f <| open_offset := offset |>) fd |>).

Fixpoint find_file (pathname : list Z) (table : list Finfo) (i : nat) : option nat :=
  match table with
  | [] => None
  | f :: table => if bool_decide (pathname = name f) then Some i else find_file pathname table (S i)
  end.

Definition fs_open (pathname : list Z) : M kernel Z :=
  k ← get;
  match find_file pathname (file_table k) 0 with
  | Some i => set_offset i 0;; mret (Z.of_nat i)
  | None => mret (-1)
  end.

Definition usable_len (f : Finfo) (len : Z) : Z :=
  if size f =? 0 then len
  else if wrap 64 (open_offset f + len) <=? size f then len else wrap 64 (size f - open_offset f).

(** The [int ret] of a transfer: the new offset and the result of the call. *)
Definition advance (fd : Z) (f : Finfo) (r : Z) : M kernel Z :=
  let ret := signed 32 (wrap 32 r) in
  set_offset (Z.to_nat fd) (wrap 64 (open_offset f + ret));; mret (wrap 64 ret).

Definition fs_read (fd buf len : Z) : M kernel Z :=
  f ← entry fd; r ← call_read (read f) buf (wrap 64 (disk_offset f + open_offset f)) (usable_len f len); advance fd f r.
Definition fs_write (fd buf len : Z) : M kernel Z :=
  f ← entry fd; r ← call_write (write f) buf (wrap 64 (disk_offset f + open_offset f)) (usable_len f len); advance fd f r.

Definition fs_lseek (fd offset whence : Z) : M kernel Z :=
  f ← entry fd;
  let go target := set_offset (Z.to_nat fd) target;; mret target in
  if whence =? SEEK_SET then go offset
  else if whence =? SEEK_CUR then go (wrap 64 (open_offset f + offset))
  else if whence =? SEEK_END then go (wrap 64 (size f + offset))
  else panic.

Definition fs_close (fd : Z) : M kernel Z := entry fd;; mret 0.

(** ** The table *)

Definition devices : list Finfo :=
  [mk_file (chars "stdin") 0 0 invalid_read invalid_write 0;
   mk_file (chars "stdout") 0 0 invalid_read serial_write 0;
   mk_file (chars "stderr") 0 0 invalid_read serial_write 0;
   mk_file (chars "/dev/events") 0 0 events_read invalid_write 0;
   mk_file (chars "/proc/dispinfo") 0 0 dispinfo_read invalid_write 0;
   mk_file (chars "/dev/fb") 0 0 invalid_read fb_write 0].

(** The generated entries have a name, a size and an offset. *)
Definition regular (file : list Z * Z * Z) : Finfo :=
  let '(name, size, offset) := file in mk_file name size offset ramdisk_read ramdisk_write 0.
Definition init_fs (files : list (list Z * Z * Z)) : list Finfo :=
  alter (fun f => f <| size := wrap 64 (signed 32 (wrap 32 (screen_width * screen_height)) * 4) |>) FD_FB (devices ++ map regular files).

End Fs.
