(* ===== verification/FsSpec.v ===== *)
(** * FsSpec: the file system of the guest kernel

    The regular files of the disk behave as files with a content of fixed size and a
    cursor, as long as cursors stay inside; behind the end of a file, and in an empty
    one, they do not. *)
From Stdlib Require Import String.
From S2P Require Import Prelude Config Machine Paddr Copies Klib Fs.

(** ** Files as a program sees them *)

Record file := mk_spec_file { spec_name : list Z; content : list Z; cursor : Z }.

Definition set_cursor (c : Z) (f : file) : file := mk_spec_file (spec_name f) (content f) c.
Definition file_len (f : file) : Z := Z.of_nat (length (content f)).

(** The files and the memory of the program. *)
Definition files : Type := list file * gmap Z Z.

Inductive call :=
  | Open (path : list Z)
  | Read (fd buf len : Z)
  | Write (fd buf len : Z)
  | Lseek (fd offset whence : Z)
  | Close (fd : Z).

Definition FIRST_FILE : nat := 6.
Definition spec_file (fd : Z) (fs : list file) : option (nat * file) :=
  if fd <? 6 then None else let i := Z.to_nat (fd - 6) in pair i <$> fs !! i.

Definition target (f : file) (offset whence : Z) : option Z :=
  if whence =? SEEK_SET then Some offset
  else if whence =? SEEK_CUR then Some (wrap 64 (cursor f + offset))
  else if whence =? SEEK_END then Some (wrap 64 (file_len f + offset))
  else None.

(** Bytes [l] put at position [c]. *)
Definition splice (c : nat) (l content : list Z) : list Z := firstn c content ++ l ++ skipn (c + length l) content.

(** The calls on regular files that leave the cursor inside the file; the
    reply and the new state. *)
Definition spec_call (c : call) (s : files) : option (Z * files) :=
  let (fs, m) := s in
  match c with
  | Open path =>
      if bool_decide (path ∈ map name devices) then None
      else
        match list_find (fun f => spec_name f = path) fs with
        | Some (i, _) => Some (6 + Z.of_nat i, (alter (set_cursor 0) i fs, m))
        | None => Some (-1, s)
        end
  | Read fd buf len =>
      '(i, f) ← spec_file fd fs;
      if (0 <=? len) && (len <? 2 ^ 63) then
        let data := firstn (Z.to_nat len) (skipn (Z.to_nat (cursor f)) (content f)) in
        let n := Z.of_nat (length data) in
        Some (n, (alter (set_cursor (cursor f + n)) i fs, copy_in m buf data))
      else None
  | Write fd buf len =>
      '(i, f) ← spec_file fd fs;
      if (0 <=? len) && (len <? 2 ^ 63) then
        let n := Z.min len (file_len f - cursor f) in
        let data := copy_out m buf (Z.to_nat n) in
        Some (n, (alter (fun f => mk_spec_file (spec_name f) (splice (Z.to_nat (cursor f)) data (content f)) (cursor f + n)) i fs, m))
      else None
  | Lseek fd offset whence =>
      '(i, f) ← spec_file fd fs;
      t ← target f offset whence;
      if (0 <=? t) && (t <=? file_len f) then Some (t, (alter (set_cursor t) i fs, m)) else None
  | Close fd => '(i, f) ← spec_file fd fs; Some (0, s)
  end.

Fixpoint spec_run (cs : list call) (s : files) : option (list Z * files) :=
  match cs with
  | [] => Some ([], s)
  | c :: cs => '(r, s) ← spec_call c s; '(rs, s) ← spec_run cs s; Some (r :: rs, s)
  end.

(** ** Ranges of the disk *)

Lemma copy_out_drop d o c n : skipn c (copy_out d o n) = copy_out d (o + Z.of_nat c) (n - c).
Proof.
  revert o n. induction c as [|c IH]; intros o n; [by rewrite Z.add_0_r, Nat.sub_0_r|]. destruct n as [|n]; [done|].
  cbn [copy_out skipn]. rewrite IH. f_equal; lia.
Qed.

Lemma copy_out_take d o c n : firstn c (copy_out d o n) = copy_out d o (Nat.min c n).
Proof. revert o n. induction c as [|c IH]; intros o [|n]; [done..|]. cbn [copy_out firstn Nat.min]. by rewrite IH. Qed.

Lemma copy_out_splice d o c l n : (c + length l <= n)%nat ->
  copy_out (copy_in d (o + Z.of_nat c) l) o n = splice c l (copy_out d o n).
Proof.
  intros H. unfold splice. rewrite copy_out_take, copy_out_drop, Nat.min_l by lia.
  replace n with (c + (length l + (n - (c + length l))))%nat at 1 by lia.
  rewrite !copy_out_app, copy_out_in. f_equal; [apply copy_out_other; lia|]. f_equal.
  replace (o + Z.of_nat c + Z.of_nat (length l)) with (o + Z.of_nat (c + length l)) by lia. apply copy_out_other. lia.
Qed.

(** ** The kernel *)

Section FsSpec.
Context (RAMDISK_SIZE screen_width screen_height : Z).
Hypothesis disk_bound : RAMDISK_SIZE < 2 ^ 63.

Definition kernel_call (c : call) : M kernel Z :=
  match c with
  | Open path => fs_open path
  | Read fd buf len => fs_read RAMDISK_SIZE screen_width screen_height fd buf len
  | Write fd buf len => fs_write RAMDISK_SIZE screen_width fd buf len
  | Lseek fd offset whence => fs_lseek fd offset whence
  | Close fd => fs_close fd
  end.

Fixpoint kernel_run (cs : list call) : M kernel (list Z) :=
  match cs with [] => mret [] | c :: cs => r ← kernel_call c; rs ← kernel_run cs; mret (r :: rs) end.

Definition regular_files (k : kernel) : list Finfo := drop 6 (file_table k).

Record regular_ok (f : Finfo) : Prop := {
  reg_read : read f = ramdisk_read;
  reg_write : write f = ramdisk_write;
  reg_size : 0 < size f < 2 ^ 31;
  reg_place : 0 <= disk_offset f /\ disk_offset f + size f <= RAMDISK_SIZE;
  reg_offset : 0 <= open_offset f <= size f;
}.

Definition apart (f g : Finfo) : Prop := disk_offset f + size f <= disk_offset g \/ disk_offset g + size g <= disk_offset f.

(** The devices come first; regular files are not empty and share nothing. *)
Record kernel_wf (k : kernel) : Prop := {
  wf_devices : map name (take 6 (file_table k)) = map name devices;
  wf_regular : Forall regular_ok (regular_files k);
  wf_apart : forall i j f g, regular_files k !! i = Some f -> regular_files k !! j = Some g -> i <> j -> apart f g;
}.

Definition abs_file (d : gmap Z Z) (f : Finfo) : file :=
  mk_spec_file (name f) (copy_out d (disk_offset f) (Z.to_nat (size f))) (open_offset f).
Definition abs (k : kernel) : files := (map (abs_file (ramdisk k)) (regular_files k), user_mem k).

Lemma table_split k : kernel_wf k -> exists devs, file_table k = devs ++ regular_files k /\ length devs = 6%nat /\ map name devs = map name devices.
Proof.
  intros [D _ _]. exists (take 6 (file_table k)). split; [symmetry; apply take_drop|]. split; [|done].
  by apply (f_equal length) in D; rewrite !length_map in D.
Qed.

(** *** The cursor of one file *)

Definition at_offset (i : nat) (o : Z) (k : kernel) : kernel := k <| file_table ::= alter (fun f => f <| open_offset := o |>) (6 + i)%nat |>.

Lemma regular_alter k g i : kernel_wf k -> drop 6 (alter g (6 + i)%nat (file_table k)) = alter g i (regular_files k).
Proof.
  intros W. destruct (table_split k W) as (devs & E & L & _). rewrite E at 1. rewrite <-L, alter_app_r, drop_app_length. done.
Qed.

Lemma take_alter k (g : Finfo -> Finfo) i : kernel_wf k -> take 6 (alter g (6 + i)%nat (file_table k)) = take 6 (file_table k).
Proof.
  intros W. destruct (table_split k W) as (devs & E & L & _). rewrite E. rewrite <-L, alter_app_r, !take_app_length. done.
Qed.

Lemma at_offset_wf k i f o : kernel_wf k -> regular_files k !! i = Some f -> 0 <= o <= size f -> kernel_wf (at_offset i o k).
Proof.
  intros W Hf Ho. split.
  - change (map name (take 6 (alter (fun f => f <| open_offset := o |>) (6 + i)%nat (file_table k))) = map name devices).
    rewrite take_alter by done. apply W.
  - change (Forall regular_ok (drop 6 (alter (fun f => f <| open_offset := o |>) (6 + i)%nat (file_table k)))). rewrite regular_alter by done.
    apply Forall_lookup. intros j g Hg. rewrite list_lookup_alter in Hg. pose proof (wf_regular _ W) as R. rewrite Forall_lookup in R.
    case_decide as E; [subst j|by apply (R j)].
    rewrite Hf in Hg. injection Hg as <-. destruct (R _ _ Hf) as [A B C D E]. split; [exact A|exact B|exact C|exact D|exact Ho].
  - intros j1 j2 g1 g2. change (regular_files (at_offset i o k)) with (drop 6 (alter (fun f => f <| open_offset := o |>) (6 + i)%nat (file_table k))).
    rewrite regular_alter by done. intros H1 H2 N.
    assert (P : forall j g, alter (fun f => f <| open_offset := o |>) i (regular_files k) !! j = Some g ->
      exists g', regular_files k !! j = Some g' /\ disk_offset g' = disk_offset g /\ size g' = size g).
    { intros j g. destruct (decide (i = j)) as [->|Nj]; [rewrite list_lookup_alter_eq|rewrite list_lookup_alter_ne by done; intros Hg; by exists g].
      destruct (regular_files k !! j) as [g'|]; [|done]. intros [= <-]. by exists g'. }
    destruct (P _ _ H1) as (g1' & L1 & O1 & S1), (P _ _ H2) as (g2' & L2 & O2 & S2).
    pose proof (wf_apart _ W _ _ _ _ L1 L2 N) as A. unfold apart in *. by rewrite O1, S1, O2, S2 in A.
Qed.

Lemma abs_at_offset k i o : kernel_wf k -> abs (at_offset i o k) = (alter (set_cursor o) i (abs k).1, (abs k).2).
Proof.
  intros W. unfold abs. cbn [fst snd]. f_equal.
  change (regular_files (at_offset i o k)) with (drop 6 (alter (fun f => f <| open_offset := o |>) (6 + i)%nat (file_table k))).
  rewrite regular_alter by done. change (ramdisk (at_offset i o k)) with (ramdisk k). apply list_fmap_alter. by apply Forall_true.
Qed.

Lemma set_offset_eq i o k : set_offset (6 + i)%nat o k = (Ret tt, at_offset i o k).
Proof. done. Qed.

Lemma entry_eq k i f : kernel_wf k -> regular_files k !! i = Some f -> entry (Z.of_nat (6 + i)%nat) k = (Ret f, k).
Proof.
  intros W Hf. destruct (table_split k W) as (devs & E & L & _). unfold entry. cbn [mbind].
  assert (Ht : file_table k !! (6 + i)%nat%nat = Some f) by (rewrite E, <-L, lookup_app_r by lia; by replace (length devs + i - length devs)%nat with i by lia).
  pose proof (lookup_lt_Some _ _ _ Ht) as B. rewrite (bind_ret get _ k k k eq_refl).
  rewrite (proj2 (Z.leb_le 0 _)), (proj2 (Z.ltb_lt _ _)) by lia. cbn [andb]. by rewrite Nat2Z.id, Ht.
Qed.

Lemma spec_file_some fd k i f : spec_file fd (abs k).1 = Some (i, f) ->
  exists g, fd = Z.of_nat (6 + i)%nat /\ regular_files k !! i = Some g /\ f = abs_file (ramdisk k) g.
Proof.
  unfold spec_file. destruct (Z.ltb_spec fd 6) as [|G]; [done|]. cbn [abs fst]. rewrite list_lookup_fmap.
  destruct (regular_files k !! Z.to_nat (fd - 6)) as [g|] eqn:E; [|done]. intros [= <- <-]. exists g. split; [lia|]. by split.
Qed.

(** *** The calls *)

Lemma usable_min f len : regular_ok f -> 0 <= len < 2 ^ 63 -> usable_len f len = Z.min len (size f - open_offset f).
Proof.
  intros [_ _ S P O] H. unfold usable_len. rewrite (proj2 (Z.eqb_neq _ 0)) by lia.
  rewrite !wrap_small by (done || unfold fits; lia). destruct (Z.leb_spec (open_offset f + len) (size f)); lia.
Qed.

Lemma advance_eq i f n k : regular_ok f -> 0 <= n -> open_offset f + n <= size f ->
  advance (Z.of_nat (6 + i)%nat) f n k = (Ret n, at_offset i (open_offset f + n) k).
Proof.
  intros [_ _ S P O] N H. unfold advance. rewrite (signed_small 32) by lia. rewrite !wrap_small by (done || unfold fits; lia).
  by rewrite Nat2Z.id.
Qed.

Lemma ramdisk_place f n : regular_ok f -> 0 <= n -> open_offset f + n <= size f ->
  wrap 64 (disk_offset f + open_offset f) = disk_offset f + open_offset f /\
  in_ramdisk RAMDISK_SIZE (disk_offset f + open_offset f) n = true.
Proof.
  intros [_ _ S P O] N H. split; [apply wrap_small; [done|unfold fits; lia]|].
  unfold in_ramdisk. rewrite wrap_small by (done || unfold fits; lia). apply Z.leb_le. lia.
Qed.

Lemma fs_read_eq k i f buf len : kernel_wf k -> regular_files k !! i = Some f -> 0 <= len < 2 ^ 63 ->
  let n := Z.min len (size f - open_offset f) in
  let data := copy_out (ramdisk k) (disk_offset f + open_offset f) (Z.to_nat n) in
  fs_read RAMDISK_SIZE screen_width screen_height (Z.of_nat (6 + i)%nat) buf len k =
    (Ret n, at_offset i (open_offset f + n) (k <| user_mem ::= fun m => copy_in m buf data |>)).
Proof.
  intros W Hf H n data. pose proof (proj1 (Forall_lookup _ _) (wf_regular _ W) _ _ Hf) as R. pose proof (reg_offset _ R) as O.
  unfold fs_read. rewrite (bind_ret _ _ _ _ _ (entry_eq k i f W Hf)). rewrite (reg_read _ R), usable_min by done. fold n.
  destruct (ramdisk_place f n R) as [E I]; [lia..|]. rewrite E. cbn [call_read]. unfold read_ramdisk. rewrite I. cbn [negb].
  rewrite (bind_ret _ _ k n (k <| user_mem ::= fun m => copy_in m buf data |>) eq_refl). apply advance_eq; [done|lia..].
Qed.

Lemma fs_write_eq k i f buf len : kernel_wf k -> regular_files k !! i = Some f -> 0 <= len < 2 ^ 63 ->
  let n := Z.min len (size f - open_offset f) in
  let data := copy_out (user_mem k) buf (Z.to_nat n) in
  fs_write RAMDISK_SIZE screen_width (Z.of_nat (6 + i)%nat) buf len k =
    (Ret n, at_offset i (open_offset f + n) (k <| ramdisk ::= fun d => copy_in d (disk_offset f + open_offset f) data |>)).
Proof.
  intros W Hf H n data. pose proof (proj1 (Forall_lookup _ _) (wf_regular _ W) _ _ Hf) as R. pose proof (reg_offset _ R) as O.
  unfold fs_write. rewrite (bind_ret _ _ _ _ _ (entry_eq k i f W Hf)). rewrite (reg_write _ R), usable_min by done. fold n.
  destruct (ramdisk_place f n R) as [E I]; [lia..|]. rewrite E. cbn [call_write]. unfold write_ramdisk. rewrite I. cbn [negb].
  rewrite (bind_ret _ _ k n (k <| ramdisk ::= fun d => copy_in d (disk_offset f + open_offset f) data |>) eq_refl). apply advance_eq; [done|lia..].
Qed.

(** A write shows in its own file only. *)
Lemma write_abs k i f data : kernel_wf k -> regular_files k !! i = Some f -> open_offset f + Z.of_nat (length data) <= size f ->
  map (abs_file (copy_in (ramdisk k) (disk_offset f + open_offset f) data)) (regular_files k) =
    alter (fun f => mk_spec_file (spec_name f) (splice (Z.to_nat (cursor f)) data (content f)) (cursor f)) i (abs k).1.
Proof.
  intros W Hf H. pose proof (wf_regular _ W) as Rs. rewrite Forall_lookup in Rs. pose proof (Rs _ _ Hf) as R.
  pose proof (reg_offset _ R) as O. pose proof (reg_size _ R) as S.
  apply list_eq. intros j. rewrite list_lookup_fmap. cbn [abs fst]. destruct (decide (i = j)) as [<-|N].
  - rewrite list_lookup_alter_eq, list_lookup_fmap, Hf. cbn. f_equal. unfold abs_file. cbn [spec_name content cursor]. f_equal.
    rewrite <-copy_out_splice by lia. by rewrite Z2Nat.id by lia.
  - rewrite list_lookup_alter_ne, list_lookup_fmap by done. destruct (regular_files k !! j) as [g|] eqn:Hg; [|done]. cbn. f_equal.
    unfold abs_file. f_equal. pose proof (reg_size _ (Rs _ _ Hg)) as Sg. pose proof (wf_apart _ W _ _ _ _ Hf Hg N) as A.
    apply copy_out_other. unfold apart in A. lia.
Qed.

Lemma find_file_skip path l1 l2 i : path ∉ map name l1 -> find_file path (l1 ++ l2) i = find_file path l2 (length l1 + i).
Proof.
  revert i. induction l1 as [|f l1 IH]; intros i N; [done|]. cbn [map app find_file length] in *. apply not_elem_of_cons in N as [N1 N2].
  rewrite bool_decide_eq_false_2 by done. rewrite IH by done. f_equal. lia.
Qed.

Lemma find_file_find d path l i :
  find_file path l i = (fun p => (i + p.1)%nat) <$> list_find (fun f => spec_name f = path) (map (abs_file d) l).
Proof.
  revert i. induction l as [|f l IH]; intros i; [done|]. cbn [map find_file list_find]. case_bool_decide as E.
  - rewrite decide_True by done. cbn. f_equal. lia.
  - rewrite decide_False by (intros F; by apply E). rewrite IH. destruct (list_find _ _) as [[j g]|]; [|done]. cbn. f_equal. lia.
Qed.

(** Memory and disk may change under the table. *)
Lemma wf_table k k' : file_table k' = file_table k -> kernel_wf k -> kernel_wf k'.
Proof. intros E [D R A]. split; unfold regular_files in *; rewrite E; [exact D|exact R|exact A]. Qed.

Lemma call_refines c k r s : kernel_wf k -> spec_call c (abs k) = Some (r, s) ->
  exists k', kernel_call c k = (Ret r, k') /\ kernel_wf k' /\ abs k' = s.
Proof.
  intros W. pose proof (wf_regular _ W) as Rs. rewrite Forall_lookup in Rs.
  assert (At : forall fd i f, spec_file fd (abs k).1 = Some (i, f) ->
    exists g, fd = Z.of_nat (6 + i)%nat /\ regular_files k !! i = Some g /\ f = abs_file (ramdisk k) g /\ regular_ok g /\ file_len f = size g).
  { intros fd i f E. destruct (spec_file_some _ _ _ _ E) as (g & -> & Hg & ->). pose proof (Rs _ _ Hg) as R. exists g.
    split; [done|]. split; [done|]. split; [done|]. split; [done|]. unfold file_len. cbn [content abs_file]. rewrite copy_out_length.
    pose proof (reg_size _ R). lia. }
  destruct c as [path|fd buf len|fd buf len|fd offset whence|fd]; unfold spec_call; rewrite (surjective_pairing (abs k)); cbn [kernel_call];
    rewrite <-?surjective_pairing.
  - destruct (table_split k W) as (devs & E & L & D). case_bool_decide as N; [done|].
    assert (F : find_file path (file_table k) 0 = (fun p => (6 + p.1)%nat) <$> list_find (fun f => spec_name f = path) (abs k).1).
    { rewrite E, find_file_skip by (by rewrite D). rewrite L. apply find_file_find. }
    unfold fs_open. rewrite (bind_ret get _ k k k eq_refl), F. destruct (list_find _ (abs k).1) as [[i f]|] eqn:Fi; cbn [fmap option_fmap option_map fst].
    + intros [= <- <-]. apply list_find_Some in Fi as (Hi & _). cbn [abs fst] in Hi. rewrite list_lookup_fmap in Hi.
      destruct (regular_files k !! i) as [g|] eqn:Hg; [|done]. exists (at_offset i 0 k). split; [by rewrite Nat2Z.inj_add|].
      split; [|by apply abs_at_offset]. apply (at_offset_wf k i g); [done..|]. pose proof (reg_size _ (Rs _ _ Hg)). lia.
    + intros [= <- <-]. by exists k.
  - destruct (spec_file fd (abs k).1) as [[i f]|] eqn:E; [|done]. destruct (At _ _ _ E) as (g & -> & Hg & -> & R & Lf). cbn [mbind option_bind].
    destruct (_ && _) eqn:G; [|done]. apply andb_true_iff in G as [G1%Z.leb_le G2%Z.ltb_lt]. intros [= <- <-].
    pose proof (reg_offset _ R) as O. rewrite (fs_read_eq k i g buf len W Hg) by lia. cbn [content cursor abs_file].
    rewrite copy_out_drop, copy_out_take, copy_out_length, Z2Nat.id by lia. set (n := Z.min len (size g - open_offset g)).
    replace (Nat.min (Z.to_nat len) (Z.to_nat (size g) - Z.to_nat (open_offset g))) with (Z.to_nat n) by lia.
    rewrite Z2Nat.id by lia. eexists. split; [done|]. set (k1 := k <| user_mem ::= _ |>). assert (W1 : kernel_wf k1) by by apply (wf_table k).
    split; [apply (at_offset_wf k1 i g); [done..|lia]|]. by rewrite (abs_at_offset k1).
  - destruct (spec_file fd (abs k).1) as [[i f]|] eqn:E; [|done]. destruct (At _ _ _ E) as (g & -> & Hg & -> & R & Lf). cbn [mbind option_bind].
    destruct (_ && _) eqn:G; [|done]. apply andb_true_iff in G as [G1%Z.leb_le G2%Z.ltb_lt]. intros [= <- <-].
    pose proof (reg_offset _ R) as O. rewrite (fs_write_eq k i g buf len W Hg) by lia. rewrite Lf. cbn [cursor abs_file].
    set (n := Z.min len (size g - open_offset g)). set (data := copy_out _ buf (Z.to_nat n)).
    eexists. split; [done|]. set (k1 := k <| ramdisk ::= _ |>). assert (W1 : kernel_wf k1) by by apply (wf_table k).
    split; [apply (at_offset_wf k1 i g); [done..|lia]|]. rewrite (abs_at_offset k1) by done. unfold abs at 1 2. cbn [fst snd]. f_equal.
    change (regular_files k1) with (regular_files k). change (ramdisk k1) with (copy_in (ramdisk k) (disk_offset g + open_offset g) data).
    rewrite (write_abs k i g) by (done || (unfold data; rewrite copy_out_length; lia)). rewrite list_alter_alter_eq.
    apply list_alter_ext; [|done]. intros h Hh. cbn [abs fst] in Hh. rewrite list_lookup_fmap, Hg in Hh. injection Hh as <-. done.
  - destruct (spec_file fd (abs k).1) as [[i f]|] eqn:E; [|done]. destruct (At _ _ _ E) as (g & -> & Hg & -> & R & Lf). cbn [mbind option_bind].
    destruct (target _ _ _) as [t|] eqn:T; [|done]. cbn [mbind option_bind]. destruct (_ && _) eqn:G; [|done]. apply andb_true_iff in G as [G1%Z.leb_le G2%Z.leb_le].
    intros [= <- <-]. rewrite Lf in G2. exists (at_offset i t k). split; [|split; [by apply (at_offset_wf k i g)|by apply abs_at_offset]].
    unfold fs_lseek. rewrite (bind_ret _ _ _ _ _ (entry_eq k i g W Hg)). unfold target in T. rewrite Lf in T. cbn [cursor abs_file] in T.
    rewrite Nat2Z.id. cbn zeta.
    destruct (whence =? SEEK_SET); [by injection T as ->|]. destruct (whence =? SEEK_CUR); [by injection T as <-|].
    destruct (whence =? SEEK_END); [by injection T as <-|done].
  - destruct (spec_file fd (abs k).1) as [[i f]|] eqn:E; [|done]. destruct (At _ _ _ E) as (g & -> & Hg & -> & R & Lf). cbn [mbind option_bind].
    intros [= <- <-]. exists k. split; [|done]. unfold fs_close. by rewrite (bind_ret _ _ _ _ _ (entry_eq k i g W Hg)).
Qed.

(** C31: the disk is a set of files: whatever sequence of calls a program makes, as
    long as its cursors stay inside their files, every reply and all memory are
    those of files that have a content of their own and a cursor; no file changes
    with another one, and nothing else of the disk is reached. *)
Theorem fs_refines cs k rs s :
  kernel_wf k -> spec_run cs (abs k) = Some (rs, s) ->
  exists k', kernel_run cs k = (Ret rs, k') /\ kernel_wf k' /\ abs k' = s.
Proof.
  revert k rs s. induction cs as [|c cs IH]; intros k rs s W; cbn [spec_run kernel_run].
  - intros [= <- <-]. by exists k.
  - destruct (spec_call c (abs k)) as [[r s1]|] eqn:E; [|done]. cbn [mbind option_bind].
    destruct (call_refines c k r s1 W E) as (k1 & C & W1 & <-). destruct (spec_run cs (abs k1)) as [[rs1 s2]|] eqn:E2; [|done].
    intros [= <- <-]. destruct (IH k1 rs1 s2 W1 E2) as (k2 & C2 & W2 & A2). exists k2.
    rewrite (bind_ret _ _ _ _ _ C), (bind_ret _ _ _ _ _ C2). by split.
Qed.

(** A finding: [fs_lseek] lets a cursor pass the end of its file, and the rest of the
    file, which [fs_read] takes as its bound, is then negative and wraps: the
    assertion of the disk holds, and the read overwrites nearly the whole address
    space. *)
Theorem fs_read_behind_end k i f d buf len :
  kernel_wf k -> regular_files k !! i = Some f -> 0 < d < 2 ^ 62 -> 0 < len < 2 ^ 62 ->
  exists k1, kernel_call (Lseek (Z.of_nat (6 + i)%nat) (size f + d) SEEK_SET) k = (Ret (size f + d), k1) /\
  exists r k2, kernel_call (Read (Z.of_nat (6 + i)%nat) buf len) k1 = (Ret r, k2) /\
    user_mem k2 = copy_in (user_mem k) buf (copy_out (ramdisk k) (disk_offset f + (size f + d)) (Z.to_nat (2 ^ 64 - d))).
Proof.
  intros W Hf Hd Hl. pose proof (proj1 (Forall_lookup _ _) (wf_regular _ W) _ _ Hf) as R.
  pose proof (reg_size _ R) as S. pose proof (reg_place _ R) as P.
  exists (at_offset i (size f + d) k). cbn [kernel_call]. split.
  { unfold fs_lseek. rewrite (bind_ret _ _ _ _ _ (entry_eq k i f W Hf)). by rewrite Nat2Z.id. }
  set (k1 := at_offset i (size f + d) k). set (g := f <| open_offset := size f + d |>).
  assert (E : entry (Z.of_nat (6 + i)%nat) k1 = (Ret g, k1)).
  { unfold entry. rewrite (bind_ret get _ k1 k1 k1 eq_refl). destruct (table_split k W) as (devs & T & L & _).
    assert (L1 : file_table k1 !! (6 + i)%nat = Some g).
    { change (file_table k1) with (alter (fun h => h <| open_offset := size f + d |>) (6 + i)%nat (file_table k)).
      rewrite list_lookup_alter_eq, T, <-L, lookup_app_r by lia. replace (length devs + i - length devs)%nat with i by lia. by rewrite Hf. }
    pose proof (lookup_lt_Some _ _ _ L1) as B. rewrite (proj2 (Z.leb_le 0 _)), (proj2 (Z.ltb_lt _ _)) by lia. cbn [andb]. by rewrite Nat2Z.id, L1. }
  unfold fs_read. rewrite (bind_ret _ _ _ _ _ E). change (read g) with (read f). rewrite (reg_read _ R).
  change (disk_offset g) with (disk_offset f). change (open_offset g) with (size f + d).
  assert (U : usable_len g len = 2 ^ 64 - d).
  { unfold usable_len. change (size g) with (size f). change (open_offset g) with (size f + d). rewrite (proj2 (Z.eqb_neq _ 0)) by lia.
    rewrite wrap_small by (done || unfold fits; lia). rewrite (proj2 (Z.leb_gt _ _)) by lia. rewrite wrap_mod by done.
    replace (size f - (size f + d)) with (2 ^ 64 - d + (-1) * 2 ^ 64) by lia. rewrite Z.mod_add by done. apply Z.mod_small. lia. }
  rewrite U, wrap_small by (done || unfold fits; lia). cbn [call_read]. unfold read_ramdisk, in_ramdisk.
  replace (disk_offset f + (size f + d) + (2 ^ 64 - d)) with (disk_offset f + size f + 1 * 2 ^ 64) by lia.
  rewrite wrap_mod, Z.mod_add, Z.mod_small, (proj2 (Z.leb_le _ _)) by lia. cbn [negb].
  eexists _, _. split; reflexivity.
Qed.

End FsSpec.

(** ** Witness: two neighbours of four bytes *)

Definition two_files : kernel :=
  mk_kernel (init_fs 0 0 [(chars "a", 4, 0); (chars "b", 4, 4)]) (copy_in ∅ 0 [1; 2; 3; 4; 5; 6; 7; 8]) (copy_in ∅ 100 [11; 12; 13; 14; 15; 16]) [] [] [].

Lemma two_files_wf : kernel_wf 8 two_files.
Proof.
  split; [reflexivity| |].
  - repeat (apply Forall_cons; split; [split; (reflexivity || (vm_compute; split; (reflexivity || discriminate)))|]). by apply Forall_nil.
  - intros [|[|i]] [|[|j]] f g; try done; intros [= <-] [= <-] N; try done; [left|right]; vm_compute; discriminate.
Qed.

(** A write of six bytes to the second byte of [a] stops at its end; [b] is as before. *)
Definition session : list call :=
  [Open (chars "a"); Lseek 6 1 SEEK_SET; Write 6 100 6; Lseek 6 0 SEEK_SET; Read 6 200 10; Open (chars "b"); Read 7 300 4; Close 7].

Lemma fs_refines_witness :
  exists k', kernel_run 8 0 0 session two_files = (Ret [6; 1; 3; 0; 4; 7; 4; 0], k') /\ kernel_wf 8 k' /\
    copy_out (user_mem k') 200 4 = [1; 11; 12; 13] /\ copy_out (user_mem k') 300 4 = [5; 6; 7; 8].
Proof.
  destruct (fs_refines 8 0 0 ltac:(lia) session two_files [6; 1; 3; 0; 4; 7; 4; 0]
    (snd (default ([], ([], ∅)) (spec_run session (abs two_files)))) two_files_wf ltac:(vm_compute; reflexivity)) as (k' & E & W & A).
  exists k'. split; [exact E|]. split; [exact W|].
  assert (M : user_mem k' = (snd (snd (default ([], ([], ∅)) (spec_run session (abs two_files)))))) by (rewrite <-A; reflexivity).
  rewrite M. split; vm_compute; reflexivity.
Defined.
